(* ===== verification/_CoqProject ===== *)
-Q . S2P
Prelude.v
MessageQueue.v
Generate.v
Connectivity.v
Picker.v
Balancer.v
Resolver.v
BalancerText.v
Discovery.v
Retry.v
GrpcClient.v
ClientLife.v
Health.v
HealthRemote.v
Store.v
StoreHandles.v
KVServers.v
ServerMain.v
GrpcRemote.v
GrpcStream.v
GrpcPath.v
GrpcStubs.v
ThriftProtocol.v
TokenProtocol.v
ThriftRpc.v
ThriftFuel.v
ThriftText.v
ThriftService.v
ThriftRemote.v
ThriftTypes.v
KvFlags.v
KvRemote.v
LoadClient.v
Pool.v
ThriftCalls.v
ThriftPath.v
ThriftNode.v
NodeClose.v
NodeChoose.v
LoadMain.v
