(* ===== verification/Prelude.v ===== *)
(** * grpcvsthrift: a verification development

    The repository compares a grpc and a thrift key-value service over one RocksDB
    store.  This library models its Go code, the messages and processors generated for
    thrift included, and proves what makes each part correct, or where it is not,
    exactly what it does instead.

    ** The program and how its parts interact

    A grpc client ([grpc/client/client.go], [config.go]) registers a group with the
    endpoint resolver ([balancer/resolver]), dials a target of that group and lets
    grpc build a resolver for it.  The resolver hands the group's addresses to the
    load balancer ([balancer/balancer.go]), which keeps a sub-connection per
    address, aggregates their states ([balancer/connectivity]) and publishes a
    picker ([balancer/picker]); each request asks the picker for a sub-connection.
    The interceptors of [retry.go] retry calls with the client's backoff.  On the
    other side [grpc/server] answers from the store ([rocksdbstore]) and serves
    the health service ([grpc/server/api/health.go]).  A thrift client
    ([thrift/client]) keeps a node with one connection per server, each with a
    pool ([thrift/client/pool]) and a client for pings.  A call of a pooled client is
    written and read by [thrift/rpc] on both sides, whose processor hands it to
    [thrift/server], which answers from the same kind of store.  The load generators
    of [test] run goroutines over the queues of [internal/messagequeue] and the random
    keys of [internal/generate], and call the servers through these clients.

    ** The files

    - [Prelude]: Go outcomes ([outcome]: a value or a panic) and results, machine
      integers with their wrap-around, list lemmas, and the class [GoRange] of
      iteration orders of a Go map.
    - [MessageQueue]: [queue.go] and [thriftqueue.go].  The two buffers are lists,
      a returned slice is a view into one of them, so reuse is visible.
    - [Generate]: [generate.go]; the random device is a function of the world, the largest
      buffer of the runtime a number.
    - [Connectivity]: the recorder of [connectivity.go], its [uint64] counters included.
    - [Picker]: [picker.go] and [roundrobin.go]; [Pick] returns the picker's new state.
    - [Balancer]: [baseBalancer] and its handlers, over the interface [ClientConn]
      (a class), composed from [Connectivity] and [Picker]; runs are a step relation.
    - [Resolver]: the package state of [resolver.go] as a registry and heaps; the
      [NewAddress] calls are a log; targets and endpoints are parsed as the code does.
    - [BalancerText]: the helpers at the end of [balancer.go]: texts and names.
    - [Discovery]: [Resolver] and [Balancer] as one system: what the registry announces
      is what the balancer resolves, and requests pick from it.
    - [Retry]: [retry.go] over the class [RpcErrors] of the observers of an error,
      with the events each call makes.
    - [GrpcClient]: [client.go] and [config.go], on top of [Resolver], [Retry] and [Picker];
      [ClientLife]: a client from its construction on, with [Discovery] behind it.
    - [Health]: [health.go]: the server state, the one-slot channels and the [Watch]
      goroutines as a step relation; [HealthRemote]: the stubs of [health.pb.go] and the
      clients that watch, with the network (the class [WatchNet]) in between.
    - [Store]: [store.go] over the class [RocksDB], whose laws are in [RocksDBLaws];
      [StoreHandles]: the calls by which it makes, uses and destroys the objects of
      gorocksdb, from opening to closing, with snapshots and iterators; it erases to [Store].
    - [KVServers]: the handlers of [grpc/server] and [thrift/server] over [Store],
      and the start of the grpc server over [Health].
    - [ServerMain]: the two server processes of [test], from their start to their end.
    - [GrpcRemote]: the stubs of [rpc.pb.go] on both sides: a call goes from [kVClient]
      through the interceptor of [Retry] and the class [Transport] of what grpc carries
      to the handlers of [KVServers].  [GrpcStream]: the same for the client stream of
      puts, with the loop of the load generator that uses it.  [GrpcPath]: a session of
      calls of one client.  [GrpcStubs]: the rest of the generated code, and the server's
      side of the stream.
    - [ThriftProtocol]: the interface of a thrift protocol as a class with its laws, the
      field loops every generated struct shares, and the class of a struct whose code
      reads and writes it ([Codec], [CodecLaws]).  [TokenProtocol] is a protocol that
      keeps those laws, for the concrete runs.
    - [ThriftRpc]: the structs of [rpc.go] with their readers and writers; [ThriftFuel]: the
      fuel that is enough for the readers of requests and results; [ThriftText]:
      their getters and their text; [ThriftTypes]: the types of [rpc.thrift].
    - [ThriftService]: [KVClient] and [KVProcessor] of [rpc.go], against the interface
      [KV] of a handler; [ThriftRemote] makes the handlers of [KVServers] one.
    - [KvFlags] and [KvRemote]: the program [k_v-remote]: its command line, and its [main]
      as a process with two outputs, a connection and an end, over [ThriftService].
    - [LoadClient]: the goroutines of the two programs under [test] as step relations
      over [MessageQueue]; [LoadMain]: their [main] around them, with the counters and what
      is printed; [ThriftCalls]: the calls of the thrift one over [Pool]; [ThriftPath]:
      these calls down to the store, through [Pool], [ThriftService] and [ThriftRemote],
      those that a deadline leaves behind included.
    - [Pool]: [pool.go], its operations split at their critical sections.
    - [ThriftNode]: [dial.go], [conn.go] and [client.go] of [thrift/client], over [Pool];
      [NodeClose]: the checking goroutine, [Close] and the users of a node as interleaved
      steps; [NodeChoose]: the choice of a connection in every state they reach.

    Each definition that translates code is preceded by the file and lines it
    translates; it keeps the name the code has, with a prefix where two parts
    share a name.

    ** What the theorems show

    - Queues: they refine a bounded drain-all FIFO; no request is lost, duplicated
      or reordered; a returned batch is stable until the second [Get] after it and
      is overwritten afterwards.
    - Keys: the rejection sampling returns exactly the first bytes below the largest
      multiple of the modulus, favours no letter, always makes 20 letters, and never
      returns for length 0; it panics where its blocks cannot be made.
    - Balancing: the recorder reports the documented aggregate; the round-robin
      picker is fair; the published picker hands out only ready sub-connections
      and errs with the right error otherwise; both handlers do exactly what the
      update asks for.
    - Resolving: a resolver's last addresses are its group's endpoints when operations
      run one after another; two races inside operations break that; parsing
      inverts building a target; closing a resolver silences it unless its group
      was closed first.  With the balancer: a request goes to a ready sub-connection of an
      endpoint the group has now, or of one already asked to be removed; so the requests of
      a client go to the endpoints its caller gave last.
    - Retrying: attempts are bounded, each one justified by the error before it, and
      the answer is the last attempt's; what the default policy resends; a
      retried stream is re-sent exactly the buffered messages and never after
      something was received.
    - The grpc client: every outcome of its construction; the configuration never
      reaches the connection; the backoff and the interceptors it installs.
    - Health: a watching client, over grpc, is brought to the current status and never told
      the same twice in a row; setting a status never blocks; shutdown holds until resume.
    - Store and servers: what is written is read, at 64 bits the applied index is
      exact; closing excludes lookups and not writes; both servers agree; a batch
      is its puts, all or nothing; a broken stream is committed like an ended one.
      Opening, using and closing a store gives no call an object destroyed before; which
      objects no call destroys.  The thrift process closes its store after the last call if
      the library's [Stop] waits, and its status tells whether [Serve] failed; the grpc
      process never closes its.
    - Calls over grpc: whatever the network loses, a [Put] is made at most as often as it
      is tried and at least once if it succeeds, a [Get] answers a value its key held
      during the call, and a stream writes one prefix of what it accepted or nothing;
      a retried [Put] can undo the later one of another client.  Where nobody else puts a
      key, a client reads its own last put, or one that failed since.
    - Messages: every struct reads back what it wrote, and what it reads of any other
      well-formed struct, unknown, mistyped and repeated fields included.  The
      processor relays each call to the handler, and a client's call over a working
      connection is the handler's; so the store is written and read over the wire, and calls
      through the pool are a map, but for a write that met its deadline, which lands later.
      A message without its request panics the handler.  The code writes only values of
      the types of [rpc.thrift] and reads every one of them.
    - The remote tool: every set of flags can be given and is read as it was meant; the
      tool makes the call named and prints the handler's answer; every way it can end, and
      why; which printed answers are ambiguous.
    - Load generators: the grpc program can always end, the thrift one cannot; what the
      numbers they print count; each accepted request is handed out once, but a full queue
      drops one, and a batch can change while it is sent.  A pooled client serves one call
      at a time until a call meets its deadline.
    - Pool and node: the count is the number of connections until the first release,
      no connection is lent twice, and the exact excess under concurrency; idle
      connections time out; a ping touches only its client; a failed check ends
      the process, so until then and until it is closed a node has every server up and
      chooses among all; what choosing answers in between.  Closing a node waits for a goroutine that has begun, but what it does to a check
      under way can panic, end the process or leave a client open.

    ** Fuel, bounds and assumptions

    [Generate.randomBytesMod] takes fuel, one unit per block read; it is enough
    exactly when the blocks read contain the bytes asked for, which is what its
    theorem states.  The readers of [ThriftRpc], and so the tool of [KvRemote], take as
    fuel a bound on the fields they read; their theorems hold for any fuel that is at least
    the number of tokens of the value on the wire, and whatever is read [ThriftFuel] shows
    that they end with more fuel than there is left to read.  Running out of fuel is an
    outcome of its own ([OutOfFuel], [Stuck]), and the theorem on how the tool ends says
    when it can happen.  The retry loops recurse on the attempts left, so no fuel
    is chosen.  All other recursion is structural.  Lengths of Go slices and maps fit
    an [int]; where that matters it is a hypothesis ([maxInt64]).

    Grpc, etcd's error types, RocksDB, the thrift library, [net], [url.Parse], the
    clock and random numbers are parameters; the laws a theorem needs of them are
    named next to it, and the witnesses at the end of each file instantiate them.

    ** What is not modelled

    The messages of [grpc/rpcpb] are encoded by the protobuf library, and their descriptors are
    its data.  Of the load generators
    under [test] the percentiles they print are left out; of [rpc-consts.go] and [app.go]
    there is nothing to model.  The exchanges of a [KVClient] on one
    connection do not overlap; that two calls can share one is shown, what the protocol
    makes of their mixed frames is not modelled.  What gorocksdb does with the objects it
    is given is not modelled.
    Logging is left out. *)
From stdpp Require Export base tactics numbers list gmap strings fin_maps option relations pretty.
From Stdlib Require Export Lia Ascii.

#[global] Set Default Proof Using "Type".

(** ** Outcomes of a Go call

    A Go function that may abort the goroutine with a run-time panic returns an
    [outcome]; an [(T, error)] pair is a [result]. *)
Inductive outcome (A : Type) : Type :=
| Ret (a : A)
| Panic.
Arguments Ret {A} a.
Arguments Panic {A}.

Inductive result (E A : Type) : Type :=
| Ok (a : A)
| Err (e : E).
Arguments Ok {E A} a.
Arguments Err {E A} e.

#[global] Instance outcome_eq_dec A `{EqDecision A} : EqDecision (outcome A).
Proof. solve_decision. Defined.
#[global] Instance result_eq_dec E A `{EqDecision E} `{EqDecision A} : EqDecision (result E A).
Proof. solve_decision. Defined.

#[global] Instance outcome_ret : MRet outcome := fun A a => Ret a.
#[global] Instance outcome_bind : MBind outcome := fun A B f m =>
  match m with Ret a => f a | Panic => Panic end.

#[global] Instance outcome_fmap : FMap outcome := fun A B f m =>
  match m with Ret a => Ret (f a) | Panic => Panic end.

Lemma outcome_bind_Ret {A B} (f : A -> outcome B) m b :
  m ≫= f = Ret b <-> exists a, m = Ret a /\ f a = Ret b.
Proof.
  destruct m as [a|]; simpl; split.
  - intros H. by exists a.
  - intros (a' & [= ->] & H). exact H.
  - discriminate.
  - intros (a' & ? & ?). discriminate.
Qed.

Definition is_Ret {A} (m : outcome A) : bool :=
  match m with Ret _ => true | Panic => false end.

(** ** Machine integers

    A [w]-bit integer is a [Z]; the arithmetic of the code wraps around. *)
Definition u64 (z : Z) : Z := z `mod` 2 ^ 64.
Definition u32 (z : Z) : Z := z `mod` 2 ^ 32.
Definition i64 (z : Z) : Z := (z + 2 ^ 63) `mod` 2 ^ 64 - 2 ^ 63.
Definition i32 (z : Z) : Z := (z + 2 ^ 31) `mod` 2 ^ 32 - 2 ^ 31.

Definition maxInt64 : Z := 2 ^ 63 - 1.

Lemma u64_small z : (0 <= z < 2 ^ 64)%Z -> u64 z = z.
Proof. intros. unfold u64. by apply Z.mod_small. Qed.
Lemma u32_small z : (0 <= z < 2 ^ 32)%Z -> u32 z = z.
Proof. intros. unfold u32. by apply Z.mod_small. Qed.
Lemma i32_small z : (- 2 ^ 31 <= z < 2 ^ 31)%Z -> i32 z = z.
Proof. intros. unfold i32. rewrite Z.mod_small; lia. Qed.
Lemma i64_small z : (- 2 ^ 63 <= z < 2 ^ 63)%Z -> i64 z = z.
Proof. intros. unfold i64. rewrite Z.mod_small; lia. Qed.
Lemma u64_add_l a b : u64 (u64 a + b) = u64 (a + b).
Proof. unfold u64. by rewrite Zplus_mod_idemp_l. Qed.
Lemma u64_add_r a b : u64 (a + u64 b) = u64 (a + b).
Proof. unfold u64. by rewrite Zplus_mod_idemp_r. Qed.

Lemma i32_shift x d : i32 (i32 x + d) = i32 (x + d).
Proof.
  unfold i32. f_equal.
  replace ((x + 2 ^ 31) `mod` 2 ^ 32 - 2 ^ 31 + d + 2 ^ 31)%Z with ((x + 2 ^ 31) `mod` 2 ^ 32 + d)%Z by lia.
  rewrite Zplus_mod_idemp_l. f_equal. lia.
Qed.

(** Drops the wrap-around where the value is in range. *)
Create Rewrite HintDb go_ints.
#[export] Hint Rewrite u64_small u32_small i32_small i64_small using lia : go_ints.

Ltac no_wrap := autorewrite with go_ints.

(** ** Lists *)
Lemma filter_none {A} (P : A -> Prop) `{!forall x, Decision (P x)} (l : list A) :
  (forall x, x ∈ l -> ~ P x) -> filter P l = [].
Proof.
  induction l as [|x l IH]; intros Hl; [done|].
  rewrite filter_cons, decide_False by (apply Hl; left). apply IH. intros y Hy. apply Hl. by right.
Qed.

Lemma filter_every {A} (P : A -> Prop) `{!forall x, Decision (P x)} (l : list A) :
  (forall x, x ∈ l -> P x) -> filter P l = l.
Proof.
  induction l as [|x l IH]; intros Hl; [done|].
  rewrite filter_cons, decide_True by (apply Hl; left). f_equal. apply IH. intros y Hy. apply Hl. by right.
Qed.

Lemma filter_fmap {A B} (f : A -> B) (P : B -> Prop) `{!forall x, Decision (P x)} (l : list A) :
  filter P (f <$> l) = f <$> filter (fun x => P (f x)) l.
Proof.
  induction l as [|x l IH]; [done|]. rewrite fmap_cons, !filter_cons.
  by destruct (decide (P (f x))); rewrite IH.
Qed.

Lemma NoDup_of_submseteq {A} (l k : list A) : l ⊆+ k -> NoDup k -> NoDup l.
Proof. intros (k' & ->)%submseteq_Permutation Hk. by apply NoDup_app in Hk as [? _]. Qed.

Lemma middle_submseteq {A} (i l1 l2 : list A) x : i ++ l1 ++ l2 ⊆+ i ++ l1 ++ x :: l2.
Proof. apply submseteq_skips_l, submseteq_skips_l. by apply submseteq_cons. Qed.

(** ** Strings *)
Fixpoint all_chars (p : ascii -> bool) (s : string) : bool :=
  match s with EmptyString => true | String c s => p c && all_chars p s end.
Definition not_char (c : ascii) (d : ascii) : bool := negb (bool_decide (d = c)).
(** [strings.IndexByte(s, c) >= 0] *)
Definition has_char (c : ascii) (s : string) : bool := negb (all_chars (not_char c) s).

Lemma all_chars_app p s t : all_chars p (s +:+ t) = all_chars p s && all_chars p t.
Proof. induction s as [|c s IH]; [done|]. simpl. by rewrite IH, andb_assoc. Qed.

Lemma string_app_cons c s t : String c s +:+ t = String c (s +:+ t).
Proof. done. Qed.
Lemma string_app_nil_r s : s +:+ "" = s.
Proof. induction s as [|c s IH]; [done|]. by rewrite string_app_cons, IH. Qed.
Lemma string_app_assoc s t u : (s +:+ t) +:+ u = s +:+ t +:+ u.
Proof. induction s as [|c s IH]; [done|]. by rewrite !string_app_cons, IH. Qed.

Lemma string_length_app s t : String.length (s +:+ t) = String.length s + String.length t.
Proof. induction s as [|c s IH]; [done|]. simpl. by rewrite IH. Qed.

Lemma string_app_inv_r s1 s2 t : s1 +:+ t = s2 +:+ t -> s1 = s2.
Proof.
  revert s2. induction s1 as [|c s1 IH]; intros [|d s2] H; [done|..].
  - apply (f_equal String.length) in H. rewrite !string_length_app in H. simpl in H. lia.
  - apply (f_equal String.length) in H. rewrite !string_length_app in H. simpl in H. lia.
  - injection H as -> H. by rewrite (IH s2 H).
Qed.

Lemma string_snoc_inv s1 s2 c d : s1 +:+ String c "" = s2 +:+ String d "" -> s1 = s2 /\ c = d.
Proof.
  revert s2. induction s1 as [|x s1 IH]; intros [|y s2] H.
  - by injection H as ->.
  - injection H as _ H. by destruct s2.
  - injection H as _ H. by destruct s1.
  - injection H as -> H. by destruct (IH s2 H) as [-> ->].
Qed.

(** A text is cut at the first [c] in one way. *)
Lemma cut_at c s1 s2 t1 t2 :
  all_chars (not_char c) s1 = true -> all_chars (not_char c) s2 = true ->
  s1 +:+ String c t1 = s2 +:+ String c t2 -> s1 = s2 /\ t1 = t2.
Proof.
  assert (Hc : not_char c c = false) by (unfold not_char; by rewrite bool_decide_true).
  revert s2. induction s1 as [|d s1 IH]; intros [|d' s2] H1 H2 H.
  - by injection H as ->.
  - injection H as -> _. simpl in H2. by rewrite Hc in H2.
  - injection H as <- _. simpl in H1. by rewrite Hc in H1.
  - injection H as -> H. simpl in H1, H2. apply andb_true_iff in H1 as [_ H1], H2 as [_ H2].
    by destruct (IH s2 H1 H2 H) as [-> ->].
Qed.

(** [fmt.Sprint] of a boolean. *)
Definition fmt_bool (b : bool) : string := if b then "true" else "false".

(** The decimal digits of a number. *)
Lemma pretty_N_go_chars p x s :
  (forall n, p (pretty_N_char n) = true) -> all_chars p s = true -> all_chars p (pretty_N_go x s) = true.
Proof.
  intros Hp. revert s. induction (N.lt_wf_0 x) as [x _ IH]; intros s Hs.
  destruct (decide (0 < x)%N) as [Hx|Hx]; [|by replace x with 0%N by lia].
  rewrite pretty_N_go_step by done. apply IH; [by apply N.div_lt|]. simpl. by rewrite Hp.
Qed.
Lemma pretty_N_chars p (n : N) : (forall n, p (pretty_N_char n) = true) -> all_chars p (pretty n) = true.
Proof.
  intros Hp. unfold pretty, pretty_N. case_decide; [|by apply pretty_N_go_chars].
  simpl. specialize (Hp 0%N). simpl in Hp. by rewrite Hp.
Qed.
Lemma pretty_Z_chars p (z : Z) :
  p "-"%char = true -> (forall n, p (pretty_N_char n) = true) -> all_chars p (pretty z) = true.
Proof.
  intros Hm Hp. assert (Hpos : forall x, all_chars p (pretty (N.pos x)) = true) by (intros x; by apply pretty_N_chars).
  destruct z as [|x|x]; [|by apply Hpos|].
  - specialize (Hp 0%N). simpl in Hp. simpl. by rewrite Hp.
  - change (p "-"%char && all_chars p (pretty (N.pos x)) = true). by rewrite Hm, Hpos.
Qed.

(** ** Iterating over a Go map

    [range m] visits every entry of a map once, in an order the language leaves
    open; a model takes the order as an instance of this class, and the theorems
    hold for every instance. *)
Class GoRange : Type := {
  go_range : forall {K V : Type} `{Countable K}, gmap K V -> list (K * V);
  go_range_perm : forall {K V : Type} `{Countable K} (m : gmap K V), go_range m ≡ₚ map_to_list m
}.

Definition range_in_key_order : GoRange :=
  {| go_range := fun K V _ _ m => map_to_list m; go_range_perm := fun K V _ _ m => Permutation_refl _ |}.

Lemma elem_of_go_range `{GoRange} `{Countable K} {V} (m : gmap K V) k v :
  (k, v) ∈ go_range m <-> m !! k = Some v.
Proof. by rewrite go_range_perm, elem_of_map_to_list. Qed.

Lemma NoDup_fst_go_range `{GoRange} `{Countable K} {V} (m : gmap K V) : NoDup (go_range m).*1.
Proof. rewrite go_range_perm. apply NoDup_fst_map_to_list. Qed.

#[export] Hint Resolve NoDup_fst_go_range : core.
