(* ===== verification/MessageQueue.v ===== *)
(** * internal/messagequeue: the double-buffered request queue

    [EntryQueue] (queue.go) and [ThriftEntryQueue] (thriftqueue.go) are one
    program text at two element types; the section is polymorphic in the struct
    the queue points to.  A [*PutRequest] is an [option A], [nil] being [None].
    Both buffers live in the queue's record, and the slice [Get] hands out is a
    view (which buffer, how long) of that store: what it shows changes when the
    buffer is written again.  Every method runs under [q.mu], so it is one step. *)
From S2P Require Import Prelude.

Section EntryQueue.
Context {A : Type}.

#[local] Abbreviation ptr := (option A).

(* src/internal/messagequeue/queue.go:8-16 EntryQueue *)
Record EntryQueue : Type := mkEntryQueue {
  q_size : Z;
  q_left : list (option A);
  q_right : list (option A);
  q_leftInWrite : bool;
  q_stopped : bool;
  q_idx : Z
}.

(** The slice [t[:sz]] of one of the two buffers. *)
Record Slice : Type := mkSlice { s_left : bool; s_len : Z }.

(** What a reader of the slice sees in the present store. *)
Definition read_slice (q : EntryQueue) (s : Slice) : list ptr :=
  take (Z.to_nat (s_len s)) (if s_left s then q_left q else q_right q).

(** [make([]*PutRequest, size)]: [size] nil pointers, a run-time panic when the
    length does not fit an [int]. *)
Definition make_ptrs (n : Z) : outcome (list ptr) :=
  if (n <=? maxInt64)%Z then Ret (replicate (Z.to_nat n) None) else Panic.

(* src/internal/messagequeue/queue.go:18-25 NewEntryQueue *)
Definition NewEntryQueue (size : Z) : outcome EntryQueue :=
  left ← make_ptrs size;
  right ← make_ptrs size;
  Ret {| q_size := size; q_left := left; q_right := right;
         q_leftInWrite := false; q_stopped := false; q_idx := 0 |}.

(* src/internal/messagequeue/queue.go:27-31 EntryQueue.Close *)
Definition EntryQueue_Close (q : EntryQueue) : EntryQueue :=
  {| q_size := q_size q; q_left := q_left q; q_right := q_right q;
     q_leftInWrite := q_leftInWrite q; q_stopped := true; q_idx := q_idx q |}.

(* src/internal/messagequeue/queue.go:33-41 EntryQueue.targetQueue *)
Definition EntryQueue_targetQueue (q : EntryQueue) : list ptr :=
  if q_leftInWrite q then q_left q else q_right q.

(** [w[q.idx] = ent] on the target buffer, in the store. *)
Definition set_target (q : EntryQueue) (w : list ptr) : EntryQueue :=
  {| q_size := q_size q;
     q_left := if q_leftInWrite q then w else q_left q;
     q_right := if q_leftInWrite q then q_right q else w;
     q_leftInWrite := q_leftInWrite q; q_stopped := q_stopped q; q_idx := q_idx q |}.

Definition set_idx (q : EntryQueue) (i : Z) : EntryQueue :=
  {| q_size := q_size q; q_left := q_left q; q_right := q_right q;
     q_leftInWrite := q_leftInWrite q; q_stopped := q_stopped q; q_idx := i |}.

(** [w[i] = e]: an index out of range panics. *)
Definition store_index (w : list ptr) (i : Z) (e : ptr) : outcome (list ptr) :=
  if (i <? Z.of_nat (length w))%Z then Ret (<[Z.to_nat i := e]> w) else Panic.

(* src/internal/messagequeue/queue.go:43-58 EntryQueue.Add *)
Definition EntryQueue_Add (q : EntryQueue) (ent : ptr) : outcome (EntryQueue * (bool * bool)) :=
  if (q_size q <=? q_idx q)%Z then Ret (q, (false, q_stopped q))
  else if q_stopped q then Ret (q, (false, true))
  else
    w ← store_index (EntryQueue_targetQueue q) (q_idx q) ent;
    let q := set_target q w in
    Ret (set_idx q (u64 (q_idx q + 1)), (true, false)).

(* src/internal/messagequeue/queue.go:60-68 EntryQueue.Get *)
Definition EntryQueue_Get (q : EntryQueue) : outcome (EntryQueue * Slice) :=
  let sz := q_idx q in
  let t := EntryQueue_targetQueue q in
  if (sz <=? Z.of_nat (length t))%Z then
    Ret ({| q_size := q_size q; q_left := q_left q; q_right := q_right q;
            q_leftInWrite := negb (q_leftInWrite q);
            q_stopped := q_stopped q; q_idx := 0 |},
         {| s_left := q_leftInWrite q; s_len := sz |})
  else Panic.

(** ** Runs of the queue *)
Inductive op : Type := OAdd (e : ptr) | OGet | OClose.
Inductive reply : Type := RAdd (added stopped : bool) | RGet (batch : list ptr) | RClose.

(** One call; a batch is recorded as it reads when [Get] returns. *)
Definition exec (q : EntryQueue) (o : op) : outcome (EntryQueue * reply) :=
  match o with
  | OAdd e => '(q', (a, st)) ← EntryQueue_Add q e; Ret (q', RAdd a st)
  | OGet => '(q', s) ← EntryQueue_Get q; Ret (q', RGet (read_slice q' s))
  | OClose => Ret (EntryQueue_Close q, RClose)
  end.

Fixpoint run (q : EntryQueue) (os : list op) : outcome (EntryQueue * list reply) :=
  match os with
  | [] => Ret (q, [])
  | o :: os => '(q1, r) ← exec q o; '(q2, rs) ← run q1 os; Ret (q2, r :: rs)
  end.

(** ** Specification: a bounded FIFO that is drained as a whole *)
Record spec_queue : Type := mkSpec { sp_cap : Z; sp_pending : list ptr; sp_stopped : bool }.

Definition spec_exec (s : spec_queue) (o : op) : spec_queue * reply :=
  match o with
  | OAdd e =>
      if decide (Z.of_nat (length (sp_pending s)) < sp_cap s)%Z then
        if sp_stopped s then (s, RAdd false true)
        else (mkSpec (sp_cap s) (sp_pending s ++ [e]) false, RAdd true false)
      else (s, RAdd false (sp_stopped s))
  | OGet => (mkSpec (sp_cap s) [] (sp_stopped s), RGet (sp_pending s))
  | OClose => (mkSpec (sp_cap s) (sp_pending s) true, RClose)
  end.

Fixpoint spec_run (s : spec_queue) (os : list op) : spec_queue * list reply :=
  match os with
  | [] => (s, [])
  | o :: os => let '(s1, r) := spec_exec s o in
               let '(s2, rs) := spec_run s1 os in (s2, r :: rs)
  end.

(** The well-formedness the methods maintain, and the abstraction function. *)
Record wf (q : EntryQueue) : Prop := {
  wf_left : Z.of_nat (length (q_left q)) = q_size q;
  wf_right : Z.of_nat (length (q_right q)) = q_size q;
  wf_size : (q_size q <= maxInt64)%Z;
  wf_idx : (0 <= q_idx q <= q_size q)%Z
}.

Definition abs (q : EntryQueue) : spec_queue :=
  mkSpec (q_size q) (take (Z.to_nat (q_idx q)) (EntryQueue_targetQueue q)) (q_stopped q).

(** What was accepted and what was handed out, read off the calls and replies. *)
Fixpoint accepted (os : list op) (rs : list reply) : list ptr :=
  match os, rs with
  | OAdd e :: os, RAdd true _ :: rs => e :: accepted os rs
  | _ :: os, _ :: rs => accepted os rs
  | _, _ => []
  end.

Fixpoint delivered (rs : list reply) : list ptr :=
  match rs with
  | RGet b :: rs => b ++ delivered rs
  | _ :: rs => delivered rs
  | [] => []
  end.

Definition is_get (o : op) : bool := match o with OGet => true | _ => false end.

(** ** Lemmas *)
Lemma wf_target q : wf q -> Z.of_nat (length (EntryQueue_targetQueue q)) = q_size q.
Proof. intros []. unfold EntryQueue_targetQueue. by destruct (q_leftInWrite q). Qed.

Lemma abs_length q : wf q -> Z.of_nat (length (sp_pending (abs q))) = q_idx q.
Proof.
  intros Hwf. pose proof (wf_target q Hwf). destruct Hwf as [? ? ? ?]. simpl.
  rewrite length_take. lia.
Qed.

Lemma NewEntryQueue_wf size :
  (0 <= size <= maxInt64)%Z ->
  exists q, NewEntryQueue size = Ret q /\ wf q /\ abs q = mkSpec size [] false.
Proof.
  intros [? ?]. unfold NewEntryQueue, make_ptrs.
  destruct (Z.leb_spec size maxInt64); [|lia]. simpl.
  eexists. split; [done|]. split; [|done].
  split; simpl; rewrite ?length_replicate; lia.
Qed.

Lemma set_target_target q w : EntryQueue_targetQueue (set_target q w) = w.
Proof. unfold EntryQueue_targetQueue, set_target. simpl. by destruct (q_leftInWrite q). Qed.

(** The write of [Add] is in range and appends to the pending requests. *)
Lemma store_target q e :
  wf q -> (q_idx q < q_size q)%Z ->
  exists w, store_index (EntryQueue_targetQueue q) (q_idx q) e = Ret w /\
    length w = length (EntryQueue_targetQueue q) /\
    take (Z.to_nat (q_idx q + 1)) w =
    take (Z.to_nat (q_idx q)) (EntryQueue_targetQueue q) ++ [e].
Proof.
  intros Hwf Hlt. pose proof (wf_target q Hwf) as Ht. destruct Hwf as [? ? ? ?].
  unfold store_index. destruct (Z.ltb_spec (q_idx q) (Z.of_nat (length (EntryQueue_targetQueue q)))); [|lia].
  eexists. split; [done|]. split; [apply length_insert|].
  rewrite Z2Nat.inj_add by lia. replace (Z.to_nat (q_idx q) + Z.to_nat 1)%nat with (S (Z.to_nat (q_idx q))) by lia.
  rewrite (take_S_r _ _ e) by (apply list_lookup_insert_eq; lia).
  by rewrite take_insert_ge by lia.
Qed.

Lemma set_target_wf q w i :
  wf q -> length w = length (EntryQueue_targetQueue q) -> (0 <= i <= q_size q)%Z ->
  wf (set_idx (set_target q w) i).
Proof.
  intros Hwf Hw Hi. pose proof (wf_target q Hwf). destruct Hwf as [? ? ? ?].
  split; simpl; try destruct (q_leftInWrite q); lia.
Qed.

(** One call of the implementation is the same call of the specification. *)
Lemma exec_refines q o :
  wf q -> exists q' r, exec q o = Ret (q', r) /\ wf q' /\ spec_exec (abs q) o = (abs q', r).
Proof.
  intros Hwf. pose proof (abs_length q Hwf) as Hlen. pose proof (wf_target q Hwf) as Ht.
  destruct o as [e| |]; simpl.
  - unfold EntryQueue_Add. simpl in Hlen. rewrite Hlen.
    destruct (Z.leb_spec (q_size q) (q_idx q)).
    { rewrite decide_False by lia. by eexists _, _. }
    rewrite decide_True by lia. destruct (q_stopped q) eqn:Hst; [by eexists _, _|].
    destruct (store_target q e Hwf) as (w & -> & Hw & Htake); [lia|]. simpl.
    destruct Hwf as [? ? ? ?].
    eexists _, _. split; [done|]. unfold maxInt64 in *.
    no_wrap. split; [apply set_target_wf; [split|..]; try done; lia|].
    unfold abs; simpl. unfold set_idx, EntryQueue_targetQueue in *. simpl.
    rewrite Hst. f_equal. f_equal. rewrite <-Htake. by destruct (q_leftInWrite q).
  - unfold EntryQueue_Get. destruct Hwf as [? ? ? ?].
    destruct (Z.leb_spec (q_idx q) (Z.of_nat (length (EntryQueue_targetQueue q)))); [|lia].
    simpl. eexists _, _. split; [done|]. split; [split; simpl; lia|]. done.
  - eexists _, _. split; [done|]. destruct Hwf. by split.
Qed.

Lemma run_refines q os :
  wf q -> exists q' rs, run q os = Ret (q', rs) /\ wf q' /\ spec_run (abs q) os = (abs q', rs).
Proof.
  revert q. induction os as [|o os IH]; intros q Hwf; simpl; [by eexists _, _|].
  destruct (exec_refines q o Hwf) as (q1 & r & -> & Hwf1 & ->). simpl.
  destruct (IH q1 Hwf1) as (q2 & rs & -> & Hwf2 & ->). by eexists _, _.
Qed.

Lemma spec_no_loss s os :
  sp_pending s ++ accepted os (spec_run s os).2 =
  delivered (spec_run s os).2 ++ sp_pending (spec_run s os).1.
Proof.
  revert s. induction os as [|o os IH]; intros s; simpl; [by rewrite app_nil_r|].
  destruct o as [e| |]; simpl.
  - destruct (decide _); [destruct (sp_stopped s)|]; simpl;
      match goal with |- context [spec_run ?s' os] =>
        specialize (IH s'); destruct (spec_run s' os) as [s2 rs]; simpl in * end;
      rewrite <-?app_assoc in IH; exact IH.
  - specialize (IH (mkSpec (sp_cap s) [] (sp_stopped s))).
    destruct (spec_run _ os) as [s2 rs]; simpl in *. by rewrite IH, app_assoc.
  - specialize (IH (mkSpec (sp_cap s) (sp_pending s) true)).
    destruct (spec_run _ os) as [s2 rs]; simpl in *. exact IH.
Qed.

(** No call but an accepted [Add] writes a buffer, and it writes the target. *)
Lemma exec_keeps_other q o q' r :
  exec q o = Ret (q', r) -> is_get o = false ->
  q_leftInWrite q' = q_leftInWrite q /\
  (if q_leftInWrite q then q_right q' = q_right q else q_left q' = q_left q).
Proof.
  destruct o as [e| |]; simpl; [|done|]; intros Hx _.
  - apply outcome_bind_Ret in Hx as ([q1 [a st]] & Hadd & [= -> <-]).
    unfold EntryQueue_Add in Hadd.
    destruct (_ <=? _)%Z; [injection Hadd as <- <- <-; by destruct (q_leftInWrite q)|].
    destruct (q_stopped q); [injection Hadd as <- <- <-; by destruct (q_leftInWrite q)|].
    apply outcome_bind_Ret in Hadd as (w & _ & [= <- <- <-]).
    simpl. by destruct (q_leftInWrite q).
  - injection Hx as <- <-. simpl. by destruct (q_leftInWrite q).
Qed.

Lemma run_keeps_other q os q' rs :
  run q os = Ret (q', rs) -> forallb (fun o => negb (is_get o)) os = true ->
  q_leftInWrite q' = q_leftInWrite q /\
  (if q_leftInWrite q then q_right q' = q_right q else q_left q' = q_left q).
Proof.
  revert q rs. induction os as [|o os IH]; intros q rs Hr Hg; simpl in *.
  { injection Hr as <- <-. by destruct (q_leftInWrite q). }
  apply andb_prop in Hg as [Ho Hg].
  apply outcome_bind_Ret in Hr as ([q1 r] & Hx & Hr).
  apply outcome_bind_Ret in Hr as ([q2 rs'] & Hr & [= -> <-]).
  apply exec_keeps_other in Hx as [Hw1 Hb1]; [|by destruct o].
  destruct (IH _ _ Hr Hg) as [Hw2 Hb2]. rewrite Hw1 in Hw2, Hb2.
  split; [done|]. destruct (q_leftInWrite q); congruence.
Qed.

Lemma Get_target q q' s :
  EntryQueue_Get q = Ret (q', s) ->
  s = mkSlice (q_leftInWrite q) (q_idx q) /\ q_leftInWrite q' = negb (q_leftInWrite q) /\
  q_left q' = q_left q /\ q_right q' = q_right q /\ q_idx q' = 0%Z /\
  q_size q' = q_size q /\ q_stopped q' = q_stopped q.
Proof. unfold EntryQueue_Get. destruct (_ <=? _)%Z; [|done]. by intros [= <- <-]. Qed.

(** The two methods on a queue that is not closed, as its users see them. *)
Definition pending (q : EntryQueue) : list ptr := sp_pending (abs q).
Definition in_use (size : Z) (q : EntryQueue) : Prop := wf q /\ q_size q = size /\ q_stopped q = false.

Lemma Add_in_use size q e :
  in_use size q ->
  if decide (Z.of_nat (length (pending q)) < size)%Z
  then exists q', EntryQueue_Add q e = Ret (q', (true, false)) /\ in_use size q' /\ pending q' = pending q ++ [e]
  else EntryQueue_Add q e = Ret (q, (false, false)).
Proof.
  intros (Hwf & Hsize & Hst). destruct (exec_refines q (OAdd e) Hwf) as (q' & r & Hx & Hwf' & Hsp).
  apply outcome_bind_Ret in Hx as ([q1 [a st]] & Ha & [= -> <-]).
  simpl in Hsp. unfold pending. pose proof (abs_length q Hwf) as Hl. simpl in Hl. simpl. rewrite Hsize, Hst in Hsp.
  case_decide as Hlt; simpl in Hlt.
  - injection Hsp as Hsz Hp Hst' <- <-. exists q'. split; [done|]. split; [split; [done|by split]|by symmetry].
  - unfold EntryQueue_Add in *. rewrite Hsize in *. destruct (Z.leb_spec size (q_idx q)); [by rewrite Hst|lia].
Qed.

Lemma Get_in_use size q :
  in_use size q ->
  exists q' s, EntryQueue_Get q = Ret (q', s) /\ in_use size q' /\ read_slice q' s = pending q /\ pending q' = [].
Proof.
  intros (Hwf & Hsize & Hst). destruct (exec_refines q OGet Hwf) as (q' & r & Hx & Hwf' & Hsp).
  apply outcome_bind_Ret in Hx as ([q1 s] & Hg & [= -> <-]). simpl in Hsp. injection Hsp as Hsz Hp Hst' Hr.
  exists q', s. split; [done|]. split; [split; [done|split; congruence]|]. split; [by symmetry|]. by unfold pending.
Qed.

Lemma NewEntryQueue_in_use size :
  (0 <= size <= maxInt64)%Z -> exists q, NewEntryQueue size = Ret q /\ in_use size q /\ pending q = [].
Proof.
  intros Hs. destruct (NewEntryQueue_wf size Hs) as (q & Hn & Hwf & Ha). exists q. split; [done|].
  unfold pending. rewrite Ha. split; [|done]. injection Ha as Hz _ Hst. split; [done|by split].
Qed.

(** ** Properties *)

(** C8: refinement.  From a fresh queue of any size an [int] can hold, every
    sequence of [Add], [Get] and [Close] runs without an index panic and gives
    exactly the replies of the bounded drain-all FIFO: [Add] refuses when [size]
    requests are pending or the queue is closed (with the flag the code returns),
    [Get] hands out the pending requests in order and empties the queue. *)
Theorem EntryQueue_refines_fifo size os :
  (0 <= size <= maxInt64)%Z ->
  exists q0 q rs, NewEntryQueue size = Ret q0 /\ run q0 os = Ret (q, rs) /\
    spec_run (mkSpec size [] false) os = (abs q, rs).
Proof.
  intros Hs. destruct (NewEntryQueue_wf size Hs) as (q0 & Hnew & Hwf & Habs).
  destruct (run_refines q0 os Hwf) as (q & rs & Hr & _ & Hsp).
  rewrite Habs in Hsp. by exists q0, q, rs.
Qed.

(** No request is lost, duplicated or reordered by the queue: whatever the
    calls, the concatenation of the delivered batches followed by what is still
    pending is the sequence of accepted requests. *)
Theorem EntryQueue_no_loss size os :
  (0 <= size <= maxInt64)%Z ->
  exists q0 q rs, NewEntryQueue size = Ret q0 /\ run q0 os = Ret (q, rs) /\
    accepted os rs = delivered rs ++ sp_pending (abs q).
Proof.
  intros Hs. destruct (NewEntryQueue_wf size Hs) as (q0 & Hnew & Hwf & Habs).
  destruct (run_refines q0 os Hwf) as (q & rs & Hr & _ & Hsp).
  exists q0, q, rs. split; [done|]. split; [done|].
  pose proof (spec_no_loss (abs q0) os) as Hn. rewrite Hsp, Habs in Hn. exact Hn.
Qed.

(** The batch [Get] returns is a view of a buffer of the queue; it keeps its
    contents across any [Add]s and [Close]s that follow and across the next
    [Get] as well, since those write the other buffer only. *)
Theorem EntryQueue_batch_stable q q1 s os q2 rs q3 s' :
  EntryQueue_Get q = Ret (q1, s) ->
  run q1 os = Ret (q2, rs) -> forallb (fun o => negb (is_get o)) os = true ->
  EntryQueue_Get q2 = Ret (q3, s') ->
  read_slice q3 s = read_slice q1 s.
Proof.
  intros Hg1 Hr Hos Hg2. apply Get_target in Hg1 as (-> & Hw1 & Hl1 & Hr1 & _).
  apply Get_target in Hg2 as (_ & _ & Hl3 & Hr3 & _).
  destruct (run_keeps_other _ _ _ _ Hr Hos) as [_ Hkeep]. rewrite Hw1 in Hkeep.
  unfold read_slice. simpl. destruct (q_leftInWrite q); simpl in *; congruence.
Qed.

(** The view does not survive longer: after the next [Get] the very next accepted
    [Add] overwrites the first request of the earlier batch. *)
Lemma batch_overwritten q q1 s q2 s' e q3 st :
  wf q -> EntryQueue_Get q = Ret (q1, s) -> (0 < s_len s)%Z ->
  EntryQueue_Get q1 = Ret (q2, s') ->
  EntryQueue_Add q2 e = Ret (q3, (true, st)) ->
  read_slice q3 s = e :: drop 1 (read_slice q1 s).
Proof.
  intros Hwf Hg1 Hlen Hg2 Hadd. pose proof (wf_target q Hwf) as Ht.
  apply Get_target in Hg1 as (-> & Hw1 & Hl1 & Hr1 & _).
  apply Get_target in Hg2 as (_ & Hw2 & Hl2 & Hr2 & Hi2 & _). simpl in *.
  unfold EntryQueue_Add in Hadd.
  destruct (_ <=? _)%Z; [done|]. destruct (q_stopped q2); [done|].
  apply outcome_bind_Ret in Hadd as (w & Hw & [= <- _]).
  unfold store_index in Hw. destruct (_ <? _)%Z; [|done]. injection Hw as <-.
  rewrite Hw1, negb_involutive in Hw2.
  unfold read_slice, EntryQueue_targetQueue in *. simpl. rewrite Hw2, Hi2.
  destruct Hwf as [? ? ? ?]. destruct (Z.to_nat (q_idx q)) as [|n] eqn:Hn; [lia|].
  destruct (q_leftInWrite q); rewrite ?Hl2, ?Hr2, ?Hl1, ?Hr1;
    [destruct (q_left q)|destruct (q_right q)]; simpl in *; by try lia.
Qed.

End EntryQueue.

Arguments EntryQueue : clear implicits.
Arguments op : clear implicits.
Arguments reply : clear implicits.
Arguments spec_queue : clear implicits.

(** ** thriftqueue.go: the same text at [rpc.PutRequest] *)

(* src/internal/messagequeue/thriftqueue.go:8-16 ThriftEntryQueue *)
Definition ThriftEntryQueue (B : Type) : Type := EntryQueue B.

(* src/internal/messagequeue/thriftqueue.go:18-25 NewThriftEntryQueue *)
Definition NewThriftEntryQueue {B} (size : Z) : outcome (ThriftEntryQueue B) := NewEntryQueue size.

(* src/internal/messagequeue/thriftqueue.go:27-31 ThriftEntryQueue.Close *)
Definition ThriftEntryQueue_Close {B} (q : ThriftEntryQueue B) : ThriftEntryQueue B := EntryQueue_Close q.

(* src/internal/messagequeue/thriftqueue.go:33-41 ThriftEntryQueue.targetQueue *)
Definition ThriftEntryQueue_targetQueue {B} (q : ThriftEntryQueue B) : list (option B) := EntryQueue_targetQueue q.

(* src/internal/messagequeue/thriftqueue.go:43-58 ThriftEntryQueue.Add *)
Definition ThriftEntryQueue_Add {B} (q : ThriftEntryQueue B) (ent : option B)
    : outcome (ThriftEntryQueue B * (bool * bool)) := EntryQueue_Add q ent.

(* src/internal/messagequeue/thriftqueue.go:60-68 ThriftEntryQueue.Get *)
Definition ThriftEntryQueue_Get {B} (q : ThriftEntryQueue B)
    : outcome (ThriftEntryQueue B * Slice) := EntryQueue_Get q.

(** ** Witnesses *)
Example EntryQueue_refines_fifo_witness :
  (0 <= 2 <= maxInt64)%Z /\
  exists q0 q rs, NewEntryQueue (A := nat) 2 = Ret q0 /\
    run q0 [OAdd (Some 7); OAdd (Some 8); OAdd (Some 9); OGet; OClose; OAdd (Some 10)] = Ret (q, rs) /\
    spec_run (mkSpec 2 [] false) [OAdd (Some 7); OAdd (Some 8); OAdd (Some 9); OGet; OClose; OAdd (Some 10)]
      = (abs q, rs).
Proof.
  assert (H : (0 <= 2 <= maxInt64)%Z) by (unfold maxInt64; lia).
  exact (conj H (EntryQueue_refines_fifo 2 _ H)).
Defined.

Example EntryQueue_no_loss_witness :
  (0 <= 3 <= maxInt64)%Z /\
  exists q0 q rs, NewEntryQueue (A := nat) 3 = Ret q0 /\
    run q0 [OAdd (Some 1); OGet; OAdd (Some 2); OAdd (Some 3)] = Ret (q, rs) /\
    accepted [OAdd (Some 1); OGet; OAdd (Some 2); OAdd (Some 3)] rs = delivered rs ++ sp_pending (abs q).
Proof.
  assert (H : (0 <= 3 <= maxInt64)%Z) by (unfold maxInt64; lia).
  exact (conj H (EntryQueue_no_loss 3 _ H)).
Defined.

Definition demo_queue : EntryQueue nat :=
  mkEntryQueue 2 [None; None] [Some 1; Some 2] false false 2.

Example EntryQueue_batch_stable_witness :
  exists q1 s q2 rs q3 s',
    EntryQueue_Get demo_queue = Ret (q1, s) /\ run q1 [OAdd (Some 5); OClose] = Ret (q2, rs) /\
    EntryQueue_Get q2 = Ret (q3, s') /\ read_slice q3 s = read_slice q1 s /\
    read_slice q1 s = [Some 1; Some 2].
Proof.
  do 6 eexists. split; [reflexivity|]. split; [reflexivity|]. split; [reflexivity|].
  split; [|reflexivity].
  eapply (EntryQueue_batch_stable demo_queue _ _ [OAdd (Some 5); OClose]); reflexivity.
Defined.
