(* ===== verification/Generate.v ===== *)
(** * internal/generate: random identifiers

    generate.go draws bytes from crypto/rand and maps them into the 62-letter
    alphabet by rejection sampling.  The random device is a parameter: [Reader w n]
    is what [io.ReadFull] leaves in a fresh buffer of [n] bytes (its error is
    ignored by the code) together with the next state of the device.  So is the
    largest buffer the runtime makes: [make] panics on a negative length and on one
    above [maxAlloc].  Lengths are Go's [int], whose sum wraps. *)
From S2P Require Import Prelude.

(* src/internal/generate/generate.go:8-8 idChars *)
Definition idChars : list Z :=
  (fun c => Z.of_N (Ascii.N_of_ascii c)) <$>
  String.list_ascii_of_string "ABCDEFGHIJKLMNOPQRSTUVWXYZabcdefghijklmnopqrstuvwxyz0123456789".

(* src/internal/generate/generate.go:10-10 idLen *)
Definition idLen : Z := 20.

Definition u8 (z : Z) : Z := z `mod` 256.

Section Generate.
Context {W : Type} (maxAlloc : Z) (Reader : W -> nat -> list Z * W).

(** [make([]byte, length)], filled with zeros. *)
Definition make_bytes (length : Z) : outcome (list Z) :=
  if (0 <=? length)%Z && (length <=? maxAlloc)%Z then Ret (replicate (Z.to_nat length) 0%Z) else Panic.

(** The device fills the whole buffer. *)
(* src/internal/generate/generate.go:30-34 randomBytes *)
Definition randomBytes (w : W) (len : Z) : outcome (list Z * W) :=
  b ← make_bytes len; Ret (Reader w (length b)).

(* src/internal/generate/generate.go:37-37 maxrb *)
Definition maxrb (modulus : Z) : Z := u8 (255 - u8 (256 `mod` modulus)).

(** How the inner loop over one block of random bytes ends: it returned [b], or
    the block is used up. *)
Inductive scan_end : Type := Returned (b : list Z) | Exhausted (b : list Z) (i : nat).

(* src/internal/generate/generate.go:42-51 randomBytesMod *)
Fixpoint scan_block (length modulus : Z) (b : list Z) (i : nat) (r : list Z) : outcome scan_end :=
  match r with
  | [] => Ret (Exhausted b i)
  | c :: r =>
      if (maxrb modulus <? c)%Z then scan_block length modulus b i r
      else if decide (i < List.length b) then
        let b := <[i := (c `mod` modulus)%Z]> b in
        if (Z.of_nat (S i) =? length)%Z then Ret (Returned b)
        else scan_block length modulus b (S i) r
      else Panic
  end.

(** The outer [for { ... }], [fuel] blocks of it; [None]: still running. *)
Fixpoint fill_loop (fuel : nat) (length modulus : Z) (b : list Z) (i : nat) (w : W)
    : option (outcome (list Z * W)) :=
  match fuel with
  | 0 => None
  | S fuel =>
      match randomBytes w (i64 (length + Z.quot length 4)) with
      | Panic => Some Panic
      | Ret (r, w) =>
          match scan_block length modulus b i r with
          | Panic => Some Panic
          | Ret (Returned b) => Some (Ret (b, w))
          | Ret (Exhausted b i) => fill_loop fuel length modulus b i w
          end
      end
  end.

(* src/internal/generate/generate.go:36-53 randomBytesMod *)
Definition randomBytesMod (fuel : nat) (w : W) (length modulus : Z) : option (outcome (list Z * W)) :=
  if (modulus =? 0)%Z then Some Panic
  else match make_bytes length with
       | Panic => Some Panic
       | Ret b => fill_loop fuel length modulus b 0 w
       end.

(** [b[i] = idChars[c]] for every index of [b]. *)
Fixpoint map_chars (b : list Z) : outcome (list Z) :=
  match b with
  | [] => Ret []
  | c :: b => match idChars !! Z.to_nat c with
              | Some x => b' ← map_chars b; Ret (x :: b')
              | None => Panic
              end
  end.

Definition finish (r : option (outcome (list Z * W))) : option (outcome (list Z * W)) :=
  match r with
  | None => None
  | Some m => Some ('(b, w) ← m; b' ← map_chars b; Ret (b', w))
  end.

(* src/internal/generate/generate.go:13-19 randomId *)
Definition randomId (fuel : nat) (w : W) : option (outcome (list Z * W)) :=
  finish (randomBytesMod fuel w idLen (u8 (Z.of_nat (length idChars)))).

(* src/internal/generate/generate.go:21-28 GenRandomBytes *)
Definition GenRandomBytes (fuel : nat) (w : W) (length_arg : Z) : option (outcome (list Z * W)) :=
  finish (randomBytesMod fuel w idLen (u8 (Z.of_nat (length idChars)))).

(** ** Specification: the accepted bytes of the device's output *)

(** The first [k] blocks the device yields to requests for [n] bytes. *)
Fixpoint blocks (w : W) (n : nat) (k : nat) : list Z :=
  match k with
  | 0 => []
  | S k => (Reader w n).1 ++ blocks (Reader w n).2 n k
  end.

Fixpoint world_after (w : W) (n : nat) (k : nat) : W :=
  match k with 0 => w | S k => world_after (Reader w n).2 n k end.

(** What rejection sampling is to keep: the bytes below the largest multiple of
    [modulus] that is at most 256, each reduced. *)
Definition kept (modulus : Z) (l : list Z) : list Z :=
  (fun c => c `mod` modulus)%Z <$> filter (fun c => (c < 256 / modulus * modulus)%Z) l.

Definition block_size (length : Z) : nat := Z.to_nat (length + Z.quot length 4).

(** ** The inner loop *)
Lemma maxrb_accepts modulus :
  (1 <= modulus <= 255)%Z -> (maxrb modulus = 256 / modulus * modulus - 1)%Z.
Proof.
  intros Hm. pose proof (Z.mod_pos_bound 256 modulus). pose proof (Z.div_mod 256 modulus).
  unfold maxrb, u8. rewrite (Z.mod_small (256 `mod` modulus)) by lia.
  rewrite Z.mod_small by lia. lia.
Qed.

Lemma kept_cons modulus c l :
  (1 <= modulus <= 255)%Z ->
  kept modulus (c :: l) =
  if (maxrb modulus <? c)%Z then kept modulus l else (c `mod` modulus)%Z :: kept modulus l.
Proof.
  intros Hm. pose proof (maxrb_accepts modulus Hm).
  unfold kept. rewrite filter_cons. destruct (Z.ltb_spec (maxrb modulus) c).
  - by rewrite decide_False by lia.
  - by rewrite decide_True by lia.
Qed.

Lemma kept_app modulus l k : kept modulus (l ++ k) = kept modulus l ++ kept modulus k.
Proof. unfold kept. by rewrite filter_app, fmap_app. Qed.

(** The block is scanned for accepted bytes until the buffer is full. *)
Lemma scan_block_spec len modulus b i r :
  (1 <= modulus <= 255)%Z -> Z.of_nat (length b) = len -> i < length b ->
  scan_block len modulus b i r =
  if decide (i + length (kept modulus r) < length b)
  then Ret (Exhausted (take i b ++ kept modulus r ++ drop (i + length (kept modulus r)) b)
                      (i + length (kept modulus r)))
  else Ret (Returned (take i b ++ take (length b - i) (kept modulus r))).
Proof.
  intros Hm. revert b i. induction r as [|c r IH]; intros b i Hlen Hi; cbn [scan_block].
  - simpl. rewrite Nat.add_0_r, decide_True by lia. by rewrite take_drop.
  - rewrite kept_cons by done. destruct (_ <? _)%Z; [by apply IH|].
    rewrite decide_True by lia. cbn [length].
    set (x := (c `mod` modulus)%Z).
    assert (Htake : take (S i) (<[i:=x]> b) = take i b ++ [x]).
    { rewrite (take_S_r _ _ x) by (by apply list_lookup_insert_eq).
      by rewrite take_insert_ge by lia. }
    destruct (Z.eqb_spec (Z.of_nat (S i)) len) as [He|He].
    + rewrite decide_False by lia. do 2 f_equal.
      replace (length b - i) with 1 by lia. simpl. rewrite take_0, <-Htake.
      by rewrite take_ge by (rewrite length_insert; lia).
    + rewrite IH by (rewrite ?length_insert; lia). rewrite length_insert.
      replace (S i + length (kept modulus r)) with (i + S (length (kept modulus r))) by lia.
      rewrite Htake. destruct (decide _).
      * do 2 f_equal. rewrite <-app_assoc. f_equal. simpl. f_equal. f_equal.
        by rewrite drop_insert_lt by lia.
      * do 2 f_equal. rewrite <-app_assoc. f_equal. replace (length b - i) with (S (length b - S i)) by lia.
        done.
Qed.

(** ** The outer loop *)
Lemma randomBytes_block w len :
  (0 <= len)%Z -> (len + Z.quot len 4 <= maxAlloc)%Z -> (maxAlloc <= maxInt64)%Z ->
  randomBytes w (i64 (len + Z.quot len 4)) = Ret (Reader w (block_size len)).
Proof.
  intros Hl Hmax Hint. pose proof (Z.quot_pos len 4 Hl). unfold maxInt64 in Hint.
  rewrite i64_small by lia. unfold randomBytes, make_bytes, block_size.
  destruct (Z.leb_spec 0 (len + Z.quot len 4)); [|lia].
  destruct (Z.leb_spec (len + Z.quot len 4) maxAlloc); [|lia]. simpl. by rewrite length_replicate.
Qed.

Lemma fill_loop_spec fuel len modulus b i w :
  (1 <= modulus <= 255)%Z -> (len + Z.quot len 4 <= maxAlloc)%Z -> (maxAlloc <= maxInt64)%Z -> Z.of_nat (length b) = len -> i < length b ->
  let ks := kept modulus (blocks w (block_size len) fuel) in
  if decide (i + length ks < length b)
  then fill_loop fuel len modulus b i w = None
  else exists k, k <= fuel /\
    fill_loop fuel len modulus b i w =
    Some (Ret (take i b ++ take (length b - i) ks, world_after w (block_size len) k)).
Proof.
  intros Hm Hmax Hint. revert b i w.
  induction fuel as [|fuel IH]; intros b i w Hlen Hi; cbn [fill_loop blocks].
  { by rewrite decide_True by (simpl; lia). }
  rewrite randomBytes_block by lia. destruct (Reader w (block_size len)) as [r w'] eqn:HR. cbn [fst snd].
  rewrite (scan_block_spec len modulus b i r Hm Hlen Hi), kept_app, length_app.
  set (k1 := kept modulus r). destruct (decide (i + length k1 < length b)) as [Hlt|Hge].
  - set (b' := take i b ++ k1 ++ drop (i + length k1) b).
    assert (Hb' : length b' = length b).
    { unfold b'. rewrite !length_app, length_take, length_drop. lia. }
    assert (Ht : take (i + length k1) b' = take i b ++ k1).
    { unfold b'. rewrite app_assoc, take_app_le by (rewrite length_app, length_take; lia).
      by rewrite take_ge by (rewrite length_app, length_take; lia). }
    specialize (IH b' (i + length k1) w'). rewrite Hb' in IH.
    specialize (IH Hlen Hlt). cbv zeta in IH.
    set (k2 := kept modulus (blocks w' (block_size len) fuel)) in *.
    rewrite <-Nat.add_assoc in IH. destruct (decide _); [done|].
    destruct IH as (k & Hk & ->). exists (S k). split; [lia|]. cbn [world_after].
    rewrite HR, Ht. cbn [snd]. do 3 f_equal. rewrite <-app_assoc. f_equal.
    rewrite take_app_ge by lia. by replace (length b - (i + length k1)) with (length b - i - length k1) by lia.
  - rewrite decide_False by lia. exists 1. split; [lia|]. cbn [world_after]. rewrite HR. cbn [snd].
    do 3 f_equal. f_equal. by rewrite take_app_le by lia.
Qed.

Lemma randomBytesMod_spec fuel w len modulus :
  (0 < len)%Z -> (1 <= modulus <= 255)%Z -> (len + Z.quot len 4 <= maxAlloc)%Z -> (maxAlloc <= maxInt64)%Z ->
  let ks := kept modulus (blocks w (block_size len) fuel) in
  if decide (length ks < Z.to_nat len)
  then randomBytesMod fuel w len modulus = None
  else exists k, k <= fuel /\ randomBytesMod fuel w len modulus =
    Some (Ret (take (Z.to_nat len) ks, world_after w (block_size len) k)).
Proof.
  intros Hlen Hm Hmax Hint. pose proof (Z.quot_pos len 4). unfold randomBytesMod, make_bytes.
  destruct (Z.eqb_spec modulus 0); [lia|]. destruct (Z.leb_spec 0 len); [|lia].
  destruct (Z.leb_spec len maxAlloc); [|lia]. simpl.
  pose proof (fill_loop_spec fuel len modulus (replicate (Z.to_nat len) 0%Z) 0 w Hm Hmax Hint) as Hf.
  rewrite length_replicate in Hf. specialize (Hf ltac:(lia) ltac:(lia)). cbv zeta in *.
  rewrite Nat.sub_0_r in Hf. exact Hf.
Qed.

(** A length whose blocks cannot be made panics, also when the sum wraps. *)
Lemma randomBytesMod_too_long fuel w len modulus :
  (0 < len <= maxInt64)%Z -> (modulus <> 0)%Z -> (maxAlloc < len + Z.quot len 4)%Z -> (maxAlloc <= maxInt64)%Z ->
  randomBytesMod (S fuel) w len modulus = Some Panic.
Proof.
  intros Hlen Hm Hmax Hint. unfold maxInt64 in *. pose proof (Z.quot_pos len 4).
  assert (Hq : (Z.quot len 4 <= len)%Z) by (rewrite Z.quot_div_nonneg by lia; apply Z.div_le_upper_bound; lia).
  unfold randomBytesMod. destruct (Z.eqb_spec modulus 0); [done|].
  unfold make_bytes at 1. destruct (_ && _); [|done]. cbn [fill_loop]. unfold randomBytes, make_bytes.
  destruct (decide (len + Z.quot len 4 < 2 ^ 63)%Z).
  - rewrite i64_small by lia. destruct (Z.leb_spec (len + Z.quot len 4) maxAlloc); [lia|]. by rewrite andb_false_r.
  - assert (i64 (len + Z.quot len 4) < 0)%Z.
    { unfold i64. rewrite <- (Z.mod_unique (len + Z.quot len 4 + 2 ^ 63) (2 ^ 64) 1 (len + Z.quot len 4 - 2 ^ 63)); lia. }
    destruct (Z.leb_spec 0 (i64 (len + Z.quot len 4))); [lia|done].
Qed.

Lemma kept_bound modulus l :
  (0 < modulus)%Z -> Forall (fun x => 0 <= x < modulus)%Z (kept modulus l).
Proof.
  intros Hm. unfold kept. apply Forall_fmap, Forall_forall. intros x _. simpl.
  by apply Z.mod_pos_bound.
Qed.

(** ** The alphabet *)
Lemma idChars_length : length idChars = 62.
Proof. reflexivity. Qed.

Lemma map_chars_total b :
  Forall (fun x => 0 <= x < 62)%Z b ->
  exists b', map_chars b = Ret b' /\ length b' = length b /\ Forall (fun c => c ∈ idChars) b'.
Proof.
  induction 1 as [|x b Hx _ (b' & Hb' & Hlen & Hin)]; cbn [map_chars]; [by exists []|].
  destruct (lookup_lt_is_Some_2 idChars (Z.to_nat x)) as [c Hc].
  { rewrite idChars_length. lia. }
  rewrite Hc, Hb'. exists (c :: b'). split; [done|]. simpl. split; [lia|].
  constructor; [|done]. by apply list_elem_of_lookup_2 in Hc.
Qed.

(** ** Uniformity *)
Definition all_bytes : list Z := seqZ 0 256.

(** Among [q * m] consecutive numbers, every residue mod [m] occurs [q] times. *)
Lemma filter_residue_one_period m r a :
  (0 < m)%Z -> (0 <= r < m)%Z ->
  length (filter (fun c => c `mod` m = r)%Z (seqZ (a * m) m)) = 1.
Proof.
  intros Hm Hr.
  replace (seqZ (a * m) m) with (seqZ (a * m) (r + (1 + (m - r - 1)))) by (f_equal; lia).
  rewrite seqZ_app, seqZ_app by lia. rewrite !filter_app, !length_app.
  assert (Hout : forall s n, (a * m <= s)%Z -> (s + n <= a * m + m)%Z ->
      (a * m + r < s \/ s + n <= a * m + r)%Z ->
      filter (fun c => c `mod` m = r)%Z (seqZ s n) = []).
  { intros s n H1 H2 H3. apply filter_none. intros x [? ?]%elem_of_seqZ Hx.
    rewrite <-(Z.mod_unique x m a (x - a * m)) in Hx by lia. lia. }
  rewrite (Hout (a * m)%Z r), (Hout (a * m + r + 1)%Z) by lia.
  rewrite seqZ_cons by lia. simpl. rewrite filter_cons.
  rewrite decide_True by (rewrite Z.add_comm, Z_mod_plus_full; apply Z.mod_small; lia).
  done.
Qed.

Lemma filter_residue_count m r (q : nat) :
  (0 < m)%Z -> (0 <= r < m)%Z ->
  length (filter (fun c => c `mod` m = r)%Z (seqZ 0 (Z.of_nat q * m))) = q.
Proof.
  intros Hm Hr. induction q as [|q IH]; [done|].
  replace (Z.of_nat (S q) * m)%Z with (Z.of_nat q * m + m)%Z by lia.
  rewrite seqZ_app by lia. rewrite filter_app, length_app, IH.
  rewrite Z.add_0_l, filter_residue_one_period by lia. lia.
Qed.

(** Of the 256 values of a byte, those that are kept fall into each residue class
    equally often. *)
Lemma rejection_uniform modulus r :
  (1 <= modulus <= 255)%Z -> (0 <= r < modulus)%Z ->
  length (filter (fun x => x = r) (kept modulus all_bytes)) = Z.to_nat (256 / modulus).
Proof.
  intros Hm Hr. pose proof (Z.div_mod 256 modulus). pose proof (Z.mod_pos_bound 256 modulus).
  unfold kept, all_bytes. rewrite filter_fmap, length_fmap.
  set (q := (256 / modulus)%Z) in *. assert (Hq : (0 <= q)%Z) by (apply Z.div_pos; lia).
  replace 256%Z with (Z.of_nat (Z.to_nat q) * modulus + 256 `mod` modulus)%Z by lia.
  rewrite seqZ_app by lia. rewrite filter_app.
  rewrite (filter_every _ (seqZ 0 _)).
  2:{ intros x Hx%elem_of_seqZ. fold q. nia. }
  rewrite (filter_none _ (seqZ _ (256 `mod` modulus))).
  2:{ intros x Hx%elem_of_seqZ. fold q. nia. }
  rewrite app_nil_r. apply filter_residue_count; lia.
Qed.

(** ** Properties *)

(** C40: functional specification and termination of the rejection loop, for a positive
    length and a nonzero modulus.  If [make] can make the blocks of [len + len / 4]
    bytes, [randomBytesMod] returns within [fuel] rounds exactly when the first
    [fuel] blocks of the device contain [len] bytes below the largest multiple of
    [mod] that is at most 256; what it returns is the first [len] of them, in
    order, each reduced modulo [mod], and no write is out of range.  This favours no
    result: each number below [mod] comes from equally many of the 256 values of a
    byte, as many as a byte holds multiples of [mod].  If the blocks cannot be
    made, also when the sum wraps around an [int], the first round panics. *)
Theorem randomBytesMod_correct fuel w len modulus :
  (0 < len <= maxInt64)%Z -> (1 <= modulus <= 255)%Z -> (maxAlloc <= maxInt64)%Z ->
  ((len + Z.quot len 4 <= maxAlloc)%Z ->
    ((exists r, randomBytesMod fuel w len modulus = Some r) <->
     (len <= Z.of_nat (length (kept modulus (blocks w (block_size len) fuel))))%Z) /\
    (forall r, randomBytesMod fuel w len modulus = Some r ->
     exists k, k <= fuel /\
      r = Ret (take (Z.to_nat len) (kept modulus (blocks w (block_size len) fuel)),
               world_after w (block_size len) k))) /\
  (forall r, (0 <= r < modulus)%Z ->
    length (filter (fun x => x = r) (kept modulus all_bytes)) = Z.to_nat (256 / modulus)) /\
  ((maxAlloc < len + Z.quot len 4)%Z -> randomBytesMod (S fuel) w len modulus = Some Panic).
Proof.
  intros Hl Hm Hint. split; [|split].
  - intros Hmax. pose proof (randomBytesMod_spec fuel w len modulus ltac:(lia) Hm Hmax Hint) as H.
    cbv zeta in H. destruct (decide _) as [Hd|Hd].
    + rewrite H. split; [|done]. split; [by intros [? ?]|lia].
    + destruct H as (k & Hk & ->). split; [split; [lia|eauto]|].
      intros r [= <-]. by exists k.
  - intros r Hr. by apply rejection_uniform.
  - intros Hmax. apply randomBytesMod_too_long; lia.
Qed.

(** A request for zero bytes never returns: the length test follows an
    increment, and an empty block never increments. *)
Theorem randomBytesMod_zero_diverges fuel w modulus :
  (forall w n, length (Reader w n).1 = n) ->
  (1 <= modulus <= 255)%Z -> (0 <= maxAlloc)%Z ->
  randomBytesMod fuel w 0 modulus = None.
Proof.
  intros HR Hm Hmax. unfold randomBytesMod. destruct (Z.eqb_spec modulus 0); [lia|].
  unfold make_bytes. destruct (Z.leb_spec 0 maxAlloc); [|lia]. simpl.
  revert w. induction fuel as [|fuel IH]; intros w; [done|]. cbn [fill_loop].
  change (i64 (0 + Z.quot 0 4)) with 0%Z. unfold randomBytes, make_bytes.
  destruct (Z.leb_spec 0 maxAlloc); [|lia]. simpl. destruct (Reader w 0) as [r w'] eqn:Hr.
  pose proof (HR w 0) as Hlen0. rewrite Hr in Hlen0. simpl in Hlen0.
  destruct r; [apply IH|done].
Qed.

(** Where [make] can make 25 bytes, [GenRandomBytes] never panics, and whatever length
    it is asked for it returns exactly 20 letters of the alphabet once the device has produced 20
    acceptable bytes: the [length] argument is ignored. *)
Theorem GenRandomBytes_always_20 fuel w length_arg :
  (25 <= maxAlloc <= maxInt64)%Z ->
  20 <= length (kept 62 (blocks w 25 fuel)) ->
  exists b w', GenRandomBytes fuel w length_arg = Some (Ret (b, w')) /\
    length b = 20 /\ Forall (fun c => c ∈ idChars) b.
Proof.
  intros Hmax Hk. unfold GenRandomBytes.
  pose proof (randomBytesMod_spec fuel w 20 62 ltac:(lia) ltac:(lia) ltac:(change (Z.quot 20 4) with 5%Z; lia)
    ltac:(lia)) as H. cbv zeta in H.
  change (block_size 20) with 25 in H. change (Z.to_nat 20) with 20 in H.
  rewrite decide_False in H by lia. destruct H as (k & _ & Heq).
  change (u8 (Z.of_nat (length idChars))) with 62%Z. unfold idLen. rewrite Heq. simpl.
  destruct (map_chars_total (take 20 (kept 62 (blocks w 25 fuel)))) as (b' & -> & Hb & Hin).
  { apply Forall_take, kept_bound. lia. }
  exists b'. eexists. split; [done|]. split; [|done]. rewrite Hb, length_take. lia.
Qed.

End Generate.

(** ** Witnesses: a device that counts *)
Definition counting_reader (w : Z) (n : nat) : list Z * Z :=
  ((fun i => (w + Z.of_nat i) `mod` 256)%Z <$> seq 0 n, (w + Z.of_nat n)%Z).

(** The largest buffer of the 64-bit runtime. *)
Definition max_make : Z := 2 ^ 48.

Example randomBytesMod_correct_witness :
  (exists k, k <= 3 /\
    randomBytesMod max_make counting_reader 3 246%Z 4 62 =
    Some (Ret ([60; 61; 0; 1]%Z, world_after counting_reader 246%Z (block_size 4) k))) /\
  length (filter (fun x => x = 5%Z) (kept 62 all_bytes)) = 4 /\
  randomBytesMod max_make counting_reader 1 0%Z maxInt64 62 = Some Panic.
Proof.
  destruct (randomBytesMod_correct max_make counting_reader 3 246%Z 4 62) as (H1 & H2 & _);
    [unfold maxInt64; lia|lia|unfold maxInt64, max_make; lia|].
  destruct (randomBytesMod_correct max_make counting_reader 0 0%Z maxInt64 62) as (_ & _ & H3);
    [unfold maxInt64; lia|lia|unfold maxInt64, max_make; lia|].
  split; [|split; [exact (H2 5%Z ltac:(lia))|apply H3; vm_compute; reflexivity]].
  destruct (H1 ltac:(vm_compute; discriminate)) as [Hret Hval].
  destruct (proj2 Hret) as [r Hr]; [vm_compute; discriminate|].
  destruct (Hval r Hr) as (k & Hk & ->). exists k. split; [exact Hk|]. exact Hr.
Defined.

Example counting_run :
  randomBytesMod max_make counting_reader 5 246%Z 4 62 = Some (Ret ([60; 61; 0; 1]%Z, 261%Z)).
Proof. reflexivity. Qed.

Example randomBytesMod_zero_diverges_witness :
  (forall w n, length (counting_reader w n).1 = n) /\
  randomBytesMod max_make counting_reader 9 0%Z 0 62 = None.
Proof.
  assert (H : forall w n, length (counting_reader w n).1 = n).
  { intros. unfold counting_reader. simpl. by rewrite length_fmap, length_seq. }
  split; [exact H|].
  apply (randomBytesMod_zero_diverges max_make counting_reader 9 0%Z 62 H); [lia|unfold max_make; lia].
Defined.

Example GenRandomBytes_always_20_witness :
  20 <= length (kept 62 (blocks counting_reader 0%Z 25 1)) /\
  exists b w', GenRandomBytes max_make counting_reader 1 0%Z 16 = Some (Ret (b, w')) /\
    length b = 20 /\ Forall (fun c => c ∈ idChars) b.
Proof.
  assert (H : 20 <= length (kept 62 (blocks counting_reader 0%Z 25 1))) by (vm_compute; lia).
  split; [exact H|]. apply (GenRandomBytes_always_20 max_make counting_reader 1 0%Z 16); [|exact H].
  unfold max_make, maxInt64. lia.
Defined.
