(* ===== verification/Connectivity.v ===== *)
(** * grpc/client/balancer/connectivity: the state aggregator

    [recorder] counts the sub-connections in the states it cares about, in
    [uint64] counters that go up and down by wrapping addition, and evaluates one
    aggregated state.  The connectivity states are the named constants of grpc's
    [connectivity] package; the zero value of that type, which a new recorder
    starts in, is an argument of [New]. *)
From S2P Require Import Prelude.

Inductive State : Type := Idle | Connecting | Ready | TransientFailure | Shutdown.

#[global] Instance State_eq_dec : EqDecision State.
Proof. solve_decision. Defined.

(* src/grpc/client/balancer/connectivity/connectivity.go:23-31 recorder *)
Record recorder : Type := mkRecorder {
  cur : State;
  numReady : Z;
  numConnecting : Z;
  numTransientFailure : Z
}.

(* src/grpc/client/balancer/connectivity/connectivity.go:15-18 New *)
Definition New (zero : State) : recorder := mkRecorder zero 0 0 0.

(* src/grpc/client/balancer/connectivity/connectivity.go:33-37 recorder.GetCurrentState *)
Definition GetCurrentState (rc : recorder) : State := cur rc.

(* src/grpc/client/balancer/connectivity/connectivity.go:54-54 updateVal *)
Definition updateVal (idx : Z) : Z := u64 (u64 (2 * idx) - 1).

(* src/grpc/client/balancer/connectivity/connectivity.go:53-64 recorder.RecordTransition *)
Definition bump (rc : recorder) (entry : Z * State) : recorder :=
  let v := updateVal entry.1 in
  match entry.2 with
  | Ready => mkRecorder (cur rc) (u64 (numReady rc + v)) (numConnecting rc) (numTransientFailure rc)
  | Connecting => mkRecorder (cur rc) (numReady rc) (u64 (numConnecting rc + v)) (numTransientFailure rc)
  | TransientFailure => mkRecorder (cur rc) (numReady rc) (numConnecting rc) (u64 (numTransientFailure rc + v))
  | _ => rc
  end.

(* src/grpc/client/balancer/connectivity/connectivity.go:66-73 recorder.RecordTransition *)
Definition evaluate (rc : recorder) : State :=
  if (0 <? numReady rc)%Z then Ready
  else if (0 <? numConnecting rc)%Z then Connecting
  else TransientFailure.

Definition set_cur (rc : recorder) (s : State) : recorder :=
  mkRecorder s (numReady rc) (numConnecting rc) (numTransientFailure rc).

(* src/grpc/client/balancer/connectivity/connectivity.go:49-74 recorder.RecordTransition *)
Definition RecordTransition (rc : recorder) (oldState newState : State) : recorder :=
  let rc := foldl bump rc [(0, oldState); (1, newState)]%Z in
  set_cur rc (evaluate rc).

(** ** Specification *)

Definition count_state (s : State) (l : list State) : Z := Z.of_nat (length (filter (fun x => x = s) l)).

(** The documented aggregation of a collection of sub-connection states. *)
Definition aggregate (l : list State) : State :=
  if decide (Ready ∈ l) then Ready
  else if decide (Connecting ∈ l) then Connecting
  else TransientFailure.

(** The counters count [l], modulo the width of the counters. *)
Record tracks (rc : recorder) (l : list State) : Prop := {
  tracks_ready : numReady rc = u64 (count_state Ready l);
  tracks_connecting : numConnecting rc = u64 (count_state Connecting l);
  tracks_failure : numTransientFailure rc = u64 (count_state TransientFailure l)
}.

#[global] Instance count_state_Proper s : Proper ((≡ₚ) ==> eq) (count_state s).
Proof. intros l k Hlk. unfold count_state. by rewrite Hlk. Qed.

#[global] Instance tracks_Proper rc : Proper ((≡ₚ) ==> iff) (tracks rc).
Proof.
  intros l k Hlk. split; intros [Hr Hc Hf]; split;
    rewrite ?Hr, ?Hc, ?Hf; by rewrite Hlk.
Qed.

#[global] Instance aggregate_Proper : Proper ((≡ₚ) ==> eq) aggregate.
Proof.
  intros l k Hlk. unfold aggregate.
  rewrite (decide_ext (Ready ∈ l) (Ready ∈ k)) by (by rewrite Hlk).
  by rewrite (decide_ext (Connecting ∈ l) (Connecting ∈ k)) by (by rewrite Hlk).
Qed.

Lemma count_state_cons s x l :
  count_state s (x :: l) = ((if decide (x = s) then 1 else 0) + count_state s l)%Z.
Proof. unfold count_state. rewrite filter_cons. destruct (decide (x = s)); simpl; lia. Qed.

Lemma count_state_pos s l : (0 < count_state s l)%Z <-> s ∈ l.
Proof.
  unfold count_state. induction l as [|x l IH]; [split; [simpl; lia|by intros ?%not_elem_of_nil]|].
  rewrite filter_cons, elem_of_cons. destruct (decide (x = s)) as [->|Hne]; simpl.
  - split; [by left|lia].
  - rewrite IH. split; [by right|by intros [?|?]].
Qed.

Lemma count_state_bound s l : (0 <= count_state s l <= Z.of_nat (length l))%Z.
Proof. unfold count_state. pose proof (length_filter (fun x => x = s) l). lia. Qed.

Lemma updateVal_new a : u64 (a + updateVal 1) = u64 (a + 1).
Proof. reflexivity. Qed.

Lemma updateVal_old a : u64 (u64 (1 + a) + updateVal 0) = u64 a.
Proof. rewrite u64_add_l. unfold updateVal. rewrite u64_add_r. f_equal. change (u64 (2 * 0)) with 0%Z. lia. Qed.

Lemma bump_old rc s l : tracks rc (s :: l) -> tracks (bump rc (0%Z, s)) l.
Proof.
  intros [Hr Hc Hf]. rewrite !count_state_cons in *.
  destruct s; split; cbn in *; rewrite ?Hr, ?Hc, ?Hf; try done; apply updateVal_old.
Qed.

Lemma bump_new rc s l : tracks rc l -> tracks (bump rc (1%Z, s)) (s :: l).
Proof.
  intros [Hr Hc Hf].
  destruct s; split; rewrite count_state_cons; destruct (decide _); try done;
    unfold bump; cbn [fst snd numReady numConnecting numTransientFailure];
    rewrite ?Hr, ?Hc, ?Hf, ?updateVal_new, ?u64_add_l; f_equal; lia.
Qed.

(** One transition moves one sub-connection from [old] to [new]. *)
Lemma RecordTransition_tracks rc old new l :
  tracks rc (old :: l) -> tracks (RecordTransition rc old new) (new :: l).
Proof.
  intros Ht%bump_old. unfold RecordTransition. simpl foldl.
  destruct (bump_new _ new _ Ht) as [Hr Hc Hf]. by split.
Qed.

Lemma tracks_uncounted rc s l : s = Idle \/ s = Shutdown -> tracks rc (s :: l) <-> tracks rc l.
Proof.
  intros Hs. split; intros [Hr Hc Hf]; split;
  rewrite ?Hr, ?Hc, ?Hf, ?count_state_cons; by destruct Hs as [-> | ->].
Qed.

Lemma evaluate_aggregate rc l :
  tracks rc l -> (Z.of_nat (length l) < 2 ^ 64)%Z -> evaluate rc = aggregate l.
Proof.
  intros [Hr Hc _] Hl. unfold evaluate, aggregate.
  pose proof (count_state_bound Ready l). pose proof (count_state_bound Connecting l).
  rewrite Hr, Hc. no_wrap.
  destruct (decide (Ready ∈ l)) as [Hin|Hin]; rewrite <-count_state_pos in Hin;
    destruct (Z.ltb_spec 0 (count_state Ready l)); try lia; [done|].
  destruct (decide (Connecting ∈ l)) as [Hin'|Hin']; rewrite <-count_state_pos in Hin';
    destruct (Z.ltb_spec 0 (count_state Connecting l)); try lia; done.
Qed.

Lemma evaluate_set_cur rc s : evaluate (set_cur rc s) = evaluate rc.
Proof. done. Qed.

Lemma RecordTransition_cur rc old new :
  GetCurrentState (RecordTransition rc old new) = evaluate (RecordTransition rc old new).
Proof. done. Qed.

Create HintDb recorder.
#[export] Hint Resolve RecordTransition_tracks evaluate_aggregate : recorder.

(** A history of transitions applied to a recorder and to the collection of
    states it describes: each entry replaces one occurrence of its old state. *)
Inductive history : list State -> list (State * State) -> list State -> Prop :=
| history_nil l : history l [] l
| history_step l old new rest l1 trs l2 :
    l ≡ₚ old :: rest -> l1 ≡ₚ new :: rest -> history l1 trs l2 ->
    history l ((old, new) :: trs) l2.

Definition replay (rc : recorder) (trs : list (State * State)) : recorder :=
  foldl (fun rc t => RecordTransition rc t.1 t.2) rc trs.

Lemma replay_tracks rc l trs l' :
  history l trs l' -> tracks rc l -> tracks (replay rc trs) l'.
Proof.
  intros Hh. revert rc. induction Hh as [l|l old new rest l1 trs l2 H1 H2 _ IH]; intros rc Ht; [done|].
  simpl. apply IH. rewrite H2. apply RecordTransition_tracks. by rewrite <-H1.
Qed.

(** After any history of transitions of fewer than [2^64] sub-connections
    that all started uncounted (idle), the reported state is the documented
    aggregate of their present states: [Ready] if one is ready, else
    [Connecting] if one is connecting, else [TransientFailure]; the wrap-around
    decrements never surface. *)
Theorem RecordTransition_aggregates zero l trs l' :
  Forall (fun s => s = Idle) l -> (Z.of_nat (length l') < 2 ^ 64)%Z ->
  history l trs l' -> trs <> [] ->
  GetCurrentState (replay (New zero) trs) = aggregate l'.
Proof.
  intros Hidle Hlen Hh Hne.
  assert (Ht : tracks (New zero) l).
  { clear Hh. induction Hidle as [|s l Hs _ IH]; [done|]. apply tracks_uncounted; [by left|done]. }
  pose proof (replay_tracks _ _ _ _ Hh Ht) as Ht'.
  rewrite <-(evaluate_aggregate _ _ Ht' Hlen).
  destruct trs as [|t trs] using rev_ind; [done|]. unfold replay. rewrite foldl_app. done.
Qed.

Example RecordTransition_aggregates_witness :
  Forall (fun s => s = Idle) [Idle; Idle] /\ (Z.of_nat (length [Connecting; TransientFailure]) < 2 ^ 64)%Z /\
  history [Idle; Idle] [(Idle, Ready); (Idle, Connecting); (Ready, TransientFailure)] [Connecting; TransientFailure] /\
  GetCurrentState (replay (New Idle) [(Idle, Ready); (Idle, Connecting); (Ready, TransientFailure)]) =
  aggregate [Connecting; TransientFailure].
Proof.
  assert (H1 : Forall (fun s => s = Idle) [Idle; Idle]) by (repeat constructor).
  assert (H2 : (Z.of_nat (length [Connecting; TransientFailure]) < 2 ^ 64)%Z) by (simpl; lia).
  assert (H3 : history [Idle; Idle] [(Idle, Ready); (Idle, Connecting); (Ready, TransientFailure)]
                 [Connecting; TransientFailure]).
  { eapply (history_step _ _ _ [Idle] [Ready; Idle]); [done|done|].
    eapply (history_step _ _ _ [Ready] [Connecting; Ready]); [apply perm_swap|done|].
    eapply (history_step _ _ _ [Connecting] [Connecting; TransientFailure]);
      [apply perm_swap|apply perm_swap|constructor]. }
  split; [exact H1|]. split; [exact H2|]. split; [exact H3|].
  apply (RecordTransition_aggregates Idle [Idle; Idle] _ [Connecting; TransientFailure] H1 H2 H3). done.
Defined.
