(* ===== verification/Picker.v ===== *)
(** * grpc/client/balancer/picker: choosing a sub-connection per request

    A [Picker] is the error picker or the round-robin picker; both are objects
    with identity in the code, and [Pick] updates the round-robin one in place, so
    the model's [Pick] returns the new state of the picker.  The type of
    sub-connections, of addresses and of errors belong to grpc and are parameters. *)
From S2P Require Import Prelude.

(* src/grpc/client/balancer/picker/picker.go:28-28 Policy *)
Definition Policy : Type := Z.
(* src/grpc/client/balancer/picker/picker.go:32-32 Error *)
Definition PolicyError : Policy := 0%Z.
(* src/grpc/client/balancer/picker/picker.go:36-36 RoundrobinBalanced *)
Definition RoundrobinBalanced : Policy := 1%Z.
(* src/grpc/client/balancer/picker/picker.go:40-40 Custom *)
Definition Custom : Policy := 2%Z.

(* src/grpc/client/balancer/picker/picker.go:43-57 Policy.String *)
Definition Policy_String (p : Policy) : outcome string :=
  if (p =? PolicyError)%Z then Ret "picker-error"
  else if (p =? RoundrobinBalanced)%Z then Ret "picker-roundrobin-balanced"
  else if (p =? Custom)%Z then Panic
  else Panic.

Section Picker.
Context {SubConn Address error : Type} `{Countable SubConn} `{GoRange}.
Context (ErrNoSubConnAvailable : error).

(* src/grpc/client/balancer/picker/picker.go:18-25 Config *)
Record PickerConfig : Type := mkPickerConfig {
  cfg_Policy : Policy;
  cfg_SubConnToResolverAddress : gmap SubConn Address
}.

(* src/grpc/client/balancer/picker/picker.go:81-84 errPicker *)
Record errPicker : Type := mkErrPicker { ep_p : Policy; ep_err : error }.

(* src/grpc/client/balancer/picker/roundrobin.go:24-30 rrBalanced *)
Record rrBalanced : Type := mkRR {
  rb_p : Policy;
  rb_next : Z;
  rb_scs : list SubConn;
  rb_scToAddr : gmap SubConn Address
}.

(* src/grpc/client/balancer/picker/picker.go:12-15 Picker *)
Inductive Picker : Type := ErrPicker (ep : errPicker) | RRPicker (rb : rrBalanced).

(* src/grpc/client/balancer/picker/roundrobin.go:12-22 newRoundrobinBalanced *)
Definition newRoundrobinBalanced (cfg : PickerConfig) : rrBalanced :=
  let scs := foldl (fun scs kv => scs ++ [kv.1]) [] (go_range (cfg_SubConnToResolverAddress cfg)) in
  mkRR RoundrobinBalanced 0 scs (cfg_SubConnToResolverAddress cfg).

(* src/grpc/client/balancer/picker/picker.go:60-74 New *)
Definition New (cfg : PickerConfig) : outcome Picker :=
  if (cfg_Policy cfg =? PolicyError)%Z then Panic
  else if (cfg_Policy cfg =? RoundrobinBalanced)%Z then Ret (RRPicker (newRoundrobinBalanced cfg))
  else if (cfg_Policy cfg =? Custom)%Z then Panic
  else Panic.

(* src/grpc/client/balancer/picker/picker.go:77-79 NewErr *)
Definition NewErr (err : error) : Picker := ErrPicker (mkErrPicker PolicyError err).

(* src/grpc/client/balancer/picker/picker.go:86-88 errPicker.String *)
Definition errPicker_String (ep : errPicker) : outcome string := Policy_String (ep_p ep).

(* src/grpc/client/balancer/picker/roundrobin.go:32-32 rrBalanced.String *)
Definition rrBalanced_String (rb : rrBalanced) : outcome string := Policy_String (rb_p rb).

(* src/grpc/client/balancer/picker/picker.go:90-92 errPicker.Pick *)
Definition errPicker_Pick (ep : errPicker) : result error SubConn := Err (ep_err ep).

(** The done callback [Pick] also returns has an empty body. *)
(* src/grpc/client/balancer/picker/roundrobin.go:35-61 rrBalanced.Pick *)
Definition rrBalanced_Pick (rb : rrBalanced) : outcome (rrBalanced * result error SubConn) :=
  let n := Z.of_nat (length (rb_scs rb)) in
  if (n =? 0)%Z then Ret (rb, Err ErrNoSubConnAvailable)
  else
    let cur := rb_next rb in
    match (if (0 <=? cur)%Z then rb_scs rb !! Z.to_nat cur else None) with
    | None => Panic
    | Some sc =>
        let next := Z.rem (i64 (cur + 1)) (Z.of_nat (length (rb_scs rb))) in
        Ret (mkRR (rb_p rb) next (rb_scs rb) (rb_scToAddr rb), Ok sc)
    end.

Definition Pick (p : Picker) : outcome (Picker * result error SubConn) :=
  match p with
  | ErrPicker ep => Ret (p, errPicker_Pick ep)
  | RRPicker rb => '(rb', r) ← rrBalanced_Pick rb; Ret (RRPicker rb', r)
  end.

(** [m] requests one after the other. *)
Fixpoint picks (m : nat) (p : Picker) : outcome (Picker * list (result error SubConn)) :=
  match m with
  | 0 => Ret (p, [])
  | S m => '(p1, r) ← Pick p; '(p2, rs) ← picks m p1; Ret (p2, r :: rs)
  end.

(** ** Invariant *)
Record rr_wf (rb : rrBalanced) : Prop := {
  rr_len : (Z.of_nat (length (rb_scs rb)) <= maxInt64)%Z;
  rr_next : (0 <= rb_next rb)%Z /\ (rb_scs rb <> [] -> rb_next rb < Z.of_nat (length (rb_scs rb)))%Z
}.

Lemma foldl_snoc_keys (l : list (SubConn * Address)) acc :
  foldl (fun scs kv => scs ++ [kv.1]) acc l = acc ++ l.*1.
Proof.
  revert acc. induction l as [|x l IH]; intros acc; simpl; [by rewrite app_nil_r|].
  by rewrite IH, <-app_assoc.
Qed.

Lemma newRoundrobinBalanced_scs cfg :
  rb_scs (newRoundrobinBalanced cfg) = (go_range (cfg_SubConnToResolverAddress cfg)).*1.
Proof. unfold newRoundrobinBalanced. simpl. by rewrite foldl_snoc_keys. Qed.

Lemma elem_of_new_scs cfg sc :
  sc ∈ rb_scs (newRoundrobinBalanced cfg) <-> is_Some (cfg_SubConnToResolverAddress cfg !! sc).
Proof.
  rewrite newRoundrobinBalanced_scs, list_elem_of_fmap. split.
  - intros ([k v] & -> & Hin%elem_of_go_range). by exists v.
  - intros [v Hv]. exists (sc, v). by rewrite elem_of_go_range.
Qed.

Lemma rr_next_step rb sc :
  rr_wf rb -> rb_scs rb !! Z.to_nat (rb_next rb) = Some sc ->
  exists rb', rrBalanced_Pick rb = Ret (rb', Ok sc) /\ rr_wf rb' /\ rb_scs rb' = rb_scs rb /\
    rb_next rb' = (if decide (rb_next rb + 1 = Z.of_nat (length (rb_scs rb)))%Z then 0 else rb_next rb + 1)%Z.
Proof.
  intros [Hlen [Hn0 Hn]] Hsc. pose proof (lookup_lt_Some _ _ _ Hsc) as Hlt.
  unfold rrBalanced_Pick. destruct (Z.eqb_spec (Z.of_nat (length (rb_scs rb))) 0); [lia|].
  destruct (Z.leb_spec 0 (rb_next rb)); [|lia]. rewrite Hsc.
  unfold maxInt64 in *. no_wrap.
  assert (Hr : Z.rem (rb_next rb + 1) (Z.of_nat (length (rb_scs rb))) =
    if decide (rb_next rb + 1 = Z.of_nat (length (rb_scs rb)))%Z then 0%Z else (rb_next rb + 1)%Z).
  { destruct (decide _) as [->|]; [apply Z.rem_same; lia|apply Z.rem_small; lia]. }
  eexists. split; [done|]. split; [|by split].
  split; simpl; [exact Hlen|]. rewrite Hr. destruct (decide _); split; intros; lia.
Qed.

(** [k] picks that do not wrap read the next [k] entries in order. *)
Lemma picks_prefix k rb :
  rr_wf rb -> Z.to_nat (rb_next rb) + k < length (rb_scs rb) ->
  exists rb', picks k (RRPicker rb) =
      Ret (RRPicker rb', Ok <$> take k (drop (Z.to_nat (rb_next rb)) (rb_scs rb))) /\
    rr_wf rb' /\ rb_scs rb' = rb_scs rb /\ rb_next rb' = (rb_next rb + Z.of_nat k)%Z.
Proof.
  revert rb. induction k as [|k IH]; intros rb Hwf Hlt; simpl.
  { exists rb. split; [done|]. split; [done|]. split; [done|lia]. }
  destruct (lookup_lt_is_Some_2 (rb_scs rb) (Z.to_nat (rb_next rb))) as [sc Hsc]; [lia|].
  destruct (rr_next_step rb sc Hwf Hsc) as (rb1 & -> & Hwf1 & Hscs1 & Hn1). simpl.
  destruct Hwf as [_ [Hge _]]. rewrite decide_False in Hn1 by lia.
  destruct (IH rb1 Hwf1) as (rb2 & -> & Hwf2 & Hscs2 & Hn2); [rewrite Hscs1; lia|]. simpl.
  exists rb2. split; [|split; [done|split; [congruence|lia]]].
  rewrite (drop_S _ sc _ Hsc). simpl. rewrite Hscs1, Hn1.
  by replace (Z.to_nat (rb_next rb + 1)) with (S (Z.to_nat (rb_next rb))) by lia.
Qed.

Lemma picks_app k m p p1 rs1 :
  picks k p = Ret (p1, rs1) ->
  picks (k + m) p = ('(p2, rs2) ← picks m p1; Ret (p2, rs1 ++ rs2)).
Proof.
  revert p rs1. induction k as [|k IH]; intros p rs1; simpl.
  { intros [= -> <-]. destruct (picks m p1) as [[]|]; done. }
  destruct (Pick p) as [[p' r]|]; simpl; [|done].
  destruct (picks k p') as [[p2 rs]|] eqn:Hk; simpl; [|done]. intros [= -> <-].
  rewrite (IH _ _ Hk). destruct (picks m p1) as [[]|]; done.
Qed.

(** Picks up to the end of the list reset [next]. *)
Lemma picks_to_end rb :
  rr_wf rb -> rb_scs rb <> [] ->
  exists rb', picks (length (rb_scs rb) - Z.to_nat (rb_next rb)) (RRPicker rb) =
      Ret (RRPicker rb', Ok <$> drop (Z.to_nat (rb_next rb)) (rb_scs rb)) /\
    rr_wf rb' /\ rb_scs rb' = rb_scs rb /\ rb_next rb' = 0%Z.
Proof.
  intros Hwf Hne. pose proof Hwf as [_ [Hge Hn]]. specialize (Hn Hne).
  set (n := length (rb_scs rb)) in *. set (i := Z.to_nat (rb_next rb)).
  replace (n - i) with ((n - i - 1) + 1) by lia.
  destruct (picks_prefix (n - i - 1) rb Hwf) as (rb1 & Hp & Hwf1 & Hscs1 & Hn1); [lia|].
  rewrite (picks_app _ _ _ _ _ Hp). simpl.
  destruct (lookup_lt_is_Some_2 (rb_scs rb1) (Z.to_nat (rb_next rb1))) as [sc Hsc].
  { rewrite Hscs1. fold n. lia. }
  destruct (rr_next_step rb1 sc Hwf1 Hsc) as (rb2 & -> & Hwf2 & Hscs2 & Hn2). simpl.
  rewrite decide_True in Hn2 by (rewrite Hscs1; fold n; lia).
  exists rb2. split; [|split; [done|split; [congruence|done]]].
  do 2 f_equal. change [Ok sc] with (Ok (E := error) <$> [sc]). rewrite <-fmap_app. f_equal.
  rewrite Hscs1 in Hsc. fold i.
  rewrite <-(take_drop (n - i - 1) (drop i (rb_scs rb))) at 2. f_equal.
  rewrite drop_drop. rewrite Hn1 in Hsc.
  replace (i + (n - i - 1)) with (Z.to_nat (rb_next rb + Z.of_nat (n - i - 1))) by lia.
  rewrite (drop_S _ sc _ Hsc), drop_ge by (fold n; lia). done.
Qed.

(** One full turn is the rotation of the list by [next], and restores [next]. *)
Lemma picks_turn rb :
  rr_wf rb -> rb_scs rb <> [] ->
  exists rb', picks (length (rb_scs rb)) (RRPicker rb) =
      Ret (RRPicker rb', Ok <$> rotate (Z.to_nat (rb_next rb)) (rb_scs rb)) /\
    rr_wf rb' /\ rb_scs rb' = rb_scs rb /\ rb_next rb' = rb_next rb.
Proof.
  intros Hwf Hne. destruct (picks_to_end rb Hwf Hne) as (rb1 & Hp1 & Hwf1 & Hscs1 & Hn1).
  destruct Hwf as [Hl [Hge Hn]]. specialize (Hn Hne).
  set (n := length (rb_scs rb)) in *. set (i := Z.to_nat (rb_next rb)) in *.
  replace (picks n (RRPicker rb)) with (picks ((n - i) + i) (RRPicker rb)) by (f_equal; lia). rewrite (picks_app _ _ _ _ _ Hp1).
  destruct (picks_prefix i rb1 Hwf1) as (rb2 & Hp2 & Hwf2 & Hscs2 & Hn2).
  { rewrite Hscs1, Hn1. fold n. simpl. lia. }
  rewrite Hp2, Hscs1, Hn1. simpl. exists rb2.
  split; [|split; [done|split; [congruence|lia]]].
  do 2 f_equal. rewrite <-fmap_app. f_equal. unfold rotate. fold n.
  rewrite (Nat.mod_small i n) by lia. by rewrite drop_0.
Qed.

Definition picked (sc : SubConn) (rs : list (result error SubConn)) : nat :=
  length (filter (fun r => match r with Ok s => bool_decide (s = sc) | Err _ => false end = true) rs).

Lemma Pick_total rb :
  rr_wf rb ->
  exists rb' r, Pick (RRPicker rb) = Ret (RRPicker rb', r) /\ rr_wf rb' /\ rb_scs rb' = rb_scs rb /\
    match r with
    | Ok sc => sc ∈ rb_scs rb
    | Err e => rb_scs rb = [] /\ e = ErrNoSubConnAvailable
    end.
Proof.
  intros Hwf. simpl. destruct (decide (rb_scs rb = [])) as [Hnil|Hne].
  - exists rb, (Err ErrNoSubConnAvailable). unfold rrBalanced_Pick. by rewrite Hnil.
  - pose proof Hwf as [_ [Hge Hn]]. specialize (Hn Hne).
    destruct (lookup_lt_is_Some_2 (rb_scs rb) (Z.to_nat (rb_next rb))) as [sc Hsc]; [lia|].
    destruct (rr_next_step rb sc Hwf Hsc) as (rb1 & -> & Hwf1 & Hscs1 & _). simpl.
    exists rb1, (Ok sc). repeat (split; [done|]). by apply list_elem_of_lookup_2 in Hsc.
Qed.

Lemma picks_total m rb :
  rr_wf rb -> exists rb' rs, picks m (RRPicker rb) = Ret (RRPicker rb', rs) /\
    rr_wf rb' /\ rb_scs rb' = rb_scs rb.
Proof.
  revert rb. induction m as [|m IH]; intros rb Hwf; cbn [picks]; [by eexists _, _|].
  destruct (Pick_total rb Hwf) as (rb1 & r & -> & Hwf1 & Hscs1 & _). simpl.
  destruct (IH rb1 Hwf1) as (rb2 & rs & -> & Hwf2 & Hscs2). simpl.
  exists rb2, (r :: rs). split; [done|]. split; [done|congruence].
Qed.

Lemma picks_length m p p' rs : picks m p = Ret (p', rs) -> length rs = m.
Proof.
  revert p rs. induction m as [|m IH]; intros p rs; simpl; [by intros [= _ <-]|].
  destruct (Pick p) as [[p1 r]|]; simpl; [|done].
  destruct (picks m p1) as [[p2 rs']|] eqn:Hk; simpl; [|done].
  intros [= -> <-]. simpl. f_equal. by eapply IH.
Qed.

Lemma picks_turn_prefix k rb :
  rr_wf rb -> rb_scs rb <> [] -> k <= length (rb_scs rb) ->
  exists rb', picks k (RRPicker rb) =
    Ret (RRPicker rb', Ok <$> take k (rotate (Z.to_nat (rb_next rb)) (rb_scs rb))).
Proof.
  intros Hwf Hne Hk. destruct (picks_turn rb Hwf Hne) as (rb1 & Hturn & _).
  destruct (picks_total k rb Hwf) as (rb2 & rs & Hp & Hwf2 & _). exists rb2.
  replace (length (rb_scs rb)) with (k + (length (rb_scs rb) - k)) in Hturn by lia.
  rewrite (picks_app _ _ _ _ _ Hp) in Hturn.
  destruct (picks_total (length (rb_scs rb) - k) rb2 Hwf2) as (rb3 & rs3 & Hp3 & _).
  rewrite Hp3 in Hturn. simpl in Hturn. injection Hturn as _ Heq.
  pose proof (picks_length _ _ _ _ Hp).
  rewrite Hp. do 2 f_equal. rewrite fmap_take, <-Heq.
  by rewrite take_app_le, take_ge by lia.
Qed.

Lemma picked_app sc rs1 rs2 : picked sc (rs1 ++ rs2) = picked sc rs1 + picked sc rs2.
Proof. unfold picked. by rewrite filter_app, length_app. Qed.

Lemma picked_Ok sc (l : list SubConn) :
  picked sc (Ok <$> l) = length (filter (fun s => s = sc) l).
Proof.
  unfold picked. rewrite filter_fmap, length_fmap. f_equal. apply list_filter_iff.
  intros s. simpl. apply bool_decide_eq_true.
Qed.

Lemma picked_NoDup sc (l : list SubConn) : NoDup l -> picked sc (Ok <$> l) <= 1.
Proof.
  rewrite picked_Ok. induction 1 as [|x l Hx Hl IH]; [simpl; lia|].
  rewrite filter_cons. destruct (decide (x = sc)) as [->|]; [|done].
  rewrite filter_none; [simpl; lia|]. by intros y Hy ->.
Qed.

Lemma picked_elem sc (l : list SubConn) : sc ∈ l -> 1 <= picked sc (Ok <$> l).
Proof.
  rewrite picked_Ok. intros Hin. assert (Hf : sc ∈ filter (fun s => s = sc) l) by by apply list_elem_of_filter.
  destruct (filter _ l); simpl; [by apply not_elem_of_nil in Hf|lia].
Qed.

Lemma rotate_Permutation k (l : list SubConn) : rotate k l ≡ₚ l.
Proof. unfold rotate. by rewrite Permutation_app_comm, take_drop. Qed.

(** [q] turns pick every entry [q] times. *)
Lemma picks_turns q rb :
  rr_wf rb -> rb_scs rb <> [] -> NoDup (rb_scs rb) ->
  exists rb' rs, picks (q * length (rb_scs rb)) (RRPicker rb) = Ret (RRPicker rb', rs) /\
    rr_wf rb' /\ rb_scs rb' = rb_scs rb /\
    forall sc, sc ∈ rb_scs rb -> picked sc rs = q.
Proof.
  intros Hwf Hne Hnd. revert rb Hwf Hne Hnd. induction q as [|q IH]; intros rb Hwf Hne Hnd.
  { exists rb, []. by repeat split; destruct Hwf as [? []]. }
  destruct (picks_turn rb Hwf Hne) as (rb1 & Hp1 & Hwf1 & Hscs1 & _).
  rewrite <-Hscs1 in Hne, Hnd. destruct (IH rb1 Hwf1 Hne Hnd) as (rb2 & rs & Hp2 & Hwf2 & Hscs2 & Hc).
  rewrite Hscs1 in *. simpl. rewrite (picks_app _ _ _ _ _ Hp1), Hp2. simpl.
  eexists rb2, _. split; [done|]. split; [done|]. split; [done|].
  intros sc Hsc. rewrite picked_app, (Hc sc Hsc). simpl.
  pose proof (rotate_Permutation (Z.to_nat (rb_next rb)) (rb_scs rb)) as Hperm.
  assert (Hnd' : NoDup (rotate (Z.to_nat (rb_next rb)) (rb_scs rb))) by by rewrite Hperm.
  assert (Hin : sc ∈ rotate (Z.to_nat (rb_next rb)) (rb_scs rb)) by by rewrite Hperm.
  pose proof (picked_NoDup sc _ Hnd'). pose proof (picked_elem sc _ Hin). lia.
Qed.

(** ** Properties *)

(** One turn of the round-robin picker.  From any state with ready
    connections, [length scs] consecutive requests all succeed, hand out every
    connection of the list exactly once (in rotated order), never index out of
    range, and leave the picker where it was. *)
Theorem roundrobin_turn rb :
  rr_wf rb -> rb_scs rb <> [] ->
  exists rb' served, picks (length (rb_scs rb)) (RRPicker rb) = Ret (RRPicker rb', Ok <$> served) /\
    served ≡ₚ rb_scs rb /\ rb_next rb' = rb_next rb /\ rb_scs rb' = rb_scs rb.
Proof.
  intros Hwf Hne. destruct (picks_turn rb Hwf Hne) as (rb' & Hp & _ & Hscs & Hn).
  eexists rb', _. split; [exact Hp|]. split; [|done]. apply rotate_Permutation.
Qed.

(** C30: fairness.  Over any number [m] of consecutive requests to a picker made
    by [newRoundrobinBalanced], whatever the map's iteration order, each of its [n]
    connections is handed out at least [m / n] and at most [m / n + 1] times, and
    the requests never fail or panic. *)
Theorem roundrobin_fair cfg m :
  (Z.of_nat (size (cfg_SubConnToResolverAddress cfg)) <= maxInt64)%Z ->
  cfg_SubConnToResolverAddress cfg <> ∅ ->
  exists p rs, picks m (RRPicker (newRoundrobinBalanced cfg)) = Ret (p, rs) /\ length rs = m /\
    forall sc, is_Some (cfg_SubConnToResolverAddress cfg !! sc) ->
      m / size (cfg_SubConnToResolverAddress cfg) <= picked sc rs
        <= m / size (cfg_SubConnToResolverAddress cfg) + 1.
Proof.
  set (mp := cfg_SubConnToResolverAddress cfg). intros Hsize Hne.
  set (rb := newRoundrobinBalanced cfg).
  assert (Hlen : length (rb_scs rb) = size mp).
  { unfold rb. rewrite newRoundrobinBalanced_scs, length_fmap, go_range_perm. by rewrite length_map_to_list. }
  assert (Hne' : rb_scs rb <> []).
  { intros Hnil. apply Hne, map_size_empty_inv. by rewrite <-Hlen, Hnil. }
  assert (Hnd : NoDup (rb_scs rb)) by (unfold rb; rewrite newRoundrobinBalanced_scs; auto).
  assert (Hpos : 0 < length (rb_scs rb)) by (destruct (rb_scs rb); [done|simpl; lia]).
  assert (Hwf : rr_wf rb) by (split; [lia|change (rb_next rb) with 0%Z; split; intros; lia]).
  rewrite <-Hlen. set (n := length (rb_scs rb)) in *.
  destruct (picks_turns (m / n) rb Hwf Hne' Hnd) as (rb1 & rs1 & Hp1 & Hwf1 & Hscs1 & Hc1).
  destruct (picks_turn_prefix (m `mod` n) rb1 Hwf1) as (rb2 & Hp2).
  { congruence. } { rewrite Hscs1. pose proof (Nat.mod_upper_bound m n). fold n. lia. }
  exists (RRPicker rb2), (rs1 ++ (Ok <$> take (m `mod` n) (rotate (Z.to_nat (rb_next rb1)) (rb_scs rb1)))).
  assert (Hm : picks m (RRPicker rb) = Ret (RRPicker rb2, rs1 ++ (Ok <$> take (m `mod` n) (rotate (Z.to_nat (rb_next rb1)) (rb_scs rb1))))).
  { replace m with (m / n * n + m `mod` n) at 1 by (pose proof (Nat.div_mod_eq m n); lia).
    rewrite (picks_app _ _ _ _ _ Hp1), Hp2. done. }
  split; [exact Hm|]. split.
  - by eapply picks_length.
  - intros sc Hsc. apply (elem_of_new_scs cfg) in Hsc. fold rb in Hsc.
    rewrite picked_app, (Hc1 sc Hsc).
    assert (Hr : NoDup (take (m `mod` n) (rotate (Z.to_nat (rb_next rb1)) (rb_scs rb1)))).
    { apply (sublist_NoDup _ (rotate (Z.to_nat (rb_next rb1)) (rb_scs rb1))); [|apply sublist_take]. 
      rewrite rotate_Permutation. congruence. }
    pose proof (picked_NoDup sc _ Hr). lia.
Qed.

End Picker.
Arguments Picker : clear implicits.
Arguments Picker _ _ _ {_ _}.

(** ** Witnesses *)
Definition demo_config : PickerConfig (SubConn := nat) (Address := string) :=
  mkPickerConfig RoundrobinBalanced (<[1 := "a"]> (<[2 := "b"]> (<[3 := "c"]> ∅))).

Definition demo_rr : rrBalanced (SubConn := nat) (Address := string) :=
  mkRR RoundrobinBalanced 2 [10; 20; 30] ∅.

Example roundrobin_turn_witness :
  rr_wf demo_rr /\ rb_scs demo_rr <> [] /\
  exists rb' served, picks "no subconn"%string 3 (RRPicker demo_rr) = Ret (RRPicker rb', Ok <$> served) /\
    served ≡ₚ [10; 20; 30] /\ rb_next rb' = 2%Z /\ rb_scs rb' = [10; 20; 30].
Proof.
  assert (H1 : rr_wf demo_rr) by (split; [unfold maxInt64|]; simpl; lia).
  assert (H2 : rb_scs demo_rr <> []) by done.
  exact (conj H1 (conj H2 (roundrobin_turn "no subconn"%string demo_rr H1 H2))).
Defined.

Example roundrobin_fair_witness :
  let _ := range_in_key_order in
  (Z.of_nat (size (cfg_SubConnToResolverAddress demo_config)) <= maxInt64)%Z /\
  cfg_SubConnToResolverAddress demo_config <> ∅ /\
  exists p rs, picks "no subconn"%string 7 (RRPicker (newRoundrobinBalanced demo_config)) = Ret (p, rs) /\
    length rs = 7 /\
    forall sc, is_Some (cfg_SubConnToResolverAddress demo_config !! sc) ->
      7 / size (cfg_SubConnToResolverAddress demo_config) <= picked sc rs
        <= 7 / size (cfg_SubConnToResolverAddress demo_config) + 1.
Proof.
  intros go.
  assert (H1 : (Z.of_nat (size (cfg_SubConnToResolverAddress demo_config)) <= maxInt64)%Z) by (vm_compute; done).
  assert (H2 : cfg_SubConnToResolverAddress demo_config <> ∅) by done.
  exact (conj H1 (conj H2 (roundrobin_fair "no subconn"%string demo_config 7 H1 H2))).
Defined.
