(* ===== verification/Balancer.v ===== *)
(** * grpc/client/balancer: the client-side load balancer

    [baseBalancer] keeps three maps between resolved addresses, sub-connections and
    their connectivity states, an aggregating recorder and the current picker.
    grpc's [ClientConn] is an interface: a class with the one operation whose
    answer matters ([NewSubConn]) and its documented laws; the calls the balancer
    makes on it ([Connect], [RemoveSubConn], [UpdateBalancerState]) are returned as
    a list in the order they are made.  Both handlers run under [bb.mu], so each is
    one step. *)
From S2P Require Import Prelude Connectivity Picker.

(** What the balancer relies on of grpc's [ClientConn]: a sub-connection it hands
    out is a new one, and there are fewer of them than an [int] counts. *)
Class ClientConn (W Address SubConn : Type) `{Countable SubConn} : Type := {
  NewSubConn : W -> list Address -> option SubConn * W;
  issued : W -> gset SubConn;
  issued_bound w : Z.le (Z.of_nat (size (issued w))) maxInt64;
  NewSubConn_fresh w addrs sc w' : NewSubConn w addrs = (Some sc, w') ->
    (sc ∉ issued w) /\ issued w' = {[sc]} ∪ issued w;
  NewSubConn_error w addrs w' : NewSubConn w addrs = (None, w') -> issued w' = issued w
}.

Section Balancer.
Context {Address SubConn error W : Type} `{Countable Address} `{Countable SubConn}.
Context `{!GoRange} `{!ClientConn W Address SubConn}.
Context (ErrNoSubConnAvailable ErrTransientFailure : error).

#[local] Abbreviation picker_t := (Picker SubConn Address error).

(* src/grpc/client/balancer/balancer.go:22-35 Config *)
Record BalancerConfig : Type := mkBalancerConfig { bc_Policy : Policy; bc_Name : string }.

(* src/grpc/client/balancer/balancer.go:93-108 baseBalancer *)
Record baseBalancer : Type := mkBalancer {
  bb_id : string;
  bb_policy : Policy;
  bb_name : string;
  addrToSc : gmap Address SubConn;
  scToAddr : gmap SubConn Address;
  scToSt : gmap SubConn State;
  connectivityRecorder : recorder;
  bb_picker : picker_t
}.

(** Calls on the [ClientConn] and its sub-connections. *)
Inductive cc_call : Type :=
| CallConnect (sc : SubConn)
| CallRemoveSubConn (sc : SubConn)
| CallUpdateBalancerState (st : State) (p : picker_t).

Definition set_maps (bb : baseBalancer) a2s s2a s2st : baseBalancer :=
  mkBalancer (bb_id bb) (bb_policy bb) (bb_name bb) a2s s2a s2st (connectivityRecorder bb) (bb_picker bb).
Definition set_recorder (bb : baseBalancer) rc : baseBalancer :=
  mkBalancer (bb_id bb) (bb_policy bb) (bb_name bb) (addrToSc bb) (scToAddr bb) (scToSt bb) rc (bb_picker bb).
Definition set_picker (bb : baseBalancer) p : baseBalancer :=
  mkBalancer (bb_id bb) (bb_policy bb) (bb_name bb) (addrToSc bb) (scToAddr bb) (scToSt bb)
    (connectivityRecorder bb) p.

(** [id] is the clock reading the code prints in base 36. *)
(* src/grpc/client/balancer/balancer.go:51-74 builder.Build *)
Definition Build (cfg : BalancerConfig) (zero : State) (id : string) : baseBalancer :=
  {| bb_id := id; bb_policy := bc_Policy cfg; bb_name := bc_Name cfg;
     addrToSc := ∅; scToAddr := ∅; scToSt := ∅;
     connectivityRecorder := Connectivity.New zero;
     bb_picker := NewErr ErrNoSubConnAvailable |}.

(* src/grpc/client/balancer/balancer.go:77-77 builder.Name *)
Definition builder_Name (cfg : BalancerConfig) : string := bc_Name cfg.

(* src/grpc/client/balancer/balancer.go:123-135 baseBalancer.HandleResolvedAddrs *)
Fixpoint add_resolved (bb : baseBalancer) (w : W) (resolved : gset Address) (addrs : list Address)
    : baseBalancer * W * gset Address * list cc_call :=
  match addrs with
  | [] => (bb, w, resolved, [])
  | addr :: addrs =>
      let resolved := {[addr]} ∪ resolved in
      match addrToSc bb !! addr with
      | Some _ => add_resolved bb w resolved addrs
      | None =>
          match NewSubConn w [addr] with
          | (None, w) => add_resolved bb w resolved addrs
          | (Some sc, w) =>
              let bb := set_maps bb (<[addr := sc]> (addrToSc bb)) (<[sc := addr]> (scToAddr bb))
                          (<[sc := Idle]> (scToSt bb)) in
              let '(bb, w, resolved, calls) := add_resolved bb w resolved addrs in
              (bb, w, resolved, CallConnect sc :: calls)
          end
      end
  end.

(* src/grpc/client/balancer/balancer.go:137-148 baseBalancer.HandleResolvedAddrs *)
Fixpoint drop_unresolved (bb : baseBalancer) (resolved : gset Address) (entries : list (Address * SubConn))
    : baseBalancer * list cc_call :=
  match entries with
  | [] => (bb, [])
  | (addr, sc) :: entries =>
      if decide (addr ∈ resolved) then drop_unresolved bb resolved entries
      else
        let bb := set_maps bb (delete addr (addrToSc bb)) (scToAddr bb) (scToSt bb) in
        let '(bb, calls) := drop_unresolved bb resolved entries in
        (bb, CallRemoveSubConn sc :: calls)
  end.

(* src/grpc/client/balancer/balancer.go:112-149 baseBalancer.HandleResolvedAddrs *)
Definition HandleResolvedAddrs (bb : baseBalancer) (w : W) (addrs : list Address) (err : option error)
    : baseBalancer * W * list cc_call :=
  match err with
  | Some _ => (bb, w, [])
  | None =>
      let '(bb, w, resolved, calls1) := add_resolved bb w ∅ addrs in
      let '(bb, calls2) := drop_unresolved bb resolved (go_range (addrToSc bb)) in
      (bb, w, calls1 ++ calls2)
  end.

(** The ready entries of [bb.addrToSc], turned around. *)
(* src/grpc/client/balancer/balancer.go:199-204 baseBalancer.updatePicker *)
Definition ready_subconns (bb : baseBalancer) : gmap SubConn Address :=
  foldl (fun m e =>
    if decide (scToSt bb !! e.2 = Some Ready) then <[e.2 := e.1]> m else m) ∅
    (go_range (addrToSc bb)).

(* src/grpc/client/balancer/balancer.go:192-211 baseBalancer.updatePicker *)
Definition updatePicker (bb : baseBalancer) : outcome baseBalancer :=
  if decide (GetCurrentState (connectivityRecorder bb) = TransientFailure) then
    Ret (set_picker bb (NewErr ErrTransientFailure))
  else
    p ← Picker.New (mkPickerConfig (bb_policy bb) (ready_subconns bb));
    Ret (set_picker bb p).

(** Whether the picker has to be rebuilt. *)
(* src/grpc/client/balancer/balancer.go:182-183 baseBalancer.HandleSubConnStateChange *)
Definition picker_outdated (s old cur' oldAggrState : State) : bool :=
  negb (Bool.eqb (bool_decide (s = Ready)) (bool_decide (old = Ready))) ||
  negb (Bool.eqb (bool_decide (cur' = TransientFailure)) (bool_decide (oldAggrState = TransientFailure))).

(* src/grpc/client/balancer/balancer.go:152-190 baseBalancer.HandleSubConnStateChange *)
Definition HandleSubConnStateChange (bb : baseBalancer) (sc : SubConn) (s : State)
    : outcome (baseBalancer * list cc_call) :=
  match scToSt bb !! sc with
  | None => Ret (bb, [])
  | Some old =>
      let bb := set_maps bb (addrToSc bb) (scToAddr bb) (<[sc := s]> (scToSt bb)) in
      let '(bb, calls) :=
        match s with
        | Idle => (bb, [CallConnect sc])
        | Shutdown => (set_maps bb (addrToSc bb) (delete sc (scToAddr bb)) (delete sc (scToSt bb)), [])
        | _ => (bb, [])
        end in
      let oldAggrState := GetCurrentState (connectivityRecorder bb) in
      let bb := set_recorder bb (RecordTransition (connectivityRecorder bb) old s) in
      bb ← (if picker_outdated s old (GetCurrentState (connectivityRecorder bb)) oldAggrState
            then updatePicker bb else Ret bb);
      Ret (bb, calls ++ [CallUpdateBalancerState (GetCurrentState (connectivityRecorder bb)) (bb_picker bb)])
  end.

(* src/grpc/client/balancer/balancer.go:216-218 baseBalancer.Close *)
Definition Balancer_Close (bb : baseBalancer) : baseBalancer := bb.

(** ** The balancer as a transition system

    grpc calls the two handlers and, for each request, [Pick] on the picker it was
    last given, which is the object [bb.picker] points to. *)
Inductive step : baseBalancer * W -> list cc_call -> baseBalancer * W -> Prop :=
| step_resolved bb w addrs err bb' w' calls :
    HandleResolvedAddrs bb w addrs err = (bb', w', calls) ->
    step (bb, w) calls (bb', w')
| step_state bb w sc s bb' calls :
    HandleSubConnStateChange bb sc s = Ret (bb', calls) ->
    step (bb, w) calls (bb', w)
| step_pick bb w p r :
    Pick ErrNoSubConnAvailable (bb_picker bb) = Ret (p, r) ->
    step (bb, w) [] (set_picker bb p, w).

Inductive reachable (cfg : BalancerConfig) (zero : State) (id : string) : baseBalancer * W -> Prop :=
| reach_init w : issued w = ∅ -> reachable cfg zero id (Build cfg zero id, w)
| reach_step st calls st' : reachable cfg zero id st -> step st calls st' -> reachable cfg zero id st'.

Definition states_of (bb : baseBalancer) : list State := (map_to_list (scToSt bb)).*2.

(** ** Invariant *)
Record maps_ok (bb : baseBalancer) (w : W) : Prop := {
  mo_dom sc : is_Some (scToAddr bb !! sc) <-> is_Some (scToSt bb !! sc);
  mo_addr a sc : addrToSc bb !! a = Some sc -> scToSt bb !! sc = None \/ scToAddr bb !! sc = Some a;
  mo_inj a a' sc : addrToSc bb !! a = Some sc -> addrToSc bb !! a' = Some sc -> a = a';
  mo_issued_a a sc : addrToSc bb !! a = Some sc -> sc ∈ issued w;
  mo_issued_s sc : is_Some (scToSt bb !! sc) -> sc ∈ issued w
}.

(** What the picker may hand out, against the balancer's state. *)
Definition picker_ok (bb : baseBalancer) : Prop :=
  match bb_picker bb with
  | ErrPicker ep =>
      if decide (GetCurrentState (connectivityRecorder bb) = TransientFailure)
      then ep_err ep = ErrTransientFailure
      else ep_err ep = ErrNoSubConnAvailable /\ forall sc, scToSt bb !! sc <> Some Ready
  | RRPicker rb =>
      GetCurrentState (connectivityRecorder bb) <> TransientFailure /\ rr_wf rb /\
      (forall sc, sc ∈ rb_scs rb -> scToSt bb !! sc = Some Ready) /\
      (forall a sc, addrToSc bb !! a = Some sc -> scToSt bb !! sc = Some Ready -> sc ∈ rb_scs rb)
  end.

(** The recorder counts the tracked states; its verdict is their aggregate as
    soon as one of them has left [Idle]. *)
Record recorder_ok (zero : State) (bb : baseBalancer) : Prop := {
  ro_tracks : tracks (connectivityRecorder bb) (states_of bb);
  ro_cur : GetCurrentState (connectivityRecorder bb) = aggregate (states_of bb) \/
           GetCurrentState (connectivityRecorder bb) = zero /\ Forall (fun s => s = Idle) (states_of bb)
}.

Record bal_inv (zero : State) (bb : baseBalancer) (w : W) : Prop := {
  bi_policy : bb_policy bb = RoundrobinBalanced;
  bi_maps : maps_ok bb w;
  bi_recorder : recorder_ok zero bb;
  bi_picker : picker_ok bb
}.

(** ** Lemmas on the tracked states *)
Lemma states_of_insert (m : gmap SubConn State) sc s :
  m !! sc = None -> (map_to_list (<[sc := s]> m)).*2 ≡ₚ s :: (map_to_list m).*2.
Proof. intros Hm. by rewrite map_to_list_insert. Qed.

Lemma states_of_replace (m : gmap SubConn State) sc old :
  m !! sc = Some old -> (map_to_list m).*2 ≡ₚ old :: (map_to_list (delete sc m)).*2.
Proof. intros Hm. by rewrite <-(map_to_list_delete m sc old Hm). Qed.

Lemma elem_of_states bb s : s ∈ states_of bb <-> exists sc, scToSt bb !! sc = Some s.
Proof.
  unfold states_of. rewrite list_elem_of_fmap. split.
  - intros ([sc x] & -> & Hin%elem_of_map_to_list). by exists sc.
  - intros [sc Hsc]. exists (sc, s). by rewrite elem_of_map_to_list.
Qed.

Lemma states_of_bound bb w : maps_ok bb w -> (Z.of_nat (length (states_of bb)) <= maxInt64)%Z.
Proof.
  intros Hm. unfold states_of. rewrite length_fmap, length_map_to_list, <-size_dom.
  pose proof (issued_bound w). assert (size (dom (scToSt bb)) <= size (issued w)); [|lia].
  apply subseteq_size. intros sc Hsc%elem_of_dom. by apply (mo_issued_s _ _ Hm).
Qed.

Lemma aggregate_uncounted s l : s = Idle \/ s = Shutdown -> aggregate (s :: l) = aggregate l.
Proof.
  intros Hs. unfold aggregate.
  rewrite (decide_ext (Ready ∈ s :: l) (Ready ∈ l)), (decide_ext (Connecting ∈ s :: l) (Connecting ∈ l)); [done|..];
  rewrite elem_of_cons; destruct Hs as [-> | ->]; split; (by intros [?|?]) || by right.
Qed.

(** ** The set of ready entries handed to the picker *)
Lemma ready_fold (bb : baseBalancer) (l : list (Address * SubConn)) (m : gmap SubConn Address) sc :
  is_Some (foldl (fun m e => if decide (scToSt bb !! e.2 = Some Ready) then <[e.2 := e.1]> m else m) m l !! sc) <->
  is_Some (m !! sc) \/ (exists a, (a, sc) ∈ l) /\ scToSt bb !! sc = Some Ready.
Proof.
  revert m. induction l as [|[a0 sc0] l IH]; intros m; simpl.
  { split; [by left|]. intros [?|[[a Ha%not_elem_of_nil] _]]; done. }
  rewrite IH. destruct (decide (scToSt bb !! sc0 = Some Ready)) as [Hr|Hr].
  - rewrite lookup_insert. destruct (decide (sc0 = sc)) as [->|Hne]; split.
    + intros _. right. split; [exists a0; left|done].
    + intros _. by left.
    + intros [?|[[a Ha] ?]]; [by left|right; split; [exists a; by right|done]].
    + intros [?|[[a Ha] ?]]; [by left|right]. split; [|done].
      apply elem_of_cons in Ha as [[= -> ->]|Ha]; [done|by exists a].
  - split.
    + intros [?|[[a Ha] ?]]; [by left|right; split; [exists a; by right|done]].
    + intros [?|[[a Ha] ?]]; [by left|right]. split; [|done].
      apply elem_of_cons in Ha as [[= -> ->]|Ha]; [done|by exists a].
Qed.

Lemma ready_subconns_spec bb sc :
  is_Some (ready_subconns bb !! sc) <->
  (exists a, addrToSc bb !! a = Some sc) /\ scToSt bb !! sc = Some Ready.
Proof.
  unfold ready_subconns. rewrite ready_fold, lookup_empty. split.
  - intros [[? [=]]|[[a Ha%elem_of_go_range] ?]]. split; [by exists a|done].
  - intros [[a Ha] ?]. right. split; [exists a; by apply elem_of_go_range|done].
Qed.

Lemma ready_subconns_size bb w :
  maps_ok bb w -> (Z.of_nat (size (ready_subconns bb)) <= maxInt64)%Z.
Proof.
  intros Hm. pose proof (issued_bound w). rewrite <-size_dom.
  assert (size (dom (ready_subconns bb)) <= size (issued w)); [|lia].
  apply subseteq_size. intros sc Hsc%elem_of_dom%ready_subconns_spec.
  apply (mo_issued_s _ _ Hm). destruct Hsc as [_ ->]. done.
Qed.

Lemma newRoundrobinBalanced_wf (cfg : PickerConfig) :
  (Z.of_nat (size (cfg_SubConnToResolverAddress cfg)) <= maxInt64)%Z ->
  rr_wf (newRoundrobinBalanced (SubConn := SubConn) (Address := Address) cfg).
Proof.
  intros Hs. split.
  - rewrite newRoundrobinBalanced_scs, length_fmap, go_range_perm. by rewrite length_map_to_list.
  - split; [done|]. intros Hne. change (rb_next _) with 0%Z.
    destruct (rb_scs _); [done|simpl; lia].
Qed.

(** [updatePicker] establishes the picker invariant. *)
Lemma updatePicker_ok bb w :
  bb_policy bb = RoundrobinBalanced -> maps_ok bb w ->
  exists p, updatePicker bb = Ret (set_picker bb p) /\ picker_ok (set_picker bb p).
Proof.
  intros Hpol Hm. unfold updatePicker. destruct (decide _) as [Htf|Htf].
  - eexists. split; [done|]. unfold picker_ok. simpl. by rewrite decide_True.
  - rewrite Hpol. set (cfg := mkPickerConfig RoundrobinBalanced (ready_subconns bb)).
    exists (RRPicker (newRoundrobinBalanced cfg)). split; [done|].
    assert (Hscs : forall sc, sc ∈ rb_scs (newRoundrobinBalanced cfg) <-> is_Some (ready_subconns bb !! sc)).
    { intros sc. apply (elem_of_new_scs cfg). }
    assert (Hwf : rr_wf (newRoundrobinBalanced cfg)).
    { apply newRoundrobinBalanced_wf. by apply (ready_subconns_size bb w). }
    revert Hscs Hwf. generalize (newRoundrobinBalanced cfg). intros rb Hscs Hwf.
    split; [done|]. split; [done|]. split.
    + by intros sc [_ ?]%Hscs%ready_subconns_spec.
    + intros a sc Ha Hr. apply Hscs, ready_subconns_spec. eauto.
Qed.

(** ** A state change *)

(** The maps after a state change, and the call it makes. *)
Definition changed (bb : baseBalancer) (sc : SubConn) (s : State) : baseBalancer :=
  set_maps bb (addrToSc bb) (if decide (s = Shutdown) then delete sc (scToAddr bb) else scToAddr bb)
    (if decide (s = Shutdown) then delete sc (scToSt bb) else <[sc := s]> (scToSt bb)).

Lemma HandleSubConnStateChange_eq bb sc s old :
  scToSt bb !! sc = Some old ->
  HandleSubConnStateChange bb sc s =
    let bb1 := set_recorder (changed bb sc s) (RecordTransition (connectivityRecorder bb) old s) in
    bb2 ← (if picker_outdated s old (GetCurrentState (connectivityRecorder bb1))
                (GetCurrentState (connectivityRecorder bb))
           then updatePicker bb1 else Ret bb1);
    Ret (bb2, (if decide (s = Idle) then [CallConnect sc] else []) ++
              [CallUpdateBalancerState (GetCurrentState (connectivityRecorder bb2)) (bb_picker bb2)]).
Proof.
  intros Hold. unfold HandleSubConnStateChange. rewrite Hold. unfold changed.
  destruct s; cbn; try done. by rewrite delete_insert_eq.
Qed.

Lemma changed_state bb sc s sc' :
  scToSt (changed bb sc s) !! sc' =
  if decide (sc = sc') then (if decide (s = Shutdown) then None else Some s) else scToSt bb !! sc'.
Proof.
  unfold changed. simpl. destruct (decide (s = Shutdown)).
  - rewrite lookup_delete. by destruct (decide (sc = sc')).
  - rewrite lookup_insert. by destruct (decide (sc = sc')).
Qed.

Lemma changed_states_of bb sc s old :
  scToSt bb !! sc = Some old ->
  exists rest, states_of bb ≡ₚ old :: rest /\
    (if decide (s = Shutdown) then states_of (changed bb sc s) = rest
     else states_of (changed bb sc s) ≡ₚ s :: rest).
Proof.
  intros Hold. exists (map_to_list (delete sc (scToSt bb))).*2.
  split; [by apply states_of_replace|]. unfold states_of, changed. simpl.
  destruct (decide (s = Shutdown)); [done|].
  rewrite (states_of_replace _ sc s) by apply lookup_insert_eq. by rewrite delete_insert_eq.
Qed.

Lemma changed_maps bb w sc s :
  is_Some (scToSt bb !! sc) -> maps_ok bb w -> maps_ok (changed bb sc s) w.
Proof.
  intros Hsc [Hdom Haddr Hinj Hia His]. split.
  - intros sc'. rewrite changed_state. unfold changed. simpl.
    destruct (decide (s = Shutdown)); [rewrite lookup_delete|];
      destruct (decide (sc = sc')) as [<-|]; rewrite ?Hdom; done.
  - intros a sc' Ha. rewrite changed_state. unfold changed in *. simpl in *.
    destruct (decide (s = Shutdown)); [rewrite lookup_delete|];
      destruct (decide (sc = sc')) as [<-|]; eauto.
    destruct (Haddr _ _ Ha) as [Hn|?]; [|by right]. rewrite Hn in Hsc. by destruct Hsc.
  - exact Hinj.
  - exact Hia.
  - intros sc'. rewrite changed_state. destruct (decide (sc = sc')) as [<-|]; eauto.
Qed.

Lemma changed_recorder zero bb w sc s old :
  maps_ok bb w -> scToSt bb !! sc = Some old -> recorder_ok zero bb ->
  let rc := RecordTransition (connectivityRecorder bb) old s in
  tracks rc (states_of (changed bb sc s)) /\ GetCurrentState rc = aggregate (states_of (changed bb sc s)).
Proof.
  intros Hm Hold [Ht _] rc. pose proof (states_of_bound _ _ Hm) as Hb.
  destruct (changed_states_of bb sc s old Hold) as (rest & Hrest & Hnew).
  rewrite Hrest in Ht. rewrite (Permutation_length Hrest) in Hb. simpl in Hb.
  pose proof (RecordTransition_tracks _ _ s _ Ht) as Ht'. fold rc in Ht'.
  assert (Hagg : GetCurrentState rc = aggregate (s :: rest)).
  { unfold rc. rewrite RecordTransition_cur. apply evaluate_aggregate; [done|].
    simpl. unfold maxInt64 in Hb. lia. }
  destruct (decide (s = Shutdown)) as [->|]; [rewrite Hnew|by rewrite Hnew].
  rewrite aggregate_uncounted in Hagg by by right. split; [|done].
  by apply (tracks_uncounted rc Shutdown); [right|].
Qed.

Lemma aggregate_not_Ready l : aggregate l = TransientFailure -> ~ Ready ∈ l.
Proof. unfold aggregate. by destruct (decide (Ready ∈ l)). Qed.

(** Without an update the old picker still fits the new state. *)
Lemma picker_kept bb sc s old rc :
  scToSt bb !! sc = Some old -> picker_ok bb ->
  picker_outdated s old (GetCurrentState rc) (GetCurrentState (connectivityRecorder bb)) = false ->
  picker_ok (set_recorder (changed bb sc s) rc).
Proof.
  intros Hold Hp Hout. unfold picker_outdated in Hout.
  apply orb_false_elim in Hout as [Hr%negb_false_iff%Bool.eqb_prop Hc%negb_false_iff%Bool.eqb_prop].
  assert (Hready : forall sc', scToSt (changed bb sc s) !! sc' = Some Ready <-> scToSt bb !! sc' = Some Ready).
  { intros sc'. rewrite changed_state. destruct (decide (sc = sc')) as [<-|]; [|done].
    rewrite Hold. destruct (decide (s = Shutdown)) as [->|].
    - rewrite bool_decide_eq_false_2 in Hr by done. symmetry in Hr. apply bool_decide_eq_false in Hr.
      split; [done|congruence].
    - destruct (decide (s = Ready)) as [->|Hs].
      + rewrite bool_decide_eq_true_2 in Hr by done. symmetry in Hr. apply bool_decide_eq_true in Hr. by subst.
      + rewrite bool_decide_eq_false_2 in Hr by done. symmetry in Hr. apply bool_decide_eq_false in Hr.
        split; congruence. }
  assert (Hcur : GetCurrentState rc = TransientFailure <->
                 GetCurrentState (connectivityRecorder bb) = TransientFailure).
  { split; intros Hx; [rewrite bool_decide_eq_true_2 in Hc by done; symmetry in Hc|
                       rewrite (bool_decide_eq_true_2 _ Hx) in Hc]; by apply bool_decide_eq_true in Hc. }
  unfold picker_ok in *. cbn [set_recorder connectivityRecorder bb_picker changed set_maps addrToSc].
  cbn [set_recorder changed set_maps scToSt] in *.
  destruct (bb_picker bb) as [ep|rb].
  - destruct (decide (GetCurrentState rc = TransientFailure)) as [Ht|Ht].
    + by rewrite decide_True in Hp by tauto.
    + rewrite decide_False in Hp by tauto. destruct Hp as [He Hn]. split; [done|].
      intros sc' Hx. by apply (Hn sc'), Hready.
  - destruct Hp as (Hne & Hwf & Hin & Hall). split; [tauto|]. split; [done|]. split.
    + intros sc' Hsc'. apply Hready. by apply Hin.
    + intros a sc' Ha Hx. apply (Hall a); [done|]. by apply Hready.
Qed.

(** A state change never panics, keeps the invariant and publishes the new
    aggregate together with the picker in force. *)
Lemma HandleSubConnStateChange_inv zero bb w sc s :
  bal_inv zero bb w ->
  exists bb' calls, HandleSubConnStateChange bb sc s = Ret (bb', calls) /\ bal_inv zero bb' w /\
    (is_Some (scToSt bb !! sc) ->
     scToSt bb' = scToSt (changed bb sc s) /\ scToAddr bb' = scToAddr (changed bb sc s) /\
     addrToSc bb' = addrToSc bb /\
     calls = (if decide (s = Idle) then [CallConnect sc] else []) ++
             [CallUpdateBalancerState (aggregate (states_of bb')) (bb_picker bb')]) /\
    (scToSt bb !! sc = None -> bb' = bb /\ calls = []).
Proof.
  intros [Hpol Hm Hrec Hpick]. destruct (scToSt bb !! sc) as [old|] eqn:Hold.
  2:{ exists bb, []. unfold HandleSubConnStateChange. rewrite Hold.
      split; [done|]. split; [done|]. split; [by intros [? [=]]|done]. }
  rewrite (HandleSubConnStateChange_eq _ _ _ _ Hold). cbv zeta.
  destruct (changed_recorder zero bb w sc s old Hm Hold Hrec) as [Ht Hcur].
  pose proof (changed_maps bb w sc s (mk_is_Some _ _ Hold) Hm) as Hm'.
  set (rc := RecordTransition (connectivityRecorder bb) old s) in *.
  set (bb1 := set_recorder (changed bb sc s) rc).
  assert (Hm1 : maps_ok bb1 w) by by destruct Hm'.
  assert (Hfin : exists p, (if picker_outdated s old (GetCurrentState (connectivityRecorder bb1))
                (GetCurrentState (connectivityRecorder bb)) then updatePicker bb1 else Ret bb1)
              = Ret (set_picker bb1 p) /\ picker_ok (set_picker bb1 p)).
  { destruct (picker_outdated _ _ _ _) eqn:Hout.
    - apply (updatePicker_ok bb1 w); done.
    - exists (bb_picker bb1). split; [done|]. by apply (picker_kept bb sc s old rc). }
  destruct Hfin as (p & -> & Hp). simpl. eexists _, _. split; [done|].
  split; [|split; [|done]].
  - split; [done| |split; [exact Ht|by left]|exact Hp]. by destruct Hm'.
  - intros _. repeat (split; [done|]). do 3 f_equal. exact Hcur.
Qed.

(** ** Resolved addresses *)

(** The maps after a sub-connection was created for [addr]. *)
Definition added (bb : baseBalancer) (addr : Address) (sc : SubConn) : baseBalancer :=
  set_maps bb (<[addr := sc]> (addrToSc bb)) (<[sc := addr]> (scToAddr bb)) (<[sc := Idle]> (scToSt bb)).

Lemma fresh_untracked bb w sc : maps_ok bb w -> sc ∉ issued w -> scToSt bb !! sc = None.
Proof.
  intros Hm Hf. destruct (scToSt bb !! sc) eqn:Hs; [|done].
  exfalso. apply Hf, (mo_issued_s _ _ Hm). by rewrite Hs.
Qed.

Lemma added_maps bb w w' addr sc :
  maps_ok bb w -> addrToSc bb !! addr = None -> sc ∉ issued w -> issued w' = {[sc]} ∪ issued w ->
  maps_ok (added bb addr sc) w'.
Proof.
  intros Hm Hnone Hf Hw'. pose proof (fresh_untracked _ _ _ Hm Hf) as Hnew.
  destruct Hm as [Hdom Haddr Hinj Hia His]. split; cbn [added set_maps addrToSc scToAddr scToSt].
  - intros sc'. rewrite !lookup_insert. by destruct (decide (sc = sc')).
  - intros a sc' Ha. rewrite !lookup_insert in *. destruct (decide (addr = a)) as [<-|].
    { injection Ha as <-. right. by rewrite decide_True. }
    rewrite decide_False by (intros ->; by apply Hf, (Hia a)).
    rewrite decide_False by (intros ->; by apply Hf, (Hia a)). eauto.
  - intros a a' sc' Ha Ha'. rewrite !lookup_insert in *.
    destruct (decide (addr = a)) as [<-|], (decide (addr = a')) as [<-|]; try done; simplify_eq.
    + exfalso. by apply Hf, (Hia a').
    + exfalso. by apply Hf, (Hia a).
    + eauto.
  - intros a sc' Ha. rewrite Hw'. rewrite lookup_insert in Ha.
    destruct (decide (addr = a)); simplify_eq; apply elem_of_union; [by left; apply elem_of_singleton|right; eauto].
  - intros sc' Hs. rewrite Hw'. rewrite lookup_insert in Hs.
    destruct (decide (sc = sc')); simplify_eq; apply elem_of_union; [by left; apply elem_of_singleton|right; eauto].
Qed.

Lemma added_inv zero bb w w' addr sc :
  bal_inv zero bb w -> addrToSc bb !! addr = None -> sc ∉ issued w -> issued w' = {[sc]} ∪ issued w ->
  bal_inv zero (added bb addr sc) w'.
Proof.
  intros [Hpol Hm [Ht Hcur] Hp] Hnone Hf Hw'. pose proof (fresh_untracked _ _ _ Hm Hf) as Hnew.
  assert (Hst : states_of (added bb addr sc) ≡ₚ Idle :: states_of bb) by by apply states_of_insert.
  split; [done|by eapply added_maps| |].
  - split.
    + rewrite Hst. apply tracks_uncounted; [by left|exact Ht].
    + rewrite Hst, aggregate_uncounted by by left. destruct Hcur as [?|[? ?]]; [by left|right].
      split; [done|]. by constructor.
  - unfold picker_ok in *. cbn [added set_maps bb_picker connectivityRecorder addrToSc scToSt].
    destruct (bb_picker bb) as [ep|rb].
    + destruct (decide _); [done|]. destruct Hp as [He Hn]. split; [done|].
      intros sc'. rewrite lookup_insert. by destruct (decide (sc = sc')).
    + destruct Hp as (Hc & Hwf & Hin & Hall). split; [done|]. split; [done|]. split.
      * intros sc' Hsc'. rewrite lookup_insert_ne; [by apply Hin|].
        intros ->. specialize (Hin _ Hsc'). congruence.
      * intros a sc' Ha Hr. rewrite lookup_insert in Ha. rewrite lookup_insert in Hr.
        destruct (decide (sc = sc')); [done|]. destruct (decide (addr = a)); simplify_eq. eauto.
Qed.

Lemma add_resolved_spec zero addrs bb w R bb' w' R' calls :
  bal_inv zero bb w -> add_resolved bb w R addrs = (bb', w', R', calls) ->
  bal_inv zero bb' w' /\ R' = R ∪ list_to_set addrs /\
  (forall a sc, addrToSc bb !! a = Some sc -> addrToSc bb' !! a = Some sc) /\
  (forall a sc, addrToSc bb' !! a = Some sc -> addrToSc bb !! a = Some sc \/
     a ∈ addrs /\ (sc ∉ issued w) /\ scToSt bb' !! sc = Some Idle /\ CallConnect sc ∈ calls) /\
  issued w ⊆ issued w' /\
  (forall sc s, scToSt bb !! sc = Some s -> scToSt bb' !! sc = Some s) /\
  (forall c, c ∈ calls -> exists sc, c = CallConnect sc /\ sc ∉ issued w).
Proof.
  revert bb w R calls. induction addrs as [|addr addrs IH]; intros bb w R calls Hinv Heq; cbn [add_resolved] in Heq.
  { injection Heq as <- <- <- <-. split; [done|]. split; [simpl; by rewrite (right_id_L ∅ (∪))|].
    split; [done|]. split; [by left|]. split; [done|]. split; [done|]. by intros c ?%not_elem_of_nil. }
  assert (HR : forall X : gset Address, ({[addr]} ∪ X) ∪ list_to_set addrs = X ∪ list_to_set (addr :: addrs)).
  { intros X. cbn [list_to_set]. by rewrite (comm_L (∪) {[addr]} X), <-(assoc_L (∪)). }
  assert (Hskip : forall w0, issued w0 = issued w -> bal_inv zero bb w0).
  { intros w0 Hw0. destruct Hinv as [? [? ? ? Hia His] ? ?]. split; try done. split; rewrite ?Hw0; done. }
  destruct (addrToSc bb !! addr) as [sc0|] eqn:Ha.
  { apply IH in Heq as (E1 & -> & E3 & E4 & E5 & E6 & E7); [|done]. rewrite HR.
    repeat (split; [done|]). split; [|done]. intros a sc Hsc. destruct (E4 a sc Hsc) as [?|[? ?]]; [by left|right].
    split; [by right|done]. }
  destruct (NewSubConn w [addr]) as [[sc|] w1] eqn:Hn.
  - apply NewSubConn_fresh in Hn as [Hf Hw1].
    assert (Hsub : issued w ⊆ issued w1) by (rewrite Hw1; apply union_subseteq_r).
    pose proof (added_inv zero bb w w1 addr sc Hinv Ha Hf Hw1) as Hinv1.
    change (set_maps bb _ _ _) with (added bb addr sc) in Heq.
    destruct (add_resolved (added bb addr sc) w1 ({[addr]} ∪ R) addrs) as [[[bb2 w2] R2] calls2] eqn:Hrec.
    injection Heq as <- <- <- <-.
    apply IH in Hrec as (Hi2 & -> & Hkeep & Hnew & Hiss & Hst & Hcalls); [|done].
    assert (Hnone := fresh_untracked _ _ _ (bi_maps _ _ _ Hinv) Hf).
    split; [done|]. split; [by rewrite HR|]. split; [|split; [|split; [|split]]].
    + intros a sc' Hsc'. apply Hkeep. simpl. rewrite lookup_insert_ne; [done|congruence].
    + intros a sc' Hsc'. destruct (Hnew a sc' Hsc') as [Hx|(? & Hx & ? & ?)].
      * simpl in Hx. rewrite lookup_insert in Hx. destruct (decide (addr = a)) as [<-|]; [|by left].
        injection Hx as <-. right. split; [left|]. split; [done|]. split; [|left].
        apply Hst. simpl. by rewrite lookup_insert_eq.
      * right. split; [by right|]. split; [by intros ?; apply Hx, Hsub|]. split; [done|by right].
    + by transitivity (issued w1).
    + intros sc' s' Hs'. apply Hst. simpl. rewrite lookup_insert_ne; [done|congruence].
    + intros c [->|Hc]%elem_of_cons; [by exists sc|]. destruct (Hcalls c Hc) as (sc' & -> & E8).
      exists sc'. split; [done|]. by intros ?; apply E8, Hsub.
  - apply NewSubConn_error in Hn. apply IH in Heq as (E1 & -> & E3 & E4 & E5 & E6 & E7); [|by apply Hskip].
    rewrite HR, Hn in *. repeat (split; [done|]). split; [|done].
    intros a sc Hsc. destruct (E4 a sc Hsc) as [?|[? ?]]; [by left|right]. split; [by right|done].
Qed.

Lemma drop_unresolved_spec zero R entries bb w bb' calls :
  bal_inv zero bb w -> drop_unresolved bb R entries = (bb', calls) ->
  bal_inv zero bb' w /\
  (forall a, addrToSc bb' !! a = if decide (a ∈ entries.*1 /\ a ∉ R) then None else addrToSc bb !! a) /\
  scToAddr bb' = scToAddr bb /\ scToSt bb' = scToSt bb /\
  calls = CallRemoveSubConn <$> (filter (fun e => e.1 ∉ R) entries).*2.
Proof.
  revert bb calls. induction entries as [|[addr sc] entries IH]; intros bb calls Hinv Heq; cbn [drop_unresolved] in Heq.
  { injection Heq as <- <-. split; [done|]. split; [|done]. intros a.
    by rewrite decide_False by by intros [?%not_elem_of_nil _]. }
  rewrite filter_cons. cbn [fst snd].
  destruct (decide (addr ∈ R)) as [HR|HR].
  - apply IH in Heq as (E1 & E2 & E3 & E4 & E5); [|done].
    rewrite (decide_False (P := addr ∉ R)) by tauto.
    split; [done|]. split; [|done]. intros a. rewrite E2. apply decide_ext. cbn. rewrite elem_of_cons.
    split; [by intros [? ?]; split; [right|]|]. by intros [[->|?] ?].
  - set (bb1 := set_maps bb (delete addr (addrToSc bb)) (scToAddr bb) (scToSt bb)) in *.
    assert (Hinv1 : bal_inv zero bb1 w).
    { destruct Hinv as [? [Hdom Haddr Hinj Hia His] [Ht Hc] Hp]. split; [done| |by split|].
      - split; unfold bb1; cbn [set_maps addrToSc scToAddr scToSt]; [exact Hdom| | | |exact His].
        + intros a sc' [_ Hx]%lookup_delete_Some. exact (Haddr _ _ Hx).
        + intros a a' sc' [_ ?]%lookup_delete_Some [_ ?]%lookup_delete_Some. eauto.
        + intros a sc' [_ ?]%lookup_delete_Some. eauto.
      - unfold picker_ok in *. simpl. destruct (bb_picker bb); [done|].
        destruct Hp as (? & ? & ? & Hall). repeat (split; [done|]).
        intros a sc' [_ ?]%lookup_delete_Some. eauto. }
    destruct (drop_unresolved bb1 R entries) as [bb2 calls2] eqn:Hd. injection Heq as <- <-.
    apply IH in Hd as (E1 & E2 & E3 & E4 & ->); [|done].
    rewrite (decide_True (P := addr ∉ R)) by done.
    split; [done|]. split; [|done]. intros a. rewrite E2. unfold bb1. simpl. rewrite lookup_delete.
    destruct (decide (addr = a)) as [<-|Hne].
    + transitivity (@None SubConn); [by destruct (decide _)|].
      by rewrite decide_True by (split; [left|done]).
    + apply decide_ext. cbn. rewrite elem_of_cons. split; [by intros [? ?]; split; [right|]|]. by intros [[->|?] ?].
Qed.

Lemma HandleResolvedAddrs_spec zero bb w addrs bb' w' calls :
  bal_inv zero bb w -> HandleResolvedAddrs bb w addrs None = (bb', w', calls) ->
  bal_inv zero bb' w' /\
  (forall a, a ∉ addrs -> addrToSc bb' !! a = None) /\
  (forall a sc, a ∈ addrs -> addrToSc bb !! a = Some sc -> addrToSc bb' !! a = Some sc) /\
  (forall a sc, addrToSc bb' !! a = Some sc -> addrToSc bb !! a = Some sc \/
     (sc ∉ issued w) /\ scToSt bb' !! sc = Some Idle /\ CallConnect sc ∈ calls) /\
  (forall sc, CallRemoveSubConn sc ∈ calls <-> exists a, addrToSc bb !! a = Some sc /\ a ∉ addrs) /\
  (forall sc s, scToSt bb !! sc = Some s -> scToSt bb' !! sc = Some s).
Proof.
  intros Hinv Heq. unfold HandleResolvedAddrs in Heq.
  destruct (add_resolved bb w ∅ addrs) as [[[bb1 w1] R] calls1] eqn:Hadd.
  destruct (drop_unresolved bb1 R (go_range (addrToSc bb1))) as [bb2 calls2] eqn:Hdrop.
  injection Heq as <- <- <-.
  apply (add_resolved_spec zero) in Hadd as (Hi1 & -> & Hkeep & Hnew & Hiss & Hst & Hcalls); [|done].
  apply (drop_unresolved_spec zero _ _ _ w1) in Hdrop as (Hi2 & Hmap & Hs2a & Hs2st & ->); [|done].
  rewrite (left_id_L ∅ (∪)) in *.
  assert (Hin : forall a, a ∈ (go_range (addrToSc bb1)).*1 <-> is_Some (addrToSc bb1 !! a)).
  { intros a. rewrite list_elem_of_fmap. split.
    - intros ([a' sc] & -> & Hx%elem_of_go_range). by exists sc.
    - intros [sc Hsc]. exists (a, sc). by rewrite elem_of_go_range. }
  assert (Hfinal : forall a, a ∈ addrs -> addrToSc bb2 !! a = addrToSc bb1 !! a).
  { intros a Ha. rewrite Hmap, decide_False; [done|]. intros [_ Hn]. by apply Hn, elem_of_list_to_set. }
  assert (Hgone : forall a, a ∉ addrs -> addrToSc bb2 !! a = None).
  { intros a Ha. rewrite Hmap. destruct (decide _) as [|Hn]; [done|].
    destruct (addrToSc bb1 !! a) eqn:Hx; [|done]. exfalso. apply Hn.
    split; [by apply Hin; rewrite Hx|by rewrite elem_of_list_to_set]. }
  split; [done|]. split; [done|]. split; [|split; [|split]].
  - intros a sc Ha Hsc. rewrite Hfinal by done. eauto.
  - intros a sc Hsc. destruct (decide (a ∈ addrs)) as [Ha|Ha]; [|by rewrite Hgone in Hsc].
    rewrite Hfinal in Hsc by done. destruct (Hnew a sc Hsc) as [?|(_ & ? & ? & ?)]; [by left|right].
    rewrite Hs2st. split; [done|]. split; [done|]. apply elem_of_app. by left.
  - intros sc. rewrite elem_of_app, !list_elem_of_fmap. split.
    + intros [Hc|(sc1 & [= <-] & ([a sc2] & Hs & [Ha Hx%elem_of_go_range]%list_elem_of_filter)%list_elem_of_fmap)].
      { by destruct (Hcalls _ Hc) as (? & ? & _). }
      simpl in *. subst sc2. rewrite elem_of_list_to_set in Ha.
      destruct (Hnew a _ Hx) as [?|[? _]]; [by exists a|done].
    + intros (a & Ha & Hn). right. exists sc. split; [done|]. apply list_elem_of_fmap.
      exists (a, sc). split; [done|]. apply list_elem_of_filter.
      split; [by rewrite elem_of_list_to_set|]. apply elem_of_go_range. eauto.
  - intros sc s Hs. rewrite Hs2st. eauto.
Qed.

(** Every request gets an answer that the invariant explains. *)
Lemma Pick_spec zero bb w :
  zero <> TransientFailure -> bal_inv zero bb w ->
  exists p r, Pick ErrNoSubConnAvailable (bb_picker bb) = Ret (p, r) /\ bal_inv zero (set_picker bb p) w /\
    match r with
    | Ok sc => scToSt bb !! sc = Some Ready
    | Err e => (forall a sc, addrToSc bb !! a = Some sc -> scToSt bb !! sc <> Some Ready) /\
        e = (if decide (GetCurrentState (connectivityRecorder bb) = TransientFailure)
             then ErrTransientFailure else ErrNoSubConnAvailable)
    end.
Proof.
  intros Hz [Hpol Hm Hrec Hp]. pose proof Hp as Hp0. unfold picker_ok in Hp.
  assert (Hm' : forall p, maps_ok (set_picker bb p) w) by (intros p; by destruct Hm).
  assert (Hrec' : forall p, recorder_ok zero (set_picker bb p)) by (intros p; by destruct Hrec).
  destruct (bb_picker bb) as [ep|rb] eqn:Hpick.
  - exists (ErrPicker ep), (Err (ep_err ep)). split; [done|].
    split; [split; try done; unfold picker_ok in *; rewrite Hpick in Hp0; exact Hp0|].
    destruct (decide _) as [Ht|Ht]; [|destruct Hp as [? Hn]; by split].
    split; [|done]. intros a sc _ Hr. destruct Hrec as [_ [Hc|[Hc _]]]; [|congruence].
    rewrite Ht in Hc. symmetry in Hc. apply (aggregate_not_Ready _ Hc), elem_of_states. by exists sc.
  - destruct Hp as (Hne & Hwf & Hin & Hall).
    destruct (Pick_total ErrNoSubConnAvailable rb Hwf) as (rb' & r & -> & Hwf' & Hscs & Hr).
    exists (RRPicker rb'), r. split; [done|]. split.
    + split; try done. unfold picker_ok. simpl. split; [done|]. split; [done|].
      rewrite Hscs. by split.
    + destruct r as [sc|e]; [by apply Hin|]. destruct Hr as [Hnil ->].
      rewrite decide_False by done. split; [|done]. intros a sc Ha Hrd.
      specialize (Hall _ _ Ha Hrd). rewrite Hnil in Hall. by apply not_elem_of_nil in Hall.
Qed.

Lemma Build_inv cfg zero id w :
  bc_Policy cfg = RoundrobinBalanced -> zero <> TransientFailure -> bal_inv zero (Build cfg zero id) w.
Proof.
  intros Hpol Hz. split; [done| | |].
  - split; simpl; intros *; rewrite ?lookup_empty; try done; by intros [].
  - split; [by split|]. right. split; [done|]. unfold states_of. simpl. rewrite map_to_list_empty. constructor.
  - unfold picker_ok. simpl. rewrite decide_False by done. split; [done|]. intros sc. by rewrite lookup_empty.
Qed.

Lemma reachable_inv cfg zero id st :
  bc_Policy cfg = RoundrobinBalanced -> zero <> TransientFailure ->
  reachable cfg zero id st -> bal_inv zero st.1 st.2.
Proof.
  intros Hpol Hz. induction 1 as [w _|st calls st' _ IH Hstep]; [by apply Build_inv|].
  destruct Hstep as [bb w addrs err bb' w' calls Heq|bb w sc s bb' calls Heq|bb w p r Heq]; simpl in *.
  - destruct err; [by injection Heq as <- <- <-|].
    by apply (HandleResolvedAddrs_spec zero) in Heq as [? _].
  - destruct (HandleSubConnStateChange_inv zero bb w sc s IH) as (bb1 & calls1 & Heq1 & ? & _).
    rewrite Heq in Heq1. by injection Heq1 as <- <-.
  - destruct (Pick_spec zero bb w Hz IH) as (p1 & r1 & Heq1 & ? & _).
    rewrite Heq in Heq1. by injection Heq1 as <- <-.
Qed.

(** ** Properties *)

(** C1: every request is routed correctly.  In every state the balancer can
    reach, whatever grpc's callbacks and their order, [Pick] answers without
    panicking; a sub-connection it hands out is one whose last reported state is
    [Ready]; it fails only when no currently resolved address has a ready
    sub-connection, with [ErrTransientFailure] exactly when the aggregated state
    is [TransientFailure] and [ErrNoSubConnAvailable] otherwise. *)
Theorem balancer_pick_correct cfg zero id bb w :
  bc_Policy cfg = RoundrobinBalanced -> zero <> TransientFailure ->
  reachable cfg zero id (bb, w) ->
  exists p r, Pick ErrNoSubConnAvailable (bb_picker bb) = Ret (p, r) /\
    match r with
    | Ok sc => scToSt bb !! sc = Some Ready
    | Err e => (forall a sc, addrToSc bb !! a = Some sc -> scToSt bb !! sc <> Some Ready) /\
        e = (if decide (GetCurrentState (connectivityRecorder bb) = TransientFailure)
             then ErrTransientFailure else ErrNoSubConnAvailable)
    end.
Proof.
  intros Hpol Hz Hr. pose proof (reachable_inv cfg zero id _ Hpol Hz Hr) as Hinv.
  destruct (Pick_spec zero bb w Hz Hinv) as (p & r & ? & _ & ?). by exists p, r.
Qed.

(** C31: a reported state change is recorded and published.  In every reachable
    state [HandleSubConnStateChange] returns; for a tracked sub-connection it
    stores the new state, or forgets the sub-connection when the state is
    [Shutdown], asks it to connect when it went [Idle], and tells grpc the
    documented aggregate of the tracked states together with the picker in force;
    an unknown sub-connection changes nothing. *)
Theorem state_change_published cfg zero id bb w sc s :
  bc_Policy cfg = RoundrobinBalanced -> zero <> TransientFailure ->
  reachable cfg zero id (bb, w) ->
  exists bb' calls, HandleSubConnStateChange bb sc s = Ret (bb', calls) /\
    match scToSt bb !! sc with
    | None => bb' = bb /\ calls = []
    | Some _ =>
        (forall sc', scToSt bb' !! sc' =
           if decide (sc = sc') then (if decide (s = Shutdown) then None else Some s) else scToSt bb !! sc') /\
        (forall sc', is_Some (scToAddr bb' !! sc') <-> is_Some (scToSt bb' !! sc')) /\
        addrToSc bb' = addrToSc bb /\
        calls = (if decide (s = Idle) then [CallConnect sc] else []) ++
                [CallUpdateBalancerState (aggregate (states_of bb')) (bb_picker bb')]
    end.
Proof.
  intros Hpol Hz Hr. pose proof (reachable_inv cfg zero id _ Hpol Hz Hr) as Hinv.
  destruct (HandleSubConnStateChange_inv zero bb w sc s Hinv) as (bb' & calls & Heq & Hinv' & Hsome & Hnone).
  exists bb', calls. split; [done|].
  destruct (scToSt bb !! sc) as [old|]; [|by apply Hnone].
  destruct (Hsome (mk_is_Some _ _ eq_refl)) as (Hst & _ & Ha & Hc).
  split; [intros sc'; by rewrite Hst, changed_state|]. split; [|done].
  intros sc'. apply (mo_dom _ _ (bi_maps _ _ _ Hinv')).
Qed.

(** A resolver update is applied.  After [HandleResolvedAddrs] in a reachable
    state, no address outside the update has a sub-connection; an address that
    had one keeps it; every other sub-connection is a fresh one, idle and asked to
    connect; exactly the sub-connections of the dropped addresses are removed;
    and the state of no tracked sub-connection is touched. *)
Theorem resolved_addrs_applied cfg zero id bb w addrs bb' w' calls :
  bc_Policy cfg = RoundrobinBalanced -> zero <> TransientFailure ->
  reachable cfg zero id (bb, w) ->
  HandleResolvedAddrs bb w addrs None = (bb', w', calls) ->
  (forall a, a ∉ addrs -> addrToSc bb' !! a = None) /\
  (forall a sc, a ∈ addrs -> addrToSc bb !! a = Some sc -> addrToSc bb' !! a = Some sc) /\
  (forall a sc, addrToSc bb' !! a = Some sc -> addrToSc bb !! a = Some sc \/
     (sc ∉ issued w) /\ scToSt bb' !! sc = Some Idle /\ CallConnect sc ∈ calls) /\
  (forall sc, CallRemoveSubConn sc ∈ calls <-> exists a, addrToSc bb !! a = Some sc /\ a ∉ addrs) /\
  (forall sc s, scToSt bb !! sc = Some s -> scToSt bb' !! sc = Some s).
Proof.
  intros Hpol Hz Hr Heq. pose proof (reachable_inv cfg zero id _ Hpol Hz Hr) as Hinv.
  by apply (HandleResolvedAddrs_spec zero) in Heq as [_ ?].
Qed.

End Balancer.

(** ** Witnesses: a [ClientConn] that numbers its sub-connections *)
Definition counter_issued (w : nat) : gset nat := set_seq 0 (w `min` 1000).

(** It refuses the address ["bad"], and everything once [1000] are out. *)
Definition counter_NewSubConn (w : nat) (addrs : list string) : option nat * nat :=
  if decide (addrs = ["bad"%string]) then (None, w)
  else if decide (w < 1000) then (Some w, S w) else (None, w).

#[refine] Instance counter_ClientConn : ClientConn nat string nat :=
  {| NewSubConn := counter_NewSubConn; issued := counter_issued |}.
Proof.
  - intros w. unfold counter_issued, maxInt64.
    rewrite size_set_seq. lia.
  - intros w addrs sc w'. unfold counter_NewSubConn.
    destruct (decide _); [done|]. destruct (decide _); [|done]. intros [= -> <-].
    unfold counter_issued. rewrite !Nat.min_l by lia. split.
    + rewrite elem_of_set_seq. lia.
    + rewrite set_seq_S_end_union_L. done.
  - intros w addrs w'. unfold counter_NewSubConn.
    destruct (decide _); [by intros [= <-]|]. by destruct (decide _); intros [= <-].
Defined.

Section Demo.
#[local] Existing Instance range_in_key_order.

Abbreviation demo_balancer := (@baseBalancer string nat string _ _ _ _).

(** Two endpoints resolve, the first becomes ready. *)
Definition demo_cfg : BalancerConfig := mkBalancerConfig RoundrobinBalanced "rr".
Definition demo_bb0 : demo_balancer := Build "no subconn"%string demo_cfg Idle "1".
Definition demo_bb1 : demo_balancer * nat :=
  (HandleResolvedAddrs demo_bb0 0 ["a"; "bad"; "b"]%string None).1.
Definition demo_bb2 : demo_balancer :=
  match HandleSubConnStateChange "transient"%string demo_bb1.1 0 Ready with
  | Ret (bb, _) => bb
  | Panic => demo_bb1.1
  end.

Lemma demo_bb1_reachable :
  reachable "no subconn"%string "transient"%string demo_cfg Idle "1" demo_bb1.
Proof.
  eapply reach_step; [apply (reach_init _ _ demo_cfg Idle "1" 0); reflexivity|].
  apply (step_resolved _ _ demo_bb0 0 ["a"; "bad"; "b"]%string None). vm_compute. reflexivity.
Defined.

Lemma demo_bb2_reachable :
  reachable "no subconn"%string "transient"%string demo_cfg Idle "1" (demo_bb2, 2).
Proof.
  eapply reach_step; [apply demo_bb1_reachable|].
  apply (step_state _ _ demo_bb1.1 2 0 Ready). vm_compute. reflexivity.
Defined.

Example balancer_pick_correct_witness :
  reachable "no subconn"%string "transient"%string demo_cfg Idle "1" (demo_bb2, 2) /\
  exists p r, Pick "no subconn"%string (bb_picker demo_bb2) = Ret (p, r) /\
    match r with
    | Ok sc => scToSt demo_bb2 !! sc = Some Ready
    | Err e => (forall a sc, addrToSc demo_bb2 !! a = Some sc -> scToSt demo_bb2 !! sc <> Some Ready) /\
        e = (if decide (GetCurrentState (connectivityRecorder demo_bb2) = TransientFailure)
             then "transient"%string else "no subconn"%string)
    end.
Proof.
  split; [exact demo_bb2_reachable|].
  apply (balancer_pick_correct "no subconn"%string "transient"%string demo_cfg Idle "1" demo_bb2 2);
    [reflexivity|done|exact demo_bb2_reachable].
Defined.

Example state_change_published_witness :
  exists bb' calls, HandleSubConnStateChange "transient"%string demo_bb2 0 Shutdown = Ret (bb', calls) /\
    (forall sc', scToSt bb' !! sc' = if decide (0 = sc') then None else scToSt demo_bb2 !! sc').
Proof.
  destruct (state_change_published "no subconn"%string "transient"%string demo_cfg Idle "1" demo_bb2 2 0 Shutdown
    eq_refl ltac:(done) demo_bb2_reachable) as (bb' & calls & Heq & Hpost).
  exists bb', calls. split; [exact Heq|].
  assert (Hs : scToSt demo_bb2 !! 0 = Some Ready) by (vm_compute; reflexivity).
  rewrite Hs in Hpost. exact (proj1 Hpost).
Defined.

Definition demo_bb3 : demo_balancer * nat * list cc_call :=
  HandleResolvedAddrs demo_bb2 2 ["b"; "c"]%string None.

Example resolved_addrs_applied_witness :
  (forall a, a ∉ ["b"; "c"]%string -> addrToSc demo_bb3.1.1 !! a = None) /\
  (forall sc, CallRemoveSubConn sc ∈ demo_bb3.2 <->
     exists a, addrToSc demo_bb2 !! a = Some sc /\ a ∉ ["b"; "c"]%string).
Proof.
  destruct (resolved_addrs_applied "no subconn"%string "transient"%string demo_cfg Idle "1" demo_bb2 2
    ["b"; "c"]%string demo_bb3.1.1 demo_bb3.1.2 demo_bb3.2 eq_refl ltac:(done) demo_bb2_reachable)
    as (Hgone & _ & _ & Hrem & _).
  - unfold demo_bb3. by destruct (HandleResolvedAddrs demo_bb2 2 ["b"; "c"]%string None) as [[? ?] ?].
  - exact (conj Hgone Hrem).
Defined.
End Demo.
