(* ===== verification/Resolver.v ===== *)
(** * grpc/client/balancer/resolver: the endpoint:// resolver

    A package-level [builder] maps a cluster id to a [ResolverGroup]; a group keeps
    the endpoints and the resolvers grpc built for its target.  Groups and resolvers
    are shared objects, so they live in heaps and are named by references; a
    reference that points nowhere is a nil dereference ([Panic]).  The calls
    [r.cc.NewAddress(addrs)] are a log of pairs of the resolver and the addresses.
    Each critical section is one step: [addResolver] and [newResolverGroup] have
    two, and other goroutines can run in between. *)
From S2P Require Import Prelude.
From Stdlib Require Import Ascii.

(** ** Targets *)
Definition scheme : string := "endpoint".
Definition targetPrefix : string := scheme +:+ "://".

(** [strings.HasPrefix] and [strings.TrimPrefix]. *)
Fixpoint strip_prefix (p s : string) : option string :=
  match p, s with
  | EmptyString, _ => Some s
  | String a p, String b s => if Ascii.eqb a b then strip_prefix p s else None
  | _, _ => None
  end.
Definition HasPrefix (s p : string) : bool := match strip_prefix p s with Some _ => true | None => false end.
Definition TrimPrefix (s p : string) : string := default s (strip_prefix p s).

(** [strings.SplitN(s, "/", 2)]: at most one cut, at the first slash. *)
Definition slash : Ascii.ascii := "/"%char.
Fixpoint SplitN2 (s : string) : list string :=
  match s with
  | EmptyString => [EmptyString]
  | String c s =>
      if Ascii.eqb c slash then [EmptyString; s]
      else match SplitN2 s with
           | h :: t => String c h :: t
           | [] => [String c EmptyString]
           end
  end.

Fixpoint has_slash (s : string) : bool :=
  match s with EmptyString => false | String c s => Ascii.eqb c slash || has_slash s end.

(* src/grpc/client/balancer/resolver/resolver.go:89-91 Target *)
Definition Target (id endpoint : string) : string := scheme +:+ "://" +:+ id +:+ "/" +:+ endpoint.

(* src/grpc/client/balancer/resolver/resolver.go:94-96 IsTarget *)
Definition IsTarget (target : string) : bool := HasPrefix target "endpoint://".

(* src/grpc/client/balancer/resolver/resolver.go:212-222 ParseTarget *)
Definition ParseTarget (target : string) : result string (string * string) :=
  let noPrefix := TrimPrefix target targetPrefix in
  if decide (noPrefix = target) then
    Err ("malformed target, " +:+ targetPrefix +:+ " prefix is required: " +:+ target)
  else
    match SplitN2 noPrefix with
    | [id; endpoint] => Ok (id, endpoint)
    | _ => Err ("malformed target, expected " +:+ scheme +:+ "://<id>/<endpoint>, but got " +:+ target)
    end.

Lemma strip_prefix_app p s : strip_prefix p (p +:+ s) = Some s.
Proof. induction p as [|a p IH]; simpl; [done|]. by rewrite Ascii.eqb_refl. Qed.

Lemma strip_prefix_Some p s s' : strip_prefix p s = Some s' -> s = p +:+ s'.
Proof.
  revert s. induction p as [|a p IH]; intros s; simpl; [by intros [= ->]|].
  destruct s as [|b s]; [done|]. destruct (Ascii.eqb_spec a b) as [->|]; [|done].
  intros Hs. by rewrite (IH _ Hs).
Qed.

Lemma SplitN2_cut id ep : has_slash id = false -> SplitN2 (id +:+ "/" +:+ ep) = [id; ep].
Proof.
  induction id as [|c id IH]; simpl; [done|].
  destruct (Ascii.eqb c slash); simpl; [done|]. intros Hs. by rewrite (IH Hs).
Qed.

Lemma SplitN2_inv s id ep : SplitN2 s = [id; ep] -> s = id +:+ "/" +:+ ep /\ has_slash id = false.
Proof.
  revert id. induction s as [|c s IH]; intros id; simpl; [done|].
  destruct (Ascii.eqb_spec c slash) as [->|Hc]; [by intros [= <- <-]|].
  destruct (SplitN2 s) as [|h t]; [done|]. intros [= <- ->].
  destruct (IH h eq_refl) as [-> Hh]. split; [done|]. simpl.
  by rewrite (proj2 (Ascii.eqb_neq c slash) Hc).
Qed.

Lemma string_app_length (s t : string) : String.length (s +:+ t) = String.length s + String.length t.
Proof. induction s as [|c s IH]; [done|]. simpl. by rewrite IH. Qed.

(** Parsing a target inverts building one.  [ParseTarget] accepts exactly the
    strings [Target id endpoint] whose id has no slash, and returns that id and
    that endpoint; so it round-trips every such pair, and whatever it accepts it
    would print back unchanged.  Every accepted string passes [IsTarget]. *)
Theorem ParseTarget_Target t id ep :
  (ParseTarget t = Ok (id, ep) <-> t = Target id ep /\ has_slash id = false) /\
  IsTarget (Target id ep) = true.
Proof.
  split; [|reflexivity].
  unfold ParseTarget, TrimPrefix. split.
  - case_decide as Heq; [done|]. destruct (strip_prefix targetPrefix t) as [s|] eqn:Hs; [|by destruct Heq].
    simpl. destruct (SplitN2 s) as [|id' [|ep' [|]]] eqn:Hcut; [done|done| |done]. intros [= <- <-].
    apply SplitN2_inv in Hcut as [-> ?]. split; [|done]. by apply strip_prefix_Some in Hs.
  - intros [-> Hid].
    change (Target id ep) with (targetPrefix +:+ (id +:+ "/" +:+ ep)).
    rewrite strip_prefix_app. simpl default. rewrite decide_False.
    + by rewrite SplitN2_cut.
    + intros Heq. apply (f_equal String.length) in Heq. rewrite (string_app_length targetPrefix) in Heq.
      change (String.length targetPrefix) with 11 in Heq. lia.
Qed.

(** ** Endpoints *)
Section Dialing.
(** [url.Parse]: scheme, host and path, or an error; [net.Dialer.DialContext] with
    the dialer's deadline. *)
Record URL : Type := mkURL { Scheme : string; Host : string; Path : string }.
Context (url_Parse : string -> option URL).

Fixpoint Contains (s sub : string) : bool :=
  HasPrefix s sub || match s with EmptyString => false | String _ s => Contains s sub end.

(* src/grpc/client/balancer/resolver/resolver.go:187-208 ParseEndpoint *)
Definition ParseEndpoint (endpoint : string) : string * string * string :=
  match url_Parse endpoint with
  | None => ("tcp", endpoint, "")%string
  | Some url =>
      if negb (Contains endpoint "://") then ("tcp", endpoint, "")%string
      else if decide (Scheme url = "http" \/ Scheme url = "https")%string then
        ("tcp"%string, Host url, Scheme url)
      else if decide (Scheme url = "unix" \/ Scheme url = "unixs")%string then
        ("unix"%string, Host url +:+ Path url, Scheme url)
      else (""%string, ""%string, Scheme url)
  end.

Record dial_ctx (error : Type) : Type := mkDialCtx { dctx_Err : option error; dctx_Deadline : option Z }.
Arguments dctx_Err {error} d.
Arguments dctx_Deadline {error} d.

Context {error Conn : Type} (DialContext : option Z -> dial_ctx error -> string -> string -> result error Conn).

(* src/grpc/client/balancer/resolver/resolver.go:226-239 Dialer *)
Definition Dialer (ctx : dial_ctx error) (dialEp : string) : result error Conn :=
  let '(proto, host, _) := ParseEndpoint dialEp in
  match dctx_Err ctx with
  | Some err => Err err
  | None => DialContext (dctx_Deadline ctx) ctx proto host
  end.
End Dialing.

(** ** The registry of groups *)
(* src/grpc/client/balancer/resolver/resolver.go:166-168 epsToAddrs *)
Record Address : Type := mkAddress { Addr : string }.

#[global] Instance Address_eq_dec : EqDecision Address.
Proof. solve_decision. Defined.

Abbreviation group_ref := nat.
Abbreviation resolver_ref := nat.

(* src/grpc/client/balancer/resolver/resolver.go:42-47 ResolverGroup *)
Record ResolverGroup : Type := mkGroup {
  rg_id : string;
  endpoints : list string;
  resolvers : list resolver_ref
}.

Section Registry.
Context {CC : Type}.

(* src/grpc/client/balancer/resolver/resolver.go:157-161 Resolver *)
Record Resolver : Type := mkResolver { endpointID : string; r_cc : CC }.

(** The package's state: the builder's map, and the objects it reaches. *)
(* src/grpc/client/balancer/resolver/resolver.go:30-33 builder *)
Record builder : Type := mkBuilder {
  resolverGroups : gmap string group_ref;
  group_heap : gmap group_ref ResolverGroup;
  resolver_heap : gmap resolver_ref Resolver
}.

(** A call [r.cc.NewAddress(addrs)]. *)
Definition call : Type := resolver_ref * list Address.

Definition set_groups (b : builder) m : builder := mkBuilder m (group_heap b) (resolver_heap b).
Definition set_group (b : builder) e g : builder :=
  mkBuilder (resolverGroups b) (<[e := g]> (group_heap b)) (resolver_heap b).

Definition deref (b : builder) (e : group_ref) : outcome ResolverGroup :=
  match group_heap b !! e with Some g => Ret g | None => Panic end.

(* src/grpc/client/balancer/resolver/resolver.go:164-170 epsToAddrs *)
Definition epsToAddrs (eps : list string) : list Address := mkAddress <$> eps.

(** The locked part of [addResolver] reads the addresses it will announce. *)
(* src/grpc/client/balancer/resolver/resolver.go:49-53 ResolverGroup.addResolver *)
Definition addResolver_locked (b : builder) (e : group_ref) (r : resolver_ref)
    : outcome (builder * list Address) :=
  g ← deref b e;
  Ret (set_group b e (mkGroup (rg_id g) (endpoints g) (resolvers g ++ [r])), epsToAddrs (endpoints g)).

(* src/grpc/client/balancer/resolver/resolver.go:49-56 ResolverGroup.addResolver *)
Definition addResolver (b : builder) (e : group_ref) (r : resolver_ref) : outcome (builder * list call) :=
  '(b, addrs) ← addResolver_locked b e r;
  Ret (b, [(r, addrs)]).

Fixpoint remove_first (r : resolver_ref) (rs : list resolver_ref) : list resolver_ref :=
  match rs with
  | [] => []
  | er :: rs => if decide (er = r) then rs else er :: remove_first r rs
  end.

(* src/grpc/client/balancer/resolver/resolver.go:58-67 ResolverGroup.removeResolver *)
Definition removeResolver (b : builder) (e : group_ref) (r : resolver_ref) : outcome builder :=
  g ← deref b e;
  Ret (set_group b e (mkGroup (rg_id g) (endpoints g) (remove_first r (resolvers g)))).

(* src/grpc/client/balancer/resolver/resolver.go:71-81 ResolverGroup.SetEndpoints *)
Definition SetEndpoints (b : builder) (e : group_ref) (eps : list string) : outcome (builder * list call) :=
  g ← deref b e;
  Ret (set_group b e (mkGroup (rg_id g) eps (resolvers g)), (fun r => (r, epsToAddrs eps)) <$> resolvers g).

(* src/grpc/client/balancer/resolver/resolver.go:84-86 ResolverGroup.Target *)
Definition group_Target (b : builder) (e : group_ref) (endpoint : string) : outcome string :=
  g ← deref b e; Ret (Target (rg_id g) endpoint).

(* src/grpc/client/balancer/resolver/resolver.go:146-150 builder.close *)
Definition close (b : builder) (id : string) : builder := set_groups b (delete id (resolverGroups b)).

(* src/grpc/client/balancer/resolver/resolver.go:98-100 ResolverGroup.Close *)
Definition group_Close (b : builder) (e : group_ref) : outcome builder :=
  g ← deref b e; Ret (close b (rg_id g)).

(* src/grpc/client/balancer/resolver/resolver.go:136-144 builder.getResolverGroup *)
Definition getResolverGroup (b : builder) (id : string) : result string group_ref :=
  match resolverGroups b !! id with
  | Some es => Ok es
  | None => Err ("ResolverGroup not found for id: " +:+ id)
  end.

(* src/grpc/client/balancer/resolver/resolver.go:103-119 builder.Build *)
Definition Build (b : builder) (Authority : string) (cc : CC)
    : outcome (builder * list call * result string resolver_ref) :=
  if decide (String.length Authority < 1) then
    Ret (b, [], Err "'etcd' target scheme requires non-empty authority identifying etcd cluster being routed to"%string)
  else
    match getResolverGroup b Authority with
    | Err err => Ret (b, [], Err ("failed to build resolver: " +:+ err))
    | Ok es =>
        let r := fresh (dom (resolver_heap b)) in
        let b := mkBuilder (resolverGroups b) (group_heap b)
                   (<[r := mkResolver Authority cc]> (resolver_heap b)) in
        '(b, calls) ← addResolver b es r;
        Ret (b, calls, Ok r)
    end.

(** The two critical sections of [newResolverGroup]. *)
(* src/grpc/client/balancer/resolver/resolver.go:121-127 builder.newResolverGroup *)
Definition newResolverGroup_check (b : builder) (id : string) : result string unit :=
  match resolverGroups b !! id with
  | Some _ => Err ("Endpoint already exists for id: " +:+ id)
  | None => Ok tt
  end.

(* src/grpc/client/balancer/resolver/resolver.go:129-133 builder.newResolverGroup *)
Definition newResolverGroup_insert (b : builder) (id : string) : builder * group_ref :=
  let es := fresh (dom (group_heap b)) in
  (mkBuilder (<[id := es]> (resolverGroups b)) (<[es := mkGroup id [] []]> (group_heap b))
     (resolver_heap b), es).

(* src/grpc/client/balancer/resolver/resolver.go:121-134 builder.newResolverGroup *)
Definition newResolverGroup (b : builder) (id : string) : builder * result string group_ref :=
  match newResolverGroup_check b id with
  | Err err => (b, Err err)
  | Ok _ => let '(b, es) := newResolverGroup_insert b id in (b, Ok es)
  end.

(* src/grpc/client/balancer/resolver/resolver.go:152-154 builder.Scheme *)
Definition builder_Scheme : string := scheme.

(* src/grpc/client/balancer/resolver/resolver.go:174-180 Resolver.Close *)
Definition resolver_Close (b : builder) (r : resolver_ref) : outcome builder :=
  match resolver_heap b !! r with
  | None => Panic
  | Some rv =>
      match getResolverGroup b (endpointID rv) with
      | Err _ => Ret b
      | Ok es => removeResolver b es r
      end
  end.

(** *** The public operations, and the runs they make *)
Inductive op : Type :=
| OpNewGroup (id : string)
| OpBuild (Authority : string) (cc : CC)
| OpSetEndpoints (e : group_ref) (eps : list string)
| OpGroupClose (e : group_ref)
| OpResolverClose (r : resolver_ref).

Definition run_op (b : builder) (o : op) : outcome (builder * list call) :=
  match o with
  | OpNewGroup id => Ret (fst (newResolverGroup b id), [])
  | OpBuild a cc => '(b, calls, _) ← Build b a cc; Ret (b, calls)
  | OpSetEndpoints e eps => SetEndpoints b e eps
  | OpGroupClose e => b ← group_Close b e; Ret (b, [])
  | OpResolverClose r => b ← resolver_Close b r; Ret (b, [])
  end.

Definition empty_builder : builder := mkBuilder ∅ ∅ ∅.

(** A state of the package with the calls made so far, newest last. *)
Inductive reachable : builder -> list call -> Prop :=
| reach_init : reachable empty_builder []
| reach_op b log o b' calls :
    reachable b log -> run_op b o = Ret (b', calls) -> reachable b' (log ++ calls).

(** What the last [NewAddress] on a resolver said. *)
Definition last_told (log : list call) (r : resolver_ref) : option (list Address) :=
  snd <$> last (filter (fun c => fst c = r) log).

Definition registered (b : builder) (r : resolver_ref) : Prop :=
  exists e g, group_heap b !! e = Some g /\ r ∈ resolvers g.

Record builder_ok (b : builder) (log : list call) : Prop := {
  ok_registry id e : resolverGroups b !! id = Some e ->
    exists g, group_heap b !! e = Some g /\ rg_id g = id;
  ok_member e g r : group_heap b !! e = Some g -> r ∈ resolvers g ->
    exists rv, resolver_heap b !! r = Some rv /\ endpointID rv = rg_id g;
  ok_nodup e g : group_heap b !! e = Some g -> NoDup (resolvers g);
  ok_one_group e1 e2 g1 g2 r : group_heap b !! e1 = Some g1 -> group_heap b !! e2 = Some g2 ->
    r ∈ resolvers g1 -> r ∈ resolvers g2 -> e1 = e2;
  ok_told e g r : group_heap b !! e = Some g -> r ∈ resolvers g ->
    last_told log r = Some (epsToAddrs (endpoints g))
}.

Lemma elem_of_remove_first r x rs : x ∈ remove_first r rs -> x ∈ rs.
Proof.
  induction rs as [|y rs IH]; simpl; [done|]. case_decide; [by right|].
  rewrite !elem_of_cons. intros [->|Hx]; [by left|right; by apply IH].
Qed.

Lemma remove_first_NoDup r rs : NoDup rs -> NoDup (remove_first r rs).
Proof.
  induction 1 as [|y rs Hy Hrs IH]; simpl; [constructor|]. case_decide; [done|].
  constructor; [|done]. contradict Hy. by eapply elem_of_remove_first.
Qed.

Lemma remove_first_gone r rs : NoDup rs -> r ∉ remove_first r rs.
Proof.
  induction 1 as [|y rs Hy Hrs IH]; simpl; [apply not_elem_of_nil|]. case_decide as Heq; [by subst|].
  rewrite not_elem_of_cons. by split; [congruence|].
Qed.

Lemma last_told_app_nil log r calls :
  (forall c, c ∈ calls -> fst c <> r) -> last_told (log ++ calls) r = last_told log r.
Proof.
  intros Hc. unfold last_told. rewrite filter_app, (filter_none (fun c => fst c = r) calls) by done.
  by rewrite app_nil_r.
Qed.

Lemma last_told_app log r calls addrs :
  (forall c, c ∈ calls -> snd c = addrs) -> (r, addrs) ∈ calls ->
  last_told (log ++ calls) r = Some addrs.
Proof.
  intros Hall Hin. unfold last_told. rewrite filter_app, last_app.
  assert (Hf : (r, addrs) ∈ filter (fun c => fst c = r) calls) by (by apply list_elem_of_filter).
  destruct (last (filter (fun c => fst c = r) calls)) as [c|] eqn:Hl; unfold call in *; rewrite Hl.
  - simpl. f_equal. apply Hall. apply last_Some in Hl as (l' & Hl).
    assert (c ∈ filter (fun c => fst c = r) calls) as Hcin by (rewrite Hl; apply elem_of_app; right; left).
    by apply list_elem_of_filter in Hcin as [_ ?].
  - apply last_None in Hl. unfold call in *. rewrite Hl in Hf. by apply not_elem_of_nil in Hf.
Qed.

(** One group replaced by [g'], with resolvers it had or brand-new ones. *)
Lemma ok_replace_group b log calls e g g' heap' :
  builder_ok b log -> group_heap b !! e = Some g -> rg_id g' = rg_id g -> NoDup (resolvers g') ->
  resolver_heap b ⊆ heap' ->
  (forall r, r ∈ resolvers g' -> r ∈ resolvers g \/
     resolver_heap b !! r = None /\ exists rv, heap' !! r = Some rv /\ endpointID rv = rg_id g) ->
  (forall c, c ∈ calls -> fst c ∈ resolvers g') ->
  (forall r, r ∈ resolvers g' -> last_told (log ++ calls) r = Some (epsToAddrs (endpoints g'))) ->
  builder_ok (mkBuilder (resolverGroups b) (<[e := g']> (group_heap b)) heap') (log ++ calls).
Proof.
  intros Hok Hg Hid Hnd Hsub Hres Hcalls Htold.
  assert (Hother : forall e2 g2 r, e <> e2 -> group_heap b !! e2 = Some g2 -> r ∈ resolvers g2 ->
            r ∉ resolvers g').
  { intros e2 g2 r Hne Hg2 Hr Hr'. destruct (Hres r Hr') as [Hold|[Hnone _]].
    - apply Hne. by eapply (ok_one_group _ _ Hok).
    - destruct (ok_member _ _ Hok e2 g2 r Hg2 Hr) as (rv & Hrv & _). congruence. }
  split; simpl.
  - intros id e2 He2. destruct (ok_registry _ _ Hok id e2 He2) as (g2 & Hg2 & Hid2).
    destruct (decide (e = e2)) as [<-|Hne].
    + exists g'. rewrite lookup_insert_eq. split; [done|]. congruence.
    + exists g2. by rewrite lookup_insert_ne.
  - intros e2 g2 r. destruct (decide (e = e2)) as [<-|Hne].
    + rewrite lookup_insert_eq. intros [= <-] Hr. destruct (Hres r Hr) as [Hold|[_ (rv & Hrv & Hrid)]].
      * destruct (ok_member _ _ Hok e g r Hg Hold) as (rv & Hrv & Hrid). exists rv.
        split; [by eapply lookup_weaken|congruence].
      * exists rv. split; [done|congruence].
    + rewrite lookup_insert_ne by done. intros Hg2 Hr.
      destruct (ok_member _ _ Hok e2 g2 r Hg2 Hr) as (rv & Hrv & Hrid). exists rv.
      split; [by eapply lookup_weaken|done].
  - intros e2 g2. destruct (decide (e = e2)) as [<-|Hne].
    + rewrite lookup_insert_eq. by intros [= <-].
    + rewrite lookup_insert_ne by done. apply (ok_nodup _ _ Hok).
  - intros e1 e2 g1 g2 r. destruct (decide (e = e1)) as [<-|Hne1], (decide (e = e2)) as [<-|Hne2];
      rewrite ?lookup_insert_eq, ?lookup_insert_ne by done.
    + done.
    + intros [= <-] Hg2 Hr1 Hr2. by destruct (Hother e2 g2 r Hne2 Hg2 Hr2).
    + intros Hg1 [= <-] Hr1 Hr2. by destruct (Hother e1 g1 r Hne1 Hg1 Hr1).
    + apply (ok_one_group _ _ Hok).
  - intros e2 g2 r. destruct (decide (e = e2)) as [<-|Hne].
    + rewrite lookup_insert_eq. intros [= <-]. apply Htold.
    + rewrite lookup_insert_ne by done. intros Hg2 Hr. rewrite last_told_app_nil.
      * by eapply (ok_told _ _ Hok).
      * intros c Hc <-. by destruct (Hother e2 g2 _ Hne Hg2 Hr (Hcalls c Hc)).
Qed.

Lemma deref_Ret b e g : deref b e = Ret g -> group_heap b !! e = Some g.
Proof. unfold deref. by destruct (group_heap b !! e); intros [= ->]. Qed.

Lemma fresh_resolver b : resolver_heap b !! fresh (dom (resolver_heap b)) = None.
Proof. apply not_elem_of_dom, is_fresh. Qed.

Lemma getResolverGroup_Ok b id e : getResolverGroup b id = Ok e -> resolverGroups b !! id = Some e.
Proof. unfold getResolverGroup. by destruct (resolverGroups b !! id); intros [= ->]. Qed.

Lemma newResolverGroup_ok b log id :
  builder_ok b log -> builder_ok (fst (newResolverGroup b id)) log.
Proof.
  intros Hok. unfold newResolverGroup, newResolverGroup_check.
  destruct (resolverGroups b !! id) eqn:Hid; [done|]. simpl.
  assert (Hf : group_heap b !! fresh (dom (group_heap b)) = None) by apply not_elem_of_dom, is_fresh.
  set (es := fresh _) in *. clearbody es.
  assert (Hlook : forall e g r, <[es := mkGroup id [] []]> (group_heap b) !! e = Some g ->
            r ∈ resolvers g -> group_heap b !! e = Some g).
  { intros e g r. destruct (decide (es = e)) as [<-|Hne].
    - rewrite lookup_insert_eq. intros [= <-] Hr. by apply not_elem_of_nil in Hr.
    - by rewrite lookup_insert_ne. }
  split; simpl.
  - intros id' e. destruct (decide (id = id')) as [<-|Hne].
    + rewrite lookup_insert_eq. intros [= <-]. rewrite lookup_insert_eq. by eexists.
    + rewrite lookup_insert_ne by done. intros He. destruct (ok_registry _ _ Hok _ _ He) as (g & Hg & Hgid).
      exists g. rewrite lookup_insert_ne by congruence. done.
  - intros e g r Hg Hr. eapply (ok_member _ _ Hok); eauto.
  - intros e g. destruct (decide (es = e)) as [<-|Hne].
    + rewrite lookup_insert_eq. intros [= <-]. constructor.
    + rewrite lookup_insert_ne by done. apply (ok_nodup _ _ Hok).
  - intros e1 e2 g1 g2 r Hg1 Hg2 Hr1 Hr2. eapply (ok_one_group _ _ Hok); eauto.
  - intros e g r Hg Hr. eapply (ok_told _ _ Hok); eauto.
Qed.

Lemma Build_ok b log a cc b' calls res :
  builder_ok b log -> Build b a cc = Ret (b', calls, res) -> builder_ok b' (log ++ calls).
Proof.
  intros Hok. unfold Build. case_decide; [intros [= <- <- <-]; by rewrite app_nil_r|].
  destruct (getResolverGroup b a) as [es|err] eqn:Hget; [|intros [= <- <- <-]; by rewrite app_nil_r].
  apply getResolverGroup_Ok in Hget. destruct (ok_registry _ _ Hok _ _ Hget) as (g & Hg & Hgid).
  pose proof (fresh_resolver b) as Hf. set (r := fresh _) in *. clearbody r.
  unfold addResolver, addResolver_locked, deref. simpl. rewrite Hg. simpl. intros [= <- <- <-].
  assert (Hr : r ∉ resolvers g).
  { intros Hr. destruct (ok_member _ _ Hok _ _ _ Hg Hr) as (rv & Hrv & _). congruence. }
  assert (Hlast : (r, epsToAddrs (endpoints g)) ∈ [(r, epsToAddrs (endpoints g))]) by (by apply list_elem_of_singleton).
  apply (ok_replace_group b log _ es g _ _ Hok Hg); simpl; [done|..].
  - apply NoDup_app. split; [by eapply (ok_nodup _ _ Hok)|]. split; [|apply NoDup_singleton].
    intros x Hx Hx'. apply list_elem_of_singleton in Hx' as ->. done.
  - by apply insert_subseteq.
  - intros r' [Hr'|Hr']%elem_of_app; [by left|]. apply list_elem_of_singleton in Hr' as ->.
    right. split; [done|]. rewrite lookup_insert_eq. by eexists.
  - intros c Hc. apply list_elem_of_singleton in Hc as ->. apply elem_of_app. right. by apply list_elem_of_singleton.
  - intros r' [Hr'|Hr']%elem_of_app.
    + rewrite last_told_app_nil; [by eapply (ok_told _ _ Hok)|].
      intros c Hc. apply list_elem_of_singleton in Hc as ->. simpl. congruence.
    + apply list_elem_of_singleton in Hr' as ->. apply last_told_app; [|done].
      intros c Hc. by apply list_elem_of_singleton in Hc as ->.
Qed.

Lemma SetEndpoints_ok b log e eps b' calls :
  builder_ok b log -> SetEndpoints b e eps = Ret (b', calls) -> builder_ok b' (log ++ calls).
Proof.
  intros Hok. unfold SetEndpoints. rewrite outcome_bind_Ret. intros (g & Hg%deref_Ret & [= <- <-]).
  apply (ok_replace_group b log _ e g _ _ Hok Hg); simpl; [done|..].
  - by eapply (ok_nodup _ _ Hok).
  - done.
  - intros r Hr. by left.
  - by intros c (r & -> & Hr)%list_elem_of_fmap.
  - intros r Hr. apply last_told_app.
    + by intros c (r' & -> & _)%list_elem_of_fmap.
    + apply list_elem_of_fmap. by exists r.
Qed.

Lemma resolver_Close_ok b log r b' :
  builder_ok b log -> resolver_Close b r = Ret b' -> builder_ok b' log.
Proof.
  intros Hok. unfold resolver_Close. destruct (resolver_heap b !! r) as [rv|]; [|done].
  destruct (getResolverGroup b (endpointID rv)) as [es|]; [|by intros [= <-]].
  unfold removeResolver. rewrite outcome_bind_Ret. intros (g & Hg%deref_Ret & [= <-]).
  rewrite <- (app_nil_r log).
  apply (ok_replace_group b log [] es g _ _ Hok Hg); simpl; [done|..].
  - apply remove_first_NoDup. by eapply (ok_nodup _ _ Hok).
  - done.
  - intros x Hx%elem_of_remove_first. by left.
  - intros c Hc. by apply not_elem_of_nil in Hc.
  - intros x Hx%elem_of_remove_first. rewrite app_nil_r. by eapply (ok_told _ _ Hok).
Qed.

Lemma group_Close_ok b log e b' :
  builder_ok b log -> group_Close b e = Ret b' -> builder_ok b' log.
Proof.
  intros Hok. unfold group_Close. rewrite outcome_bind_Ret. intros (g & Hg%deref_Ret & [= <-]).
  destruct Hok as [Hreg Hmem Hnd Hone Htold]. split; try done.
  simpl. intros id e2 [_ He2]%lookup_delete_Some. by apply Hreg.
Qed.

Lemma run_op_ok b log o b' calls :
  builder_ok b log -> run_op b o = Ret (b', calls) -> builder_ok b' (log ++ calls).
Proof.
  intros Hok. destruct o as [id|a cc|e eps|e|r]; simpl; rewrite ?outcome_bind_Ret.
  - intros [= <- <-]. rewrite app_nil_r. by apply newResolverGroup_ok.
  - intros ([[b2 calls2] res] & Hb & [= <- <-]). by eapply Build_ok.
  - by apply SetEndpoints_ok.
  - intros (b2 & Hb & [= <- <-]). rewrite app_nil_r. by eapply group_Close_ok.
  - intros (b2 & Hb & [= <- <-]). rewrite app_nil_r. by eapply resolver_Close_ok.
Qed.

Lemma builder_reachable_ok b log : reachable b log -> builder_ok b log.
Proof.
  induction 1 as [|b log o b' calls _ IH Hop]; [|by eapply run_op_ok].
  split; simpl; intros *; by rewrite lookup_empty.
Qed.

(** Only resolvers that were built are told anything. *)
Lemma run_op_heap b log o b' calls :
  builder_ok b log -> run_op b o = Ret (b', calls) ->
  resolver_heap b ⊆ resolver_heap b' /\ forall c, c ∈ calls -> is_Some (resolver_heap b' !! fst c).
Proof.
  intros Hok. assert (Hnil : forall c : call, c ∈ [] -> is_Some (resolver_heap b' !! fst c)) by (by intros c ?%not_elem_of_nil).
  destruct o as [id|a cc|e eps|e|r]; simpl; rewrite ?outcome_bind_Ret.
  - intros [= <- <-]. split; [|done]. unfold newResolverGroup. by destruct (newResolverGroup_check b id).
  - intros ([[b2 calls2] res] & Hb & [= <- <-]). unfold Build in Hb. case_decide; [by injection Hb as <- <- _|].
    destruct (getResolverGroup b a); [|by injection Hb as <- <- _]. pose proof (fresh_resolver b) as Hf.
    set (r := fresh _) in *. clearbody r. unfold addResolver, addResolver_locked, deref in Hb. simpl in Hb.
    destruct (group_heap b !! _); [|done]. injection Hb as <- <- _. simpl. split; [by apply insert_subseteq|].
    intros c ->%list_elem_of_singleton. simpl. rewrite lookup_insert_eq. by eexists.
  - unfold SetEndpoints. rewrite outcome_bind_Ret. intros (g & Hg%deref_Ret & [= <- <-]). split; [done|].
    intros c (r & -> & Hr)%list_elem_of_fmap. destruct (ok_member _ _ Hok e g r Hg Hr) as (rv & Hrv & _). by exists rv.
  - intros (b2 & Hb & [= <- <-]). unfold group_Close in Hb. apply outcome_bind_Ret in Hb as (g & _ & [= <-]). done.
  - intros (b2 & Hb & [= <- <-]). split; [|done]. unfold resolver_Close in Hb. destruct (resolver_heap b !! r) as [rv|]; [|done].
    destruct (getResolverGroup b (endpointID rv)); [|by injection Hb as <-].
    unfold removeResolver in Hb. by apply outcome_bind_Ret in Hb as (g & _ & [= <-]).
Qed.

Lemma told_resolvers b log c : reachable b log -> c ∈ log -> is_Some (resolver_heap b !! fst c).
Proof.
  induction 1 as [|b log o b' calls Hr IH Hop]; [by intros ?%not_elem_of_nil|].
  destruct (run_op_heap _ _ _ _ _ (builder_reachable_ok _ _ Hr) Hop) as [Hsub Hnew].
  intros [Hc|Hc]%elem_of_app; [|by apply Hnew]. destruct (IH Hc) as [rv Hrv]. exists rv. by eapply lookup_weaken.
Qed.

(** What an operation does to a group other than setting its endpoints. *)
Lemma run_op_group b o b' calls e g :
  (forall eps, o <> OpSetEndpoints e eps) -> run_op b o = Ret (b', calls) -> group_heap b !! e = Some g ->
  exists g', group_heap b' !! e = Some g' /\ endpoints g' = endpoints g /\
    forall r, r ∈ resolvers g -> o <> OpResolverClose r -> r ∈ resolvers g'.
Proof.
  intros Ho Hop Hg. assert (Hsame : group_heap b' = group_heap b -> exists g', group_heap b' !! e = Some g' /\
    endpoints g' = endpoints g /\ forall r, r ∈ resolvers g -> o <> OpResolverClose r -> r ∈ resolvers g').
  { intros ->. by exists g. }
  destruct o as [id|a cc|e' eps|e'|r']; simpl in Hop; rewrite ?outcome_bind_Ret in Hop.
  - injection Hop as <- _. unfold newResolverGroup in *. destruct (newResolverGroup_check b id); [|by apply Hsame].
    exists g. simpl. assert (Hf : fresh (dom (group_heap b)) ∉ dom (group_heap b)) by apply is_fresh.
    rewrite lookup_insert_ne; [done|]. intros Heq. apply Hf. rewrite Heq. by eapply elem_of_dom_2.
  - destruct Hop as ([[b2 calls2] res] & Hb & [= <- <-]). unfold Build in Hb. case_decide; [injection Hb as <- _ _; by apply Hsame|].
    destruct (getResolverGroup b a) as [es|]; [|injection Hb as <- _ _; by apply Hsame].
    unfold addResolver, addResolver_locked, deref in Hb. simpl in Hb.
    destruct (group_heap b !! es) as [g0|] eqn:Hg0; [|done]. injection Hb as <- _ _. simpl.
    destruct (decide (es = e)) as [->|]; [|by rewrite lookup_insert_ne; [exists g|]].
    rewrite Hg in Hg0. injection Hg0 as <-. eexists. rewrite lookup_insert_eq. split; [done|]. split; [done|].
    intros r Hr _. apply elem_of_app. by left.
  - unfold SetEndpoints in Hop. apply outcome_bind_Ret in Hop as (g0 & _ & [= <- _]). simpl.
    rewrite lookup_insert_ne; [by exists g|]. intros ->. by apply (Ho eps).
  - destruct Hop as (b2 & Hb & [= <- <-]). unfold group_Close in Hb. apply outcome_bind_Ret in Hb as (g0 & _ & [= <-]). by apply Hsame.
  - destruct Hop as (b2 & Hb & [= <- <-]). unfold resolver_Close in Hb. destruct (resolver_heap b !! r') as [rv|]; [|done].
    destruct (getResolverGroup b (endpointID rv)) as [es|]; [|injection Hb as <-; by apply Hsame].
    unfold removeResolver in Hb. apply outcome_bind_Ret in Hb as (g0 & Hg0%deref_Ret & [= <-]). simpl.
    destruct (decide (es = e)) as [->|]; [|by rewrite lookup_insert_ne; [exists g|]].
    rewrite Hg in Hg0. injection Hg0 as <-. eexists. rewrite lookup_insert_eq. split; [done|]. split; [done|]. simpl.
    intros r Hr Hne. assert (r' <> r) as Hrr by congruence. clear -Hr Hrr. induction (resolvers g) as [|x rs IH]; [done|]. simpl.
    apply elem_of_cons in Hr as [<-|Hr]; case_decide; [done|by left|done|right; by apply IH].
Qed.

(** C6: no resolver is left with stale addresses.  In every state reached by
    whole operations, the last [NewAddress] call a resolver received named
    exactly the endpoints its group has now, in order; so does a resolver built
    after the endpoints were set.  No resolver is in two groups or twice in one,
    and each belongs to the group of its endpoint id. *)
Theorem members_told_current b log e g r :
  reachable b log -> group_heap b !! e = Some g -> r ∈ resolvers g ->
  last_told log r = Some (epsToAddrs (endpoints g)) /\
  NoDup (resolvers g) /\
  (exists rv, resolver_heap b !! r = Some rv /\ endpointID rv = rg_id g) /\
  (forall e' g', group_heap b !! e' = Some g' -> r ∈ resolvers g' -> e' = e).
Proof.
  intros Hok%builder_reachable_ok Hg Hr.
  split; [by eapply (ok_told _ _ Hok)|]. split; [by eapply (ok_nodup _ _ Hok)|].
  split; [by eapply (ok_member _ _ Hok)|]. intros e' g' Hg' Hr'. by eapply (ok_one_group _ _ Hok).
Qed.

(** *** A closed resolver stays silent *)
Fixpoint run_ops (b : builder) (ops : list op) : outcome (builder * list call) :=
  match ops with
  | [] => Ret (b, [])
  | o :: ops =>
      '(b, calls1) ← run_op b o;
      '(b, calls2) ← run_ops b ops;
      Ret (b, calls1 ++ calls2)
  end.

(** A resolver object in no group is never put into one again. *)
Definition detached (b : builder) (r : resolver_ref) : Prop :=
  is_Some (resolver_heap b !! r) /\ forall e g, group_heap b !! e = Some g -> r ∉ resolvers g.

Lemma detached_replace reg b e g g' heap' r :
  detached b r -> group_heap b !! e = Some g -> is_Some (heap' !! r) -> r ∉ resolvers g' ->
  detached (mkBuilder reg (<[e := g']> (group_heap b)) heap') r.
Proof.
  intros [Hr Hd] Hg Hh Hg'. split; [done|]. simpl. intros e2 g2. destruct (decide (e = e2)) as [<-|].
  - rewrite lookup_insert_eq. by intros [= <-].
  - rewrite lookup_insert_ne by done. apply Hd.
Qed.

Lemma detached_step b o b' calls r :
  detached b r -> (forall id e, resolverGroups b !! id = Some e -> is_Some (group_heap b !! e)) ->
  run_op b o = Ret (b', calls) -> detached b' r /\ forall c, c ∈ calls -> fst c <> r.
Proof.
  intros Hd Hreg Hop. pose proof Hd as [Hr Hno].
  assert (Hnil : forall c : call, c ∈ [] -> fst c <> r) by (intros c Hc; by apply not_elem_of_nil in Hc).
  destruct o as [id|a cc|e eps|e|r']; simpl in Hop.
  - injection Hop as <- <-. split; [|done].
    unfold newResolverGroup, newResolverGroup_check. destruct (resolverGroups b !! id); [done|]. simpl.
    split; [done|]. simpl. intros e g. destruct (decide (fresh (dom (group_heap b)) = e)) as [<-|].
    + rewrite lookup_insert_eq. intros [= <-]. apply not_elem_of_nil.
    + rewrite lookup_insert_ne by done. apply Hno.
  - apply outcome_bind_Ret in Hop as ([[b2 c2] res] & Hb & [= <- <-]). unfold Build in Hb.
    case_decide; [by injection Hb as <- <- _|].
    destruct (getResolverGroup b a) as [es|]; [|by injection Hb as <- <- _].
    unfold addResolver, addResolver_locked, deref in Hb. simpl in Hb.
    destruct (group_heap b !! es) as [g|] eqn:Hg; [|done]. injection Hb as <- <- _.
    pose proof (fresh_resolver b) as Hf. set (r2 := fresh _) in *. clearbody r2.
    assert (r2 <> r) by (intros ->; destruct Hr; congruence). split.
    + unfold set_group. simpl. apply (detached_replace _ b es g); [done|done| |].
      * by rewrite lookup_insert_ne.
      * simpl. rewrite not_elem_of_app. split; [by eapply Hno|]. rewrite list_elem_of_singleton. congruence.
    + by intros c ->%list_elem_of_singleton.
  - unfold SetEndpoints in Hop. apply outcome_bind_Ret in Hop as (g & Hg%deref_Ret & [= <- <-]). split.
    + apply (detached_replace _ b e g); [done|done|done|exact (Hno e g Hg)].
    + intros c (r2 & -> & Hr2)%list_elem_of_fmap. simpl. intros ->. by apply (Hno e g Hg).
  - apply outcome_bind_Ret in Hop as (b2 & Hb & [= <- <-]). unfold group_Close in Hb.
    by apply outcome_bind_Ret in Hb as (g & _ & [= <-]).
  - apply outcome_bind_Ret in Hop as (b2 & Hb & [= <- <-]). split; [|done]. unfold resolver_Close in Hb.
    destruct (resolver_heap b !! r') as [rv|]; [|done].
    destruct (getResolverGroup b (endpointID rv)) as [es|]; [|by injection Hb as <-].
    unfold removeResolver in Hb. apply outcome_bind_Ret in Hb as (g & Hg%deref_Ret & [= <-]).
    apply (detached_replace _ b es g); [done|done|done|]. intros Hin%elem_of_remove_first. by eapply Hno.
Qed.

Lemma detached_silent b log ops b' calls r :
  detached b r -> builder_ok b log -> run_ops b ops = Ret (b', calls) ->
  forall c, c ∈ calls -> fst c <> r.
Proof.
  revert b log calls. induction ops as [|o ops IH]; intros b log calls Hd Hok Hrun; simpl in Hrun.
  - injection Hrun as _ <-. intros c Hc. by apply not_elem_of_nil in Hc.
  - apply outcome_bind_Ret in Hrun as ([b1 c1] & Hop & Hrun).
    apply outcome_bind_Ret in Hrun as ([b2 c2] & Hops & [= <- <-]).
    destruct (detached_step b o b1 c1 r Hd) as [Hd1 Hc1]; [|done|].
    { intros id e Hid. destruct (ok_registry _ _ Hok _ _ Hid) as (g & Hg & _). by exists g. }
    pose proof (run_op_ok _ _ _ _ _ Hok Hop) as Hok1.
    intros c [Hc|Hc]%elem_of_app; [by apply Hc1|]. by eapply (IH b1).
Qed.

Lemma run_ops_reachable b log ops b' calls :
  reachable b log -> run_ops b ops = Ret (b', calls) -> reachable b' (log ++ calls).
Proof.
  revert b log calls. induction ops as [|o ops IH]; intros b log calls Hr; simpl.
  - intros [= <- <-]. by rewrite app_nil_r.
  - rewrite outcome_bind_Ret. intros ([b1 c1] & Hop & Hrun).
    apply outcome_bind_Ret in Hrun as ([b2 c2] & Hops & [= <- <-]).
    rewrite app_assoc. eapply IH; [|done]. by eapply reach_op.
Qed.

(** Closing a resolver unsubscribes it for good, as long as its group is still
    registered under its id: no later operation, in any order, calls [NewAddress]
    on it.  When the group was closed first (the order of [GrpcClient.Close]),
    closing the resolver changes nothing and the group goes on notifying it. *)
Theorem resolver_close_unsubscribes b log e g r :
  reachable b log -> group_heap b !! e = Some g -> r ∈ resolvers g ->
  (resolverGroups b !! rg_id g = Some e ->
     exists b', resolver_Close b r = Ret b' /\
       forall ops b'' calls, run_ops b' ops = Ret (b'', calls) -> forall c, c ∈ calls -> fst c <> r) /\
  (exists b1, group_Close b e = Ret b1 /\ resolver_Close b1 r = Ret b1 /\
     forall eps b2 calls, SetEndpoints b1 e eps = Ret (b2, calls) -> (r, epsToAddrs eps) ∈ calls).
Proof.
  intros Hok%builder_reachable_ok Hg Hr.
  destruct (ok_member _ _ Hok e g r Hg Hr) as (rv & Hrv & Hid). split.
  - intros Hreg.
    assert (Hc : resolver_Close b r =
      Ret (set_group b e (mkGroup (rg_id g) (endpoints g) (remove_first r (resolvers g))))).
    { unfold resolver_Close, getResolverGroup, removeResolver, deref. rewrite Hrv, Hid, Hreg. by rewrite Hg. }
    eexists. split; [done|]. intros ops b'' calls Hops.
    pose proof (resolver_Close_ok _ _ _ _ Hok Hc) as Hok'.
    eapply detached_silent; [|done|done]. split; [by exists rv|]. simpl.
    intros e' g'. destruct (decide (e = e')) as [<-|Hne].
    + rewrite lookup_insert_eq. intros [= <-]. by apply remove_first_gone, (ok_nodup _ _ Hok e g).
    + rewrite lookup_insert_ne by done. intros Hg' Hr'. apply Hne. by eapply (ok_one_group _ _ Hok).
  - exists (close b (rg_id g)). unfold group_Close, deref. rewrite Hg. split; [done|]. split.
    + unfold resolver_Close, getResolverGroup. simpl. by rewrite Hrv, Hid, lookup_delete_eq.
    + intros eps b2 calls. unfold SetEndpoints, deref. simpl. rewrite Hg. intros [= <- <-].
      apply list_elem_of_fmap. by exists r.
Qed.

(** *** Interleavings inside an operation *)

(** [addResolver] announces the addresses after it released the group's lock,
    so an update of the endpoints in between is overwritten: the resolver has
    been told the new endpoints and then the old ones, and its last word stays the
    old ones although the group holds the new. *)
Theorem addResolver_race_stale b e g r eps' log :
  group_heap b !! e = Some g -> epsToAddrs (endpoints g) <> epsToAddrs eps' ->
  exists b1 addrs b2 calls, addResolver_locked b e r = Ret (b1, addrs) /\
    SetEndpoints b1 e eps' = Ret (b2, calls) /\
    let log' := log ++ calls ++ [(r, addrs)] in
    exists g', group_heap b2 !! e = Some g' /\ endpoints g' = eps' /\ r ∈ resolvers g' /\
      last_told (log ++ calls) r = Some (epsToAddrs eps') /\
      last_told log' r = Some (epsToAddrs (endpoints g)) /\
      last_told log' r <> Some (epsToAddrs (endpoints g')).
Proof.
  intros Hg Hne. unfold addResolver_locked, SetEndpoints, deref. rewrite Hg. simpl.
  eexists _, _, _, _. split; [done|]. simpl. rewrite lookup_insert_eq. split; [done|]. simpl.
  eexists. rewrite lookup_insert_eq. split; [done|]. split; [done|]. simpl.
  assert (Hin : r ∈ resolvers g ++ [r]) by (apply elem_of_app; right; by apply list_elem_of_singleton).
  split; [done|]. split.
  - apply last_told_app.
    + by intros c (x & -> & _)%list_elem_of_fmap.
    + apply list_elem_of_fmap. by exists r.
  - assert (Hl : forall l : list call, last_told (l ++ [(r, epsToAddrs (endpoints g))]) r
                 = Some (epsToAddrs (endpoints g))).
    { intros l. apply last_told_app; [|by apply list_elem_of_singleton]. by intros c ->%list_elem_of_singleton. }
    rewrite app_assoc, Hl. split; [done|]. congruence.
Qed.

(** [newResolverGroup] checks and inserts in two critical sections, so two
    callers can both create the same id: both checks pass, both calls succeed,
    and the first group is orphaned.  Resolvers built for the id then join the
    second group, and updating the endpoints of the first notifies nobody; run one
    after the other, the second call is refused. *)
Theorem newResolverGroup_race b log id cc :
  builder_ok b log -> 0 < String.length id -> resolverGroups b !! id = None ->
  let '(b1, es1) := newResolverGroup_insert b id in
  let '(b2, es2) := newResolverGroup_insert b1 id in
  newResolverGroup_check b id = Ok tt /\ es1 <> es2 /\ resolverGroups b2 !! id = Some es2 /\
  (exists b3 calls r, Build b2 id cc = Ret (b3, calls, Ok r) /\
     forall eps, exists b4, SetEndpoints b3 es1 eps = Ret (b4, [])) /\
  newResolverGroup b1 id = (b1, Err ("Endpoint already exists for id: " +:+ id)).
Proof.
  intros Hok Hlen Hid. unfold newResolverGroup_insert. simpl.
  set (es1 := fresh (dom (group_heap b))). set (es2 := fresh _).
  assert (Hne : es1 <> es2).
  { intros Heq. assert (Hf : es2 ∉ dom (<[es1 := mkGroup id [] []]> (group_heap b))) by apply is_fresh.
    apply Hf. rewrite <- Heq, dom_insert_L. set_solver. }
  clearbody es1 es2.
  split; [unfold newResolverGroup_check; by rewrite Hid|]. split; [done|].
  split; [by rewrite lookup_insert_eq|]. split.
  - unfold Build, getResolverGroup. simpl. rewrite decide_False by lia. rewrite lookup_insert_eq.
    unfold addResolver, addResolver_locked, deref. simpl. rewrite lookup_insert_eq. simpl.
    eexists _, _, _. split; [done|]. intros eps. unfold SetEndpoints, deref. simpl.
    rewrite lookup_insert_ne by done. rewrite lookup_insert_ne by done. rewrite lookup_insert_eq. by eexists.
  - unfold newResolverGroup, newResolverGroup_check. simpl. by rewrite lookup_insert_eq.
Qed.

End Registry.

(** ** Witnesses *)
Section Demo.
(** A group for ["c"], one resolver, then two endpoints. *)
Definition demo_ops : list (@op nat) :=
  [OpNewGroup "c"; OpBuild "c" 7; OpSetEndpoints 0 ["x"; "y"]]%string.
Definition demo_state : @builder nat * list call :=
  match run_ops empty_builder demo_ops with Ret s => s | Panic => (empty_builder, []) end.
Definition demo_group : ResolverGroup := mkGroup "c" ["x"; "y"] [0].

Lemma demo_reachable : reachable demo_state.1 demo_state.2.
Proof.
  apply (run_ops_reachable empty_builder [] demo_ops); [constructor|]. vm_compute. reflexivity.
Defined.

Lemma demo_lookup : group_heap demo_state.1 !! 0 = Some demo_group.
Proof. vm_compute. reflexivity. Defined.

Lemma demo_member : 0 ∈ resolvers demo_group.
Proof. by apply list_elem_of_singleton. Defined.

Example members_told_current_witness :
  last_told demo_state.2 0 = Some [mkAddress "x"; mkAddress "y"].
Proof. exact (proj1 (members_told_current _ _ 0 demo_group 0 demo_reachable demo_lookup demo_member)). Defined.

Example resolver_close_unsubscribes_witness :
  exists b', resolver_Close demo_state.1 0 = Ret b' /\
    forall ops b'' calls, run_ops b' ops = Ret (b'', calls) -> forall c, c ∈ calls -> fst c <> 0.
Proof.
  apply (proj1 (resolver_close_unsubscribes _ _ 0 demo_group 0 demo_reachable demo_lookup demo_member)).
  vm_compute. reflexivity.
Defined.

Example addResolver_race_stale_witness :
  exists b1 addrs, addResolver_locked demo_state.1 0 1 = Ret (b1, addrs) /\
    exists b2 calls, SetEndpoints b1 0 ["z"%string] = Ret (b2, calls).
Proof.
  destruct (addResolver_race_stale demo_state.1 0 demo_group 1 ["z"%string] demo_state.2 demo_lookup)
    as (b1 & addrs & b2 & calls & H1 & H2 & _); [done|].
  exists b1, addrs. split; [exact H1|]. exists b2, calls. exact H2.
Defined.

Example newResolverGroup_race_witness :
  let '(b1, es1) := newResolverGroup_insert demo_state.1 "d" in
  let '(b2, es2) := newResolverGroup_insert b1 "d" in
  es1 <> es2 /\ resolverGroups b2 !! "d"%string = Some es2.
Proof.
  pose proof (newResolverGroup_race demo_state.1 demo_state.2 "d" 0 (builder_reachable_ok _ _ demo_reachable)
    ltac:(simpl; lia) ltac:(vm_compute; reflexivity)) as Hrace.
  destruct (newResolverGroup_insert demo_state.1 "d") as [b1 es1].
  destruct (newResolverGroup_insert b1 "d") as [b2 es2].
  exact (conj (proj1 (proj2 Hrace)) (proj1 (proj2 (proj2 Hrace)))).
Defined.
End Demo.
