(* ===== verification/BalancerText.v ===== *)
(** * grpc/client/balancer: the helpers at the end of [balancer.go]

    Texts of addresses and sub-connections for the log, in the order of [sort.Strings];
    endpoints made addresses through [url.Parse]; and generated names.  Only a log line
    that is commented out calls them. *)
From S2P Require Import Prelude.
From S2P Require Import Resolver.
From stdpp Require Import sorting.

(** ** Sorted texts

    [sort.Strings] orders strings by their bytes; equal strings cannot be told apart, so
    any sorting function is a model of it. *)
Definition sort_Strings (ss : list string) : list string := merge_sort String.le ss.

(* src/grpc/client/balancer/balancer.go:233-240 addrsToStrings *)
Definition addrsToStrings (addrs : list Address) : list string := sort_Strings (Addr <$> addrs).

Section SubConns.
(** [%p] of a sub-connection: the text of its address in memory. *)
Context {SubConn : Type} `{Countable SubConn} (fmt_p : SubConn -> string).

(* src/grpc/client/balancer/balancer.go:220-222 scToString *)
Definition scToString (sc : SubConn) : string := fmt_p sc.

(* src/grpc/client/balancer/balancer.go:224-231 scsToStrings *)
Definition scsToStrings (order : GoRange) (scs : gmap SubConn Address) : list string :=
  sort_Strings ((fun e => Addr e.2 +:+ " (" +:+ scToString e.1 +:+ ")") <$> go_range scs).
End SubConns.

Lemma sort_Strings_Permutation ss1 ss2 : ss1 ≡ₚ ss2 -> sort_Strings ss1 = sort_Strings ss2.
Proof.
  intros Hp. apply (Sorted_unique String.le); [apply Sorted_merge_sort; apply _..|].
  unfold sort_Strings. by rewrite !merge_sort_Permutation.
Qed.

(** The texts of addresses are those addresses, in order, whatever the order they came in. *)
Theorem addrsToStrings_sorted addrs :
  Sorted String.le (addrsToStrings addrs) /\ addrsToStrings addrs ≡ₚ Addr <$> addrs /\
  forall addrs', addrs ≡ₚ addrs' -> addrsToStrings addrs = addrsToStrings addrs'.
Proof.
  split; [apply Sorted_merge_sort; apply _|]. split; [apply merge_sort_Permutation|].
  intros addrs' Hp. by apply sort_Strings_Permutation, fmap_Permutation.
Qed.

(** The order in which Go visits the map does not show in the texts of its entries. *)
Theorem scsToStrings_determined {SubConn : Type} `{Countable SubConn} (fmt_p : SubConn -> string)
    (range1 range2 : GoRange) scs :
  scsToStrings fmt_p range1 scs = scsToStrings fmt_p range2 scs.
Proof.
  apply sort_Strings_Permutation, fmap_Permutation.
  by rewrite (go_range_perm (GoRange := range1)), (go_range_perm (GoRange := range2)).
Qed.

(** ** Endpoints

    The [Type] of an address is [resolver.Backend], its zero value, as in [Resolver]. *)
(* src/grpc/client/balancer/balancer.go:242-253 epsToAddrs *)
Definition balancer_epsToAddrs (url_Parse : string -> option URL) (eps : list string) : list Address :=
  (fun ep => match url_Parse ep with None => mkAddress ep | Some u => mkAddress (Host u) end) <$> eps.

(** A comment in [resolver.go] means to use this function there; the two agree exactly
    on endpoints that do not parse, or parse to themselves as the host. *)
Theorem epsToAddrs_agree url_Parse eps :
  balancer_epsToAddrs url_Parse eps = epsToAddrs eps <->
  Forall (fun ep => forall u, url_Parse ep = Some u -> Host u = ep) eps.
Proof.
  unfold balancer_epsToAddrs, epsToAddrs. induction eps as [|ep eps IH]; [by split|].
  rewrite !fmap_cons, Forall_cons, <- IH. destruct (url_Parse ep) as [u|]; split.
  - intros [= Hu Heps]. split; [by intros ? [= <-]|done].
  - intros [Hu ->]. f_equal. f_equal. by apply Hu.
  - intros [= Heps]. by split.
  - by intros [_ ->].
Qed.

(** ** Generated names *)

(** [%X] of a number of at most 64 bits, which has at most 16 digits. *)
Definition hex_char (d : Z) : ascii := ascii_of_N (Z.to_N (if decide (d < 10)%Z then 48 + d else 55 + d)).
Fixpoint hex_go (fuel : nat) (z : Z) (s : string) : string :=
  match fuel with
  | O => s
  | S fuel => if decide (z = 0)%Z then s else hex_go fuel (z / 16)%Z (String (hex_char (z mod 16)) s)
  end.
Definition fmt_X (z : Z) : string :=
  if decide (z = 0)%Z then "0"
  else if decide (z < 0)%Z then "-" +:+ hex_go 16 (- z) "" else hex_go 16 z "".

(** [now] is the clock's reading in nanoseconds, [genN] the package's counter. *)
(* src/grpc/client/balancer/balancer.go:257-260 genName *)
Definition genName (now genN : Z) : string * Z :=
  let n := u32 (genN + 1) in (fmt_X now +:+ fmt_X n, n).

Definition hex_digit (c : ascii) : Z :=
  let n := Z.of_N (N_of_ascii c) in if decide (n < 58)%Z then n - 48 else n - 55.
Fixpoint hex_value (s : string) (z : Z) : Z :=
  match s with "" => z | String c s => hex_value s (z * 16 + hex_digit c) end.

Lemma hex_digit_char d : (0 <= d < 16)%Z -> hex_digit (hex_char d) = d.
Proof.
  intros Hd. unfold hex_digit, hex_char.
  rewrite N_ascii_embedding by (destruct (decide (d < 10)%Z); lia).
  destruct (decide (d < 10)%Z); rewrite Z2N.id by lia; case_decide; lia.
Qed.

Lemma hex_go_value fuel z s : (0 <= z < 16 ^ Z.of_nat fuel)%Z -> hex_value (hex_go fuel z s) 0 = hex_value s z.
Proof.
  revert z s. induction fuel as [|fuel IH]; intros z s Hz; [cbn in *; by replace z with 0%Z by lia|].
  simpl. case_decide as Hz0; [by subst|]. rewrite IH.
  - simpl. rewrite hex_digit_char by (apply Z.mod_pos_bound; lia). f_equal. pose proof (Z.div_mod z 16). lia.
  - rewrite Nat2Z.inj_succ, Z.pow_succ_r in Hz by lia.
    split; [apply Z.div_pos; lia|apply Z.div_lt_upper_bound; lia].
Qed.

Lemma fmt_X_value z : (0 <= z < 2 ^ 64)%Z -> hex_value (fmt_X z) 0 = z.
Proof.
  intros Hz. unfold fmt_X. case_decide as Hz0; [by subst|]. rewrite decide_False by lia.
  by apply (hex_go_value 16).
Qed.

Lemma string_app_cut s1 s2 t1 t2 :
  String.length s1 = String.length s2 -> s1 +:+ t1 = s2 +:+ t2 -> s1 = s2 /\ t1 = t2.
Proof.
  revert s2. induction s1 as [|c s1 IH]; intros [|d s2]; simpl; try done. intros [= Hl] [= <- Ht].
  by destruct (IH s2 Hl Ht) as [<- ?].
Qed.

(** Names generated from clock readings of the same length differ unless both the reading
    and the counter are the same; the counter comes back after [2^32] names. *)
Theorem genName_distinct now1 now2 genN1 genN2 :
  (0 <= now1 < 2 ^ 63)%Z -> (0 <= now2 < 2 ^ 63)%Z ->
  String.length (fmt_X now1) = String.length (fmt_X now2) ->
  fst (genName now1 genN1) = fst (genName now2 genN2) ->
  now1 = now2 /\ (genN1 `mod` 2 ^ 32 = genN2 `mod` 2 ^ 32)%Z.
Proof.
  intros H1 H2 Hlen Hname. apply (string_app_cut _ _ _ _ Hlen) in Hname as [Hnow Hn].
  apply (f_equal (fun s => hex_value s 0)) in Hnow, Hn.
  assert (Hu : forall z, (0 <= u32 z < 2 ^ 64)%Z) by (intros z; unfold u32; pose proof (Z.mod_pos_bound z (2 ^ 32)); lia).
  rewrite !fmt_X_value in Hnow by lia. rewrite !fmt_X_value in Hn by apply Hu. split; [done|].
  unfold u32 in Hn. apply (f_equal (fun z => (z - 1) `mod` 2 ^ 32)%Z) in Hn.
  rewrite !Zminus_mod_idemp_l in Hn. by rewrite !Z.add_simpl_r in Hn.
Qed.

(** The two numbers run together: readings of different lengths can give the same name. *)
Example genName_collides : fst (genName 1 16) = fst (genName 17 0).
Proof. reflexivity. Qed.

Example genName_distinct_witness :
  forall genN, fst (genName 1577836800000000000 genN) = fst (genName 1577836800000000000 7) -> (genN `mod` 2 ^ 32 = 7)%Z.
Proof.
  intros genN Hn.
  exact (proj2 (genName_distinct 1577836800000000000 1577836800000000000 genN 7 ltac:(lia) ltac:(lia) eq_refl Hn)).
Defined.
