(* ===== verification/Discovery.v ===== *)
(** * grpc/client/balancer: from a group's endpoints to the requests

    The resolver and the balancer of one connection together: the operations on the
    package's registry ([Resolver]) announce addresses with [NewAddress]; grpc hands
    what the connection's resolver announces to its balancer ([Balancer]), in the order
    of the calls; requests ask the picker.  The theorem joins the invariants of both:
    it is about the addresses the requests go to. *)
From S2P Require Import Prelude.
From S2P Require Import Connectivity.
From S2P Require Import Picker.
From S2P Require Import Resolver.
From S2P Require Import Balancer.

#[global] Program Instance Address_countable : Countable Address := inj_countable' Addr mkAddress _.
Next Obligation. by intros []. Qed.

Section Discovery.
Context {SubConn error W CC : Type} `{Countable SubConn}.
Context `{!GoRange} `{!ClientConn W Address SubConn}.
Context (ErrNoSubConnAvailable ErrTransientFailure : error) (cfg : BalancerConfig) (zero : State) (id : string).
(** The policy grpc's client registers, and the state a recorder starts with. *)
Context (Hpolicy : bc_Policy cfg = RoundrobinBalanced) (Hzero : zero <> TransientFailure).

#[local] Abbreviation balancer := (baseBalancer (Address := Address) (SubConn := SubConn) (error := error)).
#[local] Abbreviation cc_calls := (list (cc_call (Address := Address) (SubConn := SubConn) (error := error))).
#[local] Abbreviation inv := (bal_inv ErrNoSubConnAvailable ErrTransientFailure zero).

(** The registry with the calls of [NewAddress] so far, and the balancer with its calls. *)
Record system : Type := mkSystem {
  s_registry : builder (CC := CC);
  s_told : list call;
  s_balancer : balancer;
  s_world : W;
  s_calls : cc_calls
}.

(** grpc hands the addresses announced by [r], the connection's resolver, to its balancer. *)
Fixpoint deliver (r : resolver_ref) (calls : list call) (bb : balancer) (w : W) : balancer * W * cc_calls :=
  match calls with
  | [] => (bb, w, [])
  | c :: calls =>
      if decide (fst c = r) then
        let '(bb, w, ccs1) := HandleResolvedAddrs bb w (snd c) None in
        let '(bb, w, ccs2) := deliver r calls bb w in
        (bb, w, ccs1 ++ ccs2)
      else deliver r calls bb w
  end.

(** An operation on the registry, a report of grpc's on a sub-connection, a request. *)
Inductive action : Type := ActOp (o : op (CC := CC)) | ActState (sc : SubConn) (st : State) | ActPick.

Definition sys_act (r : resolver_ref) (a : action) (s : system) : outcome system :=
  match a with
  | ActOp o =>
      '(b, calls) ← run_op (s_registry s) o;
      let '(bb, w, ccs) := deliver r calls (s_balancer s) (s_world s) in
      Ret (mkSystem b (s_told s ++ calls) bb w (s_calls s ++ ccs))
  | ActState sc st =>
      '(bb, ccs) ← HandleSubConnStateChange ErrTransientFailure (s_balancer s) sc st;
      Ret (mkSystem (s_registry s) (s_told s) bb (s_world s) (s_calls s ++ ccs))
  | ActPick =>
      '(p, _) ← Pick ErrNoSubConnAvailable (bb_picker (s_balancer s));
      Ret (mkSystem (s_registry s) (s_told s) (set_picker (s_balancer s) p) (s_world s) (s_calls s))
  end.

Definition sys_step (r : resolver_ref) (s s' : system) : Prop := exists a, sys_act r a s = Ret s'.

Fixpoint sys_run (r : resolver_ref) (acts : list action) (s : system) : outcome system :=
  match acts with [] => Ret s | a :: acts => s ← sys_act r a s; sys_run r acts s end.

(** The connection is dialed in any state of the registry: its resolver is the next to be
    built, and its balancer is new. *)
Inductive sys_reachable (r : resolver_ref) : system -> Prop :=
| sys_init b told w :
    Resolver.reachable b told -> last_told told r = None -> issued w = ∅ ->
    sys_reachable r (mkSystem b told (Balancer.Build ErrNoSubConnAvailable cfg zero id) w [])
| sys_next s s' : sys_reachable r s -> sys_step r s s' -> sys_reachable r s'.

Lemma sys_run_reachable r acts s s' : sys_reachable r s -> sys_run r acts s = Ret s' -> sys_reachable r s'.
Proof.
  revert s. induction acts as [|a acts IH]; intros s Hr; simpl; [by intros [= <-]|].
  rewrite outcome_bind_Ret. intros (s1 & Ha & Hs). eapply IH; [|exact Hs]. eapply sys_next; [exact Hr|by exists a].
Qed.

(** ** The invariant *)

(** grpc refused to make a sub-connection for [a] in this world or one before it. *)
Definition refused (w : W) (a : Address) : Prop :=
  exists w0 w1, NewSubConn w0 [a] = (None, w1) /\ issued w0 ⊆ issued w.

(** Every address with a sub-connection is one the resolver announced last, and the other
    way round unless it was refused; every sub-connection that is tracked has an address
    or was removed. *)
Record sys_ok (r : resolver_ref) (told : list call) (bb : balancer) (w : W) (ccs : cc_calls) : Prop := {
  sk_inv : inv bb w;
  sk_current a sc : addrToSc bb !! a = Some sc -> exists l, last_told told r = Some l /\ a ∈ l;
  sk_known l a : last_told told r = Some l -> a ∈ l -> is_Some (addrToSc bb !! a) \/ refused w a;
  sk_tracked sc : is_Some (scToSt bb !! sc) -> (exists a, addrToSc bb !! a = Some sc) \/ CallRemoveSubConn sc ∈ ccs
}.

(** A new entry is one of the addresses resolved. *)
Lemma add_resolved_tracked addrs bb w R bb' w' R' calls sc :
  inv bb w -> add_resolved bb w R addrs = (bb', w', R', calls) ->
  is_Some (scToSt bb' !! sc) -> is_Some (scToSt bb !! sc) \/ exists a, a ∈ addrs /\ addrToSc bb' !! a = Some sc.
Proof.
  revert bb w R calls. induction addrs as [|addr addrs IH]; intros bb w R calls Hinv Heq Hs; cbn [add_resolved] in Heq.
  { injection Heq as <- _ _ _. by left. }
  assert (Hlater : is_Some (scToSt bb !! sc) \/ (exists a, a ∈ addrs /\ addrToSc bb' !! a = Some sc) ->
    is_Some (scToSt bb !! sc) \/ exists a, a ∈ addr :: addrs /\ addrToSc bb' !! a = Some sc).
  { intros [?|(a & ? & ?)]; [by left|right]. exists a. split; [by right|done]. }
  destruct (addrToSc bb !! addr) as [sc0|] eqn:Ha; [apply Hlater, (IH bb w ({[addr]} ∪ R) calls); [exact Hinv|exact Heq|exact Hs]|].
  destruct (NewSubConn w [addr]) as [[sc1|] w1] eqn:Hn.
  2: { apply Hlater. apply NewSubConn_error in Hn. eapply (IH bb w1); [|exact Heq|done].
       destruct Hinv as [? [? ? ? Hia His] ? ?]. split; try done. split; rewrite ?Hn; done. }
  destruct (NewSubConn_fresh _ _ _ _ Hn) as [Hf Hw1].
  pose proof (added_inv _ _ zero bb w w1 addr sc1 Hinv Ha Hf Hw1) as Hinv1.
  change (set_maps bb _ _ _) with (added bb addr sc1) in Heq.
  destruct (add_resolved (added bb addr sc1) w1 _ addrs) as [[[bb2 w2] R2] calls2] eqn:Hrec.
  injection Heq as <- <- <- <-. destruct (IH _ _ _ _ Hinv1 Hrec Hs) as [Hold|(a & Hin & Hx)].
  - simpl in Hold. destruct (decide (sc1 = sc)) as [<-|Hne]; [|left; by rewrite lookup_insert_ne in Hold].
    right. exists addr. split; [by left|]. pose proof (add_resolved_spec _ _ zero _ _ _ _ _ _ _ _ Hinv1 Hrec) as (_ & _ & Hkeep & _).
    apply Hkeep. simpl. apply lookup_insert_eq.
  - right. exists a. split; [by right|done].
Qed.

(** After an update every tracked sub-connection has an address, or had none before, or
    is removed by it. *)
Lemma resolved_tracked bb w addrs bb' w' calls sc :
  inv bb w -> HandleResolvedAddrs bb w addrs None = (bb', w', calls) -> is_Some (scToSt bb' !! sc) ->
  (exists a, addrToSc bb' !! a = Some sc) \/ CallRemoveSubConn sc ∈ calls \/
  (is_Some (scToSt bb !! sc) /\ forall a, addrToSc bb !! a <> Some sc).
Proof.
  intros Hinv Heq Hs. pose proof (HandleResolvedAddrs_spec _ _ zero _ _ _ _ _ _ Hinv Heq) as (_ & _ & Hkeep & _ & Hrem & _).
  unfold HandleResolvedAddrs in Heq. destruct (add_resolved bb w ∅ addrs) as [[[bb1 w1] R] calls1] eqn:Hadd.
  destruct (drop_unresolved bb1 R _) as [bb2 calls2] eqn:Hdrop. injection Heq as <- <- <-.
  pose proof (add_resolved_spec _ _ zero _ _ _ _ _ _ _ _ Hinv Hadd) as (Hi1 & -> & _).
  pose proof (drop_unresolved_spec _ _ zero _ _ _ w1 _ _ Hi1 Hdrop) as (_ & Hmap & _ & Hst & _). rewrite Hst in Hs.
  destruct (add_resolved_tracked _ _ _ _ _ _ _ _ sc Hinv Hadd Hs) as [Hold|(a & Hin & Ha)].
  - destruct (decide (map_Exists (fun (_ : Address) x => x = sc) (addrToSc bb))) as [(a & x & Ha & Hx)|Hno].
    + simpl in Hx. subst x. destruct (decide (a ∈ addrs)) as [Hin|Hin]; [left; exists a; by apply Hkeep|].
      right; left. apply Hrem. by exists a.
    + right; right. split; [done|]. intros a Ha. apply Hno. by exists a, sc.
  - left. exists a. rewrite Hmap, decide_False; [done|]. intros [_ Hn]. apply Hn.
    rewrite elem_of_union, elem_of_list_to_set. by right.
Qed.

Lemma add_resolved_known addrs bb w R bb' w' R' calls a :
  inv bb w -> add_resolved bb w R addrs = (bb', w', R', calls) -> a ∈ addrs ->
  is_Some (addrToSc bb' !! a) \/ refused w' a.
Proof.
  revert bb w R calls. induction addrs as [|addr addrs IH]; intros bb w R calls Hinv Heq Ha; [by apply not_elem_of_nil in Ha|].
  cbn [add_resolved] in Heq. apply elem_of_cons in Ha. destruct (addrToSc bb !! addr) as [sc0|] eqn:Hs.
  { destruct Ha as [->|Ha]; [left|by apply (IH _ _ _ _ Hinv Heq)].
    pose proof (add_resolved_spec _ _ zero _ _ _ _ _ _ _ _ Hinv Heq) as (_ & _ & Hkeep & _). rewrite (Hkeep _ _ Hs). by eexists. }
  destruct (NewSubConn w [addr]) as [[sc1|] w1] eqn:Hn.
  - destruct (NewSubConn_fresh _ _ _ _ Hn) as [Hf Hw1].
    pose proof (added_inv _ _ zero bb w w1 addr sc1 Hinv Hs Hf Hw1) as Hinv1.
    change (set_maps bb _ _ _) with (added bb addr sc1) in Heq.
    destruct (add_resolved (added bb addr sc1) w1 _ addrs) as [[[bb2 w2] R2] calls2] eqn:Hrec. injection Heq as <- <- <- <-.
    destruct Ha as [->|Ha]; [left|by apply (IH _ _ _ _ Hinv1 Hrec)].
    pose proof (add_resolved_spec _ _ zero _ _ _ _ _ _ _ _ Hinv1 Hrec) as (_ & _ & Hkeep & _).
    rewrite (Hkeep addr sc1); [by eexists|]. simpl. apply lookup_insert_eq.
  - pose proof (NewSubConn_error _ _ _ Hn) as He.
    assert (Hinv1 : inv bb w1) by (destruct Hinv as [? [? ? ? Hia His] ? ?]; split; try done; split; rewrite ?He; done).
    destruct Ha as [->|Ha]; [right|by apply (IH _ _ _ _ Hinv1 Heq)].
    pose proof (add_resolved_spec _ _ zero _ _ _ _ _ _ _ _ Hinv1 Heq) as (_ & _ & _ & _ & Hiss & _).
    exists w, w1. split; [done|]. by rewrite <- He.
Qed.

Lemma resolved_known bb w addrs bb' w' calls a :
  inv bb w -> HandleResolvedAddrs bb w addrs None = (bb', w', calls) -> a ∈ addrs ->
  is_Some (addrToSc bb' !! a) \/ refused w' a.
Proof.
  intros Hinv Heq Ha. unfold HandleResolvedAddrs in Heq.
  destruct (add_resolved bb w ∅ addrs) as [[[bb1 w1] R] calls1] eqn:Hadd.
  destruct (drop_unresolved bb1 R _) as [bb2 calls2] eqn:Hdrop. injection Heq as <- <- <-.
  pose proof (add_resolved_spec _ _ zero _ _ _ _ _ _ _ _ Hinv Hadd) as (Hi1 & -> & _).
  pose proof (drop_unresolved_spec _ _ zero _ _ _ w1 _ _ Hi1 Hdrop) as (_ & Hmap & _).
  destruct (add_resolved_known _ _ _ _ _ _ _ _ a Hinv Hadd Ha) as [Hk|]; [left|by right].
  rewrite Hmap, decide_False; [done|]. intros [_ Hn]. apply Hn. rewrite elem_of_union, elem_of_list_to_set. by right.
Qed.

Lemma deliver_ok r calls told bb w ccs bb' w' ccs' :
  sys_ok r told bb w ccs -> deliver r calls bb w = (bb', w', ccs') -> sys_ok r (told ++ calls) bb' w' (ccs ++ ccs').
Proof.
  revert told bb w ccs ccs'. induction calls as [|c calls IH]; intros told bb w ccs ccs' Hok Hd; cbn [deliver] in Hd.
  { injection Hd as <- <- <-. by rewrite !app_nil_r. }
  replace (told ++ c :: calls) with ((told ++ [c]) ++ calls) by (by rewrite <- app_assoc).
  destruct (decide (fst c = r)) as [Hc|Hc].
  - destruct (HandleResolvedAddrs bb w (snd c) None) as [[bb1 w1] ccs1] eqn:Hh.
    destruct (deliver r calls bb1 w1) as [[bb2 w2] ccs2] eqn:Hd2. injection Hd as <- <- <-.
    rewrite app_assoc. eapply IH; [|exact Hd2]. destruct Hok as [Hinv Hcur Hkn Htr].
    assert (Hlast : last_told (told ++ [c]) r = Some (snd c)).
    { apply last_told_app; [by intros c' ->%list_elem_of_singleton|].
      apply list_elem_of_singleton. destruct c; simpl in *. by subst. }
    pose proof (HandleResolvedAddrs_spec _ _ zero _ _ _ _ _ _ Hinv Hh) as (Hinv1 & Hgone & _).
    split; [done| | |].
    + intros a sc Ha. exists (snd c). split; [done|].
      destruct (decide (a ∈ snd c)) as [|Hn]; [done|]. by rewrite Hgone in Ha.
    + intros l a. rewrite Hlast. intros [= <-] Ha. by apply (resolved_known _ _ _ _ _ _ _ Hinv Hh).
    + intros sc Hs. rewrite elem_of_app.
      destruct (resolved_tracked _ _ _ _ _ _ sc Hinv Hh Hs) as [?|[?|[Hold Hno]]]; [by left|right; by right|].
      right. left. destruct (Htr sc Hold) as [[a Ha]|]; [by destruct (Hno a)|done].
  - eapply IH; [|exact Hd]. destruct Hok as [Hinv Hcur Hkn Htr].
    assert (Hlast : last_told (told ++ [c]) r = last_told told r)
      by (apply last_told_app_nil; by intros c' ->%list_elem_of_singleton).
    by split; rewrite ?Hlast.
Qed.

Lemma system_step_ok r s s' :
  sys_step r s s' -> sys_ok r (s_told s) (s_balancer s) (s_world s) (s_calls s) ->
  sys_ok r (s_told s') (s_balancer s') (s_world s') (s_calls s').
Proof using Type Hzero.
  intros [a Ha] Hok. destruct s as [b told bb w ccs], a as [o|sc st|]; cbn [sys_act s_registry s_told s_balancer s_world s_calls] in *;
    apply outcome_bind_Ret in Ha as ([x y] & Hx & Ha).
  - destruct (deliver r y bb w) as [[bb1 w1] ccs1] eqn:Hd. injection Ha as <-. by eapply deliver_ok.
  - injection Ha as <-. destruct Hok as [Hinv Hcur Hkn Htr]. cbn [s_told s_balancer s_world s_calls].
    destruct (HandleSubConnStateChange_inv _ _ zero bb w sc st Hinv) as (bb1 & calls1 & Heq & Hinv1 & Hsome & Hnone).
    rewrite Hx in Heq. injection Heq as <- <-.
    destruct (scToSt bb !! sc) as [old|] eqn:Hold.
    + destruct (Hsome ltac:(by eexists)) as (Hst & _ & Ha & _). split; [done|by rewrite Ha..|].
      intros sc' Hs'. rewrite Ha, elem_of_app. rewrite Hst, changed_state in Hs'.
      destruct (Htr sc') as [?|?]; [|by left|right; by left].
      destruct (decide (sc = sc')) as [<-|]; [by eexists|done].
    + destruct (Hnone eq_refl) as [-> ->]. rewrite app_nil_r. by split.
  - injection Ha as <-. destruct Hok as [Hinv Hcur Hkn Htr].
    destruct (Pick_spec _ _ zero bb w Hzero Hinv) as (p1 & r1 & Heq & Hinv1 & _). rewrite Hx in Heq.
    injection Heq as <- <-. by split.
Qed.

Lemma sys_reachable_ok r s : sys_reachable r s ->
  Resolver.reachable (s_registry s) (s_told s) /\ sys_ok r (s_told s) (s_balancer s) (s_world s) (s_calls s).
Proof using Type Hpolicy Hzero.
  induction 1 as [b told w Hr Hl Hw|s s' _ [IHr IHok] Hstep].
  - split; [done|]. split; simpl; [by apply Build_inv|..]; intros *; rewrite ?lookup_empty, ?Hl; [done..|by intros []].
  - split; [|by eapply system_step_ok]. destruct Hstep as [[o|sc st|] Ha]; cbn [sys_act] in Ha;
      apply outcome_bind_Ret in Ha as ([x y] & Hx & Ha); [|by injection Ha as <-..].
    destruct (deliver _ _ _ _) as [[? ?] ?]. injection Ha as <-. by eapply Resolver.reach_op.
Qed.

(** Requests go to the endpoints of the group.  In every state that operations on the
    registry, one after another, reports of sub-connection states and requests lead to,
    a request is given a sub-connection that is ready and whose address is one of the endpoints the
    resolver's group has now, or that the balancer has told grpc to remove; if it gets
    none then no sub-connection of an endpoint is ready.  No request panics. *)
Theorem requests_reach_endpoints r s :
  sys_reachable r s ->
  exists p res, Pick ErrNoSubConnAvailable (bb_picker (s_balancer s)) = Ret (p, res) /\
    match res with
    | Ok sc =>
        scToSt (s_balancer s) !! sc = Some Ready /\
        (CallRemoveSubConn sc ∈ s_calls s \/
         exists a, scToAddr (s_balancer s) !! sc = Some a /\
           forall e g, group_heap (s_registry s) !! e = Some g -> r ∈ resolvers g -> Addr a ∈ endpoints g)
    | Err _ => forall a sc, addrToSc (s_balancer s) !! a = Some sc -> scToSt (s_balancer s) !! sc <> Some Ready
    end.
Proof using Type Hpolicy Hzero.
  intros [Hreach%builder_reachable_ok [Hinv Hcur Hkn Htr]]%sys_reachable_ok.
  destruct (Pick_spec _ _ zero _ _ Hzero Hinv) as (p & res & Hp & _ & Hres). exists p, res. split; [done|].
  destruct res as [sc|err]; [|by destruct Hres]. split; [done|].
  destruct (Htr sc ltac:(by eexists)) as [[a Ha]|]; [right|by left]. exists a. split.
  - destruct (mo_addr _ _ (bi_maps _ _ _ _ _ Hinv) a sc Ha) as [Hn|]; [by rewrite Hres in Hn|done].
  - intros e g Hg Hr. destruct (Hcur a sc Ha) as (l & Hl & Hin). rewrite (ok_told _ _ Hreach e g r Hg Hr) in Hl.
    injection Hl as <-. apply list_elem_of_fmap in Hin as (ep & Hep & Hin). rewrite Hep. done.
Qed.
End Discovery.

(** ** A run: a [ClientConn] that numbers its sub-connections *)
Definition number_NewSubConn (w : nat) (addrs : list Address) : option nat * nat :=
  if decide (w < 1000) then (Some w, S w) else (None, w).

#[refine] Instance number_ClientConn : ClientConn nat Address nat :=
  {| NewSubConn := number_NewSubConn; issued := counter_issued |}.
Proof.
  - apply (issued_bound (ClientConn := counter_ClientConn)).
  - intros w addrs sc w' Hn. apply (NewSubConn_fresh (ClientConn := counter_ClientConn) w [] sc w').
    by simpl; unfold counter_NewSubConn; rewrite decide_False.
  - intros w addrs w' Hn. apply (NewSubConn_error (ClientConn := counter_ClientConn) w [] w').
    by simpl; unfold counter_NewSubConn; rewrite decide_False.
Defined.

Section Demo.
#[local] Existing Instance range_in_key_order.

#[local] Abbreviation demo_system := (@system nat string nat unit _ _).
Definition demo_dial : demo_system := mkSystem (CC := unit) empty_builder []
  (Balancer.Build "no subconn"%string (mkBalancerConfig RoundrobinBalanced "rr") Idle "1") 0 [].

(** A group with two endpoints is dialed, both become ready, one is replaced. *)
Definition demo_acts : list (@action nat unit) :=
  [ActOp (OpNewGroup "g"); ActOp (OpSetEndpoints 0 ["a"; "b"]%string); ActOp (OpBuild "g" tt);
   ActState 0 Ready; ActState 1 Ready; ActPick; ActOp (OpSetEndpoints 0 ["b"; "c"]%string); ActState 0 Shutdown; ActPick].

Example requests_reach_endpoints_witness :
  exists s p res, sys_run "no subconn"%string "transient"%string 0 demo_acts demo_dial = Ret s /\
    Pick "no subconn"%string (bb_picker (s_balancer s)) = Ret (p, res) /\
    scToSt (s_balancer s) !! 1 = Some Ready /\ res = Ok 1.
Proof.
  destruct (sys_run "no subconn"%string "transient"%string 0 demo_acts demo_dial) as [s|] eqn:Hs;
    [|vm_compute in Hs; discriminate Hs].
  assert (Hr : sys_reachable "no subconn"%string "transient"%string (mkBalancerConfig RoundrobinBalanced "rr") Idle "1" 0 s).
  { eapply sys_run_reachable; [|exact Hs]. apply sys_init; [constructor|reflexivity..]. }
  destruct (requests_reach_endpoints "no subconn"%string "transient"%string
    (mkBalancerConfig RoundrobinBalanced "rr") Idle "1" eq_refl ltac:(discriminate) 0 s Hr) as (p & res & Hp & _).
  exists s, p, res. split; [reflexivity|]. split; [exact Hp|]. vm_compute in Hs. injection Hs as <-.
  split; [reflexivity|]. vm_compute in Hp. by injection Hp as _ <-.
Defined.
End Demo.
