(* ===== verification/Retry.v ===== *)
(** * grpc/client/retry.go: the retrying interceptors

    A unary call is attempted up to [max] times with a backoff in between; a
    server-streaming call re-establishes its stream and resends what the client
    sent.  The interceptors only see the errors of the calls they wrap, so those
    calls, the context, the clock and the random backoff are functions over an
    opaque world [W] that is passed along, and the observers of an error that
    grpc and etcd provide are the operations of the class [RpcErrors].  Every
    definition also returns the events it makes, in order.  [attempt < max] holds
    whenever [attempt] grows, so the [uint] counters are natural numbers. *)
From S2P Require Import Prelude.

(** ** Errors *)
(** The numbers grpc documents for its status codes. *)
Definition code : Type := Z.
Definition Canceled : code := 1%Z.
Definition Unknown : code := 2%Z.
Definition DeadlineExceeded : code := 4%Z.
Definition Unimplemented : code := 12%Z.
Definition Unavailable : code := 14%Z.

(** [grpc.Code]; [rpctypes.Error], [rpctypes.ErrorDesc] and the code of an
    [rpctypes.EtcdError] (none for another error); [status.FromError] ([None] when
    not ok, else the status's code) and [status.Errorf]. *)
Class RpcErrors (error : Type) : Type := {
  grpc_Code : error -> code;
  rpctypes_Error : error -> error;
  EtcdError_Code : error -> option code;
  FromError : error -> option code;
  ErrorDesc : error -> string;
  Errorf : code -> string -> error;
  ErrInvalidAuthToken : error;
  EOF : error
}.

(** What [ctx.Err()] answers once the context is done. *)
Inductive ctx_error : Type := CtxDeadlineExceeded | CtxCanceled | CtxOther (msg : string).

#[global] Instance ctx_error_eq_dec : EqDecision ctx_error.
Proof. solve_decision. Defined.

Definition ctx_error_Error (e : ctx_error) : string :=
  match e with
  | CtxDeadlineExceeded => "context deadline exceeded"
  | CtxCanceled => "context canceled"
  | CtxOther msg => msg
  end.

(** ** Options *)
(* src/grpc/client/retry.go:17-22 retryPolicy *)
Definition retryPolicy : Type := Z.
Definition repeatable : retryPolicy := 0%Z.
Definition nonRepeatable : retryPolicy := 1%Z.

(* src/grpc/client/retry.go:42-51 retryPolicy.String *)
Definition retryPolicy_String (rp : retryPolicy) : string :=
  if decide (rp = repeatable) then "repeatable"
  else if decide (rp = nonRepeatable) then "nonRepeatable"
  else "UNKNOWN".

Section Retry.
Context {W error : Type} `{EqDecision error} `{!RpcErrors error}.

(** A duration in nanoseconds; it may draw a random number and read the client. *)
(* src/grpc/client/retry.go:59-59 backoffFunc *)
Definition backoffFunc : Type := nat -> W -> Z * W.

(* src/grpc/client/retry.go:61-66 options *)
Record options : Type := mkOptions {
  o_retryPolicy : retryPolicy;
  max : nat;
  o_backoffFunc : backoffFunc;
  retryAuth : bool
}.

(* src/grpc/client/retry.go:68-72 retryOption *)
Record retryOption : Type := mkRetryOption { applyFunc : options -> options }.

(* src/grpc/client/retry.go:75-79 withMax *)
Definition withMax (maxRetries : nat) : retryOption :=
  mkRetryOption (fun o => mkOptions (o_retryPolicy o) maxRetries (o_backoffFunc o) (retryAuth o)).

(* src/grpc/client/retry.go:82-86 withBackoff *)
Definition withBackoff (bf : backoffFunc) : retryOption :=
  mkRetryOption (fun o => mkOptions (o_retryPolicy o) (max o) bf (retryAuth o)).

(* src/grpc/client/retry.go:36-40 backoffLinearWithJitter *)
Definition backoffLinearWithJitter (jitterUp : W -> Z * W) : backoffFunc := fun _ w => jitterUp w.

(* src/grpc/client/retry.go:24-31 defaultOptions *)
Definition defaultOptions (jitterUp_50ms : W -> Z * W) : options :=
  mkOptions nonRepeatable 0 (backoffLinearWithJitter jitterUp_50ms) true.

(* src/grpc/client/retry.go:88-98 reuseOrNewWithCallOptions *)
Definition reuseOrNewWithCallOptions (opt : options) (retryOptions : list retryOption) : options :=
  match retryOptions with
  | [] => opt
  | _ => foldl (fun o f => applyFunc f o) opt retryOptions
  end.

(** A [grpc.CallOption] is one of ours or one of grpc's. *)
Context {GrpcOption : Type}.
Inductive CallOption : Type := OptRetry (o : retryOption) | OptGrpc (o : GrpcOption).

(* src/grpc/client/retry.go:100-109 filterCallOptions *)
Fixpoint filterCallOptions (callOptions : list CallOption) : list GrpcOption * list retryOption :=
  match callOptions with
  | [] => ([], [])
  | opt :: rest =>
      let '(grpcOptions, retryOptions) := filterCallOptions rest in
      match opt with
      | OptRetry co => (grpcOptions, co :: retryOptions)
      | OptGrpc co => (co :: grpcOptions, retryOptions)
      end
  end.

(** ** Which errors are retried *)
(* src/grpc/client/retry.go:312-314 isContextError *)
Definition isContextError (err : error) : bool :=
  bool_decide (grpc_Code err = DeadlineExceeded) || bool_decide (grpc_Code err = Canceled).

(* src/grpc/client/retry.go:323-343 isSafeRetryImmutableRPC *)
Definition isSafeRetryImmutableRPC (err : error) : bool :=
  let eErr := rpctypes_Error err in
  let serverErr := match EtcdError_Code eErr with
                   | Some c => bool_decide (c <> Unavailable)
                   | None => false
                   end in
  if serverErr then false
  else match FromError err with
       | None => false
       | Some c => bool_decide (c = Unavailable)
       end.

(* src/grpc/client/retry.go:353-362 isSafeRetryMutableRPC *)
Definition isSafeRetryMutableRPC (err : error) : bool :=
  let unsafe := match FromError err with
                | Some c => bool_decide (c <> Unavailable)
                | None => false
                end in
  if unsafe then false
  else
    let desc := ErrorDesc err in
    bool_decide (desc = "there is no address available"%string) ||
    bool_decide (desc = "there is no connection available"%string).

(* src/grpc/client/retry.go:298-310 isSafeRetry *)
Definition isSafeRetry (err : error) (callOpts : options) : bool :=
  if isContextError err then false
  else if decide (o_retryPolicy callOpts = repeatable) then isSafeRetryImmutableRPC err
  else if decide (o_retryPolicy callOpts = nonRepeatable) then isSafeRetryMutableRPC err
  else false.

(** The branches after a failed attempt; [done] is what [ctx.Err()] answers. *)
(* src/grpc/client/retry.go:136-149 unaryClientInterceptor *)
Definition try_again (callOpts : options) (done : option ctx_error) (err : error) : bool :=
  if isContextError err then match done with Some _ => false | None => true end
  else if retryAuth callOpts && bool_decide (rpctypes_Error err = ErrInvalidAuthToken) then true
  else isSafeRetry err callOpts.

(* src/grpc/client/retry.go:400-409 contextErrToGrpcErr *)
Definition contextErrToGrpcErr (err : ctx_error) : error :=
  match err with
  | CtxDeadlineExceeded => Errorf DeadlineExceeded (ctx_error_Error err)
  | CtxCanceled => Errorf Canceled (ctx_error_Error err)
  | CtxOther _ => Errorf Unknown (ctx_error_Error err)
  end.

(** ** The environment: the context, the timer, the wrapped call *)
Context (ctx_Err : W -> option ctx_error).
(** The [select] of a timer against [ctx.Done()]: [None] when the timer fires. *)
Context (select_timer : Z -> W -> option ctx_error * W).
Context {Stream Msg : Type}.

Inductive event : Type :=
| EvWait (d : Z) (interrupted : option ctx_error)
| EvInvoke (err : option error) (done : option ctx_error)
| EvStreamer (st : result error Stream)
| EvSend (st : Stream) (m : Msg)
| EvCloseSend (st : Stream)
| EvRecv (st : Stream) (err : option error) (done : option ctx_error).

(* src/grpc/client/retry.go:383-398 waitRetryBackoff *)
Definition waitRetryBackoff (attempt : nat) (callOpts : options) (w : W)
    : option error * W * list event :=
  let '(waitTime, w) := if decide (0 < attempt) then o_backoffFunc callOpts attempt w else (0%Z, w) in
  if decide (0 < waitTime)%Z then
    let '(interrupted, w) := select_timer waitTime w in
    (contextErrToGrpcErr <$> interrupted, w, [EvWait waitTime interrupted])
  else (None, w, []).

(** *** Unary calls *)
Context (invoker : list GrpcOption -> W -> option error * W).

(** [n] attempts are left, the next one is number [attempt]. *)
(* src/grpc/client/retry.go:126-151 unaryClientInterceptor *)
Fixpoint unary_loop (callOpts : options) (grpcOpts : list GrpcOption) (n attempt : nat)
    (lastErr : option error) (w : W) : option error * W * list event :=
  match n with
  | 0 => (lastErr, w, [])
  | S n =>
      let '(werr, w, ev) := waitRetryBackoff attempt callOpts w in
      match werr with
      | Some err => (Some err, w, ev)
      | None =>
          let '(lastErr, w) := invoker grpcOpts w in
          let ev := ev ++ [EvInvoke lastErr (ctx_Err w)] in
          match lastErr with
          | None => (None, w, ev)
          | Some err =>
              if try_again callOpts (ctx_Err w) err then
                let '(res, w, ev') := unary_loop callOpts grpcOpts n (S attempt) lastErr w in
                (res, w, ev ++ ev')
              else (lastErr, w, ev)
          end
      end
  end.

(* src/grpc/client/retry.go:115-153 unaryClientInterceptor *)
Definition unaryClientInterceptor (defaults : options) (optFuncs : list retryOption)
    (opts : list CallOption) (w : W) : option error * W * list event :=
  let intOpts := reuseOrNewWithCallOptions defaults optFuncs in
  let '(grpcOpts, retryOpts) := filterCallOptions opts in
  let callOpts := reuseOrNewWithCallOptions intOpts retryOpts in
  if decide (max callOpts = 0) then
    let '(err, w) := invoker grpcOpts w in (err, w, [EvInvoke err (ctx_Err w)])
  else unary_loop callOpts grpcOpts (max callOpts) 0 None w.

(** *** Server-streaming calls *)
Context (streamer : list GrpcOption -> W -> result error Stream * W).
Context (Stream_SendMsg : Stream -> Msg -> W -> option error * W).
Context (Stream_CloseSend : Stream -> W -> option error * W).
Context (Stream_RecvMsg : Stream -> W -> option error * W).

(** [wasClosedSend] is written and never read. *)
(* src/grpc/client/retry.go:199-209 serverStreamingRetryingStream *)
Record retryingStream : Type := mkRetryingStream {
  ClientStream : Stream;
  bufferedSends : list Msg;
  receivedGood : bool;
  wasClosedSend : bool;
  s_callOpts : options;
  s_grpcOpts : list GrpcOption
}.

(* src/grpc/client/retry.go:211-215 serverStreamingRetryingStream.setStream *)
Definition setStream (s : retryingStream) (st : Stream) : retryingStream :=
  mkRetryingStream st (bufferedSends s) (receivedGood s) (wasClosedSend s) (s_callOpts s) (s_grpcOpts s).

(* src/grpc/client/retry.go:217-221 serverStreamingRetryingStream.getStream *)
Definition getStream (s : retryingStream) : Stream := ClientStream s.

(* src/grpc/client/retry.go:276-278 serverStreamingRetryingStream.receiveMsgAndIndicateRetry *)
Definition set_receivedGood (s : retryingStream) : retryingStream :=
  mkRetryingStream (ClientStream s) (bufferedSends s) true (wasClosedSend s) (s_callOpts s) (s_grpcOpts s).

(* src/grpc/client/retry.go:223-228 serverStreamingRetryingStream.SendMsg *)
Definition SendMsg (s : retryingStream) (m : Msg) (w : W) : option error * retryingStream * W * list event :=
  let s := mkRetryingStream (ClientStream s) (bufferedSends s ++ [m]) (receivedGood s) (wasClosedSend s)
             (s_callOpts s) (s_grpcOpts s) in
  let '(err, w) := Stream_SendMsg (getStream s) m w in
  (err, s, w, [EvSend (getStream s) m]).

(* src/grpc/client/retry.go:230-235 serverStreamingRetryingStream.CloseSend *)
Definition CloseSend (s : retryingStream) (w : W) : option error * retryingStream * W * list event :=
  let s := mkRetryingStream (ClientStream s) (bufferedSends s) (receivedGood s) true
             (s_callOpts s) (s_grpcOpts s) in
  let '(err, w) := Stream_CloseSend (getStream s) w in
  (err, s, w, [EvCloseSend (getStream s)]).

(* src/grpc/client/retry.go:270-295 serverStreamingRetryingStream.receiveMsgAndIndicateRetry *)
Definition receiveMsgAndIndicateRetry (s : retryingStream) (w : W)
    : bool * option error * retryingStream * W * list event :=
  let wasGood := receivedGood s in
  let '(err, w) := Stream_RecvMsg (getStream s) w in
  let ev := [EvRecv (getStream s) err (ctx_Err w)] in
  match err with
  | None => (false, err, set_receivedGood s, w, ev)
  | Some e =>
      if decide (e = EOF) then (false, err, set_receivedGood s, w, ev)
      else if wasGood then (false, err, s, w, ev)
      else if isContextError e then
        match ctx_Err w with
        | Some _ => (false, err, s, w, ev)
        | None => (true, err, s, w, ev)
        end
      else if retryAuth (s_callOpts s) && bool_decide (rpctypes_Error e = ErrInvalidAuthToken) then
        (true, err, s, w, ev)
      else (isSafeRetry e (s_callOpts s), err, s, w, ev)
  end.

(* src/grpc/client/retry.go:372-376 serverStreamingRetryingStream.reestablishStreamAndResendBuffer *)
Fixpoint resend (st : Stream) (msgs : list Msg) (w : W) : option error * W * list event :=
  match msgs with
  | [] => (None, w, [])
  | m :: msgs =>
      let '(err, w) := Stream_SendMsg st m w in
      match err with
      | Some _ => (err, w, [EvSend st m])
      | None => let '(err, w, ev) := resend st msgs w in (err, w, EvSend st m :: ev)
      end
  end.

(* src/grpc/client/retry.go:364-381 serverStreamingRetryingStream.reestablishStreamAndResendBuffer *)
Definition reestablishStreamAndResendBuffer (s : retryingStream) (w : W)
    : result error Stream * W * list event :=
  let '(r, w) := streamer (s_grpcOpts s) w in
  match r with
  | Err err => (Err err, w, [EvStreamer r])
  | Ok newStream =>
      let '(err, w, ev) := resend newStream (bufferedSends s) w in
      match err with
      | Some err => (Err err, w, EvStreamer r :: ev)
      | None =>
          let '(err, w) := Stream_CloseSend newStream w in
          let ev := EvStreamer r :: ev ++ [EvCloseSend newStream] in
          match err with
          | Some err => (Err err, w, ev)
          | None => (Ok newStream, w, ev)
          end
      end
  end.

(* src/grpc/client/retry.go:251-267 serverStreamingRetryingStream.RecvMsg *)
Fixpoint recv_loop (n attempt : nat) (lastErr : option error) (s : retryingStream) (w : W)
    : option error * retryingStream * W * list event :=
  match n with
  | 0 => (lastErr, s, w, [])
  | S n =>
      let '(werr, w, ev1) := waitRetryBackoff attempt (s_callOpts s) w in
      match werr with
      | Some err => (Some err, s, w, ev1)
      | None =>
          let '(r, w, ev2) := reestablishStreamAndResendBuffer s w in
          match r with
          | Err err => (Some err, s, w, ev1 ++ ev2)
          | Ok newStream =>
              let s := setStream s newStream in
              let '(attemptRetry, lastErr, s, w, ev3) := receiveMsgAndIndicateRetry s w in
              if attemptRetry then
                let '(res, s, w, ev4) := recv_loop n (S attempt) lastErr s w in
                (res, s, w, ev1 ++ ev2 ++ ev3 ++ ev4)
              else (lastErr, s, w, ev1 ++ ev2 ++ ev3)
          end
      end
  end.

(* src/grpc/client/retry.go:245-268 serverStreamingRetryingStream.RecvMsg *)
Definition RecvMsg (s : retryingStream) (w : W) : option error * retryingStream * W * list event :=
  let '(attemptRetry, lastErr, s, w, ev) := receiveMsgAndIndicateRetry s w in
  if attemptRetry then
    let '(res, s, w, ev') := recv_loop (max (s_callOpts s) - 1) 1 lastErr s w in
    (res, s, w, ev ++ ev')
  else (lastErr, s, w, ev).

(** The stream the caller gets: grpc's own, or one that retries. *)
Inductive clientStream : Type := PlainStream (st : Stream) | RetryingStream (s : retryingStream).

(* src/grpc/client/retry.go:163-194 streamClientInterceptor *)
Definition streamClientInterceptor (defaults : options) (optFuncs : list retryOption)
    (ClientStreams : bool) (opts : list CallOption) (w : W) : result error clientStream * W * list event :=
  let intOpts := reuseOrNewWithCallOptions defaults optFuncs in
  let '(grpcOpts, retryOpts) := filterCallOptions opts in
  let callOpts := reuseOrNewWithCallOptions intOpts retryOpts in
  if decide (max callOpts = 0) then
    let '(r, w) := streamer grpcOpts w in
    (match r with Ok st => Ok (PlainStream st) | Err err => Err err end, w, [EvStreamer r])
  else if ClientStreams then
    (Err (Errorf Unimplemented "clientv3/retry_interceptor: cannot retry on ClientStreams, set Disable()"), w, [])
  else
    let '(r, w) := streamer grpcOpts w in
    (match r with
     | Ok st => Ok (RetryingStream (mkRetryingStream st [] false false callOpts grpcOpts))
     | Err err => Err err
     end, w, [EvStreamer r]).

(** ** Unary calls: what the loop guarantees *)
Definition invocations (ev : list event) : list (option error * option ctx_error) :=
  omap (fun e => match e with EvInvoke r d => Some (r, d) | _ => None end) ev.

Lemma invocations_app ev1 ev2 : invocations (ev1 ++ ev2) = invocations ev1 ++ invocations ev2.
Proof. apply omap_app. Qed.

Lemma wait_no_invocations attempt co w e w' ev :
  waitRetryBackoff attempt co w = (e, w', ev) -> invocations ev = [].
Proof.
  unfold waitRetryBackoff. destruct (decide (0 < attempt)), (o_backoffFunc co attempt w) as [d w1];
    case_decide; try (intros [= _ _ <-]; done); by destruct (select_timer _ _) as [i w2]; intros [= _ _ <-].
Qed.

(** A backoff only fails when the context ended while the timer ran. *)
Lemma wait_interrupted attempt co w e w' ev :
  waitRetryBackoff attempt co w = (Some e, w', ev) ->
  attempt > 0 /\ exists d c, ev = [EvWait d (Some c)] /\ e = contextErrToGrpcErr c.
Proof.
  unfold waitRetryBackoff. destruct (decide (0 < attempt)).
  - destruct (o_backoffFunc co attempt w) as [d w1]. case_decide; [|done].
    destruct (select_timer _ _) as [[c|] w2]; [|done]. intros [= <- _ <-]. split; [done|]. by exists d, c.
  - case_decide; [lia|done].
Qed.

(** How a call with [budget] attempts ends, [r] and [d] being what its last
    invocation returned and what the context said then. *)
Definition ends_with (co : options) (budget : nat) (ev : list event) (r : option error)
    (d : option ctx_error) (res : option error) : Prop :=
  match r with
  | None => res = None
  | Some e =>
      res = Some e /\ (try_again co d e = false \/ length (invocations ev) = budget) \/
      (try_again co d e = true /\ length (invocations ev) < budget /\
       exists dur c, last ev = Some (EvWait dur (Some c)) /\ res = Some (contextErrToGrpcErr c))
  end.

(** Every invocation but the last failed with an error that is retried. *)
Definition justified (co : options) (inv : list (option error * option ctx_error)) : Prop :=
  forall i r d, inv !! i = Some (r, d) -> S i < length inv -> exists e, r = Some e /\ try_again co d e = true.

Lemma justified_cons co e d inv :
  try_again co d e = true -> justified co inv -> justified co ((Some e, d) :: inv).
Proof.
  intros He Hj [|i] r d'; simpl; [intros [= <- <-] _; by exists e|]. intros Hi Hlt. eapply Hj; [done|lia].
Qed.

Lemma unary_loop_spec co g n attempt lastErr w res w' ev :
  unary_loop co g n attempt lastErr w = (res, w', ev) ->
  let inv := invocations ev in
  length inv <= n /\ justified co inv /\
  ((inv = [] /\ n = 0 /\ res = lastErr) \/
   (inv = [] /\ n > 0 /\ attempt > 0 /\
    exists d c, last ev = Some (EvWait d (Some c)) /\ res = Some (contextErrToGrpcErr c)) \/
   (exists r d, last inv = Some (r, d) /\ ends_with co n ev r d res)).
Proof.
  revert attempt lastErr w res w' ev. induction n as [|n IH]; intros attempt lastErr w res w' ev; simpl.
  { intros [= <- <- <-]. split; [simpl; lia|]. split; [intros i r d; simpl; lia|]. by left. }
  destruct (waitRetryBackoff attempt co w) as [[werr w1] ev1] eqn:Hw.
  pose proof (wait_no_invocations _ _ _ _ _ _ Hw) as Hn1. destruct werr as [e|].
  { apply wait_interrupted in Hw as (Hat & d & c & -> & ->). intros [= <- <- <-]. simpl.
    split; [lia|]. split; [intros i r d'; simpl; lia|]. right; left. split; [done|]. split; [lia|].
    split; [done|]. by exists d, c. }
  destruct (invoker g w1) as [[err|] w2].
  2: { intros [= <- <- <-]. rewrite invocations_app, Hn1. simpl. split; [lia|].
       split; [intros i r d'; simpl; lia|]. right; right. by exists None, (ctx_Err w2). }
  destruct (try_again co (ctx_Err w2) err) eqn:Hagain.
  2: { intros [= <- <- <-]. rewrite invocations_app, Hn1. simpl. split; [lia|].
       split; [intros i r d'; simpl; lia|]. right; right. exists (Some err), (ctx_Err w2). split; [done|].
       left. split; [done|]. by left. }
  destruct (unary_loop co g n (S attempt) (Some err) w2) as [[res2 w3] ev2] eqn:Hl.
  intros [= <- <- <-]. apply IH in Hl as (Hlen & Hj & Hend). clear IH.
  assert (Hinv : invocations ((ev1 ++ [EvInvoke (Some err) (ctx_Err w2)]) ++ ev2) =
                 (Some err, ctx_Err w2) :: invocations ev2) by (by rewrite !invocations_app, Hn1).
  rewrite Hinv. split; [simpl; lia|]. split; [by apply justified_cons|]. right; right.
  destruct Hend as [(Hnil & -> & ->)|[(Hnil & Hn & _ & d & c & Hlast & ->)|(r & d & Hlast & Hend)]].
  - exists (Some err), (ctx_Err w2). rewrite Hnil. split; [done|]. unfold ends_with. rewrite Hinv, Hnil. simpl.
    left. auto.
  - exists (Some err), (ctx_Err w2). rewrite Hnil. split; [done|]. unfold ends_with. rewrite Hinv, Hnil. simpl.
    right. split; [done|]. split; [lia|]. exists d, c. by rewrite last_app, Hlast.
  - exists r, d. split; [by rewrite last_cons, Hlast|]. revert Hend. unfold ends_with. rewrite Hinv. simpl.
    destruct r as [e|]; [|done]. intros [[-> [Hag|Hbud]]|(Hag & Hlt & dur & c & Hl & ->)]; [by auto|left; split; [done|right; lia]|].
    right. split; [done|]. split; [lia|]. exists dur, c. by rewrite last_app, Hl.
Qed.

Lemma isSafeRetryMutableRPC_true e :
  isSafeRetryMutableRPC e = true ->
  (FromError e = None \/ FromError e = Some Unavailable) /\
  (ErrorDesc e = "there is no address available" \/ ErrorDesc e = "there is no connection available")%string.
Proof.
  unfold isSafeRetryMutableRPC. intros Hs. split.
  - destruct (FromError e) as [c|]; [|by left]. right. case_bool_decide as Hc; [done|].
    f_equal. by destruct (decide (c = Unavailable)).
  - destruct (match FromError e with Some c => _ | None => _ end); [done|].
    apply orb_true_iff in Hs as [Hs|Hs]; apply bool_decide_eq_true in Hs; auto.
Qed.

(** The options a call runs with. *)
Definition effective (defaults : options) (optFuncs : list retryOption) (opts : list CallOption) : options :=
  reuseOrNewWithCallOptions (reuseOrNewWithCallOptions defaults optFuncs) (filterCallOptions opts).2.

Lemma interceptor_spec defaults optFuncs opts w res w' ev :
  unaryClientInterceptor defaults optFuncs opts w = (res, w', ev) ->
  let co := effective defaults optFuncs opts in
  let inv := invocations ev in
  1 <= length inv <= Nat.max 1 (max co) /\ justified co inv /\
  exists r d, last inv = Some (r, d) /\ ends_with co (Nat.max 1 (max co)) ev r d res.
Proof.
  unfold unaryClientInterceptor, effective. destruct (filterCallOptions opts) as [g ro]. simpl.
  set (co := reuseOrNewWithCallOptions _ ro). clearbody co. destruct (decide (max co = 0)) as [Hz|Hz].
  - destruct (invoker g w) as [err w1]. intros [= <- <- <-]. rewrite Hz. simpl. split; [lia|].
    split; [intros i r d; simpl; lia|]. exists err, (ctx_Err w1). split; [done|].
    destruct err; [|done]. left. split; [done|]. by right.
  - intros Hl. apply unary_loop_spec in Hl as (Hlen & Hj & Hend). rewrite Nat.max_r by lia.
    destruct Hend as [(_ & ? & _)|[(_ & _ & ? & _)|(r & d & Hlast & Hend)]]; [lia|lia|].
    assert (invocations ev <> []) by (intros Hnil; by rewrite Hnil in Hlast).
    split; [destruct (invocations ev); simpl in *; [done|lia]|]. split; [done|]. by exists r, d.
Qed.

(** C2: a unary call through the interceptor invokes the RPC at least once and at
    most [max] times (once when retry is disabled), and answers what its last
    invocation answered, or the context's error when the context ended during a
    backoff.  Each earlier invocation failed with an error the policy retries; and
    the call gives up before its budget is spent only on an error that is not
    retried or on the end of the context. *)
Theorem unary_retry_correct defaults optFuncs opts w res w' ev :
  unaryClientInterceptor defaults optFuncs opts w = (res, w', ev) ->
  let co := effective defaults optFuncs opts in
  let inv := invocations ev in
  1 <= length inv <= Nat.max 1 (max co) /\
  (forall i r d, inv !! i = Some (r, d) -> S i < length inv -> exists e, r = Some e /\ try_again co d e = true) /\
  (res = None <-> exists d, last inv = Some (None, d)) /\
  (forall e, res = Some e -> exists e' d, last inv = Some (Some e', d) /\
     ((e = e' /\ (try_again co d e' = false \/ length inv = Nat.max 1 (max co))) \/
      (try_again co d e' = true /\ exists dur c, last ev = Some (EvWait dur (Some c)) /\ e = contextErrToGrpcErr c))).
Proof.
  intros Hrun. apply interceptor_spec in Hrun as (Hlen & Hj & r & d & Hlast & Hend).
  simpl. split; [done|]. split; [exact Hj|]. rewrite Hlast. unfold ends_with in Hend. destruct r as [e|].
  - split.
    + split.
      * intros ->. destruct Hend as [[? _]|(_ & _ & ? & ? & _ & ?)]; done.
      * by intros (d' & [= ? ?]).
    + intros e' ->. exists e, d. split; [done|].
      destruct Hend as [[[= ->] ?]|(? & _ & dur & c & Hl & [= ->])]; [by left|right; eauto].
  - subst res. split; [split; [by exists d|done]|done].
Qed.

(** What the default, non-repeatable policy resends.  A mutable call is invoked
    again only after one of three answers: the error says that no connection was
    there to send it on; it is the invalid-token error and [retryAuth] is set; or
    its code is DeadlineExceeded or Canceled while the call's own context is
    alive.  The last case does happen, for every such error and whatever the
    server did with the request: with at least two attempts and a backoff that
    is not interrupted, a second invocation follows. *)
Theorem nonRepeatable_resends defaults optFuncs opts w res w' ev :
  o_retryPolicy (effective defaults optFuncs opts) = nonRepeatable ->
  unaryClientInterceptor defaults optFuncs opts w = (res, w', ev) ->
  let co := effective defaults optFuncs opts in
  (forall i r d, invocations ev !! i = Some (r, d) -> S i < length (invocations ev) ->
     exists e, r = Some e /\
       ((isContextError e = true /\ d = None) \/
        (retryAuth co = true /\ rpctypes_Error e = ErrInvalidAuthToken) \/
        ((FromError e = None \/ FromError e = Some Unavailable) /\
         (ErrorDesc e = "there is no address available" \/ ErrorDesc e = "there is no connection available")%string))) /\
  (forall e, invocations ev !! 0 = Some (Some e, None) -> isContextError e = true -> 2 <= max co ->
     (forall dur c, EvWait dur (Some c) ∉ ev) -> 2 <= length (invocations ev)).
Proof.
  intros Hpol Hrun. apply interceptor_spec in Hrun as (Hlen & Hj & r & d & Hlast & Hend).
  simpl in *. set (co := effective _ _ _) in *. clearbody co. split.
  - intros i r' d' Hi Hlt. destruct (Hj i r' d' Hi Hlt) as (e & -> & Hag). exists e. split; [done|].
    unfold try_again, isSafeRetry in Hag. destruct (isContextError e); [left; by destruct d'|right].
    rewrite Hpol in Hag. simpl in Hag. destruct (retryAuth co); simpl in Hag.
    + case_bool_decide; [by left|]. right. by apply isSafeRetryMutableRPC_true.
    + right. by apply isSafeRetryMutableRPC_true.
  - intros e H0 Hctx Hmax Hwait. destruct (invocations ev) as [|p [|q l]] eqn:Hinv; simpl in *; [done| |lia].
    injection H0 as ->. injection Hlast as <- <-.
    assert (Hag : try_again co None e = true) by (unfold try_again; by rewrite Hctx).
    simpl in Hend. rewrite Hinv, Hag in Hend. simpl in Hend.
    destruct Hend as [[_ [?|?]]|(_ & _ & dur & c & Hl & _)]; [done|lia|].
    exfalso. apply (Hwait dur c). apply last_Some in Hl as [l' ->]. apply elem_of_app. right. by left.
Qed.

(** ** Server-streaming calls *)
Definition recvs (ev : list event) : list (Stream * option error * option ctx_error) :=
  omap (fun e => match e with EvRecv st r d => Some (st, r, d) | _ => None end) ev.

(** A stream made ready to take the old one's place. *)
Definition primed (buf : list Msg) (st : Stream) : list event :=
  EvStreamer (Ok st) :: (EvSend st <$> buf) ++ [EvCloseSend st].

(** Every receive comes right after its stream was primed. *)
Definition recvs_primed (buf : list Msg) (ev : list event) : Prop :=
  forall pre st r d post, ev = pre ++ EvRecv st r d :: post -> exists pre0, pre = pre0 ++ primed buf st.

Definition is_recv (e : event) : bool := match e with EvRecv _ _ _ => true | _ => false end.

Lemma recvs_primed_app buf ev1 ev2 :
  recvs_primed buf ev1 -> recvs_primed buf ev2 -> recvs_primed buf (ev1 ++ ev2).
Proof.
  intros H1 H2 pre st r d post Heq. apply app_eq_app in Heq as (l & [[-> Hl]|[-> Hl]]).
  - destruct l as [|x l].
    + simpl in Hl. destruct (H2 [] st r d post) as (pre0 & Hp); [done|].
      symmetry in Hp. apply app_eq_nil in Hp as [_ ?]. done.
    + injection Hl as <- Hl. by apply (H1 _ st r d l).
  - destruct (H2 l st r d post Hl) as (pre0 & ->). exists (ev1 ++ pre0). by rewrite app_assoc.
Qed.

Lemma recvs_primed_none buf ev : (forall e, e ∈ ev -> is_recv e = false) -> recvs_primed buf ev.
Proof.
  intros Hno pre st r d post ->. assert (Hin : EvRecv st r d ∈ pre ++ EvRecv st r d :: post)
    by (apply elem_of_app; right; left). by apply Hno in Hin.
Qed.

Lemma primed_no_recv buf st e : e ∈ primed buf st -> is_recv e = false.
Proof.
  unfold primed. rewrite elem_of_cons, elem_of_app, list_elem_of_fmap, list_elem_of_singleton.
  by intros [->|[(m & -> & _)| ->]].
Qed.

Lemma recvs_primed_round buf st r d : recvs_primed buf (primed buf st ++ [EvRecv st r d]).
Proof.
  intros pre st' r' d' post Heq. apply app_eq_app in Heq as (l & [[Hp Hl]|[-> Hl]]).
  - destruct l as [|x l].
    + simpl in Hl. injection Hl as -> -> -> _. exists []. by rewrite app_nil_r in Hp.
    + injection Hl as <- Hl. assert (Hin : EvRecv st' r' d' ∈ primed buf st) by (rewrite Hp; apply elem_of_app; right; left).
      by apply primed_no_recv in Hin.
  - destruct l as [|x l]; simpl in Hl; [|by destruct l].
    injection Hl as -> -> -> _. exists []. by rewrite app_nil_r.
Qed.

Lemma resend_spec st msgs w err w' ev :
  resend st msgs w = (err, w', ev) ->
  (forall e, e ∈ ev -> is_recv e = false) /\ (err = None -> ev = EvSend st <$> msgs).
Proof.
  revert w err w' ev. induction msgs as [|m msgs IH]; intros w err w' ev; simpl.
  - intros [= <- _ <-]. split; [|done]. intros e He. by apply not_elem_of_nil in He.
  - destruct (Stream_SendMsg st m w) as [[e|] w1].
    + intros [= <- _ <-]. split; [|done]. by intros e' ->%list_elem_of_singleton.
    + destruct (resend st msgs w1) as [[err2 w2] ev2] eqn:Hr. intros [= <- _ <-].
      apply IH in Hr as [Hno Hall]. split.
      * intros e'. rewrite elem_of_cons. intros [->|He]; [done|by apply Hno].
      * intros Hnone. by rewrite (Hall Hnone).
Qed.

Lemma reestablish_spec s w r w' ev :
  reestablishStreamAndResendBuffer s w = (r, w', ev) ->
  match r with
  | Ok st => ev = primed (bufferedSends s) st
  | Err _ => forall e, e ∈ ev -> is_recv e = false
  end.
Proof.
  unfold reestablishStreamAndResendBuffer. destruct (streamer (s_grpcOpts s) w) as [[st|err] w1].
  2: { intros [= <- _ <-]. by intros e ->%list_elem_of_singleton. }
  destruct (resend st (bufferedSends s) w1) as [[[err|] w2] ev2] eqn:Hr; apply resend_spec in Hr as [Hno Hall].
  - intros [= <- _ <-] e. rewrite elem_of_cons. intros [->|He]; [done|by apply Hno].
  - rewrite (Hall eq_refl). destruct (Stream_CloseSend st w2) as [[err|] w3]; intros [= <- _ <-]; [|done].
    apply primed_no_recv.
Qed.

Lemma wait_no_recv attempt co w e w' ev :
  waitRetryBackoff attempt co w = (e, w', ev) -> forall x, x ∈ ev -> is_recv x = false.
Proof.
  unfold waitRetryBackoff. destruct (decide (0 < attempt)), (o_backoffFunc co attempt w) as [d w1];
    case_decide; try (intros [= _ _ <-] x Hx; by apply not_elem_of_nil in Hx);
    destruct (select_timer _ _) as [i w2]; intros [= _ _ <-]; by intros x ->%list_elem_of_singleton.
Qed.

Definition good (err : option error) : bool :=
  match err with None => true | Some e => bool_decide (e = EOF) end.

Lemma receive_spec s w again err s' w' ev :
  receiveMsgAndIndicateRetry s w = (again, err, s', w', ev) ->
  ev = [EvRecv (ClientStream s) err (ctx_Err w')] /\
  s' = (if good err then set_receivedGood s else s) /\
  (receivedGood s = true -> again = false) /\
  (again = true -> exists e, err = Some e /\ e <> EOF /\ try_again (s_callOpts s) (ctx_Err w') e = true).
Proof.
  unfold receiveMsgAndIndicateRetry, try_again, getStream.
  destruct (Stream_RecvMsg (ClientStream s) w) as [[e|] w1]; [|by intros [= <- <- <- <- <-]].
  destruct (decide (e = EOF)) as [Heof|Heof].
  { intros [= <- <- <- <- <-]. simpl. by rewrite bool_decide_true. }
  assert (Hbad : good (Some e) = false) by (by apply bool_decide_false).
  destruct (receivedGood s); [intros [= <- <- <- <- <-]; by rewrite Hbad|].
  destruct (isContextError e) eqn:Hctx; [destruct (ctx_Err w1) eqn:Hd|
    destruct (retryAuth _ && _) eqn:Hauth]; intros [= <- <- <- <- <-]; rewrite ?Hbad, ?Hd;
    (split; [done|]); (split; [done|]); (split; [done|]); try done; intros Hag; exists e;
    by rewrite Hctx, ?Hauth.
Qed.

(** Each receive but the last failed with an error that is retried. *)
Definition recvs_justified (co : options) (rs : list (Stream * option error * option ctx_error)) : Prop :=
  forall i st r d, rs !! i = Some (st, r, d) -> S i < length rs ->
    exists e, r = Some e /\ e <> EOF /\ try_again co d e = true.

Lemma recvs_app ev1 ev2 : recvs (ev1 ++ ev2) = recvs ev1 ++ recvs ev2.
Proof. apply omap_app. Qed.

Lemma recvs_none ev : (forall e, e ∈ ev -> is_recv e = false) -> recvs ev = [].
Proof.
  induction ev as [|e ev IH]; intros Hno; [done|]. pose proof (Hno e ltac:(left)) as He.
  assert (Hr : recvs ev = []) by (apply IH; intros x Hx; apply Hno; by right).
  destruct e; simpl in *; done.
Qed.

Lemma recvs_justified_cons co st e d rs :
  e <> EOF -> try_again co d e = true -> recvs_justified co rs -> recvs_justified co ((st, Some e, d) :: rs).
Proof.
  intros Hne He Hj [|i] st' r d'; simpl; [intros [= <- <- <-] _; by exists e|]. intros Hi Hlt. eapply Hj; [done|lia].
Qed.

(** What one receive with its retries leaves behind. *)
Definition recv_outcome (s s' : retryingStream) (budget : nat) (ev : list event) (res : option error) : Prop :=
  length (recvs ev) <= budget /\ recvs_justified (s_callOpts s) (recvs ev) /\
  bufferedSends s' = bufferedSends s /\ s_callOpts s' = s_callOpts s /\
  (receivedGood s' = true -> exists d, last (recvs ev) = Some (ClientStream s', res, d) /\ good res = true).

Lemma recv_loop_spec n attempt e s w res s' w' ev :
  receivedGood s = false -> recv_loop n attempt (Some e) s w = (res, s', w', ev) ->
  recvs_primed (bufferedSends s) ev /\ recv_outcome s s' n ev res /\
  (res = None -> receivedGood s' = true).
Proof.
  unfold recv_outcome.
  revert attempt e s w res s' w' ev. induction n as [|n IH]; intros attempt e s w res s' w' ev Hng; simpl.
  { intros [= <- <- <- <-]. split; [apply recvs_primed_none; intros x Hx; by apply not_elem_of_nil in Hx|].
    simpl. rewrite Hng. split; [|done]. split; [lia|]. split; [intros i st r d; simpl; lia|done]. }
  destruct (waitRetryBackoff attempt (s_callOpts s) w) as [[werr w1] ev1] eqn:Hw.
  pose proof (wait_no_recv _ _ _ _ _ _ Hw) as Hno. pose proof (recvs_none _ Hno) as Hr1. destruct werr as [err|].
  { intros [= <- <- <- <-]. rewrite Hr1. split; [by apply recvs_primed_none|]. rewrite Hng. simpl.
    split; [|done]. split; [lia|]. split; [intros i st r d; simpl; lia|done]. }
  destruct (reestablishStreamAndResendBuffer s w1) as [[[st|err] w2] ev2] eqn:Hre; apply reestablish_spec in Hre.
  2: { intros [= <- <- <- <-]. rewrite recvs_app, Hr1, (recvs_none _ Hre).
       split; [by apply recvs_primed_app; apply recvs_primed_none|]. rewrite Hng. simpl.
       split; [|done]. split; [lia|]. split; [intros i st r d; simpl; lia|done]. }
  assert (Hr2 : recvs ev2 = []) by (rewrite Hre; apply recvs_none, primed_no_recv).
  destruct (receiveMsgAndIndicateRetry (setStream s st) w2) as [[[[again err] s3] w3] ev3] eqn:Hrec.
  apply receive_spec in Hrec as (Hev3 & Hs3 & _ & Hag). simpl in *.
  assert (Hround : recvs_primed (bufferedSends s) (ev2 ++ ev3)) by (rewrite Hre, Hev3; apply recvs_primed_round).
  assert (Hrecvs : forall l, recvs (ev1 ++ ev2 ++ ev3 ++ l) = (st, err, ctx_Err w3) :: recvs l)
    by (intros l; by rewrite !recvs_app, Hr1, Hr2, Hev3).
  assert (Hpre : forall l, recvs_primed (bufferedSends s) l -> recvs_primed (bufferedSends s) (ev1 ++ ev2 ++ ev3 ++ l)).
  { intros l Hl. apply recvs_primed_app; [by apply recvs_primed_none|]. rewrite app_assoc. by apply recvs_primed_app. }
  destruct again.
  - destruct (Hag eq_refl) as (e3 & -> & Hne & Htry). unfold good in Hs3. rewrite bool_decide_false in Hs3 by done.
    destruct (recv_loop n (S attempt) (Some e3) s3 w3) as [[[res4 s4] w4] ev4] eqn:Hl. intros [= <- <- <- <-].
    apply IH in Hl as (Hp & (Hlen & Hj & Hb & Ho & Hgood) & Hnone); [|by rewrite Hs3].
    rewrite Hs3 in Hp, Hj, Hb, Ho. simpl in *. split; [by apply Hpre|]. rewrite Hrecvs.
    split; [|done]. split; [simpl; lia|]. split; [by apply recvs_justified_cons|]. split; [done|]. split; [done|].
    intros Hg. destruct (Hgood Hg) as (d & Hlast & ?). exists d. by rewrite last_cons, Hlast.
  - intros [= <- <- <- <-]. rewrite <- (app_nil_r ev3). split.
    + apply Hpre, recvs_primed_none. intros x Hx. by apply not_elem_of_nil in Hx.
    + rewrite Hrecvs. simpl. destruct (good err) eqn:Hgood; rewrite Hs3; simpl.
      * split; [|done]. split; [lia|]. split; [intros i st' r d; simpl; lia|]. repeat split. intros _. by eexists.
      * split; [|intros ->; done]. split; [lia|]. split; [intros i st' r d; simpl; lia|]. rewrite Hng. done.
Qed.

(** C9: what a receive on a retrying stream does.  Once a message or the end of the
    stream came through, a receive is one receive on the current stream: nothing
    is re-established, so no message is delivered twice.  Before that, it makes at
    most [max] receives (one when [max] is 0), each but the first on a fresh stream that was sent exactly
    the buffered messages, in order, and closed for sending; each receive but the
    last failed with an error that is retried; and a success is the answer of the
    last receive, on the stream that stays current. *)
Theorem stream_retry_correct s w res s' w' ev :
  RecvMsg s w = (res, s', w', ev) ->
  (receivedGood s = true -> exists d, ev = [EvRecv (ClientStream s) res d]) /\
  (receivedGood s = false -> exists r d rest, ev = EvRecv (ClientStream s) r d :: rest /\
     (forall pre st r' d' post, rest = pre ++ EvRecv st r' d' :: post ->
        exists pre0, pre = pre0 ++ EvStreamer (Ok st) :: (EvSend st <$> bufferedSends s) ++ [EvCloseSend st]) /\
     length (recvs ev) <= Nat.max 1 (max (s_callOpts s)) /\
     (forall i st e d', recvs ev !! i = Some (st, e, d') -> S i < length (recvs ev) ->
        exists e', e = Some e' /\ e' <> EOF /\ try_again (s_callOpts s) d' e' = true) /\
     bufferedSends s' = bufferedSends s /\
     (res = None -> receivedGood s' = true /\ exists d', last (recvs ev) = Some (ClientStream s', None, d'))).
Proof.
  unfold RecvMsg. destruct (receiveMsgAndIndicateRetry s w) as [[[[again err] s1] w1] ev1] eqn:Hrec.
  apply receive_spec in Hrec as (Hev1 & Hs1 & Hwas & Hag).
  assert (Hstop : again = false -> receivedGood s = true \/ again = false) by auto.
  destruct again.
  - destruct (Hag eq_refl) as (e & -> & Hne & Htry). unfold good in Hs1. rewrite bool_decide_false in Hs1 by done.
    subst s1. destruct (recv_loop _ 1 (Some e) s w1) as [[[res2 s2] w2] ev2] eqn:Hl. intros [= <- <- <- <-].
    split; [intros Hg; by specialize (Hwas Hg)|]. intros Hng.
    apply recv_loop_spec in Hl as (Hp & (Hlen & Hj & Hb & Ho & Hgood) & Hnone); [|done].
    exists (Some e), (ctx_Err w1), ev2. rewrite Hev1. simpl. split; [done|]. split; [exact Hp|].
    split; [|split; [by apply recvs_justified_cons|split; [done|]]].
    + destruct (max (s_callOpts s)) as [|[|m]] eqn:Hm; simpl in *; lia.
    + intros Hres. specialize (Hnone Hres). split; [done|]. destruct (Hgood Hnone) as (d & Hlast & _).
      exists d. by rewrite last_cons, Hlast, Hres.
  - intros [= <- <- <- <-]. rewrite Hev1. split; [by eexists|]. intros Hng.
    exists err, (ctx_Err w1), []. split; [done|]. split; [intros [|] * Hp; discriminate Hp|].
    split; [simpl; lia|]. split; [intros i st e' d'; simpl; lia|]. subst s1.
    split; [by destruct (good err)|]. intros ->. simpl. split; [done|]. by eexists.
Qed.
End Retry.

(** ** Witnesses: a scripted environment whose errors are their descriptions *)
Section Demo.
#[local] Instance demo_RpcErrors : RpcErrors string := {|
  grpc_Code := fun e => if decide (e = "deadline"%string) then DeadlineExceeded else Unavailable;
  rpctypes_Error := fun e => e;
  EtcdError_Code := fun _ => None;
  FromError := fun e => Some (if decide (e = "deadline"%string) then DeadlineExceeded else Unavailable);
  ErrorDesc := fun e => e;
  Errorf := fun _ msg => msg;
  ErrInvalidAuthToken := "etcdserver: invalid auth token";
  EOF := "EOF"
|}%string.

(** The world is the script of the answers still to come. *)
Definition script : Type := list (option string).
Definition next_answer (w : script) : option string * script :=
  match w with [] => (None, []) | r :: w => (r, w) end.
Definition demo_ctx (w : script) : option ctx_error := None.
Definition demo_timer (d : Z) (w : script) : option ctx_error * script := (None, w).
Definition demo_backoff : backoffFunc := fun (_ : nat) (w : script) => (25%Z, w).
Definition demo_defaults : options := defaultOptions (fun w : script => (50%Z, w)).
Definition demo_unary (w : script) : option string * script * list (@event string nat string) :=
  unaryClientInterceptor demo_ctx demo_timer (fun (_ : list unit) => next_answer) demo_defaults
    [withMax 3; withBackoff demo_backoff] [OptGrpc tt] w.

(** The first attempt finds no connection, the second succeeds. *)
Lemma demo_unary_retries :
  demo_unary [Some "there is no address available"%string; None] =
  (None, [], [EvInvoke (Some "there is no address available"%string) None; EvWait 25 None; EvInvoke None None]).
Proof. reflexivity. Qed.

(** The server answers DeadlineExceeded after doing the write. *)
Lemma demo_unary_deadline :
  demo_unary [Some "deadline"%string; None] =
  (None, [], [EvInvoke (Some "deadline"%string) None; EvWait 25 None; EvInvoke None None]).
Proof. reflexivity. Qed.

Example unary_retry_correct_witness :
  exists res w ev, demo_unary [Some "there is no address available"%string; None] = (res, w, ev) /\
    1 <= length (invocations ev) <= 3.
Proof.
  eexists _, _, _. split; [exact demo_unary_retries|].
  exact (proj1 (unary_retry_correct _ _ _ _ _ _ _ _ _ _ demo_unary_retries)).
Defined.

Example nonRepeatable_resends_witness :
  exists res w ev, demo_unary [Some "deadline"%string; None] = (res, w, ev) /\
    2 <= length (invocations ev).
Proof.
  eexists _, _, _. split; [exact demo_unary_deadline|].
  apply (proj2 (nonRepeatable_resends _ _ _ demo_defaults [withMax 3; withBackoff demo_backoff] [OptGrpc tt]
    _ _ _ _ eq_refl demo_unary_deadline)) with "deadline"%string;
    [reflexivity|reflexivity|simpl; lia|].
  intros dur c. rewrite !elem_of_cons. intros [Hd|[Hd|[Hd|Hd]]]; try discriminate Hd.
  by apply not_elem_of_nil in Hd.
Defined.

(** A stream is named by the length of the script when it was made. *)
Definition demo_stream : @retryingStream script unit nat string :=
  mkRetryingStream 9 ["q1"; "q2"]%string false true
    (reuseOrNewWithCallOptions demo_defaults [withMax 3; withBackoff demo_backoff]) [].
Definition demo_recv (w : script) :=
  RecvMsg demo_ctx demo_timer (fun _ w => (Ok (length w), w)) (fun _ _ w => (None, w)) (fun _ w => (None, w))
    (fun _ => next_answer) demo_stream w.

Example stream_retry_correct_witness :
  let '(res, s', w', ev) := demo_recv [Some "there is no address available"%string; None] in
  res = None /\ ClientStream s' = 1 /\ length (recvs ev) <= 3.
Proof.
  destruct (demo_recv [Some "there is no address available"%string; None]) as [[[res s'] w'] ev] eqn:Hrun.
  destruct (proj2 (stream_retry_correct _ _ _ _ _ _ _ _ _ _ _ _ Hrun) eq_refl) as (r & d & rest & _ & _ & Hlen & _).
  injection Hrun as <- <- _ _. split; [reflexivity|]. split; [reflexivity|]. exact Hlen.
Defined.
End Demo.
