(* ===== verification/GrpcClient.v ===== *)
(** * grpc/client/client.go and config.go: the grpc client

    [NewGRPCClient] checks the limits, registers a resolver group, publishes the
    endpoints and dials through the balancer.  The resolver package's state is
    threaded through; [grpc.DialContext] is a function of that state and of
    everything the client passes to it (the timeout of its context, the target and
    the options), because dialing makes grpc build a resolver.  [uuid] is the
    fresh identifier the code draws.  A random number of [rand.Float64] is a
    rational in [[0, 1)]: the rounding of [float64] is not modelled. *)
From Stdlib Require Import QArith Qround Lqa.
From S2P Require Import Prelude.
From S2P Require Import Picker.
From S2P Require Import Retry.
From S2P Require Import Resolver.

#[local] Close Scope Q_scope.
#[local] Open Scope nat_scope.

(* src/grpc/client/config.go:13-13 roundRobinBalancerName *)
Definition roundRobinBalancerName : outcome string :=
  s ← Policy_String RoundrobinBalanced; Ret ("grpcvsthrift-" +:+ s).

(** The call options grpc offers and this package builds. *)
Inductive grpcCallOption : Type :=
| FailFast (b : bool)
| MaxCallSendMsgSize (bytes : Z)
| MaxCallRecvMsgSize (bytes : Z).

(* src/grpc/client/config.go:16-20 defaultFailFast *)
Definition defaultFailFast : grpcCallOption := FailFast false.
(* src/grpc/client/config.go:22-25 defaultMaxCallSendMsgSize *)
Definition defaultMaxCallSendMsgSize : grpcCallOption := MaxCallSendMsgSize (2 * 1024 * 1024)%Z.
(* src/grpc/client/config.go:27-31 defaultMaxCallRecvMsgSize *)
Definition defaultMaxCallRecvMsgSize : grpcCallOption := MaxCallRecvMsgSize (2 ^ 31 - 1)%Z.
(* src/grpc/client/config.go:33-36 defaultUnaryMaxRetries *)
Definition defaultUnaryMaxRetries : nat := 100.
(* src/grpc/client/config.go:43-44 defaultBackoffWaitBetween *)
Definition defaultBackoffWaitBetween : Z := 25000000%Z.
(* src/grpc/client/config.go:46-47 defaultBackoffJitterFraction *)
Definition defaultBackoffJitterFraction : Q := (1 # 10)%Q.
(* src/grpc/client/config.go:50-53 defaultCallOpts *)
Definition defaultCallOpts : list grpcCallOption :=
  [defaultFailFast; defaultMaxCallSendMsgSize; defaultMaxCallRecvMsgSize].

Section GrpcClient.
(** The world of the interceptors, with the random numbers drawn from it. *)
Context {W Conn CC UserDialOption Ctx : Type}.
Context (rand_Float64 : W -> Q * W).

(* src/grpc/client/config.go:55-97 Config *)
Record Config : Type := mkConfig {
  cfg_Endpoints : list string;
  AutoSyncInterval : Z;
  DialTimeout : Z;
  DialKeepAliveTime : Z;
  DialKeepAliveTimeout : Z;
  cfg_MaxCallSendMsgSize : Z;
  cfg_MaxCallRecvMsgSize : Z;
  DialOptions : list UserDialOption;
  cfg_Context : option Ctx;
  PermitWithoutStream : bool
}.

(** The zero value of the struct. *)
Definition zero_Config : Config := mkConfig [] 0%Z 0%Z 0%Z 0%Z 0%Z 0%Z [] None false.

(** [ctx] and [cancel] are one bit: whether the client's context was cancelled. *)
(* src/grpc/client/client.go:26-37 GrpcClient *)
Record GrpcClient : Type := mkGrpcClient {
  gc_Conn : option Conn;
  cfg : Config;
  resolverGroup : option group_ref;
  cancelled : bool;
  callOpts : list grpcCallOption
}.

(** The client the interceptors were made for, as it is when they run. *)
Context (client_of : W -> GrpcClient).

(* src/grpc/client/client.go:53-60 GrpcClient.Endpoints *)
Definition Endpoints (c : GrpcClient) : list string := cfg_Endpoints (cfg c).

(* src/grpc/client/client.go:153-156 jitterUp *)
Definition jitterUp (duration : Z) (jitter u : Q) : Z :=
  let multiplier := (jitter * (u * 2 - 1))%Q in
  let r := (inject_Z duration * (1 + multiplier))%Q in
  Z.quot (Qnum r) (Zpos (Qden r)).

(* src/grpc/client/client.go:135-145 GrpcClient.roundRobinQuorumBackoff *)
Definition roundRobinQuorumBackoff (waitBetween : Z) (jitterFraction : Q) : backoffFunc (W := W) :=
  fun attempt w =>
    let n := length (Endpoints (client_of w)) in
    let quorum := n / 2 + 1 in
    if decide (attempt mod quorum = 0) then
      let '(u, w) := rand_Float64 w in (jitterUp waitBetween jitterFraction u, w)
    else (0%Z, w).

Inductive DialOption : Type :=
| WithKeepaliveParams (Time Timeout : Z) (PermitWithoutStream : bool)
| WithBalancerName (name : string)
| WithInsecure
| WithInitialWindowSize (n : Z)
| WithContextDialer
| WithStreamInterceptor (optFuncs : list (retryOption (W := W)))
| WithUnaryInterceptor (optFuncs : list (retryOption (W := W)))
| UserOption (o : UserDialOption).

(* src/grpc/client/client.go:119-119 GrpcClient.dialSetupOpts *)
Definition rrBackoff : retryOption :=
  withBackoff (roundRobinQuorumBackoff defaultBackoffWaitBetween defaultBackoffJitterFraction).

(* src/grpc/client/client.go:102-131 GrpcClient.dialSetupOpts *)
Definition dialSetupOpts (c : GrpcClient) (dopts : list DialOption) : list DialOption :=
  (if decide (0 < DialKeepAliveTime (cfg c))%Z then
     [WithKeepaliveParams (DialKeepAliveTime (cfg c)) (DialKeepAliveTimeout (cfg c)) (PermitWithoutStream (cfg c))]
   else []) ++ dopts ++
  [WithInsecure; WithInitialWindowSize (65536 * 100)%Z; WithContextDialer;
   WithStreamInterceptor [withMax 0; rrBackoff];
   WithUnaryInterceptor [withMax defaultUnaryMaxRetries; rrBackoff]].

Abbreviation package := (builder (CC := CC)).

(** [url.Parse] for [ParseEndpoint]; [grpc.DialContext] with the timeout of its
    context ([None] when it has none) on a context that is not done. *)
Context (url_Parse : string -> option URL).
Context (DialContext : option Z -> string -> list DialOption -> package ->
           outcome (package * list call * result string Conn)).

(* src/grpc/client/client.go:79-99 GrpcClient.dial *)
Definition dial (c : GrpcClient) (target : string) (dopts : list DialOption) (b : package)
    : outcome (package * list call * result string Conn) :=
  let opts := dialSetupOpts c dopts ++ (UserOption <$> DialOptions (cfg c)) in
  let timeout := if decide (0 < DialTimeout (cfg c))%Z then Some (DialTimeout (cfg c)) else None in
  DialContext timeout target opts b.

(* src/grpc/client/client.go:72-76 GrpcClient.dialWithBalancer *)
Definition dialWithBalancer (c : GrpcClient) (ep : string) (dopts : list DialOption) (b : package)
    : outcome (package * list call * result string Conn) :=
  let '(_, host, _) := ParseEndpoint url_Parse ep in
  match resolverGroup c with
  | None => Panic
  | Some e =>
      target ← group_Target b e host;
      dial c target dopts b
  end.

(* src/grpc/client/client.go:63-68 GrpcClient.SetEndpoints *)
Definition client_SetEndpoints (c : GrpcClient) (eps : list string) (b : package)
    : outcome (GrpcClient * package * list call) :=
  let k := cfg c in
  let c := mkGrpcClient (gc_Conn c)
             (mkConfig eps (AutoSyncInterval k) (DialTimeout k) (DialKeepAliveTime k) (DialKeepAliveTimeout k)
                (cfg_MaxCallSendMsgSize k) (cfg_MaxCallRecvMsgSize k) (DialOptions k) (cfg_Context k)
                (PermitWithoutStream k))
             (resolverGroup c) (cancelled c) (callOpts c) in
  match resolverGroup c with
  | None => Panic
  | Some e => '(b, calls) ← SetEndpoints b e eps; Ret (c, b, calls)
  end.

(** [Conn_Close] is grpc's; the answer when there is no connection is the error of
    the context just cancelled. *)
Context (Conn_Close : Conn -> option string).

(* src/grpc/client/client.go:40-50 GrpcClient.Close *)
Definition client_Close (c : GrpcClient) (b : package) : outcome (GrpcClient * package * option string) :=
  let c := mkGrpcClient (gc_Conn c) (cfg c) (resolverGroup c) true (callOpts c) in
  b ← match resolverGroup c with Some e => group_Close b e | None => Ret b end;
  match gc_Conn c with
  | Some conn => Ret (c, b, Conn_Close conn)
  | None => Ret (c, b, if cancelled c then Some "context canceled"%string else None)
  end.

(* src/grpc/client/client.go:170-172 NewGRPCClient *)
Definition limit_error (k : Config) : option string :=
  if decide (0 < cfg_MaxCallRecvMsgSize k /\ cfg_MaxCallRecvMsgSize k < cfg_MaxCallSendMsgSize k)%Z then
    Some ("gRPC message recv limit (" +:+ pretty (cfg_MaxCallRecvMsgSize k) +:+
          " bytes) must be greater than send limit (" +:+ pretty (cfg_MaxCallSendMsgSize k) +:+ " bytes)")
  else None.

(* src/grpc/client/client.go:173-184 NewGRPCClient *)
Definition limit_callOpts (k : Config) : list grpcCallOption :=
  [defaultFailFast;
   if decide (0 < cfg_MaxCallSendMsgSize k)%Z then MaxCallSendMsgSize (cfg_MaxCallSendMsgSize k)
   else defaultMaxCallSendMsgSize;
   if decide (0 < cfg_MaxCallRecvMsgSize k)%Z then MaxCallRecvMsgSize (cfg_MaxCallRecvMsgSize k)
   else defaultMaxCallRecvMsgSize].

(** With the [NewAddress] calls made, in order. *)
(* src/grpc/client/client.go:158-209 NewGRPCClient *)
Definition NewGRPCClient (k : Config) (uuid : string) (b : package)
    : outcome (package * list call * result string GrpcClient) :=
  let has_limits := bool_decide (0 < cfg_MaxCallSendMsgSize k \/ 0 < cfg_MaxCallRecvMsgSize k)%Z in
  match (if has_limits then limit_error k else None) with
  | Some err => Ret (b, [], Err err)
  | None =>
      let opts := if has_limits then limit_callOpts k else defaultCallOpts in
      let '(b, r) := newResolverGroup b ("client-" +:+ uuid) in
      match r with
      | Err err => Ret (b, [], Err err)
      | Ok e =>
          let client := mkGrpcClient None zero_Config (Some e) false opts in
          match cfg_Endpoints k with
          | [] => Panic
          | dialEndpoint :: _ =>
              '(b, calls1) ← SetEndpoints b e (cfg_Endpoints k);
              name ← roundRobinBalancerName;
              '(b, calls2, r) ← dialWithBalancer client dialEndpoint [WithBalancerName name] b;
              match r with
              | Err err => b ← group_Close b e; Ret (b, calls1 ++ calls2, Err err)
              | Ok conn =>
                  Ret (b, calls1 ++ calls2, Ok (mkGrpcClient (Some conn) zero_Config (Some e) false opts))
              end
          end
      end
  end.

(** ** The configuration *)
Definition erase_callOpts (o : outcome (package * list call * result string GrpcClient)) :
    outcome (package * list call * result string GrpcClient) :=
  '(b, calls, r) ← o;
  Ret (b, calls, match r with
                 | Ok c => Ok (mkGrpcClient (gc_Conn c) (cfg c) (resolverGroup c) (cancelled c) [])
                 | Err err => Err err
                 end).

Lemma has_limits_irrelevant k :
  (if bool_decide (0 < cfg_MaxCallSendMsgSize k \/ 0 < cfg_MaxCallRecvMsgSize k)%Z then limit_error k else None)
  = limit_error k.
Proof.
  case_bool_decide as Hl; [done|]. unfold limit_error. rewrite decide_False; [done|]. lia.
Qed.

(** The configuration does not reach the connection.  Two configurations with
    the same endpoints that pass the limit check give the same run: the same dial
    (timeout, target, options), the same connection and the same client apart
    from [callOpts], which nothing reads.  So the dial timeout, the keepalive
    settings, the dial options and the message limits a caller sets are ignored,
    and the client's stored configuration is the zero value. *)
Theorem NewGRPCClient_ignores_config k k' uuid b :
  cfg_Endpoints k = cfg_Endpoints k' -> limit_error k = None -> limit_error k' = None ->
  erase_callOpts (NewGRPCClient k uuid b) = erase_callOpts (NewGRPCClient k' uuid b) /\
  (forall b' calls c, NewGRPCClient k uuid b = Ret (b', calls, Ok c) -> cfg c = zero_Config).
Proof.
  intros Heps Hk Hk'. unfold NewGRPCClient. rewrite !has_limits_irrelevant, Hk, Hk', <- Heps.
  destruct (newResolverGroup b ("client-" +:+ uuid)) as [b1 [e|err]]; [|by split].
  destruct (cfg_Endpoints k) as [|ep eps]; [by split|].
  destruct (SetEndpoints b1 e (ep :: eps)) as [[b2 calls1]|]; [|by split]. simpl.
  (* the client that dials has the zero configuration whatever its call options *)
  assert (Hdial : forall o o' d, dialWithBalancer (mkGrpcClient None zero_Config (Some e) false o) ep d b2
                            = dialWithBalancer (mkGrpcClient None zero_Config (Some e) false o') ep d b2).
  { intros o o' d. unfold dialWithBalancer, dial, dialSetupOpts. simpl.
    by destruct (ParseEndpoint url_Parse ep) as [[? host] ?]. }
  set (opts := if bool_decide _ then limit_callOpts k else _). set (opts' := if bool_decide _ then limit_callOpts k' else _).
  rewrite (Hdial opts opts'). destruct (dialWithBalancer _ ep _ b2) as [[[b3 calls2] [conn|err]]|]; simpl; [| |by split].
  - split; [done|]. by intros b' calls c [= _ _ <-].
  - destruct (group_Close b3 e); by split.
Qed.

(** ** Construction, on every branch *)
Section Construction.
(** What the code relies on of dialing: grpc builds resolvers for the target, but
    registers and closes no group and sets no endpoints. *)
Context (DialContext_keeps : forall t target opts b b' calls r,
  DialContext t target opts b = Ret (b', calls, r) ->
  resolverGroups b' = resolverGroups b /\
  forall e g, group_heap b !! e = Some g ->
    exists rs, group_heap b' !! e = Some (mkGroup (rg_id g) (endpoints g) rs)).

(** C32: every way [NewGRPCClient] returns.  Limits the wrong way round are refused
    with nothing done; an id already taken is refused; a failed dial is reported
    and its group is unregistered again; otherwise the group of the client is
    registered under its id with the configured endpoints, which the client
    itself does not know: its own [Endpoints] are empty. *)
Theorem NewGRPCClient_outcome k uuid b b' calls r :
  NewGRPCClient k uuid b = Ret (b', calls, r) ->
  let id := ("client-" +:+ uuid)%string in
  match r with
  | Err err =>
      (limit_error k = Some err /\ b' = b) \/
      (limit_error k = None /\ newResolverGroup b id = (b, Err err) /\ b' = b) \/
      (limit_error k = None /\ resolverGroups b !! id = None /\ resolverGroups b' = resolverGroups b)
  | Ok c =>
      limit_error k = None /\ resolverGroups b !! id = None /\ is_Some (gc_Conn c) /\ cancelled c = false /\
      exists e rs, resolverGroup c = Some e /\ resolverGroups b' = <[id := e]> (resolverGroups b) /\
        group_heap b' !! e = Some (mkGroup id (cfg_Endpoints k) rs) /\ Endpoints c = []
  end.
Proof using Type DialContext_keeps.
  unfold NewGRPCClient. rewrite has_limits_irrelevant. destruct (limit_error k) as [err|] eqn:Hlim.
  { intros [= <- <- <-]. by left. }
  set (id := "client-" +:+ uuid). unfold newResolverGroup, newResolverGroup_check.
  destruct (resolverGroups b !! id) as [e0|] eqn:Hid.
  { intros [= <- <- <-]. right; left. done. }
  unfold newResolverGroup_insert. set (e := fresh _). clearbody e.
  destruct (cfg_Endpoints k) as [|ep eps]; [done|].
  unfold SetEndpoints, deref. cbn [group_heap]. rewrite lookup_insert_eq. cbn.
  unfold dialWithBalancer, group_Target, deref. destruct (ParseEndpoint url_Parse ep) as [[? host] ?].
  cbn. rewrite lookup_insert_eq. cbn. unfold dial.
  destruct (DialContext _ _ _ _) as [[[b3 calls2] res]|] eqn:Hd; [|done].
  destruct (DialContext_keeps _ _ _ _ _ _ _ Hd) as [Hreg Hg]. cbn in Hreg.
  destruct (Hg e (mkGroup id (ep :: eps) [])) as (rs & Hrs); [cbn; by rewrite lookup_insert_eq|]. cbn in Hrs.
  destruct res as [conn|err]; cbn.
  - intros [= <- <- <-]. cbn. split; [done|]. split; [done|]. split; [by eexists|]. split; [done|].
    exists e, rs. done.
  - unfold group_Close, deref. rewrite Hrs. cbn. intros [= <- <- <-]. right; right. split; [done|]. split; [done|].
    cbn. rewrite Hreg. by rewrite delete_insert_id.
Qed.
End Construction.

(** ** The backoff *)
Lemma Qquot_floor q : (0 <= q)%Q -> Z.quot (Qnum q) (Zpos (Qden q)) = Qfloor q.
Proof.
  destruct q as [n d]. unfold Qle. simpl. intros Hn. rewrite Z.quot_div_nonneg by lia. done.
Qed.

Lemma jitterUp_bounds d j u :
  (0 <= d)%Z -> (0 <= j <= 1)%Q -> (0 <= u < 1)%Q ->
  (inject_Z d * (1 - j) - 1 < inject_Z (jitterUp d j u))%Q /\
  (inject_Z (jitterUp d j u) <= inject_Z d * (1 + j))%Q.
Proof.
  intros Hd [Hj0 Hj1] [Hu0 Hu1]. unfold jitterUp.
  set (q := (inject_Z d * (1 + j * (u * 2 - 1)))%Q).
  assert (Hd' : (0 <= inject_Z d)%Q) by (unfold Qle; simpl; lia).
  assert (Hlo : (inject_Z d * (1 - j) <= q)%Q).
  { assert (0 <= inject_Z d * (j * u))%Q by (repeat apply Qmult_le_0_compat; lra). unfold q. lra. }
  assert (Hhi : (q <= inject_Z d * (1 + j))%Q).
  { assert (0 <= inject_Z d * (j * (1 - u)))%Q by (repeat apply Qmult_le_0_compat; lra). unfold q. lra. }
  rewrite Qquot_floor.
  - pose proof (Qfloor_le q). pose proof (Qlt_floor q) as Hf. rewrite inject_Z_plus in Hf.
    change (inject_Z 1) with 1%Q in Hf. split; lra.
  - assert (0 <= inject_Z d * (1 - j))%Q by (apply Qmult_le_0_compat; lra). lra.
Qed.

(** The quorum backoff.  With [n] endpoints the retry waits before attempt [a]
    exactly when [a] is a multiple of [n/2 + 1], for 22.5 to 27.5 ms; other attempts
    do not wait and draw no random number.  A client fresh from [NewGRPCClient]
    does not know its endpoints, so it waits before every retry. *)
Theorem quorum_backoff attempt w :
  (forall w', 0 <= fst (rand_Float64 w') < 1)%Q ->
  let n := length (Endpoints (client_of w)) in
  let '(d, w') := roundRobinQuorumBackoff defaultBackoffWaitBetween defaultBackoffJitterFraction attempt w in
  (attempt mod (n / 2 + 1) <> 0 -> d = 0%Z /\ w' = w) /\
  (attempt mod (n / 2 + 1) = 0 -> (22500000 <= d <= 27500000)%Z /\ w' = snd (rand_Float64 w)) /\
  (cfg (client_of w) = zero_Config -> (22500000 <= d <= 27500000)%Z).
Proof.
  intros Hrand. simpl. unfold roundRobinQuorumBackoff. set (n := length _).
  assert (Hb : (22500000 <= jitterUp defaultBackoffWaitBetween defaultBackoffJitterFraction
                  (fst (rand_Float64 w)) <= 27500000)%Z).
  { destruct (jitterUp_bounds defaultBackoffWaitBetween defaultBackoffJitterFraction (fst (rand_Float64 w)))
      as [Hlo Hhi]; [done| |apply Hrand|].
    - unfold defaultBackoffJitterFraction. split; lra.
    - unfold defaultBackoffWaitBetween, defaultBackoffJitterFraction in *.
      set (r := jitterUp _ _ _) in *. clearbody r. unfold Qlt, Qle in *. simpl in *. lia. }
  assert (Hfresh : cfg (client_of w) = zero_Config -> attempt mod (n / 2 + 1) = 0).
  { intros Hz. unfold n, Endpoints. rewrite Hz. apply Nat.mod_1_r. }
  destruct (decide (attempt mod (n / 2 + 1) = 0)) as [Hm|Hm].
  - destruct (rand_Float64 w) as [u w1] eqn:Hr. simpl in Hb. split; [done|]. by split.
  - split; [done|]. split; [done|]. intros Hz. by destruct (Hm (Hfresh Hz)).
Qed.

(** ** The interceptors the client dials with *)
Section Interceptors.
Context {error : Type} `{EqDecision error} `{!RpcErrors error}.
Context (ctx_Err : W -> option ctx_error) (select_timer : Z -> W -> option ctx_error * W).
Context {Stream Msg : Type}.
Context (invoker : list grpcCallOption -> W -> option error * W).
Context (streamer : list grpcCallOption -> W -> result error Stream * W).

Lemma filter_grpc (gs : list grpcCallOption) :
  filterCallOptions (W := W) (OptGrpc <$> gs) = (gs, []).
Proof. induction gs as [|g gs IH]; [done|]. rewrite fmap_cons. simpl. by rewrite IH. Qed.

(** What the interceptors of a client do to its calls.  The dial installs them
    with the options below, and no caller outside the package can make a retry
    option; so a unary call is sent at most 100 times, and a streaming call is
    never retried: it is exactly grpc's stream, whatever its kind. *)
Theorem client_calls c dopts defaults gs w :
  let sopts := [withMax 0; rrBackoff] in
  let uopts := [withMax defaultUnaryMaxRetries; rrBackoff] in
  WithStreamInterceptor sopts ∈ dialSetupOpts c dopts /\
  WithUnaryInterceptor uopts ∈ dialSetupOpts c dopts /\
  (forall res w' ev, unaryClientInterceptor (Stream := Stream) (Msg := Msg) ctx_Err select_timer invoker
       defaults uopts (OptGrpc <$> gs) w = (res, w', ev) -> 1 <= length (invocations ev) <= 100) /\
  (forall ClientStreams, exists ev : list (@event error Stream Msg),
     streamClientInterceptor streamer defaults sopts ClientStreams (OptGrpc <$> gs) w =
     (match fst (streamer gs w) with Ok st => Ok (PlainStream st) | Err err => Err err end,
      snd (streamer gs w), ev)).
Proof.
  simpl. split; [|split; [|split]].
  - unfold dialSetupOpts. rewrite !elem_of_app, !elem_of_cons. tauto.
  - unfold dialSetupOpts. rewrite !elem_of_app, !elem_of_cons. tauto.
  - intros res w' ev Hrun. apply interceptor_spec in Hrun as (Hlen & _). simpl in Hlen.
    unfold effective in Hlen. rewrite filter_grpc in Hlen. exact Hlen.
  - intros cs. unfold streamClientInterceptor. rewrite filter_grpc. simpl.
    destruct (streamer gs w) as [[st|err] w1]; by eexists.
Qed.
End Interceptors.
End GrpcClient.

(** ** Witnesses: a [DialContext] that builds the target's resolver *)
Section Demo.
Abbreviation demo_client := (@GrpcClient nat string unit).
Abbreviation demo_package := (builder (CC := nat)).
Definition demo_rand (w : demo_client) : Q * demo_client := ((1 # 2)%Q, w).
Definition demo_url (s : string) : option URL := Some (mkURL "http" "host" "").
Definition demo_dial (t : option Z) (target : string) (opts : list (@DialOption demo_client string))
    (b : demo_package) : outcome (demo_package * list call * result string nat) :=
  match ParseTarget target with
  | Ok (id, _) =>
      '(b, calls, r) ← Build b id 0;
      Ret (b, calls, r)
  | Err err => Ret (b, [], Err err)
  end.

Lemma demo_dial_keeps t target opts b b' calls r :
  demo_dial t target opts b = Ret (b', calls, r) ->
  resolverGroups b' = resolverGroups b /\
  forall e g, group_heap b !! e = Some g ->
    exists rs, group_heap b' !! e = Some (mkGroup (rg_id g) (endpoints g) rs).
Proof.
  assert (Hsame : forall e g, group_heap b !! e = Some g ->
            exists rs, group_heap b !! e = Some (mkGroup (rg_id g) (endpoints g) rs)).
  { intros e g Hg. exists (resolvers g). rewrite Hg. by destruct g. }
  unfold demo_dial. destruct (ParseTarget target) as [[id ep]|err]; [|by intros [= <- <- <-]].
  unfold Build. case_decide; [by intros [= <- <- <-]|]. destruct (getResolverGroup b id) as [es|]; [|by intros [= <- <- <-]].
  unfold addResolver, addResolver_locked, deref. cbn.
  destruct (group_heap b !! es) as [g0|] eqn:Hg0; [|done]. cbn. intros [= <- <- <-]. cbn. split; [done|].
  intros e g Hg. destruct (decide (es = e)) as [<-|Hne].
  - rewrite lookup_insert_eq. rewrite Hg in Hg0. injection Hg0 as <-. by eexists.
  - rewrite lookup_insert_ne by done. by apply Hsame.
Qed.

Definition demo_config (timeout : Z) (opts : list string) : @Config string unit :=
  mkConfig ["http://a:1"; "http://b:1"]%string 0 timeout 0 0 0 0 opts None false.
Definition demo_new (k : @Config string unit) :=
  NewGRPCClient (CC := nat) demo_rand (fun w => w) demo_url demo_dial k "u1" empty_builder.

Example NewGRPCClient_ignores_config_witness :
  erase_callOpts (demo_new (demo_config 0 [])) = erase_callOpts (demo_new (demo_config 5 ["WithBlock"%string])).
Proof.
  exact (proj1 (NewGRPCClient_ignores_config demo_rand (fun w => w) demo_url demo_dial
    (demo_config 0 []) (demo_config 5 ["WithBlock"%string]) "u1" empty_builder eq_refl eq_refl eq_refl)).
Defined.

Example NewGRPCClient_outcome_witness :
  exists b calls c, demo_new (demo_config 5 []) = Ret (b, calls, Ok c) /\ Endpoints c = [] /\
    exists e rs, resolverGroups b = <["client-u1"%string := e]> ∅ /\
      group_heap b !! e = Some (mkGroup "client-u1" ["http://a:1"; "http://b:1"]%string rs).
Proof.
  destruct (demo_new (demo_config 5 [])) as [[[b calls] [c|err]]|] eqn:Hrun;
    [|vm_compute in Hrun; discriminate Hrun|vm_compute in Hrun; discriminate Hrun].
  exists b, calls, c. split; [reflexivity|].
  destruct (NewGRPCClient_outcome demo_rand (fun w => w) demo_url demo_dial demo_dial_keeps
    (demo_config 5 []) "u1" empty_builder b calls (Ok c) Hrun) as (_ & _ & _ & _ & e & rs & _ & Hreg & Hg & Heps).
  split; [exact Heps|]. exists e, rs. split; [exact Hreg|exact Hg].
Defined.

Example quorum_backoff_witness :
  let '(d, _) := roundRobinQuorumBackoff demo_rand (fun w => w) defaultBackoffWaitBetween
    defaultBackoffJitterFraction 1 (mkGrpcClient None zero_Config None false []) in
  (22500000 <= d <= 27500000)%Z.
Proof.
  pose proof (quorum_backoff demo_rand (fun w => w) 1 (mkGrpcClient None zero_Config None false [])) as Hq.
  simpl in Hq. destruct Hq as (_ & _ & Hz); [|exact (Hz eq_refl)].
  intros w'. split; [discriminate|reflexivity].
Defined.
End Demo.
