(* ===== verification/ClientLife.v ===== *)
(** * grpc/client: where the requests of a client go

    [GrpcClient], [Resolver] and [Balancer] put together: the package registers its
    balancer ([client_init]), [NewGRPCClient] publishes the endpoints of its configuration
    and dials, grpc builds the resolver and the balancer of the connection, and from then
    on the client may call [SetEndpoints], other clients use the registry, grpc reports
    states and requests ask the picker.  grpc is three parameters with their documented
    laws: its table of balancers, [DialContext], which builds a resolver for the authority
    of its target, and the [ClientConn] of [Balancer]. *)
From Stdlib Require Import QArith.
From S2P Require Import Prelude.
From S2P Require Import Connectivity.
From S2P Require Import Picker.
From S2P Require Import Balancer.
From S2P Require Import Resolver.
From S2P Require Import Discovery.
From S2P Require Import Retry.
From S2P Require Import GrpcClient.
#[local] Close Scope Q_scope.
#[local] Open Scope nat_scope.

Section ClientLife.
Context {SubConn error W CC : Type} `{Countable SubConn}.
Context `{!GoRange} `{!ClientConn W Address SubConn}.
Context (ErrNoSubConnAvailable ErrTransientFailure : error) (zero : State).
Context (Hzero : zero <> TransientFailure).

(** ** The balancer the package registers *)
Context {Table : Type} (Register : BalancerConfig -> Table -> Table) (balancer_Get : string -> Table -> option BalancerConfig).
Context (Get_registered : forall cfg t, balancer_Get (builder_Name cfg) (Register cfg t) = Some cfg).

(* src/grpc/client/balancer/balancer.go:39-42 RegisterBuilder *)
Definition RegisterBuilder (cfg : BalancerConfig) (t : Table) : Table := Register cfg t.

(* src/grpc/client/client.go:18-24 init *)
Definition client_init (t : Table) : outcome Table :=
  name ← roundRobinBalancerName;
  Ret (RegisterBuilder (mkBalancerConfig RoundrobinBalanced name) t).

(** ** The client and what it shares *)
Context {W' Conn UserDialOption Ctx : Type} (rand_Float64 : W' -> Q * W').
#[local] Abbreviation client := (GrpcClient (Conn := Conn) (UserDialOption := UserDialOption) (Ctx := Ctx)).
Context (client_of : W' -> client) (url_Parse : string -> option URL).
#[local] Abbreviation package := (builder (CC := CC)).
#[local] Abbreviation dial_option := (DialOption (W := W') (UserDialOption := UserDialOption)).
Context (DialContext : option Z -> string -> list dial_option -> package ->
           outcome (package * list call * result string Conn)).
(** The resolver and the name of the balancer of a connection. *)
Context (conn_resolver : Conn -> resolver_ref) (conn_balancer : Conn -> string).

Definition balancer_names (opts : list dial_option) : list string :=
  omap (fun o => match o with WithBalancerName name => Some name | _ => None end) opts.

(** A dial that succeeds has built one resolver, for the authority of its target, and
    uses the balancer it was told to. *)
Context (DialContext_builds : forall t id ep name opts b b' calls conn,
  has_slash id = false -> balancer_names opts = [name] ->
  DialContext t (Target id ep) opts b = Ret (b', calls, Ok conn) ->
  conn_balancer conn = name /\ exists cc, Resolver.Build b id cc = Ret (b', calls, Ok (conn_resolver conn))).

#[local] Abbreviation new_client := (NewGRPCClient rand_Float64 client_of url_Parse DialContext).
#[local] Abbreviation system := (@Discovery.system SubConn error W CC _ _).
#[local] Abbreviation act := (sys_act ErrNoSubConnAvailable ErrTransientFailure).

(** Operations of others leave the client's group and its resolver alone. *)
Definition of_others (e : group_ref) (r : resolver_ref) (o : op (CC := CC)) : Prop :=
  match o with OpSetEndpoints e' _ => e' <> e | OpResolverClose r' => r' <> r | _ => True end.

(** The client, its connection and everything they share, with the endpoints the caller
    last gave: those of the configuration, or of the last [SetEndpoints]. *)
Inductive life (t : Table) : client -> Conn -> system -> list string -> Prop :=
| life_new k uuid b told w id b' calls c conn cfg bb w' ccs :
    Resolver.reachable b told -> issued w = ∅ -> has_slash uuid = false ->
    new_client k uuid b = Ret (b', calls, Ok c) -> gc_Conn c = Some conn ->
    balancer_Get (conn_balancer conn) t = Some cfg ->
    deliver (conn_resolver conn) calls (Balancer.Build ErrNoSubConnAvailable cfg zero id) w = (bb, w', ccs) ->
    life t c conn (mkSystem b' (told ++ calls) bb w' ccs) (cfg_Endpoints k)
| life_set c conn s eps eps' c' b' calls bb w' ccs :
    life t c conn s eps -> client_SetEndpoints c eps' (s_registry s) = Ret (c', b', calls) ->
    deliver (conn_resolver conn) calls (s_balancer s) (s_world s) = (bb, w', ccs) ->
    life t c' conn (mkSystem b' (s_told s ++ calls) bb w' (s_calls s ++ ccs)) eps'
| life_others c conn s eps o s' e :
    life t c conn s eps -> resolverGroup c = Some e -> of_others e (conn_resolver conn) o ->
    act (conn_resolver conn) (ActOp o) s = Ret s' -> life t c conn s' eps
| life_conn c conn s eps a s' :
    life t c conn s eps -> (forall o, a <> ActOp o) -> act (conn_resolver conn) a s = Ret s' -> life t c conn s' eps.

(** ** What a construction does, as operations of the registry *)
Lemma SetEndpoints_fresh (b : package) e id eps :
  group_heap b !! e = Some (mkGroup id [] []) ->
  SetEndpoints b e eps = Ret (set_group b e (mkGroup id eps []), []).
Proof. intros Hg. unfold SetEndpoints, deref. by rewrite Hg. Qed.

Lemma new_client_runs k uuid b b' calls c conn :
  has_slash uuid = false -> new_client k uuid b = Ret (b', calls, Ok c) -> gc_Conn c = Some conn ->
  let id := ("client-" +:+ uuid)%string in
  exists e b1 b2 cc,
    resolverGroup c = Some e /\ run_op b (OpNewGroup id) = Ret (b1, []) /\
    run_op b1 (OpSetEndpoints e (cfg_Endpoints k)) = Ret (b2, []) /\
    Resolver.Build b2 id cc = Ret (b', calls, Ok (conn_resolver conn)) /\
    group_heap b2 !! e = Some (mkGroup id (cfg_Endpoints k) []) /\ resolverGroups b2 !! id = Some e /\
    resolver_heap b2 = resolver_heap b /\ Ret (conn_balancer conn) = roundRobinBalancerName.
Proof using Type DialContext_builds.
  intros Hs. unfold NewGRPCClient. rewrite has_limits_irrelevant. destruct (limit_error k); [done|].
  set (id := ("client-" +:+ uuid)%string). destruct (newResolverGroup b id) as [b1 [e|err]] eqn:Hnew; [|done].
  assert (Hrun : run_op b (OpNewGroup id) = Ret (b1, [])) by (simpl; by rewrite Hnew).
  assert (Hb1 : group_heap b1 !! e = Some (mkGroup id [] []) /\ resolverGroups b1 !! id = Some e /\ resolver_heap b1 = resolver_heap b).
  { unfold newResolverGroup in Hnew. destruct (newResolverGroup_check b id); [|done]. injection Hnew as <- <-. simpl.
    by rewrite !lookup_insert_eq. }
  destruct Hb1 as (Hg1 & Hr1 & Hh1). destruct (cfg_Endpoints k) as [|ep eps]; [done|].
  rewrite (SetEndpoints_fresh _ _ _ _ Hg1). change roundRobinBalancerName with (Ret "grpcvsthrift-picker-roundrobin-balanced"%string).
  cbn [mbind outcome_bind]. unfold dialWithBalancer.
  destruct (ParseEndpoint url_Parse ep) as [[? host] ?]. cbn [resolverGroup].
  unfold group_Target, deref. cbn [set_group group_heap]. rewrite lookup_insert_eq. cbn [mbind outcome_bind rg_id]. unfold dial.
  match goal with |- context [DialContext ?t ?target ?opts ?b] =>
    destruct (DialContext t target opts b) as [[[b3 calls2] [conn'|err]]|] eqn:Hd; [| |done] end.
  2: { simpl. by destruct (group_Close b3 e). }
  intros [= <- <- <-] [= <-]. apply DialContext_builds with (name := "grpcvsthrift-picker-roundrobin-balanced"%string) in Hd
    as [Hn [cc Hb]]; [|done|reflexivity].
  exists e, b1, (set_group b1 e (mkGroup id (ep :: eps) [])), cc. split; [done|]. split; [done|]. split; [by apply SetEndpoints_fresh|]. split; [exact Hb|].
  simpl. rewrite lookup_insert_eq. split; [done|]. split; [done|]. split; [done|]. by rewrite Hn.
Qed.

(** The resolver a build makes is new, is in the group, and is told its endpoints. *)
Lemma Build_told (b : package) id cc b' calls r e g :
  Resolver.Build b id cc = Ret (b', calls, Ok r) -> resolverGroups b !! id = Some e -> group_heap b !! e = Some g ->
  resolver_heap b !! r = None /\ calls = [(r, epsToAddrs (endpoints g))] /\
  group_heap b' !! e = Some (mkGroup (rg_id g) (endpoints g) (resolvers g ++ [r])).
Proof.
  unfold Resolver.Build, getResolverGroup. case_decide; [done|]. intros Hb He Hg. rewrite He in Hb.
  unfold addResolver, addResolver_locked, deref in Hb. simpl in Hb. rewrite Hg in Hb. simpl in Hb.
  injection Hb as <- <- <-. split; [apply fresh_resolver|]. split; [done|]. simpl. by rewrite lookup_insert_eq.
Qed.

(** ** The invariant *)

(** The client's group holds the endpoints given last and the connection's resolver. *)
Definition subscribed (c : client) (conn : Conn) (b : package) (eps : list string) : Prop :=
  exists e g, resolverGroup c = Some e /\ group_heap b !! e = Some g /\ endpoints g = eps /\ conn_resolver conn ∈ resolvers g.

#[local] Abbreviation reachable := (sys_reachable (CC := CC) ErrNoSubConnAvailable ErrTransientFailure).

Lemma sys_op cfg id r s o b' calls bb w ccs :
  reachable cfg zero id r s -> run_op (s_registry s) o = Ret (b', calls) ->
  deliver r calls (s_balancer s) (s_world s) = (bb, w, ccs) ->
  reachable cfg zero id r (mkSystem b' (s_told s ++ calls) bb w (s_calls s ++ ccs)).
Proof. intros Hr Ho Hd. eapply sys_next; [exact Hr|]. exists (ActOp o). cbn [sys_act]. rewrite Ho. simpl. by rewrite Hd. Qed.

Lemma life_new_ok k uuid b told w id b' calls c conn cfg bb w' ccs :
  Resolver.reachable b told -> issued w = ∅ -> has_slash uuid = false ->
  new_client k uuid b = Ret (b', calls, Ok c) -> gc_Conn c = Some conn ->
  deliver (conn_resolver conn) calls (Balancer.Build ErrNoSubConnAvailable cfg zero id) w = (bb, w', ccs) ->
  reachable cfg zero id (conn_resolver conn) (mkSystem b' (told ++ calls) bb w' ccs) /\
  subscribed c conn b' (cfg_Endpoints k) /\ Ret (conn_balancer conn) = roundRobinBalancerName.
Proof using Type DialContext_builds.
  intros Hr Hw Hs Hnew Hc Hd.
  destruct (new_client_runs _ _ _ _ _ _ _ Hs Hnew Hc) as (e & b1 & b2 & cc & He & H1 & H2 & Hb & Hg & Hreg & Hheap & Hn).
  destruct (Build_told _ _ _ _ _ _ _ _ Hb Hreg Hg) as (Hfresh & Hcalls & Hg').
  split; [|split; [|done]].
  - assert (H0' : reachable cfg zero id (conn_resolver conn)
      (mkSystem b told (Balancer.Build ErrNoSubConnAvailable cfg zero id) w [])).
    { apply sys_init; [done| |done]. unfold last_told. rewrite filter_none; [done|]. intros x Hx Heq.
      destruct (told_resolvers _ _ _ Hr Hx) as [rv Hrv]. rewrite Heq, <- Hheap in Hrv. congruence. }
    pose proof (sys_op _ _ _ _ _ _ _ _ _ _ H0' H1 eq_refl) as H1'. pose proof (sys_op _ _ _ _ _ _ _ _ _ _ H1' H2 eq_refl) as H2'.
    cbn [s_registry s_told s_balancer s_world s_calls] in H2'. rewrite !app_nil_r in H2'.
    eapply (sys_op _ _ _ _ (OpBuild _ cc)) in H2'; [exact H2'| |exact Hd]. simpl. by rewrite Hb.
  - exists e. eexists. split; [done|]. split; [exact Hg'|]. split; [done|]. simpl. by apply list_elem_of_singleton.
Qed.

Lemma life_ok t0 t c conn s eps :
  client_init t0 = Ret t -> life t c conn s eps ->
  exists cfg id, bc_Policy cfg = RoundrobinBalanced /\ reachable cfg zero id (conn_resolver conn) s /\
    subscribed c conn (s_registry s) eps.
Proof using Type Get_registered DialContext_builds.
  intros Hinit. induction 1 as [k uuid b told w id b' calls c conn cfg bb w' ccs Hr Hw Hs Hnew Hc Hget Hd
    |c conn s eps eps' c' b' calls bb w' ccs _ IH Hset Hd|c conn s eps o s' e _ IH He Ho Ha|c conn s eps a s' _ IH Ha Hact].
  - destruct (life_new_ok _ _ _ _ _ _ _ _ _ _ _ _ _ _ Hr Hw Hs Hnew Hc Hd) as (Hreach & Hsub & Hn).
    exists cfg, id. split; [|done]. unfold client_init in Hinit. rewrite <- Hn in Hinit. injection Hinit as <-.
    unfold RegisterBuilder in Hget. rewrite (Get_registered (mkBalancerConfig RoundrobinBalanced (conn_balancer conn))) in Hget.
    by injection Hget as <-.
  - destruct IH as (cfg & id & Hp & Hr & e & g & He & Hg & _ & Hin). exists cfg, id. split; [done|].
    unfold client_SetEndpoints in Hset. cbn [resolverGroup] in Hset. rewrite He in Hset.
    apply outcome_bind_Ret in Hset as ([b1 calls1] & Hset & [= <- <- <-]). split.
    + by eapply (sys_op _ _ _ _ (OpSetEndpoints e eps')).
    + unfold SetEndpoints, deref in Hset. rewrite Hg in Hset. injection Hset as <- <-.
      exists e, (mkGroup (rg_id g) eps' (resolvers g)). split; [done|]. simpl. by rewrite lookup_insert_eq.
  - destruct IH as (cfg & id & Hp & Hr & e' & g & He' & Hg & Heps & Hin). exists cfg, id. split; [done|].
    rewrite He in He'. injection He' as <-. split; [eapply sys_next; [exact Hr|by exists (ActOp o)]|].
    cbn [sys_act] in Ha. apply outcome_bind_Ret in Ha as ([b1 calls1] & Hop & Ha).
    destruct (deliver _ _ _ _) as [[bb1 w1] ccs1]. injection Ha as <-. simpl.
    assert (Hne : forall l, o <> OpSetEndpoints e l) by (intros l ->; by simpl in Ho).
    destruct (run_op_group _ _ _ _ e g Hne Hop Hg) as (g' & Hg' & Heps' & Hrs).
    exists e, g'. split; [done|]. split; [done|]. split; [congruence|]. apply Hrs; [done|]. intros ->. by simpl in Ho.
  - destruct IH as (cfg & id & Hp & Hr & Hsub). exists cfg, id. split; [done|].
    split; [eapply sys_next; [exact Hr|by exists a]|].
    destruct a as [o|sc st|]; [by destruct (Ha o)|..]; cbn [sys_act] in Hact;
      apply outcome_bind_Ret in Hact as ([x y] & _ & Hact); by injection Hact as <-.
Qed.

(** Closing does not unsubscribe.  [Close] closes the group before the connection, so the
    resolver grpc closes afterwards finds no group: it stays in it, and setting the
    endpoints of the closed client still announces them to the closed connection. *)
Theorem client_close_leaks Conn_Close t0 t c conn s eps :
  client_init t0 = Ret t -> life t c conn s eps ->
  exists c' b' err, client_Close Conn_Close c (s_registry s) = Ret (c', b', err) /\
    resolver_Close b' (conn_resolver conn) = Ret b' /\
    forall eps' c'' b'' calls, client_SetEndpoints c' eps' b' = Ret (c'', b'', calls) ->
      (conn_resolver conn, epsToAddrs eps') ∈ calls.
Proof using Type Hzero Get_registered DialContext_builds.
  intros Hinit Hlife. destruct (life_ok _ _ _ _ _ _ Hinit Hlife) as (cfg & id & Hp & Hr & e & g & He & Hg & _ & Hin).
  destruct (sys_reachable_ok _ _ cfg zero id Hp Hzero _ _ Hr) as [Hreg _].
  destruct (proj2 (resolver_close_unsubscribes _ _ _ _ _ Hreg Hg Hin)) as (b1 & Hclose & Hsame & Htold).
  unfold client_Close. cbn [resolverGroup gc_Conn]. rewrite He, Hclose.
  assert (Hset : forall (c1 : client) l c'' b'' calls, resolverGroup c1 = Some e ->
    client_SetEndpoints c1 l b1 = Ret (c'', b'', calls) -> (conn_resolver conn, epsToAddrs l) ∈ calls).
  { intros c1 l c'' b'' calls He1. unfold client_SetEndpoints. cbn [resolverGroup]. rewrite He1, outcome_bind_Ret.
    intros ([b2 calls2] & Hs & [= _ _ <-]). by eapply Htold. }
  destruct (gc_Conn c) as [conn'|]; cbn [mbind outcome_bind]; do 3 eexists; (split; [reflexivity|]); split; try done;
    intros *; by apply Hset.
Qed.

(** C5: the requests of a client go to the endpoints it was given.  From [NewGRPCClient]
    on, whatever endpoints the client sets later, whatever other clients do with the
    registry and whatever grpc reports, a request is given a sub-connection that is ready
    and whose address is one of the endpoints given last, or one the balancer has already
    asked grpc to remove.  If a request gets none, each of these endpoints has a
    sub-connection that is not ready, or grpc refused to make one.  None panics. *)
Theorem client_requests t0 t c conn s eps :
  client_init t0 = Ret t -> life t c conn s eps ->
  let bb := s_balancer s in
  exists p res, Pick ErrNoSubConnAvailable (bb_picker bb) = Ret (p, res) /\
    match res with
    | Ok sc =>
        scToSt bb !! sc = Some Ready /\
        (CallRemoveSubConn sc ∈ s_calls s \/ exists a, scToAddr bb !! sc = Some a /\ Addr a ∈ eps)
    | Err _ =>
        forall ep, ep ∈ eps ->
          (exists sc, addrToSc bb !! mkAddress ep = Some sc /\ scToSt bb !! sc <> Some Ready) \/
          refused (s_world s) (mkAddress ep)
    end.
Proof using Type Hzero Get_registered DialContext_builds.
  intros Hinit Hlife. destruct (life_ok _ _ _ _ _ _ Hinit Hlife) as (cfg & id & Hp & Hr & e & g & _ & Hg & Heps & Hin).
  destruct (requests_reach_endpoints _ _ cfg zero id Hp Hzero _ _ Hr) as (p & res & Hpick & Hres).
  exists p, res. split; [done|]. destruct res as [sc|err].
  - destruct Hres as [Hst [Hrem|(a & Ha & Hall)]]; (split; [done|]); [by left|right].
    exists a. split; [done|]. rewrite <- Heps. by eapply Hall.
  - intros ep Hep. destruct (sys_reachable_ok _ _ cfg zero id Hp Hzero _ _ Hr) as [Hreg%builder_reachable_ok Hok].
    destruct (sk_known _ _ _ _ _ _ _ _ Hok (epsToAddrs eps) (mkAddress ep)) as [[sc Hsc]|]; [| |left|by right].
    + rewrite <- Heps. by apply (ok_told _ _ Hreg e g).
    + by apply list_elem_of_fmap_2.
    + exists sc. split; [done|]. by eapply Hres.
Qed.
End ClientLife.

(** ** A run: a grpc that dials, with one client whose endpoints change *)
Section Demo.
#[local] Existing Instance range_in_key_order.

(** The connection is its resolver and the name of its balancer. *)
Abbreviation life_client := (@GrpcClient (nat * string) string unit).
Definition life_rand (w : nat) : Q * nat := ((1 # 2)%Q, w).
Definition life_of (w : nat) : life_client := mkGrpcClient None zero_Config None false [].
Definition life_dial (t : option Z) (target : string) (opts : list (DialOption (W := nat) (UserDialOption := string)))
    (b : builder (CC := unit)) : outcome (builder (CC := unit) * list call * result string (nat * string)) :=
  match ParseTarget target, balancer_names opts with
  | Ok (id, _), [name] =>
      '(b, calls, r) ← Resolver.Build b id tt;
      Ret (b, calls, match r with Ok r => Ok (r, name) | Err err => Err err end)
  | _, _ => Ret (b, [], Err "no dial"%string)
  end.

Lemma life_dial_builds t id ep name opts b b' calls conn :
  has_slash id = false -> balancer_names opts = [name] ->
  life_dial t (Target id ep) opts b = Ret (b', calls, Ok conn) ->
  conn.2 = name /\ exists cc, Resolver.Build b id cc = Ret (b', calls, Ok conn.1).
Proof.
  intros Hid Hname. unfold life_dial. rewrite (proj2 (proj1 (ParseTarget_Target (Target id ep) id ep)) (conj eq_refl Hid)), Hname.
  destruct (Resolver.Build b id tt) as [[[b1 c1] [r|err]]|] eqn:Hb; intros [= <- <- <-]. split; [done|]. by exists tt.
Qed.

Definition life_table : Type := list BalancerConfig.
Definition life_Get (name : string) (t : life_table) : option BalancerConfig :=
  snd <$> list_find (fun cfg => bc_Name cfg = name) t.

Lemma life_Get_registered cfg t : life_Get (builder_Name cfg) (cfg :: t) = Some cfg.
Proof. unfold life_Get. simpl. by rewrite decide_True. Qed.

Definition life_config : Config (UserDialOption := string) (Ctx := unit) := mkConfig ["a"; "b"]%string 0 0 0 0 0 0 [] None false.
Definition life_url (s : string) : option URL := None.

#[local] Abbreviation demo_system := (@Discovery.system nat string nat unit _ _).
#[local] Abbreviation demo_life := (life (CC := unit) (UserDialOption := string) (Ctx := unit) "no subconn"%string "transient"%string
  Idle life_Get life_rand life_of life_url life_dial fst snd).
Definition demo_cfg : BalancerConfig := mkBalancerConfig RoundrobinBalanced "grpcvsthrift-picker-roundrobin-balanced".

(** The client is made, its endpoints are replaced, and the new one becomes ready. *)
Definition life_run : outcome (life_client * (nat * string) * demo_system) :=
  match NewGRPCClient life_rand life_of life_url life_dial life_config "u1" empty_builder with
  | Ret (b, calls, Ok c) =>
      match gc_Conn c with
      | Some conn =>
          let '(bb, w, ccs) := deliver conn.1 calls (Balancer.Build "no subconn"%string demo_cfg Idle "1") 0 in
          '(c, b, calls2) ← client_SetEndpoints c ["c"%string] b;
          let '(bb, w, ccs2) := deliver conn.1 calls2 bb w in
          s ← sys_act "no subconn"%string "transient"%string conn.1 (ActState 2 Ready)
                (mkSystem b (([] ++ calls) ++ calls2) bb w (ccs ++ ccs2));
          Ret (c, conn, s)
      | None => Panic
      end
  | _ => Panic
  end.

Lemma life_run_life c conn s :
  life_run = Ret (c, conn, s) -> conn.2 = bc_Name demo_cfg -> demo_life [demo_cfg] c conn s ["c"%string].
Proof.
  unfold life_run. destruct (NewGRPCClient _ _ _ _ _ _ _) as [[[b calls] [c0|]]|] eqn:Hnew; [|done..].
  destruct (gc_Conn c0) as [conn0|] eqn:Hc0; [|done].
  destruct (deliver conn0.1 calls _ _) as [[bb w] ccs] eqn:Hd. rewrite outcome_bind_Ret. intros ([[c1 b1] calls1] & Hset & Hrest).
  destruct (deliver conn0.1 calls1 bb w) as [[bb1 w1] ccs1] eqn:Hd1.
  apply outcome_bind_Ret in Hrest as (s1 & Ha & [= -> -> ->]). intros Hn.
  assert (H1 : demo_life [demo_cfg] c0 conn (mkSystem b ([] ++ calls) bb w ccs) ["a"; "b"]%string).
  { eapply (life_new _ _ _ _ _ _ _ _ _ _ _ life_config "u1" empty_builder [] 0 "1");
      [constructor|done..|exact Hnew|exact Hc0| |exact Hd]. unfold life_Get. simpl. by rewrite decide_True. }
  pose proof (life_set _ _ _ _ _ _ _ _ _ _ _ _ _ _ _ _ _ _ _ _ _ _ H1 Hset Hd1) as H2.
  eapply life_conn; [exact H2| |exact Ha]. done.
Qed.

Example client_requests_witness :
  exists c conn s p sc, demo_life [demo_cfg] c conn s ["c"%string] /\
    Pick "no subconn"%string (bb_picker (s_balancer s)) = Ret (p, Ok sc) /\
    (CallRemoveSubConn sc ∈ s_calls s \/ exists a, scToAddr (s_balancer s) !! sc = Some a /\ Addr a ∈ ["c"%string]).
Proof.
  destruct life_run as [[[c conn] s]|] eqn:Hrun; [|vm_compute in Hrun; discriminate Hrun].
  assert (Hn : conn.2 = bc_Name demo_cfg) by (vm_compute in Hrun; by injection Hrun as _ <- _).
  pose proof (life_run_life c conn s Hrun Hn) as Hlife. exists c, conn, s.
  destruct (client_requests "no subconn"%string "transient"%string Idle ltac:(discriminate) cons life_Get life_Get_registered
    life_rand life_of life_url life_dial fst snd life_dial_builds [] [demo_cfg] c conn s ["c"%string] eq_refl Hlife)
    as (p & [sc|err] & Hp & Hres).
  - exists p, sc. split; [exact Hlife|]. split; [exact Hp|exact (proj2 Hres)].
  - exfalso. clear -Hrun Hp. vm_compute in Hrun. injection Hrun as _ _ <-. vm_compute in Hp. discriminate Hp.
Defined.
End Demo.
