(* ===== verification/Health.v ===== *)
(** * grpc/server/api/health.go: the health service

    [HealthServer] keeps the status of each service and, per service, the channel
    of each client that watches it.  A channel has one slot: [Some v] when a value
    waits in it.  A [Watch] call is a goroutine: its registration and its removal
    are critical sections, its loop takes values from its channel.  Setting a
    status holds the mutex from the map update to the last send; a receiver that
    runs meanwhile touches only its own slot, so the whole call is one step.  A
    send on a full slot blocks for ever under the mutex: [None]. *)
From S2P Require Import Prelude.

(** A [HealthCheckResponse_ServingStatus] is an [int32]. *)
Definition ServingStatus : Type := Z.
(* src/grpc/rpcpb/health.pb.go:31-31 HealthCheckResponse_SERVING *)
Definition SERVING : ServingStatus := 1%Z.
(* src/grpc/rpcpb/health.pb.go:32-32 HealthCheckResponse_NOT_SERVING *)
Definition NOT_SERVING : ServingStatus := 2%Z.
(* src/grpc/rpcpb/health.pb.go:33-33 HealthCheckResponse_SERVICE_UNKNOWN *)
Definition SERVICE_UNKNOWN : ServingStatus := 3%Z.

(** Streams and channels are references. *)
Abbreviation stream := nat.
Abbreviation chan_ref := nat.
Abbreviation slot := (option ServingStatus).
Abbreviation channels := (gmap chan_ref slot).

Section Health.
Context `{!GoRange}.

(* src/grpc/server/api/health.go:14-22 HealthServer *)
Record HealthServer : Type := mkHealthServer {
  shutdown : bool;
  statusMap : gmap string ServingStatus;
  updates : gmap string (gmap stream chan_ref)
}.

(* src/grpc/server/api/health.go:25-30 NewHealthServer *)
Definition NewHealthServer : HealthServer :=
  mkHealthServer false {[ ""%string := SERVING ]} ∅.

(* src/grpc/server/api/health.go:33-42 HealthServer.Check *)
Definition Check_status (s : HealthServer) (service : string) : result string ServingStatus :=
  match statusMap s !! service with
  | Some servingStatus => Ok servingStatus
  | None => Err "unknown service"%string
  end.

(** *** Setting a status *)
Definition drain (c : slot) : slot := None.
Definition send (c : slot) (v : ServingStatus) : option slot :=
  match c with None => Some (Some v) | Some _ => None end.

(* src/grpc/server/api/health.go:104-113 HealthServer.setServingStatusLocked *)
Fixpoint push_all (chans : channels) (entries : list (stream * chan_ref)) (v : ServingStatus)
    : option channels :=
  match entries with
  | [] => Some chans
  | (_, update) :: entries =>
      c ← chans !! update;
      c ← send (drain c) v;
      push_all (<[update := c]> chans) entries v
  end.

(* src/grpc/server/api/health.go:102-114 HealthServer.setServingStatusLocked *)
Definition setServingStatusLocked (s : HealthServer) (chans : channels) (service : string)
    (v : ServingStatus) : option (HealthServer * channels) :=
  let s := mkHealthServer (shutdown s) (<[service := v]> (statusMap s)) (updates s) in
  chans ← push_all chans (go_range (default ∅ (updates s !! service))) v;
  Some (s, chans).

(* src/grpc/server/api/health.go:91-100 HealthServer.SetServingStatus *)
Definition SetServingStatus (s : HealthServer) (chans : channels) (service : string)
    (v : ServingStatus) : option (HealthServer * channels) :=
  if shutdown s then Some (s, chans) else setServingStatusLocked s chans service v.

(** The loops of [Shutdown] and [Resume] over the keys of [statusMap]. *)
(* src/grpc/server/api/health.go:125-127 HealthServer.Shutdown *)
Fixpoint set_all (s : HealthServer) (chans : channels) (services : list string) (v : ServingStatus)
    : option (HealthServer * channels) :=
  match services with
  | [] => Some (s, chans)
  | service :: services =>
      '(s, chans) ← setServingStatusLocked s chans service v;
      set_all s chans services v
  end.

(* src/grpc/server/api/health.go:121-128 HealthServer.Shutdown *)
Definition Shutdown (s : HealthServer) (chans : channels) : option (HealthServer * channels) :=
  let s := mkHealthServer true (statusMap s) (updates s) in
  set_all s chans (go_range (statusMap s)).*1 NOT_SERVING.

(* src/grpc/server/api/health.go:135-142 HealthServer.Resume *)
Definition Resume (s : HealthServer) (chans : channels) : option (HealthServer * channels) :=
  let s := mkHealthServer false (statusMap s) (updates s) in
  set_all s chans (go_range (statusMap s)).*1 SERVING.

(** *** Watching *)
(** The locals of a [Watch] call, what it has sent so far (newest last), and whether
    its loop has returned with the deferred removal still to come. *)
Record watcher : Type := mkWatcher {
  service : string;
  update : chan_ref;
  lastSentStatus : ServingStatus;
  sent : list ServingStatus;
  ended : bool
}.

Record state : Type := mkState {
  server : HealthServer;
  chans : channels;
  watchers : gmap stream watcher
}.

(* src/grpc/server/api/health.go:46-69 HealthServer.Watch *)
Definition watch_register (st : state) (svc : string) (str : stream) : option state :=
  let s := server st in
  let upd := fresh (dom (chans st)) in
  c ← send None (match statusMap s !! svc with
                 | Some servingStatus => servingStatus
                 | None => SERVICE_UNKNOWN
                 end);
  let s := mkHealthServer (shutdown s) (statusMap s)
             (<[svc := <[str := upd]> (default ∅ (updates s !! svc))]> (updates s)) in
  Some (mkState s (<[upd := c]> (chans st))
          (<[str := mkWatcher svc upd (-1)%Z [] false]> (watchers st))).

(** One turn of the loop's first case; [ok] says whether [stream.Send] succeeds. *)
(* src/grpc/server/api/health.go:72-81 HealthServer.Watch *)
Definition watch_receive (w : watcher) (servingStatus : ServingStatus) (ok : bool) : watcher :=
  if decide (lastSentStatus w = servingStatus) then w
  else if ok then
    mkWatcher (service w) (update w) servingStatus (sent w ++ [servingStatus]) false
  else mkWatcher (service w) (update w) servingStatus (sent w) true.

(* src/grpc/server/api/health.go:83-84 HealthServer.Watch *)
Definition watch_done (w : watcher) : watcher :=
  mkWatcher (service w) (update w) (lastSentStatus w) (sent w) true.

(* src/grpc/server/api/health.go:62-66 HealthServer.Watch *)
Definition watch_remove (s : HealthServer) (svc : string) (str : stream) : HealthServer :=
  mkHealthServer (shutdown s) (statusMap s)
    (match updates s !! svc with
     | Some m => <[svc := delete str m]> (updates s)
     | None => updates s
     end).

(** ** Runs *)
Inductive step : state -> state -> Prop :=
| step_set st svc v s' c' :
    SetServingStatus (server st) (chans st) svc v = Some (s', c') ->
    step st (mkState s' c' (watchers st))
| step_shutdown st s' c' :
    Shutdown (server st) (chans st) = Some (s', c') -> step st (mkState s' c' (watchers st))
| step_resume st s' c' :
    Resume (server st) (chans st) = Some (s', c') -> step st (mkState s' c' (watchers st))
| step_register st svc str st' :
    (** grpc makes a stream per call *)
    watchers st !! str = None -> watch_register st svc str = Some st' -> step st st'
| step_receive st str w v ok :
    watchers st !! str = Some w -> ended w = false -> chans st !! update w = Some (Some v) ->
    step st (mkState (server st) (<[update w := None]> (chans st))
               (<[str := watch_receive w v ok]> (watchers st)))
| step_done st str w :
    watchers st !! str = Some w -> ended w = false ->
    step st (mkState (server st) (chans st) (<[str := watch_done w]> (watchers st)))
| step_remove st str w :
    watchers st !! str = Some w -> ended w = true ->
    step st (mkState (watch_remove (server st) (service w) str) (chans st) (delete str (watchers st))).

Definition initial : state := mkState NewHealthServer ∅ ∅.

Inductive reachable : state -> Prop :=
| reach_init : reachable initial
| reach_step st st' : reachable st -> step st st' -> reachable st'.

(** The status a client of [svc] should see. *)
Definition current (s : HealthServer) (svc : string) : ServingStatus :=
  default SERVICE_UNKNOWN (statusMap s !! svc).

(** No two statuses sent in a row are equal. *)
Fixpoint no_repeats (l : list ServingStatus) : Prop :=
  match l with
  | x :: (y :: _) as l' => x <> y /\ no_repeats l'
  | _ => True
  end.
Arguments no_repeats !l /.

(** What holds of a watcher: it is registered under its own channel, its slot holds
    the current status or it has already taken it, and it sent no status twice
    in a row. *)
Record watcher_ok (st : state) (str : stream) (w : watcher) : Prop := {
  wo_registered : default ∅ (updates (server st) !! service w) !! str = Some (update w);
  wo_channel : exists c, chans st !! update w = Some c /\
    (ended w = false -> match c with
                        | Some v => v = current (server st) (service w)
                        | None => lastSentStatus w = current (server st) (service w)
                        end);
  wo_last : ended w = false -> default (-1)%Z (last (sent w)) = lastSentStatus w;
  wo_repeats : no_repeats (sent w)
}.

Record state_ok (st : state) : Prop := {
  so_watcher str w : watchers st !! str = Some w -> watcher_ok st str w;
  so_entry svc m str ch : updates (server st) !! svc = Some m -> m !! str = Some ch ->
    exists w, watchers st !! str = Some w /\ service w = svc /\ update w = ch;
  so_distinct str1 str2 w1 w2 : watchers st !! str1 = Some w1 -> watchers st !! str2 = Some w2 ->
    update w1 = update w2 -> str1 = str2;
  so_shutdown svc v : shutdown (server st) = true -> statusMap (server st) !! svc = Some v -> v = NOT_SERVING
}.

(** ** Setting a status: never blocks, and reaches every watcher *)
Lemma push_all_spec chans0 entries v :
  (forall e, e ∈ entries -> is_Some (chans0 !! e.2)) ->
  exists chans', push_all chans0 entries v = Some chans' /\
    forall ch, chans' !! ch = if decide (ch ∈ entries.*2) then Some (Some v) else chans0 !! ch.
Proof.
  revert chans0. induction entries as [|[str upd] entries IH]; intros chans0 Hin; cbn [push_all].
  - exists chans0. split; [done|]. intros ch. by rewrite decide_False by apply not_elem_of_nil.
  - destruct (Hin (str, upd)) as [c Hc]; [left|]. simpl in Hc. rewrite Hc. simpl.
    destruct (IH (<[upd := Some v]> chans0)) as (chans' & Hp & Hch).
    { intros e He. destruct (decide (upd = e.2)) as [->|]; [rewrite lookup_insert_eq; by eexists|].
      rewrite lookup_insert_ne by done. apply Hin. by right. }
    exists chans'. split; [done|]. intros ch. rewrite Hch.
    destruct (decide (ch ∈ entries.*2)) as [He|He].
    + rewrite decide_True; [done|by right].
    + destruct (decide (upd = ch)) as [->|Hne].
      * rewrite lookup_insert_eq, decide_True; [done|left].
      * rewrite lookup_insert_ne by done. rewrite decide_False; [done|].
        rewrite not_elem_of_cons. by split; [simpl; congruence|].
Qed.

(** A server whose channels exist: what setting one or all statuses does. *)
Definition channels_exist (s : HealthServer) (cs : channels) : Prop :=
  forall svc m str ch, updates s !! svc = Some m -> m !! str = Some ch -> is_Some (cs !! ch).

Definition watched_by (s : HealthServer) (svc : string) (ch : chan_ref) : Prop :=
  exists m str, updates s !! svc = Some m /\ m !! str = Some ch.

#[local] Instance watched_by_dec s svc ch : Decision (watched_by s svc ch).
Proof.
  destruct (updates s !! svc) as [m|] eqn:Hm.
  - destruct (decide (ch ∈ (map_to_list m).*2)) as [Hin|Hin].
    + left. apply list_elem_of_fmap in Hin as ([str ch'] & -> & Hin). apply elem_of_map_to_list in Hin.
      by exists m, str.
    + right. intros (m' & str & Hm' & Hstr). simplify_eq. apply Hin. apply list_elem_of_fmap.
      exists (str, ch). split; [done|]. by apply elem_of_map_to_list.
  - right. intros (m' & str & Hm' & Hstr). congruence.
Defined.

Lemma setServingStatusLocked_spec s cs svc v :
  channels_exist s cs ->
  exists cs', setServingStatusLocked s cs svc v =
      Some (mkHealthServer (shutdown s) (<[svc := v]> (statusMap s)) (updates s), cs') /\
    (forall ch, cs' !! ch = if decide (watched_by s svc ch) then Some (Some v) else cs !! ch).
Proof.
  intros Hex. unfold setServingStatusLocked. cbn [updates].
  set (m := default ∅ (updates s !! svc)).
  assert (Hm : forall str ch, m !! str = Some ch -> updates s !! svc = Some m).
  { subst m. intros str ch. destruct (updates s !! svc); simpl; [done|]. by rewrite lookup_empty. }
  destruct (push_all_spec cs (go_range m) v) as (cs' & Hp & Hch).
  { intros [str ch] He%elem_of_go_range. simpl. eapply Hex; [by eapply Hm|done]. }
  exists cs'. rewrite Hp. split; [done|]. intros ch. rewrite Hch. apply decide_ext.
  rewrite list_elem_of_fmap. split.
  - intros ([str ch'] & -> & He%elem_of_go_range). exists m, str. split; [by eapply Hm|done].
  - intros (m' & str & Hm' & Hstr). exists (str, ch). split; [done|]. apply elem_of_go_range.
    unfold m. by rewrite Hm'.
Qed.

Lemma set_all_spec services s cs v :
  channels_exist s cs ->
  exists st' cs', set_all s cs services v = Some (mkHealthServer (shutdown s) st' (updates s), cs') /\
    (forall svc, st' !! svc = if decide (svc ∈ services) then Some v else statusMap s !! svc) /\
    (forall ch, cs' !! ch =
       if decide (Exists (fun svc => watched_by s svc ch) services) then Some (Some v) else cs !! ch).
Proof.
  revert s cs. induction services as [|svc services IH]; intros s cs Hex; cbn [set_all].
  { exists (statusMap s), cs. split; [by destruct s|]. split.
    - intros svc. by rewrite decide_False by apply not_elem_of_nil.
    - intros ch. rewrite decide_False; [done|]. by intros ?%Exists_nil. }
  destruct (setServingStatusLocked_spec s cs svc v Hex) as (cs1 & Hset & Hcs1). rewrite Hset. simpl.
  set (s1 := mkHealthServer _ _ _). destruct (IH s1 cs1) as (st' & cs' & Hall & Hst & Hcs).
  { intros svc' m str ch Hm Hstr. rewrite Hcs1. case_decide; [by eexists|by eapply Hex]. }
  exists st', cs'. split; [done|]. split.
  - intros svc'. rewrite Hst. unfold s1. cbn [statusMap]. destruct (decide (svc' ∈ services)) as [Hi|Hi].
    + rewrite decide_True; [done|by right].
    + destruct (decide (svc = svc')) as [->|Hne].
      * rewrite lookup_insert_eq, decide_True; [done|left].
      * rewrite lookup_insert_ne by done. rewrite decide_False; [done|].
        rewrite not_elem_of_cons. by split; [congruence|].
  - intros ch. rewrite Hcs, Hcs1. change (watched_by s1) with (watched_by s).
    destruct (decide (Exists _ services)) as [Hi|Hi].
    + rewrite decide_True; [done|by right].
    + destruct (decide (watched_by s svc ch)) as [Hw|Hw].
      * rewrite decide_True; [done|by left].
      * rewrite decide_False; [done|]. by intros [?|?]%Exists_cons.
Qed.

(** ** The invariant *)
Lemma state_ok_channels st : state_ok st -> channels_exist (server st) (chans st).
Proof.
  intros Hok svc m str ch Hm Hstr. destruct (so_entry _ Hok svc m str ch Hm Hstr) as (w & Hw & _ & <-).
  destruct (wo_channel _ _ _ (so_watcher _ Hok _ _ Hw)) as (c & Hc & _). by exists c.
Qed.

(** A watcher's channel is filed under its own service only. *)
Lemma watched_by_own st str w svc :
  state_ok st -> watchers st !! str = Some w -> watched_by (server st) svc (update w) <-> svc = service w.
Proof.
  intros Hok Hw. split.
  - intros (m & str' & Hm & Hstr). destruct (so_entry _ Hok _ _ _ _ Hm Hstr) as (w' & Hw' & <- & Hu).
    assert (str' = str) as -> by (by eapply (so_distinct _ Hok)). congruence.
  - intros ->. pose proof (wo_registered _ _ _ (so_watcher _ Hok _ _ Hw)) as Hreg.
    destruct (updates (server st) !! service w) as [m|] eqn:Hm; simpl in Hreg; [by exists m, str|].
    by rewrite lookup_empty in Hreg.
Qed.

Lemma set_all_ok st b services v s' cs' :
  state_ok st ->
  set_all (mkHealthServer b (statusMap (server st)) (updates (server st))) (chans st) services v = Some (s', cs') ->
  (b = true -> forall svc x, statusMap s' !! svc = Some x -> x = NOT_SERVING) ->
  state_ok (mkState s' cs' (watchers st)).
Proof.
  intros Hok Hset Hshut.
  destruct (set_all_spec services (mkHealthServer b (statusMap (server st)) (updates (server st)))
    (chans st) v (state_ok_channels _ Hok)) as (st' & cs & Hrun & Hst & Hcs).
  rewrite Hrun in Hset. injection Hset as <- <-. cbn [shutdown statusMap updates] in *.
  change (watched_by (mkHealthServer b (statusMap (server st)) (updates (server st)))) with
    (watched_by (server st)) in Hcs.
  split; simpl.
  - intros str w Hw. destruct (so_watcher _ Hok _ _ Hw) as [Hreg (c & Hc & Hcur) Hlast Hrep].
    split; simpl; [done| |done|done]. rewrite Hcs.
    assert (Hiff : Exists (fun svc => watched_by (server st) svc (update w)) services <-> service w ∈ services).
    { rewrite Exists_exists. split.
      - intros (svc & Hin & Hwb). apply (watched_by_own _ _ _ _ Hok Hw) in Hwb. by subst.
      - intros Hin. exists (service w). split; [done|]. by apply (watched_by_own _ _ _ _ Hok Hw). }
    unfold current in *. simpl. rewrite Hst.
    destruct (decide (service w ∈ services)) as [Hin|Hin].
    + rewrite decide_True by tauto. by eexists.
    + rewrite decide_False by tauto. by exists c.
  - apply (so_entry _ Hok).
  - apply (so_distinct _ Hok).
  - intros svc x Hb. by apply Hshut.
Qed.

Lemma SetServingStatus_ok st svc v s' cs' :
  state_ok st -> SetServingStatus (server st) (chans st) svc v = Some (s', cs') ->
  state_ok (mkState s' cs' (watchers st)).
Proof.
  intros Hok. unfold SetServingStatus. destruct (shutdown (server st)) eqn:Hb.
  - intros [= <- <-]. by destruct st.
  - intros Hset. apply (set_all_ok st false [svc] v); [done| |done]. cbn [set_all].
    replace (mkHealthServer false _ _) with (server st) by (rewrite <- Hb; by destruct (server st)).
    by rewrite Hset.
Qed.

Lemma go_range_keys {V} (m : gmap string V) k : k ∈ (go_range m).*1 <-> is_Some (m !! k).
Proof.
  rewrite list_elem_of_fmap. split.
  - intros ([k' v] & -> & Hin%elem_of_go_range). by exists v.
  - intros [v Hv]. exists (k, v). split; [done|]. by apply elem_of_go_range.
Qed.

Lemma Shutdown_ok st s' cs' :
  state_ok st -> Shutdown (server st) (chans st) = Some (s', cs') -> state_ok (mkState s' cs' (watchers st)).
Proof.
  intros Hok Hset. eapply set_all_ok; [done|exact Hset|]. intros _ svc x.
  destruct (set_all_spec (go_range (statusMap (server st))).*1
    (mkHealthServer true (statusMap (server st)) (updates (server st)))
    (chans st) NOT_SERVING (state_ok_channels _ Hok)) as (st' & cs & Hrun & Hst & _).
  unfold Shutdown in Hset. simpl in Hset. rewrite Hrun in Hset. injection Hset as <- _. simpl. rewrite Hst. simpl.
  case_decide as Hin; [by intros [= <-]|]. intros Hx. exfalso. apply Hin, go_range_keys. by eexists.
Qed.

Lemma Resume_ok st s' cs' :
  state_ok st -> Resume (server st) (chans st) = Some (s', cs') -> state_ok (mkState s' cs' (watchers st)).
Proof. intros Hok Hset. by eapply (set_all_ok st false). Qed.

Lemma register_ok st svc str st' :
  state_ok st -> watchers st !! str = None -> watch_register st svc str = Some st' -> state_ok st'.
Proof.
  intros Hok Hnone. unfold watch_register. simpl. intros [= <-].
  assert (Hf : chans st !! fresh (dom (chans st)) = None) by apply not_elem_of_dom, is_fresh.
  set (upd := fresh _) in *. clearbody upd.
  assert (Hnew : forall str' w, watchers st !! str' = Some w -> update w <> upd).
  { intros str' w Hw Heq. destruct (wo_channel _ _ _ (so_watcher _ Hok _ _ Hw)) as (c & Hc & _). congruence. }
  split; simpl.
  - intros str' w. destruct (decide (str = str')) as [<-|Hne].
    + rewrite lookup_insert_eq. intros [= <-]. split; simpl.
      * by rewrite lookup_insert_eq; simpl; rewrite lookup_insert_eq.
      * rewrite lookup_insert_eq. eexists. split; [done|]. intros _. unfold current. simpl.
        by destruct (statusMap (server st) !! svc).
      * done.
      * done.
    + rewrite lookup_insert_ne by done. intros Hw.
      destruct (so_watcher _ Hok _ _ Hw) as [Hreg (c & Hc & Hcur) Hlast Hrep]. split; simpl; [|..|done|done].
      * destruct (decide (svc = service w)) as [->|Hs].
        -- rewrite lookup_insert_eq. simpl. by rewrite lookup_insert_ne.
        -- by rewrite lookup_insert_ne.
      * exists c. rewrite lookup_insert_ne; [done|]. intros ->. by apply (Hnew _ _ Hw).
  - intros svc' m str' ch. destruct (decide (svc = svc')) as [<-|Hs].
    + rewrite lookup_insert_eq. intros [= <-]. destruct (decide (str = str')) as [<-|Hne].
      * rewrite !lookup_insert_eq. intros [= <-]. by eexists.
      * rewrite !lookup_insert_ne by done. intros Hch.
        destruct (updates (server st) !! svc) as [m|] eqn:Hm; simpl in Hch; [by eapply (so_entry _ Hok)|].
        by rewrite lookup_empty in Hch.
    + rewrite lookup_insert_ne by done. intros Hm Hch.
      destruct (so_entry _ Hok _ _ _ _ Hm Hch) as (w & Hw & ? & ?). exists w.
      rewrite lookup_insert_ne; [done|]. intros ->. congruence.
  - intros str1 str2 w1 w2. destruct (decide (str = str1)) as [<-|H1], (decide (str = str2)) as [<-|H2];
      rewrite ?lookup_insert_eq, ?lookup_insert_ne by done; [done|..].
    + intros [= <-] Hw2 Hu. simpl in Hu. by destruct (Hnew _ _ Hw2).
    + intros Hw1 [= <-] Hu. simpl in Hu. by destruct (Hnew _ _ Hw1).
    + apply (so_distinct _ Hok).
  - apply (so_shutdown _ Hok).
Qed.

Lemma no_repeats_snoc l x :
  no_repeats l -> last l <> Some x -> no_repeats (l ++ [x]).
Proof.
  induction l as [|y l IH]; [done|]. destruct l as [|z l]; simpl.
  - intros _ Hne. split; [congruence|done].
  - intros [Hyz Hl] Hne. split; [done|]. by apply IH.
Qed.

(** A loop turn changes one watcher's locals and its slot. *)
Lemma local_ok st str w w' cs' :
  state_ok st -> watchers st !! str = Some w ->
  service w' = service w -> update w' = update w ->
  (forall ch, ch <> update w -> cs' !! ch = chans st !! ch) ->
  watcher_ok (mkState (server st) cs' (<[str := w']> (watchers st))) str w' ->
  state_ok (mkState (server st) cs' (<[str := w']> (watchers st))).
Proof.
  intros Hok Hw Hsvc Hupd Hcs Hw'. split; simpl.
  - intros str2 w2. destruct (decide (str = str2)) as [<-|Hne].
    + rewrite lookup_insert_eq. by intros [= <-].
    + rewrite lookup_insert_ne by done. intros Hw2.
      destruct (so_watcher _ Hok _ _ Hw2) as [Hreg (c & Hc & Hcur) Hlast Hrep]. split; simpl; [done| |done|done].
      exists c. rewrite Hcs; [done|]. intros Heq. apply Hne. by eapply (so_distinct _ Hok).
  - intros svc m str2 ch Hm Hch. destruct (so_entry _ Hok _ _ _ _ Hm Hch) as (w2 & Hw2 & Hs & Hu).
    destruct (decide (str = str2)) as [<-|Hne].
    + rewrite lookup_insert_eq. exists w'. simplify_eq. done.
    + rewrite lookup_insert_ne by done. by exists w2.
  - intros str1 str2 w1 w2. destruct (decide (str = str1)) as [<-|H1], (decide (str = str2)) as [<-|H2];
      rewrite ?lookup_insert_eq, ?lookup_insert_ne by done; [done|..].
    + intros [= <-] Hw2. rewrite Hupd. by apply (so_distinct _ Hok).
    + intros Hw1 [= <-]. rewrite Hupd. by apply (so_distinct _ Hok).
    + apply (so_distinct _ Hok).
  - apply (so_shutdown _ Hok).
Qed.

Lemma receive_ok st str w v ok :
  state_ok st -> watchers st !! str = Some w -> ended w = false -> chans st !! update w = Some (Some v) ->
  state_ok (mkState (server st) (<[update w := None]> (chans st)) (<[str := watch_receive w v ok]> (watchers st))).
Proof.
  intros Hok Hw Hend Hv. destruct (so_watcher _ Hok _ _ Hw) as [Hreg (c & Hc & Hcur) Hlast Hrep].
  rewrite Hv in Hc. injection Hc as <-. specialize (Hcur Hend). specialize (Hlast Hend).
  assert (Hsame : service (watch_receive w v ok) = service w /\ update (watch_receive w v ok) = update w)
    by (unfold watch_receive; by destruct (decide _), ok).
  destruct Hsame as [Hs Hu]. apply (local_ok st str w); [done|done|done|done| |].
  { intros ch Hne. by rewrite lookup_insert_ne. }
  split; simpl; rewrite ?Hs, ?Hu; [done| | |].
  - exists None. rewrite lookup_insert_eq. split; [done|]. rewrite <- Hcur.
    unfold watch_receive. by destruct (decide _), ok.
  - unfold watch_receive. destruct (decide _); [done|]. destruct ok; [|done]. simpl.
    by rewrite last_snoc.
  - unfold watch_receive. destruct (decide _) as [|Hne]; [done|]. destruct ok; [|done]. simpl.
    apply no_repeats_snoc; [done|]. intros Hl. rewrite Hl in Hlast. by symmetry in Hlast.
Qed.

Lemma done_ok st str w :
  state_ok st -> watchers st !! str = Some w ->
  state_ok (mkState (server st) (chans st) (<[str := watch_done w]> (watchers st))).
Proof.
  intros Hok Hw. destruct (so_watcher _ Hok _ _ Hw) as [Hreg (c & Hc & Hcur) Hlast Hrep].
  apply (local_ok st str w); [done|done|done|done|done|]. split; simpl; [done|by exists c|done|done].
Qed.

Lemma remove_ok st str w :
  state_ok st -> watchers st !! str = Some w ->
  state_ok (mkState (watch_remove (server st) (service w) str) (chans st) (delete str (watchers st))).
Proof.
  intros Hok Hw. pose proof (wo_registered _ _ _ (so_watcher _ Hok _ _ Hw)) as Hreg.
  unfold watch_remove. destruct (updates (server st) !! service w) as [m|] eqn:Hm; simpl in Hreg;
    [|by rewrite lookup_empty in Hreg].
  split; simpl.
  - intros str2 w2 [Hne Hw2]%lookup_delete_Some.
    destruct (so_watcher _ Hok _ _ Hw2) as [Hreg2 (c & Hc & Hcur) Hlast Hrep]. split; simpl; [|by exists c|done|done].
    destruct (decide (service w = service w2)) as [Heq|Hs].
    + rewrite <- Heq, lookup_insert_eq. simpl. rewrite <- Heq, Hm in Hreg2. by rewrite lookup_delete_ne.
    + by rewrite lookup_insert_ne.
  - intros svc m2 str2 ch. destruct (decide (service w = svc)) as [<-|Hs].
    + rewrite lookup_insert_eq. intros [= <-] [Hne Hch]%lookup_delete_Some.
      destruct (so_entry _ Hok _ _ _ _ Hm Hch) as (w2 & Hw2 & ? & ?). exists w2. by rewrite lookup_delete_ne.
    + rewrite lookup_insert_ne by done. intros Hm2 Hch.
      destruct (so_entry _ Hok _ _ _ _ Hm2 Hch) as (w2 & Hw2 & Hs2 & ?). exists w2.
      rewrite lookup_delete_ne; [done|]. intros ->. simplify_eq.
  - intros str1 str2 w1 w2 [_ H1]%lookup_delete_Some [_ H2]%lookup_delete_Some. by apply (so_distinct _ Hok).
  - apply (so_shutdown _ Hok).
Qed.

Lemma step_ok st st' : state_ok st -> step st st' -> state_ok st'.
Proof.
  intros Hok Hstep. destruct Hstep.
  - by eapply SetServingStatus_ok.
  - by apply Shutdown_ok.
  - by apply Resume_ok.
  - by eapply register_ok.
  - by apply receive_ok.
  - by apply done_ok.
  - by apply remove_ok.
Qed.

Lemma health_reachable_ok st : reachable st -> state_ok st.
Proof.
  induction 1 as [|st st' _ IH Hstep]; [|by eapply step_ok].
  split; simpl; intros *; by rewrite ?lookup_empty.
Qed.

(** A watching client always gets the current status.  In every reachable state
    the client either was last told the status its service has now, or that
    status waits in its channel and the next loop turn tells it; older updates
    that were never sent are gone.  And it is never told the same status twice in
    a row. *)
Theorem watch_current st str w :
  reachable st -> watchers st !! str = Some w -> ended w = false ->
  exists c, chans st !! update w = Some c /\
    default (-1)%Z (last (sent (match c with Some v => watch_receive w v true | None => w end)))
      = current (server st) (service w) /\
    no_repeats (sent w).
Proof.
  intros Hok%health_reachable_ok Hw Hend.
  destruct (so_watcher _ Hok _ _ Hw) as [_ (c & Hc & Hcur) Hlast Hrep].
  specialize (Hcur Hend). specialize (Hlast Hend). exists c. split; [done|]. split; [|done].
  destruct c as [v|]; [|congruence]. rewrite <- Hcur. unfold watch_receive.
  destruct (decide _) as [<-|]; [done|]. simpl. by rewrite last_snoc.
Qed.

(** C38: setting a status never blocks on a slow client: in every reachable state
    [SetServingStatus], [Shutdown] and [Resume] return.  Unless the server is shut
    down, the status set is what [Check] answers from then on, no other service's
    answer changes, and the slot of each client watching the service holds exactly
    the new status. *)
Theorem set_status_returns st svc v :
  reachable st ->
  is_Some (Shutdown (server st) (chans st)) /\ is_Some (Resume (server st) (chans st)) /\
  exists s' cs', SetServingStatus (server st) (chans st) svc v = Some (s', cs') /\
    (shutdown (server st) = false ->
       (forall svc', Check_status s' svc' = if decide (svc = svc') then Ok v else Check_status (server st) svc') /\
       (forall str w, watchers st !! str = Some w ->
          cs' !! update w = if decide (svc = service w) then Some (Some v) else chans st !! update w)).
Proof.
  intros Hok%health_reachable_ok. pose proof (state_ok_channels _ Hok) as Hex. split; [|split].
  - destruct (set_all_spec (go_range (statusMap (server st))).*1
      (mkHealthServer true (statusMap (server st)) (updates (server st))) _ NOT_SERVING Hex) as (? & ? & Hrun & _).
    by eexists.
  - destruct (set_all_spec (go_range (statusMap (server st))).*1
      (mkHealthServer false (statusMap (server st)) (updates (server st))) _ SERVING Hex) as (? & ? & Hrun & _).
    by eexists.
  - destruct (setServingStatusLocked_spec (server st) (chans st) svc v Hex) as (cs' & Hset & Hcs').
    unfold SetServingStatus. destruct (shutdown (server st)); [by eexists _, _|].
    eexists _, cs'. split; [exact Hset|]. intros _. split.
    + intros svc'. unfold Check_status. simpl. case_decide as Heq; [subst; by rewrite lookup_insert_eq|].
      by rewrite lookup_insert_ne.
    + intros str w Hw. rewrite Hcs'. apply decide_ext. by apply (watched_by_own _ str).
Qed.

(** After [Shutdown] every service known to the server is NOT_SERVING and no
    status can be set until [Resume], which makes every known service SERVING
    whatever it was before the shutdown; so a status from before is forgotten. *)
Theorem shutdown_until_resume st :
  reachable st -> shutdown (server st) = true ->
  (forall svc, Check_status (server st) svc = Ok NOT_SERVING \/ Check_status (server st) svc = Err "unknown service"%string) /\
  (forall svc v, SetServingStatus (server st) (chans st) svc v = Some (server st, chans st)) /\
  (exists s' cs', Resume (server st) (chans st) = Some (s', cs') /\ shutdown s' = false /\
     forall svc, Check_status s' svc =
       match statusMap (server st) !! svc with Some _ => Ok SERVING | None => Err "unknown service"%string end).
Proof.
  intros Hok%health_reachable_ok Hshut. split; [|split].
  - intros svc. unfold Check_status. destruct (statusMap (server st) !! svc) as [v|] eqn:Hv; [left|by right].
    by rewrite (so_shutdown _ Hok svc v Hshut Hv).
  - intros svc v. unfold SetServingStatus. by rewrite Hshut.
  - destruct (set_all_spec (go_range (statusMap (server st))).*1
      (mkHealthServer false (statusMap (server st)) (updates (server st))) _ SERVING (state_ok_channels _ Hok))
      as (st' & cs' & Hrun & Hst & _).
    eexists _, cs'. split; [exact Hrun|]. split; [done|]. intros svc. unfold Check_status. simpl. rewrite Hst. simpl.
    case_decide as Hin; rewrite go_range_keys in Hin.
    + by destruct Hin as [x ->].
    + destruct (statusMap (server st) !! svc); [|done]. by destruct Hin; eexists.
Qed.
End Health.

(** ** Witnesses *)
Section Demo.
#[local] Existing Instance range_in_key_order.

(** A client watches ["kv"] and takes the first status; then the service comes up
    and the server shuts down. *)
Definition after_set (st : state) (svc : string) (v : ServingStatus) : state :=
  match SetServingStatus (server st) (chans st) svc v with
  | Some (s, cs) => mkState s cs (watchers st)
  | None => st
  end.
Definition after_shutdown (st : state) : state :=
  match Shutdown (server st) (chans st) with
  | Some (s, cs) => mkState s cs (watchers st)
  | None => st
  end.
Definition health1 : state := default initial (watch_register initial "kv" 5).
Definition health2 : state :=
  let w := mkWatcher "kv" 0 (-1)%Z [] false in
  mkState (server health1) (<[0 := None]> (chans health1))
    (<[5 := watch_receive w SERVICE_UNKNOWN true]> (watchers health1)).
Definition health3 : state := after_set health2 "kv" SERVING.
Definition health4 : state := after_shutdown health3.

Lemma health3_reachable : reachable health3.
Proof.
  apply (reach_step health2).
  - apply (reach_step health1).
    + apply (reach_step initial); [constructor|]. apply (step_register initial "kv" 5); reflexivity.
    + apply (step_receive health1 5 (mkWatcher "kv" 0 (-1)%Z [] false) SERVICE_UNKNOWN true); reflexivity.
  - apply (step_set health2 "kv" SERVING). reflexivity.
Defined.

Lemma health4_reachable : reachable health4.
Proof. apply (reach_step health3); [exact health3_reachable|]. apply step_shutdown. reflexivity. Defined.

Example watch_current_witness :
  exists c, chans health3 !! 0 = Some c /\
    default (-1)%Z (last (sent (match c with
                                | Some v => watch_receive (mkWatcher "kv" 0 SERVICE_UNKNOWN [SERVICE_UNKNOWN] false) v true
                                | None => mkWatcher "kv" 0 SERVICE_UNKNOWN [SERVICE_UNKNOWN] false end))) = SERVING.
Proof.
  destruct (watch_current health3 5 (mkWatcher "kv" 0 SERVICE_UNKNOWN [SERVICE_UNKNOWN] false) health3_reachable
    eq_refl eq_refl) as (c & Hc & Hl & _).
  exists c. split; [exact Hc|exact Hl].
Defined.

Example set_status_returns_witness :
  is_Some (Shutdown (server health3) (chans health3)).
Proof. exact (proj1 (set_status_returns health3 "kv" NOT_SERVING health3_reachable)). Defined.

Example shutdown_until_resume_witness :
  Check_status (server health4) "kv" = Ok NOT_SERVING \/
  Check_status (server health4) "kv" = Err "unknown service"%string.
Proof. exact (proj1 (shutdown_until_resume health4 health4_reachable eq_refl) "kv"%string). Defined.
End Demo.
