(* ===== verification/HealthRemote.v ===== *)
(** * grpc/rpcpb/health.pb.go: a client that watches a service over grpc

    The generated stubs of the health service on both sides, and the watching client with
    the server of [Health] and the network between them as one step relation.  The network
    is grpc's: the class [WatchNet] has its calls, the messages under way and whether a
    stream still works; [WatchNetLaws] what grpc documents: a stream delivers in order what
    it accepted, until it fails.  The client's interceptor leaves streams alone here: it is
    installed with no retries ([GrpcClient]). *)
From S2P Require Import Prelude.
From S2P Require Import Health.

(** A [HealthCheckRequest] is its service, a [HealthCheckResponse] its status. *)
(* src/grpc/rpcpb/health.pb.go:90-95 HealthCheckRequest.GetService *)
Definition GetService (m : option string) : string := default ""%string m.
(* src/grpc/rpcpb/health.pb.go:30-30 HealthCheckResponse_UNKNOWN *)
Definition UNKNOWN : ServingStatus := 0%Z.
(* src/grpc/rpcpb/health.pb.go:129-134 HealthCheckResponse.GetStatus *)
Definition GetStatus (m : option ServingStatus) : ServingStatus := default UNKNOWN m.

(** ** [Check] *)
Section Check.
Context {error : Type}.

(** The server answers a decoded request; an interceptor may stand before it. *)
Definition check_answer (srv : HealthServer) (service : string) : result string ServingStatus := Check_status srv service.
(* src/grpc/rpcpb/health.pb.go:249-265 _Health_Check_Handler *)
Definition Health_Check_Handler (srv : HealthServer) (dec : result string string)
    (interceptor : option (string -> (string -> result string ServingStatus) -> string -> result string ServingStatus))
    : result string ServingStatus :=
  match dec with
  | Err err => Err err
  | Ok in_ =>
      match interceptor with
      | None => check_answer srv in_
      | Some interceptor => interceptor "/rpcpb.Health/Check"%string (check_answer srv) in_
      end
  end.

(** [cc.Invoke] with what it leaves in [out]. *)
Context {W : Type} (Invoke : string -> string -> W -> option error * W) (out : W -> ServingStatus).
(* src/grpc/rpcpb/health.pb.go:187-194 healthClient.Check *)
Definition healthClient_Check (in_ : string) (w : W) : result error ServingStatus * W :=
  let '(err, w) := Invoke "/rpcpb.Health/Check"%string in_ w in
  match err with Some err => (Err err, w) | None => (Ok (out w), w) end.
End Check.

(** ** [Watch] *)
Class WatchNet (N : Type) : Type := {
  NewStream : string -> N -> result string stream * N;
  ClientSend : stream -> string -> N -> option string * N;
  CloseSend : stream -> N -> option string * N;
  (** the handler's receive of its request, and its send *)
  ServerRecv : stream -> N -> result string string * N;
  SendMsg : stream -> ServingStatus -> N -> option string * N;
  (** [None]: nothing has come yet *)
  RecvMsg : stream -> N -> option (result string ServingStatus * N);
  (** a request and the answers on their way, and whether the stream works *)
  asked : N -> stream -> option string;
  in_flight : N -> stream -> list ServingStatus;
  up : N -> stream -> bool;
  opened : N -> gset stream
}.

Section Watch.
Context {N : Type} `{!WatchNet N} {range : GoRange}.

(* src/grpc/rpcpb/health.pb.go:196-209 healthClient.Watch *)
Definition healthClient_Watch (in_ : string) (n : N) : result string stream * N :=
  let '(r, n) := NewStream "/rpcpb.Health/Watch"%string n in
  match r with
  | Err err => (Err err, n)
  | Ok x =>
      let '(err, n) := ClientSend x in_ n in
      match err with
      | Some err => (Err err, n)
      | None =>
          let '(err, n) := CloseSend x n in
          match err with Some err => (Err err, n) | None => (Ok x, n) end
      end
  end.

(* src/grpc/rpcpb/health.pb.go:220-226 healthWatchClient.Recv *)
Definition healthWatchClient_Recv (x : stream) (n : N) : option (result string ServingStatus * N) :=
  RecvMsg x n.

(* src/grpc/rpcpb/health.pb.go:284-286 healthWatchServer.Send *)
Definition healthWatchServer_Send (x : stream) (m : ServingStatus) (n : N) : option string * N := SendMsg x m n.

(** The handler up to its loop. *)
(* src/grpc/rpcpb/health.pb.go:267-273 _Health_Watch_Handler *)
Definition Health_Watch_Handler (x : stream) (st : state) (n : N) : result string state * N :=
  let '(r, n) := ServerRecv x n in
  match r with
  | Err err => (Err err, n)
  | Ok m => (match watch_register st m x with Some st => Ok st | None => Err "blocked"%string end, n)
  end.

(** A turn of the loop of [Watch], over the stub's [Send]. *)
Definition loop_turn (x : stream) (w : watcher) (v : ServingStatus) (n : N) : watcher * N :=
  if decide (lastSentStatus w = v) then (w, n)
  else let '(err, n) := healthWatchServer_Send x v n in
       (watch_receive w v (match err with None => true | Some _ => false end), n).

(** ** The server, the network and what the clients have received *)
Record remote : Type := mkRemote { r_server : state; r_net : N; r_got : gmap stream (list ServingStatus) }.
Definition got (r : remote) (x : stream) : list ServingStatus := default [] (r_got r !! x).

(** A stream other calls do not use may fail at any time, which can lose what is under
    way, and otherwise stays as it is. *)
Record keeps (n n' : N) (x : stream) : Prop := {
  kp_up : up n' x = true -> up n x = true /\ in_flight n' x = in_flight n x;
  kp_flight : in_flight n' x `prefix_of` in_flight n x;
  kp_asked : is_Some (asked n' x) -> asked n' x = asked n x
}.

(** The loop turns and receives of the stream [x]. *)
Inductive own_step (x : stream) : remote -> remote -> Prop :=
| own_turn st n g w v w' n' :
    watchers st !! x = Some w -> ended w = false -> chans st !! update w = Some (Some v) -> loop_turn x w v n = (w', n') ->
    own_step x (mkRemote st n g)
      (mkRemote (mkState (server st) (<[update w := None]> (chans st)) (<[x := w']> (watchers st))) n' g)
| own_recv st n g v n' :
    healthWatchClient_Recv x n = Some (Ok v, n') ->
    own_step x (mkRemote st n g) (mkRemote st n' (<[x := default [] (g !! x) ++ [v]]> g)).

Inductive remote_step : remote -> remote -> Prop :=
| rs_own x r r' : own_step x r r' -> remote_step r r'
| rs_set st n g st' : step st st' -> watchers st' = watchers st -> remote_step (mkRemote st n g) (mkRemote st' n g)
| rs_watch st n g svc r n' :
    healthClient_Watch svc n = (r, n') -> remote_step (mkRemote st n g) (mkRemote st n' g)
| rs_handle st n g x r n' :
    x ∈ opened n -> Health_Watch_Handler x st n = (r, n') ->
    remote_step (mkRemote st n g) (mkRemote (match r with Ok st' => st' | Err _ => st end) n' g)
| rs_recv_err st n g x err n' :
    healthWatchClient_Recv x n = Some (Err err, n') -> remote_step (mkRemote st n g) (mkRemote st n' g)
| rs_done st n g x w :
    watchers st !! x = Some w -> ended w = false -> up n x = false ->
    remote_step (mkRemote st n g) (mkRemote (mkState (server st) (chans st) (<[x := watch_done w]> (watchers st))) n g)
| rs_remove st n g x w :
    watchers st !! x = Some w -> ended w = true ->
    remote_step (mkRemote st n g) (mkRemote (mkState (watch_remove (server st) (service w) x) (chans st) (delete x (watchers st))) n g)
| rs_net st n g n' :
    (forall x, keeps n n' x) -> opened n' = opened n -> remote_step (mkRemote st n g) (mkRemote st n' g).

Inductive remote_reachable (n0 : N) : remote -> Prop :=
| rr_init : (forall x, in_flight n0 x = [] /\ asked n0 x = None) -> remote_reachable n0 (mkRemote initial n0 ∅)
| rr_step r r' : remote_reachable n0 r -> remote_step r r' -> remote_reachable n0 r'.

(** What grpc documents.  A call on a stream keeps the others. *)
Class WatchNetLaws : Prop := {
  NewStream_law path n r n' : NewStream path n = (r, n') ->
    (forall y, r <> Ok y -> keeps n n' y) /\
    match r with
    | Ok x => (x ∉ opened n) /\ opened n' = {[x]} ∪ opened n /\ in_flight n' x = [] /\ asked n' x = None
    | Err _ => opened n' = opened n
    end;
  ClientSend_law x svc n err n' : ClientSend x svc n = (err, n') ->
    opened n' = opened n /\ (forall y, y <> x -> keeps n n' y) /\ in_flight n' x `prefix_of` in_flight n x;
  CloseSend_law x n err n' : CloseSend x n = (err, n') -> opened n' = opened n /\ forall y, keeps n n' y;
  ServerRecv_law x n r n' : ServerRecv x n = (r, n') ->
    opened n' = opened n /\ (forall y, keeps n n' y) /\
    forall svc, r = Ok svc -> asked n x = Some svc /\ asked n' x = None;
  SendMsg_law x v n err n' : SendMsg x v n = (err, n') ->
    opened n' = opened n /\ (forall y, y <> x -> keeps n n' y) /\ (is_Some (asked n' x) -> asked n' x = asked n x) /\
    match err with
    | None => up n x = true /\ up n' x = true /\ in_flight n' x = in_flight n x ++ [v]
    | Some _ => up n' x = false /\ in_flight n' x `prefix_of` in_flight n x
    end;
  SendMsg_up x v n : up n x = true -> exists n', SendMsg x v n = (None, n');
  RecvMsg_law x n r n' : RecvMsg x n = Some (r, n') ->
    opened n' = opened n /\ (forall y, y <> x -> keeps n n' y) /\ (is_Some (asked n' x) -> asked n' x = asked n x) /\
    match r with
    | Ok v => in_flight n x = v :: in_flight n' x /\ (up n' x = true -> up n x = true)
    | Err _ => keeps n n' x
    end;
  RecvMsg_up x n v l : up n x = true -> in_flight n x = v :: l -> exists n', RecvMsg x n = Some (Ok v, n') /\ up n' x = true
}.
Context {laws : WatchNetLaws}.
#[local] Set Default Proof Using "Type laws range".

(** ** The invariant *)

(** What a client has received and will is what was sent, as long as its stream works,
    and the first part of it otherwise. *)
Record stream_ok (r : remote) (x : stream) : Prop := {
  sk_sent w : watchers (r_server r) !! x = Some w ->
    (got r x ++ in_flight (r_net r) x) `prefix_of` sent w /\
    (up (r_net r) x = true -> got r x ++ in_flight (r_net r) x = sent w);
  sk_repeats : no_repeats (got r x ++ in_flight (r_net r) x);
  sk_asked : is_Some (asked (r_net r) x) ->
    watchers (r_server r) !! x = None /\ got r x = [] /\ in_flight (r_net r) x = [];
  sk_fresh : x ∉ opened (r_net r) ->
    watchers (r_server r) !! x = None /\ got r x = [] /\ in_flight (r_net r) x = []
}.
Record remote_ok (r : remote) : Prop := {
  ro_health : state_ok (r_server r);
  ro_streams x : stream_ok r x
}.

Lemma no_repeats_prefix l k : l `prefix_of` k -> no_repeats k -> no_repeats l.
Proof using Type.
  intros [l' ->]. induction l as [|a l IH]; [done|]. destruct l as [|b l]; [done|].
  simpl in *. intros [? ?]. split; [done|by apply IH].
Qed.
Lemma prefix_of_nil (l : list ServingStatus) : l `prefix_of` [] -> l = [].
Proof using Type. intros [k Hk]. by destruct l. Qed.

(** A stream the step kept, with the same watcher and nothing received. *)
Lemma stream_kept r r' x :
  keeps (r_net r) (r_net r') x -> (x ∉ opened (r_net r') -> x ∉ opened (r_net r)) ->
  watchers (r_server r') !! x = watchers (r_server r) !! x -> got r' x = got r x -> stream_ok r x -> stream_ok r' x.
Proof using Type.
  intros [Hu Hf Ha] Ho Hw Hg [Hs Hr Has Hfr]. split; rewrite ?Hw, ?Hg.
  - intros w Hx. destruct (Hs w Hx) as [Hp He]. split.
    + etrans; [by apply prefix_app|done].
    + intros Hup. destruct (Hu Hup) as [Hup' ->]. by apply He.
  - eapply no_repeats_prefix; [by apply prefix_app|done].
  - intros Hask. pose proof (Ha Hask) as Heq. rewrite Heq in Hask. destruct (Has Hask) as (Hn & Hg' & Hf').
    rewrite Hf' in Hf. by apply prefix_of_nil in Hf.
  - intros Hx. destruct (Hfr (Ho Hx)) as (Hn & Hg' & Hf'). rewrite Hf' in Hf. by apply prefix_of_nil in Hf.
Qed.

Lemma net_keeps_refl n x : keeps n n x.
Proof using Type. by split. Qed.
Lemma net_keeps_trans n1 n2 n3 x : keeps n1 n2 x -> keeps n2 n3 x -> keeps n1 n3 x.
Proof using Type.
  intros [Hu1 Hf1 Ha1] [Hu2 Hf2 Ha2]. split.
  - intros Hu. destruct (Hu2 Hu) as [Hu' ->]. by apply Hu1.
  - by etrans.
  - intros Ha. pose proof (Ha2 Ha) as He. rewrite He in *. by apply Ha1.
Qed.

(** What the stubs do to the network. *)
Lemma Watch_effect svc n r n' :
  healthClient_Watch svc n = (r, n') ->
  (opened n' = opened n /\ forall y, keeps n n' y) \/
  exists x, (x ∉ opened n) /\ opened n' = {[x]} ∪ opened n /\ in_flight n' x = [] /\ forall y, y <> x -> keeps n n' y.
Proof.
  unfold healthClient_Watch. destruct (NewStream _ n) as [r1 n1] eqn:Hn. apply NewStream_law in Hn as [Hk Hn].
  destruct r1 as [x|err]; [|intros [= <- <-]; left; split; [done|intros y; by apply Hk]].
  destruct Hn as (Hx & Ho & Hf & _). intros Hrest. right. exists x. split; [done|].
  assert (Hk1 : forall y, y <> x -> keeps n n1 y) by (intros y Hy; apply Hk; congruence). clear Hk.
  destruct (ClientSend x svc n1) as [err n2] eqn:Hs. apply ClientSend_law in Hs as (Ho2 & Hk2 & Hf2). rewrite Hf in Hf2.
  apply prefix_of_nil in Hf2. assert (Hk12 : forall y, y <> x -> keeps n n2 y).
  { intros y Hy. eapply net_keeps_trans; [by apply Hk1|by apply Hk2]. }
  destruct err as [err|]; [injection Hrest as <- <-; by rewrite Ho2|].
  destruct (CloseSend x n2) as [err n3] eqn:Hc. apply CloseSend_law in Hc as (Ho3 & Hk3).
  pose proof (kp_flight _ _ _ (Hk3 x)) as Hf3. rewrite Hf2 in Hf3. apply prefix_of_nil in Hf3.
  assert (n' = n3) as -> by (destruct err; congruence). rewrite Ho3, Ho2, Ho. split; [done|]. split; [done|].
  intros y Hy. eapply net_keeps_trans; [by apply Hk12|by apply Hk3].
Qed.

Lemma watch_ok st n g svc r n' :
  healthClient_Watch svc n = (r, n') -> remote_ok (mkRemote st n g) -> remote_ok (mkRemote st n' g).
Proof.
  intros Hw [Hh Hs]. split; [done|]. intros y. apply Watch_effect in Hw as [[Ho Hk]|(x & Hx & Ho & Hf & Hk)].
  - apply (stream_kept (mkRemote st n g)); [apply Hk|simpl; by rewrite Ho|done|done|apply Hs].
  - destruct (decide (y = x)) as [->|Hy].
    + destruct (sk_fresh _ _ (Hs x) Hx) as (Hn & Hg & _). split; simpl in *; rewrite ?Hn, ?Hf.
      * done.
      * change (no_repeats (got (mkRemote st n g) x ++ [])). by rewrite Hg.
      * done.
      * rewrite Ho, elem_of_union, elem_of_singleton. tauto.
    + apply (stream_kept (mkRemote st n g)); [by apply Hk|simpl; rewrite Ho, elem_of_union; tauto|done|done|apply Hs].
Qed.

Lemma watch_register_watchers st svc x st' :
  watch_register st svc x = Some st' ->
  exists ch, watchers st' = <[x := mkWatcher svc ch (-1)%Z [] false]> (watchers st).
Proof using Type. unfold watch_register. simpl. intros [= <-]. by eexists. Qed.

Lemma handle_ok st n g x r n' :
  x ∈ opened n -> Health_Watch_Handler x st n = (r, n') -> remote_ok (mkRemote st n g) ->
  remote_ok (mkRemote (match r with Ok st' => st' | Err _ => st end) n' g).
Proof.
  intros Hx Hr [Hh Hs]. unfold Health_Watch_Handler in Hr. destruct (ServerRecv x n) as [m n1] eqn:Hm.
  apply ServerRecv_law in Hm as (Ho & Hk & Hm).
  assert (Hsame : remote_ok (mkRemote st n1 g)).
  { split; [done|]. intros y. apply (stream_kept (mkRemote st n g)); [apply Hk|simpl; by rewrite Ho|done|done|apply Hs]. }
  destruct m as [svc|err]; [|by injection Hr as <- <-]. destruct (Hm svc eq_refl) as [Ha Ha']. clear Hm.
  destruct (watch_register st svc x) as [st'|] eqn:Hw; injection Hr as <- <-; [|done].
  destruct (sk_asked _ _ (Hs x)) as (Hn & Hg & Hf); [by eexists|]. cbn [r_server r_net] in *.
  pose proof (register_ok _ _ _ _ Hh Hn Hw) as Hok. destruct (watch_register_watchers _ _ _ _ Hw) as [ch Hch].
  split; [done|]. intros y. destruct (decide (y = x)) as [->|Hy].
  - pose proof (kp_flight _ _ _ (Hk x)) as Hf'. rewrite Hf in Hf'. apply prefix_of_nil in Hf'. split; simpl.
    + intros w. rewrite Hch, lookup_insert_eq. intros [= <-]. simpl. unfold got in Hg |- *. simpl in *. by rewrite Hg, Hf'.
    + unfold got in Hg |- *. simpl in *. by rewrite Hg, Hf'.
    + rewrite Ha'. by intros [].
    + by rewrite Ho.
  - apply (stream_kept (mkRemote st n g)); [apply Hk|simpl; by rewrite Ho| |done|apply Hs]. simpl. by rewrite Hch, lookup_insert_ne.
Qed.

(** A turn changes its own stream. *)
Lemma turn_ok st n g x w v w' n' :
  watchers st !! x = Some w -> ended w = false -> chans st !! update w = Some (Some v) -> loop_turn x w v n = (w', n') ->
  remote_ok (mkRemote st n g) ->
  remote_ok (mkRemote (mkState (server st) (<[update w := None]> (chans st)) (<[x := w']> (watchers st))) n' g).
Proof.
  intros Hw He Hv Ht [Hh Hs]. unfold loop_turn, healthWatchServer_Send in Ht. cbn [r_server] in Hh.
  destruct (decide (lastSentStatus w = v)) as [Hl|Hl].
  - injection Ht as <- <-. split.
    + pose proof (receive_ok st x w v true Hh Hw He Hv) as Hr. unfold watch_receive in Hr. by rewrite decide_True in Hr.
    + intros y. apply (stream_kept (mkRemote st n g)); [apply net_keeps_refl|done| |done|apply Hs]. simpl.
      destruct (decide (y = x)) as [->|]; [by rewrite lookup_insert_eq|by rewrite lookup_insert_ne].
  - destruct (SendMsg x v n) as [err n1] eqn:Hm. injection Ht as <- <-. apply SendMsg_law in Hm as (Ho & Hk & Ha & Hm).
    pose proof (receive_ok st x w v (match err with None => true | Some _ => false end) Hh Hw He Hv) as Hr. split; [exact Hr|].
    intros y. destruct (decide (y = x)) as [->|Hy].
    2: { apply (stream_kept (mkRemote st n g)); [by apply Hk|simpl; by rewrite Ho| |done|apply Hs]. simpl. by rewrite lookup_insert_ne. }
    destruct (Hs x) as [Hsent Hrep Hasked Hfresh]. cbn [r_server r_net] in *. destruct (Hsent w Hw) as [Hp Hup].
    assert (Hna : ~ is_Some (asked n1 x)) by (intros Hi; rewrite (Ha Hi) in Hi; destruct (Hasked Hi) as [Hn _]; congruence).
    assert (Hnew : exists w', watchers (mkState (server st) (<[update w := None]> (chans st)) (<[x := watch_receive w v
        match err with None => true | Some _ => false end]> (watchers st))) !! x = Some w' /\
        sent w' = sent w ++ (match err with None => [v] | Some _ => [] end)).
    { eexists. split; [apply lookup_insert_eq|]. unfold watch_receive. rewrite decide_False by done. destruct err; simpl; [by rewrite app_nil_r|done]. }
    destruct Hnew as (w' & Hw' & Hse). pose proof (wo_repeats _ _ _ (so_watcher _ Hr x w' Hw')) as Hrep'. unfold got in *. cbn [r_got] in *.
    destruct err as [err|].
    + destruct Hm as [Hdown Hf]. rewrite app_nil_r in Hse. split; cbn [r_server r_net]; unfold got; cbn [r_got].
      * intros w2. rewrite Hw'. intros [= <-]. rewrite Hse. split; [etrans; [by apply prefix_app|done]|congruence].
      * eapply no_repeats_prefix; [by apply prefix_app|done].
      * done.
      * rewrite Ho. intros Hx. destruct (Hfresh Hx). congruence.
    + destruct Hm as (Hup1 & Hup2 & Hf). specialize (Hup Hup1). split; cbn [r_server r_net]; unfold got; cbn [r_got];
        rewrite ?Hf, ?app_assoc, ?Hup.
      * intros w2. rewrite Hw'. intros [= <-]. by rewrite Hse.
      * by rewrite <- Hse.
      * done.
      * rewrite Ho. intros Hx. destruct (Hfresh Hx). congruence.
Qed.

Lemma recv_ok st n g x v n' :
  healthWatchClient_Recv x n = Some (Ok v, n') -> remote_ok (mkRemote st n g) ->
  remote_ok (mkRemote st n' (<[x := default [] (g !! x) ++ [v]]> g)).
Proof.
  intros Hr [Hh Hs]. apply RecvMsg_law in Hr as (Ho & Hk & Ha & Hf & Hu). split; [done|]. intros y.
  destruct (decide (y = x)) as [->|Hy].
  - assert (Heq : got (mkRemote st n' (<[x := default [] (g !! x) ++ [v]]> g)) x ++ in_flight n' x = got (mkRemote st n g) x ++ in_flight n x).
    { unfold got. simpl. rewrite lookup_insert_eq. simpl. by rewrite Hf, <- app_assoc. }
    destruct (Hs x) as [Hsent Hrep Hasked Hfresh]. cbn [r_server r_net] in *. split; cbn [r_server r_net]; rewrite ?Heq; [|done|..].
    + intros w Hw. destruct (Hsent w Hw) as [? Hup]. split; [done|]. intros. by apply Hup, Hu.
    + intros Hi. rewrite (Ha Hi) in Hi. destruct (Hasked Hi) as (_ & _ & Hnil). by rewrite Hnil in Hf.
    + rewrite Ho. intros Hx. destruct (Hfresh Hx) as (_ & _ & Hnil). by rewrite Hnil in Hf.
  - apply (stream_kept (mkRemote st n g)); [by apply Hk|simpl; by rewrite Ho|done| |apply Hs]. unfold got. simpl. by rewrite lookup_insert_ne.
Qed.

(** The steps after which a watcher has the same locals but for [ended], or is gone. *)
Lemma server_ok st st' n g :
  state_ok st' ->
  (forall x w', watchers st' !! x = Some w' -> exists w, watchers st !! x = Some w /\ sent w = sent w') ->
  remote_ok (mkRemote st n g) -> remote_ok (mkRemote st' n g).
Proof using Type.
  intros Hst Hw [Hh Hs]. split; [done|]. intros x. destruct (Hs x) as [Hsent Hrep Hasked Hfresh].
  assert (Hnone : watchers st !! x = None -> watchers st' !! x = None).
  { intros Hn. destruct (watchers st' !! x) as [w'|] eqn:Hx; [|done]. destruct (Hw x w' Hx) as (w & Hx' & _). congruence. }
  split; cbn [r_server r_net] in *.
  - intros w' Hx. destruct (Hw x w' Hx) as (w & Hx' & <-). by apply Hsent.
  - done.
  - intros Ha. destruct (Hasked Ha) as (Hn & ? & ?). by split; [apply Hnone|].
  - intros Hx. destruct (Hfresh Hx) as (Hn & ? & ?). by split; [apply Hnone|].
Qed.

Lemma net_ok st n n' g :
  (forall x, keeps n n' x) -> opened n' = opened n -> remote_ok (mkRemote st n g) -> remote_ok (mkRemote st n' g).
Proof using Type.
  intros Hk Ho [Hh Hs]. split; [done|]. intros x. apply (stream_kept (mkRemote st n g)); [apply Hk|simpl; by rewrite Ho|done|done|apply Hs].
Qed.

Lemma remote_step_ok r r' : remote_step r r' -> remote_ok r -> remote_ok r'.
Proof.
  destruct 1 as [x r r' [st n g w v w' n' Hw He Hv Ht|st n g v n' Hr]|st n g st' Hs Hw|st n g svc r n' Hw|st n g x r n' Hx Hr
    |st n g x err n' Hr|st n g x w Hw He Hu|st n g x w Hw He|st n g n' Hk Ho]; intros Hok; pose proof (ro_health _ Hok) as Hh;
    cbn [r_server] in Hh.
  - by eapply turn_ok.
  - by eapply recv_ok.
  - eapply server_ok; [by eapply step_ok| |exact Hok]. rewrite Hw. intros x w Hx. by exists w.
  - by eapply watch_ok.
  - by eapply handle_ok.
  - apply RecvMsg_law in Hr as (Ho & Hk & _ & Hx). eapply net_ok; [|exact Ho|exact Hok]. intros y.
    destruct (decide (y = x)) as [->|Hy]; [done|by apply Hk].
  - eapply server_ok; [by apply done_ok| |exact Hok]. simpl. intros y w'. destruct (decide (y = x)) as [->|Hy].
    + rewrite lookup_insert_eq. intros [= <-]. by exists w.
    + rewrite lookup_insert_ne by done. intros Hy'. by exists w'.
  - eapply server_ok; [by apply remove_ok| |exact Hok]. simpl. intros y w' [_ Hy]%lookup_delete_Some. by exists w'.
  - by eapply net_ok.
Qed.

Lemma remote_reachable_ok n0 r : remote_reachable n0 r -> remote_ok r.
Proof.
  induction 1 as [Hn|r r' _ IH Hs]; [|by eapply remote_step_ok]. split.
  - apply health_reachable_ok. constructor.
  - intros x. destruct (Hn x) as [Hf Ha]. split; simpl; unfold got; simpl; rewrite ?lookup_empty, ?Hf, ?Ha; done.
Qed.

Lemma own_steps_ok x r r' : rtc (own_step x) r r' -> remote_ok r -> remote_ok r'.
Proof. induction 1 as [r|r r1 r2 Hs _ IH]; [done|]. intros Hr. apply IH. eapply remote_step_ok; [by eapply rs_own|done]. Qed.

(** What is under way arrives. *)
Lemma flight_arrives x l st n g :
  up n x = true -> in_flight n x = l ->
  exists n' g', rtc (own_step x) (mkRemote st n g) (mkRemote st n' g') /\
    got (mkRemote st n' g') x = got (mkRemote st n g) x ++ l.
Proof.
  revert n g. induction l as [|v l IH]; intros n g Hu Hf.
  { exists n, g. split; [done|]. by rewrite app_nil_r. }
  destruct (RecvMsg_up x n v l Hu Hf) as (n1 & Hr & Hu1). pose proof Hr as (_ & _ & _ & Hf1 & _)%RecvMsg_law.
  rewrite Hf in Hf1. injection Hf1 as Hf1.
  destruct (IH n1 (<[x := default [] (g !! x) ++ [v]]> g) Hu1 (eq_sym Hf1)) as (n2 & g2 & Hs & Hg).
  exists n2, g2. split; [eapply rtc_l; [by apply own_recv|exact Hs]|]. rewrite Hg. unfold got. simpl.
  rewrite lookup_insert_eq. simpl. by rewrite <- app_assoc.
Qed.

(** One turn at most, after which what was sent ends in the current status. *)
Lemma turn_current st n g x w :
  remote_ok (mkRemote st n g) -> watchers st !! x = Some w -> ended w = false -> up n x = true ->
  exists st' n' w', rtc (own_step x) (mkRemote st n g) (mkRemote st' n' g) /\ server st' = server st /\
    up n' x = true /\ watchers st' !! x = Some w' /\ default (-1)%Z (last (sent w')) = current (server st) (service w).
Proof.
  intros [Hh _] Hw He Hu. cbn [r_server] in Hh. destruct (so_watcher _ Hh _ _ Hw) as [_ (c & Hc & Hcur) Hlast _].
  specialize (Hcur He). specialize (Hlast He). destruct c as [v|].
  2: { exists st, n, w. repeat split; [apply rtc_refl|done|done|congruence]. }
  destruct (decide (lastSentStatus w = v)) as [Hl|Hl].
  - eexists _, n, w. split; [apply rtc_once, (own_turn x st n g w v w n); [done..|]; unfold loop_turn; by rewrite decide_True|].
    simpl. rewrite lookup_insert_eq. repeat split; [done|congruence].
  - destruct (SendMsg_up x v n Hu) as [n1 Hs]. pose proof Hs as (_ & _ & _ & _ & Hu1 & _)%SendMsg_law.
    eexists _, n1, (watch_receive w v true). split.
    { apply rtc_once, (own_turn x st n g w v); [done..|]. unfold loop_turn, healthWatchServer_Send. by rewrite decide_False, Hs. }
    simpl. rewrite lookup_insert_eq. split; [done|]. split; [done|]. split; [done|].
    unfold watch_receive. rewrite decide_False by done. simpl. by rewrite last_snoc.
Qed.

(** C3: a client that watches a service over grpc learns its status.  Whatever sets
    statuses, opens, fails or ends streams, and whatever other clients do, a client never
    receives the same status twice in a row, and what it has received is the beginning
    of what the server sent it.  As long as its stream works and nothing else happens, the
    turns of the server's loop and the client's receives bring it, in the end, to the
    status that [Check] answers for its service, or to SERVICE_UNKNOWN if [Check] knows
    none: every status set reaches it or is overtaken by a later one. *)
Theorem watch_over_wire n0 r :
  remote_reachable n0 r ->
  (forall x, no_repeats (got r x)) /\
  forall x w, watchers (r_server r) !! x = Some w ->
    got r x `prefix_of` sent w /\
    (ended w = false -> up (r_net r) x = true ->
     exists r', rtc (own_step x) r r' /\ server (r_server r') = server (r_server r) /\
       default (-1)%Z (last (got r' x)) =
         match Health_Check_Handler (server (r_server r)) (Ok (service w)) None with
         | Ok v => v | Err _ => SERVICE_UNKNOWN
         end).
Proof.
  intros Hr%remote_reachable_ok. split.
  { intros x. eapply no_repeats_prefix; [|exact (sk_repeats _ _ (ro_streams _ Hr x))]. by eexists. }
  intros x w Hw. destruct (sk_sent _ _ (ro_streams _ Hr x) w Hw) as [Hp _]. split.
  { etrans; [|exact Hp]. by eexists. }
  intros He Hu. destruct r as [st n g]. cbn [r_server r_net] in *.
  destruct (turn_current _ _ _ _ _ Hr Hw He Hu) as (st1 & n1 & w1 & Hs1 & Hsrv & Hu1 & Hw1 & Hcur).
  pose proof (own_steps_ok _ _ _ Hs1 Hr) as Hr1.
  destruct (flight_arrives x _ st1 n1 g Hu1 eq_refl) as (n2 & g2 & Hs2 & Hg).
  exists (mkRemote st1 n2 g2). split; [by etrans|]. split; [exact Hsrv|]. rewrite Hg.
  pose proof (proj2 (sk_sent _ _ (ro_streams _ Hr1 x) w1 Hw1) Hu1) as Hall. cbn [r_net] in Hall. rewrite Hall, Hcur. unfold Health_Check_Handler, check_answer, Check_status, current.
  by destruct (statusMap (server st) !! service w).
Qed.
End Watch.

(** ** A run: a network of queues *)
Section Demo.
#[local] Existing Instance range_in_key_order.

(** The streams opened, the requests and the answers under way; none fails. *)
Record queues : Type := mkQueues { q_opened : nat; q_asked : gmap stream string; q_answers : gmap stream (list ServingStatus) }.
Definition answers (n : queues) (x : stream) : list ServingStatus := default [] (q_answers n !! x).

#[local] Instance queue_net : WatchNet queues := {|
  NewStream _ n := (Ok (q_opened n), mkQueues (S (q_opened n)) (delete (q_opened n) (q_asked n)) (delete (q_opened n) (q_answers n)));
  ClientSend x svc n := (None, mkQueues (q_opened n) (<[x := svc]> (q_asked n)) (q_answers n));
  CloseSend x n := (None, n);
  ServerRecv x n :=
    match q_asked n !! x with
    | Some svc => (Ok svc, mkQueues (q_opened n) (delete x (q_asked n)) (q_answers n))
    | None => (Err "no request"%string, n)
    end;
  SendMsg x v n := (None, mkQueues (q_opened n) (q_asked n) (<[x := answers n x ++ [v]]> (q_answers n)));
  RecvMsg x n :=
    match answers n x with
    | v :: l => Some (Ok v, mkQueues (q_opened n) (q_asked n) (<[x := l]> (q_answers n)))
    | [] => None
    end;
  asked n x := q_asked n !! x;
  in_flight := answers;
  up n x := true;
  opened n := list_to_set (seq 0 (q_opened n))
|}.

Lemma queue_keeps n n' x :
  (q_asked n' !! x = q_asked n !! x \/ q_asked n' !! x = None) -> answers n' x = answers n x -> keeps n n' x.
Proof. intros Ha Hf. split; simpl; [done|by rewrite Hf|]. by destruct Ha as [->| ->]; [|intros []]. Qed.

Lemma seq_opened k : (list_to_set (seq 0 (S k)) : gset stream) = {[k]} ∪ list_to_set (seq 0 k).
Proof. rewrite seq_S, list_to_set_app_L. simpl. by rewrite (right_id_L ∅ (∪)), (comm_L (∪)). Qed.

#[local] Instance queue_laws : WatchNetLaws (N := queues).
Proof.
  split.
  - intros path n r n' [= <- <-]. split.
    + intros y Hy. assert (q_opened n <> y) by congruence. apply queue_keeps; simpl; [left; by rewrite lookup_delete_ne|].
      unfold answers. simpl. by rewrite lookup_delete_ne.
    + split; [simpl; rewrite elem_of_list_to_set, elem_of_seq; lia|]. split; [apply seq_opened|].
      simpl. unfold answers. simpl. by rewrite !lookup_delete_eq.
  - intros x svc n err n' [= <- <-]. split; [done|]. split; [|done]. intros y Hy. apply queue_keeps; [|done].
    left. simpl. by rewrite lookup_insert_ne.
  - intros x n err n' [= <- <-]. split; [done|]. intros y. by apply queue_keeps; [left|].
  - intros x n r n'. simpl. destruct (q_asked n !! x) as [svc|] eqn:Hx; intros [= <- <-].
    + split; [done|]. split; [|intros svc' [= <-]; simpl; by rewrite lookup_delete_eq]. intros y. apply queue_keeps; [|done].
      simpl. destruct (decide (y = x)) as [->|]; [right; by rewrite lookup_delete_eq|left; by rewrite lookup_delete_ne].
    + split; [done|]. split; [|done]. intros y. by apply queue_keeps; [left|].
  - intros x v n err n' [= <- <-]. split; [done|]. split; [|split; [done|]].
    + intros y Hy. apply queue_keeps; [by left|]. unfold answers. simpl. by rewrite lookup_insert_ne.
    + split; [done|]. split; [done|]. simpl. unfold answers at 1. simpl. by rewrite lookup_insert_eq.
  - intros x v n _. by eexists.
  - intros x n r n'. simpl. destruct (answers n x) as [|v l] eqn:Hl; [done|]. intros [= <- <-]. split; [done|].
    split; [|split; [done|]].
    + intros y Hy. apply queue_keeps; [by left|]. unfold answers. simpl. by rewrite lookup_insert_ne.
    + simpl. split; [|done]. unfold answers at 1. simpl. by rewrite lookup_insert_eq.
  - intros x n v l _. simpl. intros ->. by eexists.
Qed.

(** A client asks for ["kv"], the server registers it, tells it that the service is not
    known, and then the service comes up. *)
Definition net0 : queues := mkQueues 0 ∅ ∅.
Definition net1 : queues := snd (healthClient_Watch "kv" net0).
Definition net2 : queues := snd (Health_Watch_Handler 0 initial net1).
Definition watched : state := default initial (watch_register initial "kv" 0).
Definition told_watcher : watcher := mkWatcher "kv" 0 SERVICE_UNKNOWN [SERVICE_UNKNOWN] false.
Definition net3 : queues := snd (healthWatchServer_Send 0 SERVICE_UNKNOWN net2).
Definition told : state := mkState (server watched) (<[0 := None]> (chans watched)) (<[0 := told_watcher]> (watchers watched)).
Definition serving : state := after_set told "kv" SERVING.

Lemma serving_reachable : remote_reachable net0 (mkRemote serving net3 ∅).
Proof.
  apply (rr_step _ (mkRemote told net3 ∅)).
  - apply (rr_step _ (mkRemote watched net2 ∅)).
    + apply (rr_step _ (mkRemote initial net1 ∅)).
      * apply (rr_step _ (mkRemote initial net0 ∅)); [by apply rr_init|]. by eapply rs_watch.
      * apply (rs_handle initial net1 ∅ 0 (Ok watched) net2); [vm_compute; tauto|reflexivity].
    + apply (rs_own 0), (own_turn 0 watched net2 ∅ (mkWatcher "kv" 0 (-1)%Z [] false) SERVICE_UNKNOWN); reflexivity.
  - apply rs_set; [|reflexivity]. apply (step_set told "kv" SERVING). reflexivity.
Qed.

Example watch_over_wire_witness :
  exists r, rtc (own_step 0) (mkRemote serving net3 ∅) r /\ default (-1)%Z (last (got r 0)) = SERVING.
Proof.
  destruct (proj2 (watch_over_wire net0 _ serving_reachable) 0 told_watcher) as [_ Hr]; [reflexivity|].
  destruct (Hr eq_refl eq_refl) as (r & Hs & _ & Hl). exists r. split; [exact Hs|exact Hl].
Defined.
End Demo.
