(* ===== verification/Store.v ===== *)
(** * rocksdbstore/store.go: the key-value store

    [RocksdbStore] wraps a RocksDB handle.  RocksDB is third-party: the class
    [RocksDB] has the operations the code calls, and [RocksDBLaws] the documented
    behaviour the theorems use, stated on [contents], the pairs a database holds.
    Byte slices are strings of 8-bit characters.  The handle is nil after [Close],
    and a call through a nil handle panics. *)
From S2P Require Import Prelude.
From Stdlib Require Import Ascii.

(** ** strconv.ParseUint, base 10 and 64 bits *)
Inductive num_error : Type := ErrSyntax | ErrRange.

#[global] Instance num_error_eq_dec : EqDecision num_error.
Proof. solve_decision. Defined.

Definition digit (c : ascii) : option Z :=
  let n := Z.of_nat (nat_of_ascii c) in
  if decide (48 <= n <= 57)%Z then Some (n - 48)%Z else None.

Definition maxUint64 : Z := (2 ^ 64 - 1)%Z.
Definition cutoff : Z := (maxUint64 `div` 10 + 1)%Z.

(** The loop over the bytes, with the 64-bit arithmetic that detects overflow. *)
Fixpoint parse_digits (s : string) (n : Z) : Z * option num_error :=
  match s with
  | EmptyString => (n, None)
  | String c s =>
      match digit c with
      | None => (0%Z, Some ErrSyntax)
      | Some d =>
          if decide (cutoff <= n)%Z then (maxUint64, Some ErrRange)
          else
            let n := u64 (n * 10) in
            let n1 := u64 (n + d) in
            if decide (n1 < n)%Z then (maxUint64, Some ErrRange) else parse_digits s n1
      end
  end.

Definition ParseUint (s : string) : Z * option num_error :=
  match s with EmptyString => (0%Z, Some ErrSyntax) | _ => parse_digits s 0 end.

(** The number a string of digits denotes. *)
Fixpoint decimal (s : string) (n : Z) : option Z :=
  match s with
  | EmptyString => Some n
  | String c s => match digit c with None => None | Some d => decimal s (n * 10 + d)%Z end
  end.

Lemma digit_range c d : digit c = Some d -> (0 <= d <= 9)%Z.
Proof. unfold digit. case_decide; [intros [= <-]; lia|done]. Qed.

Lemma decimal_ge s n v : (0 <= n)%Z -> decimal s n = Some v -> (n <= v)%Z.
Proof.
  revert n. induction s as [|c s IH]; intros n Hn; simpl; [intros [= <-]; lia|].
  destruct (digit c) as [d|] eqn:Hd; [|done]. apply digit_range in Hd. intros Hv.
  apply IH in Hv; lia.
Qed.

Lemma parse_digits_decimal s n :
  (0 <= n < 2 ^ 64)%Z ->
  match decimal s n with
  | Some v => parse_digits s n = if decide (v < 2 ^ 64)%Z then (v, None) else (maxUint64, Some ErrRange)
  | None => snd (parse_digits s n) <> None
  end.
Proof.
  revert n. induction s as [|c s IH]; intros n Hn; simpl.
  { by rewrite decide_True by lia. }
  destruct (digit c) as [d|] eqn:Hd; [|done]. apply digit_range in Hd.
  assert (Hcut : cutoff = 1844674407370955162%Z) by reflexivity.
  destruct (decide (cutoff <= n)%Z) as [Hc|Hc].
  - destruct (decimal s (n * 10 + d)) as [v|] eqn:Hv; [|done].
    apply decimal_ge in Hv; [|lia]. rewrite decide_False by lia. done.
  - rewrite (u64_small (n * 10)) by lia. unfold u64. destruct (decide (n * 10 + d < 2 ^ 64)%Z) as [Hlt|Hge].
    + rewrite Z.mod_small by lia. rewrite decide_False by lia. apply IH. lia.
    + assert (Hw : ((n * 10 + d) `mod` 2 ^ 64 = n * 10 + d - 2 ^ 64)%Z).
      { symmetry. apply Z.mod_unique with 1%Z; lia. }
      rewrite Hw, decide_True by lia. destruct (decimal s (n * 10 + d)) as [v|] eqn:Hv; [|done].
      apply decimal_ge in Hv; [|lia]. by rewrite decide_False by lia.
Qed.

(** ** RocksDB *)
Class RocksDB (DB WriteBatch : Type) : Type := {
  (** the slice's data, empty when the key is absent *)
  db_Get : DB -> string -> result string string;
  db_Put : DB -> string -> string -> DB * option string;
  db_Write : DB -> WriteBatch -> DB * option string;
  NewWriteBatch : WriteBatch;
  wb_Put : WriteBatch -> string -> string -> WriteBatch
}.

Class RocksDBLaws (DB WriteBatch : Type) `{!RocksDB DB WriteBatch} : Type := {
  contents : DB -> gmap string string;
  wb_puts : WriteBatch -> list (string * string);
  db_Get_Ok d k v : db_Get d k = Ok v -> v = default ""%string (contents d !! k);
  db_Put_ok d k v d' : db_Put d k v = (d', None) -> contents d' = <[k := v]> (contents d);
  db_Put_err d k v d' e : db_Put d k v = (d', Some e) -> contents d' = contents d;
  wb_puts_new : wb_puts NewWriteBatch = [];
  wb_puts_Put wb k v : wb_puts (wb_Put wb k v) = wb_puts wb ++ [(k, v)];
  db_Write_ok d wb d' : db_Write d wb = (d', None) ->
    contents d' = foldl (fun m p => <[p.1 := p.2]> m) (contents d) (wb_puts wb);
  db_Write_err d wb d' e : db_Write d wb = (d', Some e) -> contents d' = contents d
}.

Section Store.
Context {DB Batch : Type} `{!RocksDB DB Batch}.

(** The handle and whether [Close] was called; the option objects are in [StoreHandles]. *)
(* src/rocksdbstore/store.go:11-18 RocksdbStore *)
Record RocksdbStore : Type := mkStore { s_db : option DB; closed : bool }.

(** [OpenDb] is RocksDB's, with the options the code sets. *)
(* src/rocksdbstore/store.go:59-69 NewRocksdbStore *)
Definition NewRocksdbStore (OpenDb : string -> result string DB) (dbdir : string) : result string RocksdbStore :=
  match OpenDb dbdir with
  | Err err => Err err
  | Ok db => Ok (mkStore (Some db) false)
  end.

(** A call through the handle. *)
Definition with_db {A} (s : RocksdbStore) (f : DB -> A) : outcome A :=
  match s_db s with Some d => Ret (f d) | None => Panic end.

(* src/rocksdbstore/store.go:72-91 RocksdbStore.LookupAppliedIndex *)
Definition LookupAppliedIndex (s : RocksdbStore) (key : string) : outcome (Z * option (string + num_error)) :=
  val ← with_db s (fun d => db_Get d key);
  match val with
  | Err err => Ret (0%Z, Some (inl err))
  | Ok data =>
      if decide (String.length data = 0) then Ret (0%Z, None)
      else let '(n, err) := ParseUint data in Ret (n, inr <$> err)
  end.

Definition not_found (key : string) : string := "key: <" +:+ key +:+ "> not found".

(* src/rocksdbstore/store.go:93-112 RocksdbStore.Lookup *)
Definition Lookup (s : RocksdbStore) (key : string) : outcome (result string string) :=
  val ← with_db s (fun d => db_Get d key);
  match val with
  | Err err => Ret (Err err)
  | Ok data => if decide (String.length data = 0) then Ret (Err (not_found key)) else Ret (Ok data)
  end.

(* src/rocksdbstore/store.go:114-133 RocksdbStore.NALookup *)
Definition NALookup (s : RocksdbStore) (key : string) : outcome (result string string) :=
  val ← with_db s (fun d => db_Get d key);
  match val with
  | Err err => Ret (Err err)
  | Ok data => if decide (String.length data = 0) then Ret (Err (not_found key)) else Ret (Ok data)
  end.

(* src/rocksdbstore/store.go:135-137 RocksdbStore.BatchWrite *)
Definition BatchWrite (s : RocksdbStore) (wb : Batch) : outcome (RocksdbStore * option string) :=
  r ← with_db s (fun d => db_Write d wb);
  Ret (mkStore (Some (fst r)) (closed s), snd r).

(* src/rocksdbstore/store.go:139-141 RocksdbStore.Write *)
Definition Write (s : RocksdbStore) (key value : string) : outcome (RocksdbStore * option string) :=
  r ← with_db s (fun d => db_Put d key value);
  Ret (mkStore (Some (fst r)) (closed s), snd r).

(* src/rocksdbstore/store.go:163-185 RocksdbStore.Close *)
Definition store_Close (s : RocksdbStore) : RocksdbStore := mkStore None true.

(** ** What the store promises *)
Context `{!RocksDBLaws DB Batch}.

Definition holds (s : RocksdbStore) : gmap string string :=
  match s_db s with Some d => contents d | None => ∅ end.

(** The answer of a lookup in a map: an empty value is not there. *)
Definition found (m : gmap string string) (key : string) : result string string :=
  match m !! key with
  | Some v => if decide (v = ""%string) then Err (not_found key) else Ok v
  | None => Err (not_found key)
  end.

Lemma length_zero (s : string) : String.length s = 0 <-> s = ""%string.
Proof. destruct s; simpl; [done|]. split; [lia|done]. Qed.

Lemma Lookup_spec s key r :
  Lookup s key = Ret r ->
  (exists d err, s_db s = Some d /\ db_Get d key = Err err /\ r = Err err) \/ r = found (holds s) key.
Proof.
  unfold Lookup, with_db, holds, found. destruct (s_db s) as [d|]; [|done]. simpl.
  destruct (db_Get d key) as [data|err] eqn:Hg.
  - apply db_Get_Ok in Hg. intros Hr. right. destruct (contents d !! key) as [v|]; simpl in Hg; subst data.
    + rewrite (decide_ext _ _ _ _ (length_zero v)) in Hr. by destruct (decide (v = ""%string)); injection Hr.
    + simpl in Hr. by injection Hr.
  - intros [= <-]. left. by exists d, err.
Qed.

Lemma Write_spec s key value s' err :
  Write s key value = Ret (s', err) ->
  is_Some (s_db s) /\ closed s' = closed s /\ is_Some (s_db s') /\
  holds s' = match err with None => <[key := value]> (holds s) | Some _ => holds s end.
Proof.
  unfold Write, with_db, holds. destruct (s_db s) as [d|]; [|done]. simpl.
  destruct (db_Put d key value) as [d' e] eqn:Hp. simpl. intros [= <- <-]. simpl.
  split; [by eexists|]. split; [done|]. split; [by eexists|].
  destruct e; [by eapply db_Put_err|by eapply db_Put_ok].
Qed.

Lemma BatchWrite_spec s wb s' err :
  BatchWrite s wb = Ret (s', err) ->
  is_Some (s_db s) /\ closed s' = closed s /\ is_Some (s_db s') /\
  holds s' = match err with
             | None => foldl (fun m p => <[p.1 := p.2]> m) (holds s) (wb_puts wb)
             | Some _ => holds s
             end.
Proof.
  unfold BatchWrite, with_db, holds. destruct (s_db s) as [d|]; [|done]. simpl.
  destruct (db_Write d wb) as [d' e] eqn:Hp. simpl. intros [= <- <-]. simpl.
  split; [by eexists|]. split; [done|]. split; [by eexists|].
  destruct e; [by eapply db_Write_err|by eapply db_Write_ok].
Qed.

(** Reading what was written.  After a successful [Write], a lookup of that key
    that reaches the database answers the value, except that an empty value is
    reported as not found although it was stored; every other key answers what it
    answered before; and a failed [Write] changes no answer. *)
Theorem write_then_lookup s key value s' err k r :
  Write s key value = Ret (s', err) -> Lookup s' k = Ret r ->
  (exists d e, s_db s' = Some d /\ db_Get d k = Err e /\ r = Err e) \/
  r = match err with
      | None => if decide (k = key)
                then (if decide (value = ""%string) then Err (not_found key) else Ok value)
                else found (holds s) k
      | Some _ => found (holds s) k
      end.
Proof.
  intros Hw Hl. apply Write_spec in Hw as (_ & _ & _ & Hh). apply Lookup_spec in Hl as [?|Hr]; [by left|right].
  rewrite Hr, Hh. unfold found. destruct err; [done|]. destruct (decide (k = key)) as [->|Hne].
  - by rewrite lookup_insert_eq.
  - by rewrite lookup_insert_ne.
Qed.

(** C39: the applied index is read exactly at 64 bits.  When the database answers
    [data] for the key: no data is index 0; a decimal number below [2^64] is that
    number; a larger one is an error, never a number that wrapped around; and
    data with anything but digits is an error. *)
Theorem LookupAppliedIndex_decimal s d key data :
  s_db s = Some d -> db_Get d key = Ok data ->
  exists n err, LookupAppliedIndex s key = Ret (n, err) /\
    match data, decimal data 0 with
    | ""%string, _ => n = 0%Z /\ err = None
    | _, Some v => if decide (v < 2 ^ 64)%Z then n = v /\ err = None
                   else n = (2 ^ 64 - 1)%Z /\ err = Some (inr ErrRange)
    | _, None => err <> None
    end.
Proof.
  intros Hd Hg. unfold LookupAppliedIndex, with_db. rewrite Hd. simpl. rewrite Hg.
  destruct data as [|c rest]; [by exists 0%Z, None|].
  rewrite decide_False by (simpl; lia).
  pose proof (parse_digits_decimal (String c rest) 0 ltac:(lia)) as Hp.
  change (ParseUint (String c rest)) with (parse_digits (String c rest) 0).
  change (match digit c with Some d0 => decimal rest (0 * 10 + d0) | None => None end)
    with (decimal (String c rest) 0).
  set (p := parse_digits (String c rest) 0) in *. set (q := decimal (String c rest) 0) in *.
  clearbody p q. destruct p as [n err]. exists n, (inr <$> err). split; [done|].
  destruct q as [v|].
  - destruct (decide (v < 2 ^ 64)%Z); injection Hp as -> ->; by split.
  - destruct err; [done|]. by destruct Hp.
Qed.

(** After [Close] every operation panics on the nil handle instead of returning an
    error, and closing again changes nothing. *)
Lemma closed_store_panics s key value wb :
  let c := store_Close s in
  Lookup c key = Panic /\ NALookup c key = Panic /\ LookupAppliedIndex c key = Panic /\
  Write c key value = Panic /\ BatchWrite c wb = Panic /\ store_Close c = c.
Proof using Type. done. Qed.
End Store.

(** ** Closing while calls are running

    [Lookup] holds the read lock from before it loads the handle until RocksDB has
    answered, as [NewSnapshot] does, and [Close] takes the write lock; [Write] and
    [BatchWrite] load the handle without the lock, as do [ReleaseSnapshot] and
    [NewIterator]. *)
Section Closing.
(** Where a call stands: it has the read lock; it has the lock and the handle; it
    has the handle and no lock. *)
Inductive call_at : Type := LookupLocked | LookupLoaded | WriteLoaded.

(** The calls that run, by goroutine, and whether the handle was closed. *)
Record calls_state : Type := mkCalls { running : gmap nat call_at; handle_closed : bool }.

Definition read_locked (st : calls_state) : Prop :=
  exists t, running st !! t = Some LookupLocked \/ running st !! t = Some LookupLoaded.

Inductive call_step : calls_state -> calls_state -> Prop :=
(** [Lookup], lines 94-97 *)
| lookup_lock st t : running st !! t = None ->
    call_step st (mkCalls (<[t := LookupLocked]> (running st)) (handle_closed st))
| lookup_load st t : running st !! t = Some LookupLocked -> handle_closed st = false ->
    call_step st (mkCalls (<[t := LookupLoaded]> (running st)) (handle_closed st))
| lookup_nil st t : running st !! t = Some LookupLocked -> handle_closed st = true ->
    call_step st (mkCalls (delete t (running st)) (handle_closed st))
| lookup_return st t : running st !! t = Some LookupLoaded ->
    call_step st (mkCalls (delete t (running st)) (handle_closed st))
(** [Write], lines 139-141 *)
| write_load st t : running st !! t = None -> handle_closed st = false ->
    call_step st (mkCalls (<[t := WriteLoaded]> (running st)) (handle_closed st))
| write_return st t : running st !! t = Some WriteLoaded ->
    call_step st (mkCalls (delete t (running st)) (handle_closed st))
(** [Close], lines 164-171 *)
| close_handle st : ~ read_locked st -> call_step st (mkCalls (running st) true).

Inductive calls_reachable : calls_state -> Prop :=
| calls_init : calls_reachable (mkCalls ∅ false)
| calls_next st st' : calls_reachable st -> call_step st st' -> calls_reachable st'.

Lemma calls_invariant st t :
  calls_reachable st -> running st !! t = Some LookupLoaded -> handle_closed st = false.
Proof.
  intros Hr. revert t. induction Hr as [|st st' _ IH Hstep]; [done|].
  assert (Hsub : forall t u, delete u (running st) !! t = Some LookupLoaded -> handle_closed st = false).
  { intros t u [_ Ht]%lookup_delete_Some. by apply (IH t). }
  assert (Hins : forall t u pc, pc <> LookupLoaded -> <[u := pc]> (running st) !! t = Some LookupLoaded ->
            handle_closed st = false).
  { intros t u pc Hpc [[_ ?]|[_ Ht]]%lookup_insert_Some; [congruence|by apply (IH t)]. }
  destruct Hstep; simpl; intros t' Ht'; try done.
  - by eapply Hins; [|exact Ht'].
  - by eapply Hsub.
  - by eapply Hsub.
  - by eapply Hsub.
  - match goal with Hno : ~ read_locked _ |- _ => destruct Hno end. exists t'. by right.
Qed.

(** Closing waits for lookups and not for writes.  In no reachable state does a
    lookup hold the handle once it is closed; but a state is reachable in which a
    [Write] or [BatchWrite] has loaded the handle and the handle is closed before
    RocksDB is called with it. *)
Theorem close_excludes_lookups_only :
  (forall st t, calls_reachable st -> handle_closed st = true -> running st !! t <> Some LookupLoaded) /\
  (exists st t, calls_reachable st /\ handle_closed st = true /\ running st !! t = Some WriteLoaded).
Proof.
  split.
  - intros st t Hr Hc Ht. apply (calls_invariant st t Hr) in Ht. congruence.
  - set (m := <[0 := WriteLoaded]> (∅ : gmap nat call_at)).
    assert (Hload : calls_reachable (mkCalls m false)).
    { eapply calls_next; [apply calls_init|]. by apply (write_load (mkCalls ∅ false) 0). }
    exists (mkCalls m true), 0. split; [|done].
    eapply calls_next; [exact Hload|]. apply (close_handle (mkCalls m false)).
    intros (t & Ht). simpl in Ht. unfold m in Ht.
    rewrite !lookup_insert_Some in Ht. destruct Ht as [[[_ ?]|[_ ?]]|[[_ ?]|[_ ?]]]; done.
Qed.
End Closing.

(** ** Witnesses: a database that is a map, and refuses the key ["ro"] *)
Section Demo.
Definition map_db : Type := gmap string string.
Definition map_put (d : map_db) (k v : string) : map_db * option string :=
  if decide (k = "ro"%string) then (d, Some "read only"%string) else (<[k := v]> d, None).

#[export] Instance map_RocksDB : RocksDB map_db (list (string * string)) := {|
  db_Get d k := Ok (default ""%string (d !! k));
  db_Put := map_put;
  db_Write d wb := (foldl (fun m p => <[p.1 := p.2]> m) d wb, None);
  NewWriteBatch := [];
  wb_Put wb k v := wb ++ [(k, v)]
|}.

#[export, refine] Instance map_RocksDBLaws : RocksDBLaws map_db (list (string * string)) :=
  {| contents := fun d => d; wb_puts := fun wb => wb |}.
Proof.
  - by intros d k v [= <-].
  - intros d k v d'. simpl. unfold map_put. by case_decide; intros [= <-].
  - intros d k v d' e. simpl. unfold map_put. by case_decide; intros [= <-].
  - done.
  - done.
  - by intros d wb d' [= <-].
  - done.
Defined.

Definition store0 : RocksdbStore (DB := map_db) := mkStore (Some ∅) false.
Definition store1 : RocksdbStore (DB := map_db) := mkStore (Some {["k"%string := "v"%string]}) false.

Lemma store0_write : Write store0 "k" "v" = Ret (store1, None).
Proof. vm_compute. reflexivity. Defined.
Lemma store1_lookup : Lookup store1 "k" = Ret (Ok "v"%string).
Proof. vm_compute. reflexivity. Defined.

Example write_then_lookup_witness :
  Write store0 "k" "v" = Ret (store1, None) /\ Lookup store1 "k" = Ret (Ok "v"%string).
Proof.
  split; [exact store0_write|].
  destruct (write_then_lookup store0 "k" "v" store1 None "k" (Ok "v"%string) store0_write store1_lookup)
    as [(d & e & _ & Hg & _)|_]; [discriminate Hg|exact store1_lookup].
Defined.

Example LookupAppliedIndex_decimal_witness :
  exists n err, LookupAppliedIndex (mkStore (Some {["k" := "18446744073709551616"]}%string) false) "k" = Ret (n, err) /\
    n = (2 ^ 64 - 1)%Z /\ err = Some (inr ErrRange).
Proof.
  exact (LookupAppliedIndex_decimal (mkStore (Some {["k" := "18446744073709551616"]}%string) false)
    _ "k" "18446744073709551616" eq_refl eq_refl).
Defined.
End Demo.
