(* ===== verification/StoreHandles.v ===== *)
(** * rocksdbstore/store.go: the objects of gorocksdb the store makes and destroys

    RocksDB's objects live outside Go's heap: caches, options, databases, snapshots and
    iterators are made by calls of gorocksdb and stay until a call destroys them.  Here a
    store is its pointers to such objects, and an operation appends to the [log] the calls
    it makes, with the objects they are given.  What gorocksdb does with them is not
    modelled: its constructors are the parameter [new_object], which gives an object that
    no earlier call was about, and opening a database is the parameter [OpenDb].  [Store]
    models what the same operations do to the pairs. *)
From S2P Require Import Prelude.
From S2P Require Import Store.

Inductive kind : Type :=
| LRUCache (capacity : Z) | BlockBasedTableOptions | Options | WriteOptions | ReadOptions
| Database (dir : string) | Snapshot | Iterator.

Section Handles.
Context {Obj : Type}.

Inductive setting : Type :=
| BlockCache (cache : Obj) | BlockSize (bytes : Z)
| NumLevels (n : Z) | BlockBasedTableFactory (bbto : Obj) | CreateIfMissing (b : bool) | UseFsync (b : bool)
| WalSizeLimitMb (n : Z) | WriteBufferSize (bytes : Z) | MaxWriteBufferNumber (n : Z)
| MinWriteBufferNumberToMerge (n : Z) | InfoLogLevel (level : string) | BytesPerSync (bytes : Z)
| MaxBackgroundFlushes (n : Z) | MaxBackgroundCompactions (n : Z) | LevelCompactionDynamicLevelBytes (b : bool)
| Compression (name : string) | Level0FileNumCompactionTrigger (n : Z) | Level0SlowdownWritesTrigger (n : Z)
| Level0StopWritesTrigger (n : Z) | TargetFileSizeBase (bytes : Z) | TargetFileSizeMultiplier (n : Z)
| MaxBytesForLevelBase (bytes : Z) | MaxBytesForLevelMultiplier (n : Z)
| Sync (b : bool) | FillCache (b : bool) | ReadSnapshot (snap : option Obj).

(** A call of the library: a constructor and what it returned, a setter, another function
    or method with the objects it is given, and a call that destroys an object. *)
Inductive lib_call : Type :=
| Makes (o : Obj) (k : kind) | Sets (o : Obj) (s : setting) | Given (f : string) (os : list Obj) | Destroys (o : Obj).

Definition setting_objects (s : setting) : list Obj :=
  match s with
  | BlockCache o | BlockBasedTableFactory o => [o]
  | ReadSnapshot snap => option_list snap
  | _ => []
  end.
(** The objects a call is given, and those it is about. *)
Definition operands (c : lib_call) : list Obj :=
  match c with
  | Makes _ _ => []
  | Sets o s => o :: setting_objects s
  | Given _ os => os
  | Destroys o => [o]
  end.
Definition mentions (c : lib_call) : list Obj :=
  match c with Makes o _ => [o] | c => operands c end.

Abbreviation log := (list lib_call).
Definition objects (l : log) : list Obj := concat (map mentions l).

Context (new_object : log -> Obj).
Definition make (k : kind) (l : log) : Obj * log :=
  let o := new_object l in (o, l ++ [Makes o k]).
Definition set_options (o : Obj) (ss : list setting) (l : log) : log := l ++ (Sets o <$> ss).
Definition destroy (o : Obj) (l : log) : log := l ++ [Destroys o].

Context {DB : Type}.

(* src/rocksdbstore/store.go:11-18 RocksdbStore *)
Record RocksdbStore : Type := mkStore {
  h_db : option (Obj * DB);
  ro : option Obj;
  wo : option Obj;
  opts : option Obj;
  h_closed : bool
}.

(* src/rocksdbstore/store.go:20-70 NewRocksdbStore *)
Definition NewRocksdbStore (OpenDb : string -> result string DB) (dbdir : string) (l : log)
    : result string RocksdbStore * log :=
  let '(bbto, l) := make BlockBasedTableOptions l in
  let '(cache, l) := make (LRUCache (640 * 1024 * 1024)) l in
  let l := set_options bbto [BlockCache cache; BlockSize (512 * 1024)] l in
  let '(opts, l) := make Options l in
  let l := set_options opts
    [NumLevels 6; BlockBasedTableFactory bbto; CreateIfMissing true; UseFsync true; WalSizeLimitMb 3000;
     WriteBufferSize (128 * 1024 * 1024); MaxWriteBufferNumber 4; MinWriteBufferNumberToMerge 2;
     InfoLogLevel "ErrorInfoLogLevel"; BytesPerSync 1048576; MaxBackgroundFlushes 4; MaxBackgroundCompactions 12;
     LevelCompactionDynamicLevelBytes true; Compression "LZ4Compression";
     Level0FileNumCompactionTrigger 4; Level0SlowdownWritesTrigger 30; Level0StopWritesTrigger 60;
     TargetFileSizeBase (64 * 1024 * 1024); TargetFileSizeMultiplier 1;
     MaxBytesForLevelBase (640 * 1024 * 1024); MaxBytesForLevelMultiplier 10] l in
  let '(wo, l) := make WriteOptions l in
  let l := set_options wo [Sync true] l in
  let '(ro, l) := make ReadOptions l in
  let l := l ++ [Given "OpenDb" [opts]] in
  match OpenDb dbdir with
  | Err err => (Err err, l)
  | Ok db =>
      let '(o, l) := make (Database dbdir) l in
      (Ok (mkStore (Some (o, db)) (Some ro) (Some wo) (Some opts) false), l)
  end.

(** A method of the database; a nil one panics. *)
Definition with_handle {A} (s : RocksdbStore) (f : Obj -> A) : outcome A :=
  match h_db s with Some (o, _) => Ret (f o) | None => Panic end.

(** What [Get], and what [Put] and [Write], are given; the pairs are in [Store]. *)
Definition reads_with (s : RocksdbStore) (l : log) : outcome log :=
  with_handle s (fun db => l ++ [Given "Get" (db :: option_list (ro s))]).
Definition writes_with (f : string) (s : RocksdbStore) (l : log) : outcome log :=
  with_handle s (fun db => l ++ [Given f (db :: option_list (wo s))]).

(* src/rocksdbstore/store.go:143-148 RocksdbStore.NewSnapshot *)
Definition NewSnapshot (s : RocksdbStore) (l : log) : outcome (Obj * log) :=
  with_handle s (fun db => make Snapshot (l ++ [Given "NewSnapshot" [db]])).

(* src/rocksdbstore/store.go:150-152 RocksdbStore.ReleaseSnapshot *)
Definition ReleaseSnapshot (s : RocksdbStore) (snap : Obj) (l : log) : outcome log :=
  with_handle s (fun db => destroy snap (l ++ [Given "ReleaseSnapshot" [db]])).

(** The read options are the iterator's own. *)
(* src/rocksdbstore/store.go:154-161 RocksdbStore.NewIterator *)
Definition NewIterator (s : RocksdbStore) (ss : option Obj) (l : log) : outcome (Obj * log) :=
  let '(ro, l) := make ReadOptions l in
  let l := set_options ro [FillCache false; ReadSnapshot ss] l in
  with_handle s (fun db => make Iterator (l ++ [Given "NewIterator" [db; ro]])).

Definition destroy_if (o : option Obj) (l : log) : log :=
  match o with Some o => destroy o l | None => l end.

(* src/rocksdbstore/store.go:163-185 RocksdbStore.Close *)
Definition Close (s : RocksdbStore) (l : log) : RocksdbStore * log :=
  let l := match h_db s with Some (o, _) => destroy o l | None => l end in
  let l := destroy_if (opts s) l in
  let l := destroy_if (wo s) l in
  let l := destroy_if (ro s) l in
  (mkStore None (ro s) (wo s) (opts s) true, l).

(** ** The same store as in [Store] *)
Definition erase (s : RocksdbStore) : Store.RocksdbStore (DB := DB) := Store.mkStore (snd <$> h_db s) (h_closed s).

Lemma NewRocksdbStore_erase OpenDb dbdir l :
  match fst (NewRocksdbStore OpenDb dbdir l) with Ok s => Ok (erase s) | Err err => Err err end =
  Store.NewRocksdbStore OpenDb dbdir.
Proof. unfold NewRocksdbStore, Store.NewRocksdbStore. simpl. by destruct (OpenDb dbdir). Qed.
Lemma Close_erase s l : erase (fst (Close s l)) = store_Close (erase s).
Proof. done. Qed.

(** ** Objects in use *)

(** An object has one kind, and no call is given one that was destroyed before, nor
    destroys it again. *)
Record sane (l : log) : Prop := {
  sa_once : forall o k k', Makes o k ∈ l -> Makes o k' ∈ l -> k = k';
  sa_used : forall l1 c l2, l = l1 ++ c :: l2 -> forall o, o ∈ operands c -> Destroys o ∉ l1
}.

Context (new_object_new : forall l, new_object l ∉ objects l).

Lemma mentions_objects l c o : c ∈ l -> o ∈ mentions c -> o ∈ objects l.
Proof using Type. intros Hc Ho. unfold objects. apply list_elem_of_In, in_concat. exists (mentions c). split; [by apply in_map, list_elem_of_In|by apply list_elem_of_In]. Qed.
Lemma new_not_made l k : Makes (new_object l) k ∉ l.
Proof using new_object_new. intros Hm. apply (new_object_new l). eapply mentions_objects; [exact Hm|]. by left. Qed.
Lemma new_not_destroyed l : Destroys (new_object l) ∉ l.
Proof using new_object_new. intros Hm. apply (new_object_new l). eapply mentions_objects; [exact Hm|]. by left. Qed.

Lemma sane_snoc l c :
  sane l -> (forall o k, c = Makes o k -> forall k', Makes o k' ∉ l) -> (forall o, o ∈ operands c -> Destroys o ∉ l) ->
  sane (l ++ [c]).
Proof using Type.
  intros [Ho Hu] Hmake Hops. split.
  - intros o k k' [H1|H1%list_elem_of_singleton]%elem_of_app [H2|H2%list_elem_of_singleton]%elem_of_app.
    + by eapply Ho.
    + by destruct (Hmake o k' (eq_sym H2) k).
    + by destruct (Hmake o k (eq_sym H1) k').
    + congruence.
  - intros l1 c' l2 He o Hin. destruct l2 as [|c2 l2 _] using rev_ind.
    + apply app_inj_tail in He as [-> ->]. by apply Hops.
    + rewrite app_comm_cons, app_assoc in He. apply app_inj_tail in He as [He _]. by eapply Hu.
Qed.
Lemma sane_make l k : sane l -> sane (l ++ [Makes (new_object l) k]).
Proof using new_object_new.
  intros Hs. apply sane_snoc; [done| |by intros o Ho%not_elem_of_nil]. intros o k' [= <- _] k2. apply new_not_made.
Qed.
Lemma sane_call l c :
  sane l -> match c with Makes _ _ => False | _ => True end -> (forall o, o ∈ operands c -> Destroys o ∉ l) -> sane (l ++ [c]).
Proof using Type. intros Hs Hc Ho. apply sane_snoc; [done| |done]. by intros o k ->. Qed.

Definition destroys (l : log) (o : Obj) : Prop := Destroys o ∈ l.

(** From [l] to [l'] only snapshots and iterators were destroyed. *)
Definition keeps_objects (l l' : log) : Prop :=
  sane l' /\ exists new, l' = l ++ new /\
    forall o, Destroys o ∈ new -> exists k, (k = Snapshot \/ k = Iterator) /\ Makes o k ∈ l'.

Lemma kept_refl l : sane l -> keeps_objects l l.
Proof using Type. intros Hs. split; [done|]. exists []. rewrite app_nil_r. split; [done|]. by intros o Ho%not_elem_of_nil. Qed.
Lemma kept_trans l1 l2 l3 : keeps_objects l1 l2 -> keeps_objects l2 l3 -> keeps_objects l1 l3.
Proof using Type.
  intros (_ & n1 & -> & H1) (Hs & n2 & -> & H2). split; [done|]. exists (n1 ++ n2). split; [by rewrite app_assoc|].
  intros o [Ho|Ho]%elem_of_app.
  - destruct (H1 o Ho) as (k & Hk & Hin). exists k. split; [done|]. by apply elem_of_app; left.
  - destruct (H2 o Ho) as (k & Hk & Hin). by exists k.
Qed.

(** An object of another kind that was not destroyed before is not destroyed. *)
Lemma keeps_alive l l' o k :
  keeps_objects l l' -> Makes o k ∈ l -> k <> Snapshot -> k <> Iterator -> Destroys o ∉ l -> Destroys o ∉ l'.
Proof using Type.
  intros (Hs & new & -> & Hnew) Hm Hk1 Hk2 Hd [Ho|Ho]%elem_of_app; [done|]. destruct (Hnew o Ho) as (k' & Hk' & Hm').
  assert (k = k') as <- by (eapply (sa_once _ Hs); [by apply elem_of_app; left|exact Hm']). by destruct Hk'.
Qed.
Lemma keeps_made l l' c : keeps_objects l l' -> c ∈ l -> c ∈ l'.
Proof using Type. intros (_ & new & -> & _) Hc. by apply elem_of_app; left. Qed.

(** The store is open: its four objects are there. *)
Definition has (l : log) (o : Obj) (k : kind) : Prop := Makes o k ∈ l /\ Destroys o ∉ l.
Definition open_ok (s : RocksdbStore) (l : log) : Prop :=
  exists d db dir r w o, s = mkStore (Some (d, db)) (Some r) (Some w) (Some o) false /\
    has l d (Database dir) /\ has l r ReadOptions /\ has l w WriteOptions /\ has l o Options.

(** What callers do with an open store: they release a snapshot, and close an iterator,
    that they have, and they iterate over snapshots that they have. *)
Inductive store_step (s : RocksdbStore) : log -> log -> Prop :=
| step_read l l' : reads_with s l = Ret l' -> store_step s l l'
| step_write l f l' : writes_with f s l = Ret l' -> store_step s l l'
| step_snapshot l h l' : NewSnapshot s l = Ret (h, l') -> store_step s l l'
| step_release l snap l' : has l snap Snapshot -> ReleaseSnapshot s snap l = Ret l' -> store_step s l l'
| step_iterator l ss h l' : (forall snap, ss = Some snap -> has l snap Snapshot) ->
    NewIterator s ss l = Ret (h, l') -> store_step s l l'
| step_iterator_closed l it : has l it Iterator -> store_step s l (destroy it l).

Lemma keeps_snoc l l' c :
  keeps_objects l l' -> sane (l' ++ [c]) -> (forall o, c = Destroys o -> exists k, (k = Snapshot \/ k = Iterator) /\ Makes o k ∈ l') ->
  keeps_objects l (l' ++ [c]).
Proof using Type.
  intros Hk Hs Hc. eapply kept_trans; [exact Hk|]. split; [done|]. exists [c]. split; [done|].
  intros o Ho%list_elem_of_singleton. destruct (Hc o (eq_sym Ho)) as (k & Hor & Hm). exists k. split; [done|]. by apply elem_of_app; left.
Qed.
Lemma keeps_make l l' k : keeps_objects l l' -> keeps_objects l (l' ++ [Makes (new_object l') k]).
Proof using new_object_new. intros Hk. apply keeps_snoc; [done|apply sane_make, Hk|done]. Qed.
Lemma keeps_given l l' f os :
  keeps_objects l l' -> (forall o, o ∈ os -> Destroys o ∉ l') -> keeps_objects l (l' ++ [Given f os]).
Proof using Type. intros Hk Ho. apply keeps_snoc; [done|by apply sane_call; [apply Hk|..]|done]. Qed.
Lemma keeps_sets l l' o ss :
  keeps_objects l l' -> Destroys o ∉ l' -> (forall x, x ∈ concat (map setting_objects ss) -> Destroys x ∉ l') ->
  keeps_objects l (set_options o ss l').
Proof using Type.
  revert l'. induction ss as [|s ss IH]; intros l' Hk Ho Hss; unfold set_options in *; simpl; [by rewrite app_nil_r|].
  rewrite cons_middle, app_assoc. apply IH.
  - apply keeps_snoc; [done| |done]. apply sane_call; [apply Hk|done|]. intros x [->|Hx]%elem_of_cons; [done|].
    apply Hss. simpl. by apply elem_of_app; left.
  - by intros [?|[=]%list_elem_of_singleton]%elem_of_app.
  - intros x Hx [Hd|[=]%list_elem_of_singleton]%elem_of_app. apply (Hss x); [|done]. simpl. by apply elem_of_app; right.
Qed.
Lemma keeps_destroy l l' o k :
  keeps_objects l l' -> (k = Snapshot \/ k = Iterator) -> has l' o k -> keeps_objects l (destroy o l').
Proof using Type.
  intros Hk Hor [Hm Hd]. apply keeps_snoc; [done| |intros x [= <-]; by exists k].
  apply sane_call; [apply Hk|done|]. by intros x ->%list_elem_of_singleton.
Qed.
Lemma not_destroyed_snoc l c o : Destroys o ∉ l -> c <> Destroys o -> Destroys o ∉ l ++ [c].
Proof using Type. intros Hd Hc [?|Hx%list_elem_of_singleton]%elem_of_app; [done|congruence]. Qed.

Lemma store_step_keeps s l l' : sane l -> open_ok s l -> store_step s l l' -> keeps_objects l l'.
Proof using new_object_new.
  intros Hs (d & db & dir & r & w & o & -> & [Hd Hd'] & [Hr Hr'] & [Hw Hw'] & _) Hstep. pose proof (kept_refl l Hs) as Hk.
  destruct Hstep as [l l' Hx|l f l' Hx|l h l' Hx|l snap l' Hsnap Hx|l ss h l' Hss Hx|l it Hit].
  - injection Hx as <-. apply keeps_given; [done|]. intros x [->| ->%list_elem_of_singleton]%elem_of_cons; done.
  - injection Hx as <-. apply keeps_given; [done|]. intros x [->| ->%list_elem_of_singleton]%elem_of_cons; done.
  - injection Hx as _ <-. apply keeps_make, keeps_given; [done|]. by intros x ->%list_elem_of_singleton.
  - injection Hx as <-. destruct Hsnap as [Hm Hsd]. eapply (keeps_destroy _ _ snap Snapshot); [|by left|].
    + apply keeps_given; [done|]. by intros x ->%list_elem_of_singleton.
    + split; [by apply elem_of_app; left|by apply not_destroyed_snoc].
  - injection Hx as _ <-. set (l1 := l ++ [Makes (new_object l) ReadOptions]).
    assert (Hold : forall x, Destroys x ∉ l -> Destroys x ∉ l1) by (intros x Hnx; by apply not_destroyed_snoc).
    assert (Hsets : forall x, Destroys x ∉ l -> Destroys x ∉ set_options (new_object l) [FillCache false; ReadSnapshot ss] l1).
    { intros x Hnx%Hold [?|Hin]%elem_of_app; [done|]. by apply list_elem_of_fmap in Hin as (? & [=] & _). }
    apply keeps_make, keeps_given.
    + apply keeps_sets; [by apply keeps_make|apply Hold, new_not_destroyed|].
      intros x Hin. simpl in Hin. rewrite app_nil_r in Hin. destruct ss as [snap|]; simpl in Hin; [|by apply not_elem_of_nil in Hin].
      apply list_elem_of_singleton in Hin as ->. apply Hold. by apply Hss.
    + intros x [->| ->%list_elem_of_singleton]%elem_of_cons; apply Hsets; [done|apply new_not_destroyed].
  - by eapply (keeps_destroy _ _ it Iterator); [|right|].
Qed.

Lemma has_kept l l' o k : keeps_objects l l' -> has l o k -> k <> Snapshot -> k <> Iterator -> has l' o k.
Proof using Type. intros Hk [Hm Hd] H1 H2. split; [by eapply keeps_made|by eapply keeps_alive]. Qed.

Lemma steps_keep s l l' : sane l -> open_ok s l -> rtc (store_step s) l l' -> keeps_objects l l' /\ open_ok s l'.
Proof using new_object_new.
  intros Hs Ho Hr. revert Hs Ho. induction Hr as [l|l l1 l2 Hst _ IH]; intros Hs Ho; [by split; [apply kept_refl|]|].
  pose proof (store_step_keeps _ _ _ Hs Ho Hst) as Hk. assert (Ho1 : open_ok s l1).
  { destruct Ho as (d & db & dir & r & w & o & -> & Hd & Hr & Hw & Ho). exists d, db, dir, r, w, o. split; [done|].
    repeat split; by eapply has_kept. }
  destruct (IH (proj1 Hk) Ho1) as [Hk2 Ho2]. split; [by eapply kept_trans|done].
Qed.
(** ** Opening *)

(** From [l] to [l'] nothing was destroyed. *)
Definition adds (l l' : log) : Prop :=
  keeps_objects l l' /\ exists new, l' = l ++ new /\ forall o, Destroys o ∉ new.
(** An object made between [l] and [l']. *)
Definition made (l l' : log) (o : Obj) (k : kind) : Prop := Makes o k ∈ l' /\ o ∉ objects l.

Lemma adds_refl l : sane l -> adds l l.
Proof using Type. intros Hs. split; [by apply kept_refl|]. exists []. rewrite app_nil_r. split; [done|]. by intros o Ho%not_elem_of_nil. Qed.
Lemma adds_not l l' o : adds l l' -> Destroys o ∉ l -> Destroys o ∉ l'.
Proof using Type. intros (_ & new & -> & Hn) Ho [Hd|Hd]%elem_of_app; [done|by apply (Hn o)]. Qed.
Lemma adds_app l l' new : adds l l' -> keeps_objects l (l' ++ new) -> (forall o, Destroys o ∉ new) -> adds l (l' ++ new).
Proof using Type.
  intros (_ & n1 & -> & H1) Hk H2. split; [done|]. exists (n1 ++ new). rewrite app_assoc. split; [done|].
  intros o [Ho|Ho]%elem_of_app; [by apply (H1 o)|by apply (H2 o)].
Qed.
Lemma adds_make l l' k : adds l l' -> adds l (l' ++ [Makes (new_object l') k]).
Proof using new_object_new. intros Ha. apply adds_app; [done|apply keeps_make, Ha|]. by intros o [=]%list_elem_of_singleton. Qed.
Lemma adds_sets l l' o ss :
  adds l l' -> Destroys o ∉ l -> (forall x, x ∈ concat (map setting_objects ss) -> Destroys x ∉ l) -> adds l (set_options o ss l').
Proof using Type.
  intros Ha Ho Hss. apply adds_app; [done| |].
  - apply keeps_sets; [apply Ha|by apply (adds_not _ _ _ Ha)|]. intros x Hx. by apply (adds_not _ _ _ Ha), Hss.
  - intros x Hx. by apply list_elem_of_fmap in Hx as (? & [=] & _).
Qed.
Lemma adds_given l l' f os : adds l l' -> (forall o, o ∈ os -> Destroys o ∉ l) -> adds l (l' ++ [Given f os]).
Proof using Type.
  intros Ha Ho. apply adds_app; [done| |by intros o [=]%list_elem_of_singleton].
  apply keeps_given; [apply Ha|]. intros o Hin. by apply (adds_not _ _ _ Ha), Ho.
Qed.
Lemma adds_new l l' : adds l l' -> new_object l' ∉ objects l.
Proof using new_object_new.
  intros (_ & new & -> & _) Hin. apply (new_object_new (l ++ new)). unfold objects in *. rewrite map_app, concat_app.
  by apply elem_of_app; left.
Qed.
Lemma new_alive l o : o ∉ objects l -> Destroys o ∉ l.
Proof using Type. intros Ho Hd. apply Ho. eapply mentions_objects; [exact Hd|by left]. Qed.
Lemma adds_made l l1 l2 o k : keeps_objects l1 l2 -> made l l1 o k -> made l l2 o k.
Proof using Type. intros Hk [Hm Ho]. split; [by eapply keeps_made|done]. Qed.

(** What opening makes, whether the database opens or not. *)
Lemma NewRocksdbStore_makes OpenDb dbdir l :
  sane l ->
  let '(r, l1) := NewRocksdbStore OpenDb dbdir l in
  adds l l1 /\
  exists b c o w rd,
    made l l1 b BlockBasedTableOptions /\ made l l1 c (LRUCache (640 * 1024 * 1024)) /\
    made l l1 o Options /\ made l l1 w WriteOptions /\ made l l1 rd ReadOptions /\
    match OpenDb dbdir, r with
    | Err err, Err err' => err' = err
    | Ok db, Ok s => exists d, made l l1 d (Database dbdir) /\ s = mkStore (Some (d, db)) (Some rd) (Some w) (Some o) false
    | _, _ => False
    end.
Proof using new_object_new.
  intros Hs. pose proof (adds_refl l Hs) as A0. unfold NewRocksdbStore, make.
  pose proof (adds_new _ _ A0) as Nb. apply adds_make with (k := BlockBasedTableOptions) in A0.
  set (b := new_object l) in *. set (l1 := l ++ _) in *.
  pose proof (adds_new _ _ A0) as Nc. pose proof (adds_make _ _ (LRUCache (640 * 1024 * 1024)) A0) as A1.
  set (c := new_object l1) in *. set (l2 := l1 ++ _) in *.
  assert (A2 : adds l (set_options b [BlockCache c; BlockSize (512 * 1024)] l2)).
  { apply adds_sets; [done|by apply new_alive|]. intros x ->%list_elem_of_singleton. by apply new_alive. }
  set (l3 := set_options b _ l2) in *. pose proof (adds_new _ _ A2) as No. pose proof (adds_make _ _ Options A2) as A3.
  set (o := new_object l3) in *. set (l4 := l3 ++ _) in *.
  match goal with |- context [set_options o ?ss l4] => assert (A4 : adds l (set_options o ss l4)) end.
  { apply adds_sets; [done|by apply new_alive|]. intros x ->%list_elem_of_singleton. by apply new_alive. }
  set (l5 := set_options o _ l4) in *. pose proof (adds_new _ _ A4) as Nw. pose proof (adds_make _ _ WriteOptions A4) as A5.
  set (w := new_object l5) in *. set (l6 := l5 ++ _) in *.
  assert (A6 : adds l (set_options w [Sync true] l6)).
  { apply adds_sets; [done|by apply new_alive|]. by intros x Hx%not_elem_of_nil. }
  set (l7 := set_options w _ l6) in *. pose proof (adds_new _ _ A6) as Nr. pose proof (adds_make _ _ ReadOptions A6) as A7.
  set (rd := new_object l7) in *. set (l8 := l7 ++ _) in *.
  assert (A8 : adds l (l8 ++ [Given "OpenDb" [o]])).
  { apply adds_given; [done|]. intros x ->%list_elem_of_singleton. by apply new_alive. }
  set (l9 := l8 ++ _) in *. pose proof (adds_new _ _ A8) as Nd.
  pose proof (adds_make _ _ (Database dbdir) A8) as A9. set (d := new_object l9) in *. set (l10 := l9 ++ _) in *.
  assert (M : Makes b BlockBasedTableOptions ∈ l9 /\ Makes c (LRUCache (640 * 1024 * 1024)) ∈ l9 /\ Makes o Options ∈ l9 /\
              Makes w WriteOptions ∈ l9 /\ Makes rd ReadOptions ∈ l9).
  { unfold l9, l8, l7, l6, l5, l4, l3, l2, l1, set_options. repeat split; rewrite !elem_of_app, !list_elem_of_singleton; tauto. }
  destruct M as (Mb & Mc & Mo & Mw & Mr).
  destruct (OpenDb dbdir) as [db|err].
  - assert (Hin : forall e, e ∈ l9 -> e ∈ l10) by (intros e He; by apply elem_of_app; left).
    split; [done|]. exists b, c, o, w, rd. repeat (split; [split; [by apply Hin|done]|]).
    exists d. split; [|done]. split; [by apply elem_of_app; right; left|done].
  - split; [done|]. exists b, c, o, w, rd. by repeat (split; [split; [done|done]|]).
Qed.

(** ** Closing *)
Lemma Close_open d db rd w o l dir :
  sane l -> has l d (Database dir) -> has l rd ReadOptions -> has l w WriteOptions -> has l o Options ->
  let l3 := snd (Close (mkStore (Some (d, db)) (Some rd) (Some w) (Some o) false) l) in
  l3 = l ++ [Destroys d; Destroys o; Destroys w; Destroys rd] /\ sane l3.
Proof using Type.
  intros Hs [Md Nd] [Mr Nr] [Mw Nw] [Mo No]. unfold Close, destroy_if, destroy. cbn [h_db opts wo ro snd].
  assert (Hd : forall x y k k', Makes x k ∈ l -> Makes y k' ∈ l -> k <> k' -> Destroys x <> Destroys y).
  { intros x y k k' Hx Hy Hk [= ->]. apply Hk. by eapply (sa_once _ Hs). }
  assert (Hc : forall l' x, sane l' -> Destroys x ∉ l' -> sane (l' ++ [Destroys x])).
  { intros l' x Hs' Hx. apply sane_call; [done|done|]. by intros y ->%list_elem_of_singleton. }
  split; [by rewrite <- !app_assoc|].
  apply Hc; [apply Hc; [apply Hc; [by apply Hc|]|]|]; repeat apply not_destroyed_snoc; try done; by eapply Hd.
Qed.

(** An object that is none of the four survives it. *)
Lemma Close_spares d db rd w o l dir x k :
  sane l -> has l d (Database dir) -> has l rd ReadOptions -> has l w WriteOptions -> has l o Options ->
  has l x k -> (match k with Database _ | Options | WriteOptions => False | _ => True end) -> x <> rd ->
  Destroys x ∉ snd (Close (mkStore (Some (d, db)) (Some rd) (Some w) (Some o) false) l).
Proof using Type.
  intros Hs Hd Hr Hw Ho [Mx Nx] Hk Hx. destruct (Close_open d db rd w o l dir Hs Hd Hr Hw Ho) as [-> _].
  assert (Hne : forall y k', has l y k' -> x = y -> k = k') by (intros y k' [My _] ->; by eapply (sa_once _ Hs)).
  intros [?|Hin]%elem_of_app; [done|]. repeat (apply elem_of_cons in Hin as [[= Hin]|Hin]); [..|by apply not_elem_of_nil in Hin].
  - by rewrite (Hne _ _ Hd Hin) in Hk.
  - by rewrite (Hne _ _ Ho Hin) in Hk.
  - by rewrite (Hne _ _ Hw Hin) in Hk.
  - done.
Qed.

Lemma NewIterator_makes s ss m it m' :
  NewIterator s ss m = Ret (it, m') ->
  exists q, made m m' q ReadOptions /\ Sets q (ReadSnapshot ss) ∈ m'.
Proof using new_object_new.
  unfold NewIterator, make, with_handle, set_options. destruct (h_db s) as [[h d]|]; [|done]. intros [= _ <-].
  exists (new_object m). split; [split; [|apply new_object_new]|].
  - rewrite !elem_of_app, list_elem_of_singleton. tauto.
  - rewrite !elem_of_app. left. left. right. right. left.
Qed.

(** The read options of an iterator, from a state of the open store to its closing. *)
Lemma iterator_options d db rd w o dir ss m it m' l2 :
  let s := mkStore (Some (d, db)) (Some rd) (Some w) (Some o) false in
  sane m -> has m d (Database dir) -> has m rd ReadOptions -> has m w WriteOptions -> has m o Options ->
  (forall snap, ss = Some snap -> has m snap Snapshot) -> NewIterator s ss m = Ret (it, m') -> rtc (store_step s) m' l2 ->
  exists q, made m m' q ReadOptions /\ Sets q (ReadSnapshot ss) ∈ m' /\ (Destroys q ∉ snd (Close s l2)).
Proof using new_object_new.
  intros s Hs Hd Hr Hw Ho Hss Hit Hm'. destruct (NewIterator_makes _ _ _ _ _ Hit) as (q & Mq & Sq).
  exists q. split; [done|]. split; [done|].
  assert (Hom : open_ok s m) by (by exists d, db, dir, rd, w, o).
  pose proof (store_step_keeps _ _ _ Hs Hom (step_iterator _ m ss it m' Hss Hit)) as Hk1.
  assert (Hkeep : forall x k, has m x k -> k <> Snapshot -> k <> Iterator -> has m' x k) by (intros x k; by apply has_kept).
  assert (Hom' : open_ok s m') by (exists d, db, dir, rd, w, o; split; [done|]; repeat split; by eapply Hkeep).
  destruct (steps_keep _ _ _ (proj1 Hk1) Hom' Hm') as [Hk2 _].
  pose proof (kept_trans _ _ _ Hk1 Hk2) as Hk. pose proof (proj1 Hk2) as Hs2.
  assert (Hq' : has m' q ReadOptions).
  { split; [apply Mq|]. destruct Hk1 as (Hs1 & new & -> & Hn). intros [Hx|Hx]%elem_of_app; [by apply (new_alive m q (proj2 Mq))|].
    destruct (Hn q Hx) as (k & Hor & Mk). pose proof (sa_once _ Hs1 _ _ _ (proj1 Mq) Mk) as <-. by destruct Hor. }
  apply (Close_spares d db rd w o l2 dir q ReadOptions Hs2);
    [by eapply (has_kept m); [exact Hk|..]..|by eapply (has_kept m'); [exact Hk2|..]|done|].
  intros ->. apply (proj2 Mq). eapply mentions_objects; [apply Hr|by left].
Qed.

(** C18: which objects of gorocksdb the store destroys.  Opening makes block-based table
    options, a cache of 640 MB, and three options; if the database does not open none of
    the five is ever destroyed.  Otherwise, whatever reads, writes, snapshots and iterators
    come in between, with snapshots released and iterators closed by their users, the
    first [Close] destroys the database and the three options, once each, and nothing
    else; and no call up to then is given an object that was destroyed before.  The
    table options and the cache are never destroyed; neither are the read options that
    every [NewIterator] makes, when the iterator is closed or the store. *)
Theorem store_objects OpenDb dbdir l :
  sane l ->
  let '(r, l1) := NewRocksdbStore OpenDb dbdir l in
  exists b c o w rd,
    made l l1 b BlockBasedTableOptions /\ made l l1 c (LRUCache (640 * 1024 * 1024)) /\
    made l l1 o Options /\ made l l1 w WriteOptions /\ made l l1 rd ReadOptions /\
    match r with
    | Err _ => forall x, Destroys x ∈ l1 -> Destroys x ∈ l
    | Ok s =>
        exists d, made l l1 d (Database dbdir) /\ forall l2, rtc (store_step s) l1 l2 ->
          let l3 := snd (Close s l2) in
          l3 = l2 ++ [Destroys d; Destroys o; Destroys w; Destroys rd] /\ sane l3 /\ (Destroys b ∉ l3) /\ (Destroys c ∉ l3) /\
          forall ss m it m',
            rtc (store_step s) l1 m -> (forall snap, ss = Some snap -> has m snap Snapshot) ->
            NewIterator s ss m = Ret (it, m') -> rtc (store_step s) m' l2 ->
            exists q, made m m' q ReadOptions /\ Sets q (ReadSnapshot ss) ∈ m' /\ Destroys q ∉ l3
    end.
Proof using new_object_new.
  intros Hs. pose proof (NewRocksdbStore_makes OpenDb dbdir l Hs) as Hmk.
  destruct (NewRocksdbStore OpenDb dbdir l) as [r l1]. destruct Hmk as (Ha & b & c & o & w & rd & Mb & Mc & Mo & Mw & Mr & Hr).
  exists b, c, o, w, rd. repeat (split; [done|]). pose proof (proj1 (proj1 Ha)) as Hs1.
  destruct r as [s|err], (OpenDb dbdir) as [db|err']; try done.
  2: { intros x Hx. destruct Ha as (_ & new & -> & Hn). apply elem_of_app in Hx as [Hx|Hx]; [done|by destruct (Hn x)]. }
  destruct Hr as (d & Md & ->). exists d. split; [done|]. intros l2 Hsteps.
  assert (Hhas : forall x k, made l l1 x k -> has l1 x k).
  { intros x k [Hm Hx]. split; [done|]. eapply adds_not; [exact Ha|by apply new_alive]. }
  assert (Ho1 : open_ok (mkStore (Some (d, db)) (Some rd) (Some w) (Some o) false) l1)
    by (exists d, db, dbdir, rd, w, o; split; [done|]; auto).
  destruct (steps_keep _ _ _ Hs1 Ho1 Hsteps) as [Hk _].
  assert (Hkept : forall x k, made l l1 x k -> k <> Snapshot -> k <> Iterator -> has l2 x k)
    by (intros x k Hm; apply (has_kept l1); [done|by apply Hhas]).
  pose proof (proj1 Hk) as Hs2. destruct (Close_open d db rd w o l2 dbdir Hs2) as [Hl3 Hs3]; [by apply Hkept..|]. cbv zeta.
  assert (Hne : forall x k, made l l1 x k -> k <> ReadOptions -> x <> rd).
  { intros x k [Mx _] Hx ->. apply Hx. eapply (sa_once _ Hs1); [exact Mx|apply Mr]. }
  split; [exact Hl3|]. split; [exact Hs3|].
  assert (Hspared : forall x k, made l l1 x k -> match k with BlockBasedTableOptions | LRUCache _ => True | _ => False end ->
            Destroys x ∉ snd (Close (mkStore (Some (d, db)) (Some rd) (Some w) (Some o) false) l2)).
  { intros x k Mx Hx. apply (Close_spares d db rd w o l2 dbdir x k); [exact Hs2|by apply Hkept..| |by destruct k|].
    - by apply Hkept; destruct k.
    - apply (Hne x k); [done|]. by destruct k. }
  split; [by eapply Hspared|]. split; [by eapply Hspared|].
  intros ss m it m' Hm Hss Hit Hm'. destruct (steps_keep _ _ _ Hs1 Ho1 Hm) as [Hkm _].
  eapply iterator_options; [apply Hkm|..|exact Hss|exact Hit|exact Hm']; by eapply has_kept; [exact Hkm|apply Hhas|..].
Qed.
End Handles.

(** ** Witness: objects with numbers, a database that opens, and an iterator that is closed *)
Section Demo.
Definition next_number (l : list (@lib_call nat)) : nat := S (foldr Nat.max 0 (objects l)).

Lemma next_number_new l : next_number l ∉ objects l.
Proof.
  unfold next_number. intros Hin. assert (Hmax : forall ns n, n ∈ ns -> n <= foldr Nat.max 0 ns).
  { induction ns as [|m ns IH]; intros n Hn; [by apply not_elem_of_nil in Hn|]. simpl.
    apply elem_of_cons in Hn as [->|Hn%IH]; lia. }
  apply Hmax in Hin. lia.
Qed.

Lemma empty_sane : sane (@nil (@lib_call nat)).
Proof. split; [by intros o k k' Hm%not_elem_of_nil|]. by intros [|c' l1] c l2 He. Qed.

(** The store is opened, iterated over without a snapshot, and closed. *)
Definition demo_opened := NewRocksdbStore next_number (fun _ => Ok (∅ : map_db)) "db" [].

Example store_objects_witness :
  exists s l1 b it l2 q, demo_opened = (Ok s, l1) /\ NewIterator next_number s None l1 = Ret (it, l2) /\
    Makes b BlockBasedTableOptions ∈ l1 /\ (Destroys b ∉ snd (Close s l2)) /\
    Makes q ReadOptions ∈ l2 /\ (q ∉ objects l1) /\ (Destroys q ∉ snd (Close s l2)).
Proof.
  pose proof (store_objects next_number next_number_new (fun _ => Ok (∅ : map_db)) "db" [] empty_sane) as Hs.
  change (NewRocksdbStore next_number (fun _ => Ok (∅ : map_db)) "db" []) with demo_opened in Hs.
  destruct demo_opened as [[s|err] l1] eqn:Ho; [|discriminate Ho].
  destruct Hs as (b & c & o & w & rd & [Mb _] & _ & _ & _ & _ & d & _ & Hlife).
  destruct (NewIterator next_number s None l1) as [[it l2]|] eqn:Hit; [|injection Ho as <- <-; discriminate Hit].
  assert (Hstep : store_step next_number s l1 l2) by (eapply (step_iterator _ s l1 None it); [discriminate|exact Hit]).
  destruct (Hlife l2 (rtc_once _ _ Hstep)) as (_ & _ & Hb & _ & Hq).
  destruct (Hq None l1 it l2 (rtc_refl _ _) ltac:(discriminate) Hit (rtc_refl _ _)) as (q & [Mq Nq] & _ & Hd).
  by exists s, l1, b, it, l2, q.
Defined.
End Demo.
