(* ===== verification/KVServers.v ===== *)
(** * grpc/server and thrift/server: the request handlers

    Both servers answer the same requests from the same store; the grpc one streams
    its batch, the thrift one receives it in one message.  [elapsed] is the
    duration the handlers measure.  A stream is the list of the answers its [Recv]
    gives; a handler that has read them all and seen no end still waits: [None]. *)
From S2P Require Import Prelude.
From S2P Require Import Store.
From S2P Require Import Health.

(** The generated messages: the fields the handlers use. *)
(* src/grpc/rpcpb/rpc.pb.go:215-219 ResponseHeader *)
Record ResponseHeader : Type := mkHeader {
  ClusterId : Z;
  NodeId : Z;
  ConsumeTime : Z;
  NodeIp : string
}.
(* src/grpc/rpcpb/rpc.pb.go:121-123 KeyValue *)
Record KeyValue : Type := mkKeyValue { Key : string; Value : string }.
(* src/grpc/rpcpb/rpc.pb.go:168-170 PutRequest *)
Record PutRequest : Type := mkPutRequest { pr_Key : string; pr_Value : string }.
(* src/grpc/rpcpb/rpc.pb.go:74-76 GetResponse *)
Record GetResponse : Type := mkGetResponse { gr_Header : ResponseHeader; Kvs : list KeyValue }.
(* src/grpc/rpcpb/rpc.pb.go:278-279 PutResponse *)
Record PutResponse : Type := mkPutResponse { pr_Header : ResponseHeader }.
Record HealthMsg : Type := mkHealthMsg { OK : bool; Errors : string }.

Section KVServers.
Context {DB Batch : Type} `{!RocksDB DB Batch} `{!GoRange}.
#[local] Abbreviation store := (@RocksdbStore DB).

(** ** grpc *)
(* src/grpc/server/config.go:3-11 ServerConfig *)
Record ServerConfig : Type := mkServerConfig {
  Port : Z;
  RocksDBDir : string;
  MaxRequestBytes : Z;
  ServiceName : string
}.

(* src/grpc/server/grpcserver.go:35-43 GrpcServer *)
Record GrpcServer : Type := mkGrpcServer {
  gs_cfg : ServerConfig;
  gs_health : HealthServer;
  gs_store : store
}.

(* src/grpc/server/grpcserver.go:45-57 NewGrpcServer *)
Definition NewGrpcServer (OpenDb : string -> result string DB) (config : ServerConfig) : outcome GrpcServer :=
  match NewRocksdbStore OpenDb (RocksDBDir config) with
  | Err _ => Panic
  | Ok s => Ret (mkGrpcServer config NewHealthServer s)
  end.

(* src/grpc/server/grpcserver.go:17-17 grpcOverheadBytes *)
Definition grpcOverheadBytes : Z := (512 * 1024)%Z.

(** [int(server.cfg.MaxRequestBytes+grpcOverheadBytes)], a [uint] sum read as an [int]. *)
(* src/grpc/server/grpcserver.go:71-71 GrpcServer.Start *)
Definition maxRecvMsgSize (c : ServerConfig) : Z := i64 (u64 (MaxRequestBytes c + grpcOverheadBytes)).

(** Up to [Serve]: the port has to be free, and the service is announced as serving. *)
(* src/grpc/server/grpcserver.go:59-80 GrpcServer.Start *)
Definition Start (listen_err : option string) (server : GrpcServer) (chans : channels)
    : outcome (option (Z * GrpcServer * channels)) :=
  match listen_err with
  | Some _ => Panic
  | None =>
      Ret ('(h, chans) ← SetServingStatus (gs_health server) chans (ServiceName (gs_cfg server)) SERVING;
           Some (maxRecvMsgSize (gs_cfg server), mkGrpcServer (gs_cfg server) h (gs_store server), chans))
  end.

(* src/grpc/server/grpcserver.go:106-109 GrpcServer.Stop *)
Definition Stop (server : GrpcServer) : GrpcServer :=
  mkGrpcServer (gs_cfg server) (gs_health server) (store_Close (gs_store server)).

Definition with_store (server : GrpcServer) (s : store) : GrpcServer :=
  mkGrpcServer (gs_cfg server) (gs_health server) s.

(* src/grpc/server/kv.go:21-24 GrpcServer.Get *)
Definition grpc_header (server : GrpcServer) (elapsed : Z) : ResponseHeader :=
  mkHeader 0 0 (u64 elapsed) ("0.0.0.0:" +:+ pretty (Port (gs_cfg server))).

(* src/grpc/server/kv.go:13-34 GrpcServer.Get *)
Definition grpc_Get (server : GrpcServer) (elapsed : Z) (key : string) : outcome (result string GetResponse) :=
  r ← Lookup (gs_store server) key;
  match r with
  | Err err => Ret (Err err)
  | Ok val => Ret (Ok (mkGetResponse (grpc_header server elapsed) ([] ++ [mkKeyValue key val])))
  end.

(* src/grpc/server/kv.go:36-51 GrpcServer.Put *)
Definition grpc_Put (server : GrpcServer) (elapsed : Z) (req : PutRequest)
    : outcome (GrpcServer * result string PutResponse) :=
  '(s, err) ← Write (gs_store server) (pr_Key req) (pr_Value req);
  match err with
  | Some err => Ret (with_store server s, Err err)
  | None => Ret (with_store server s, Ok (mkPutResponse (grpc_header server elapsed)))
  end.

Inductive recv : Type := Recv (req : PutRequest) | RecvEOF | RecvErr (err : string).

(* src/grpc/server/kv.go:59-75 GrpcServer.PutStream *)
Fixpoint recv_all (answers : list recv) (wb : Batch) : option Batch :=
  match answers with
  | [] => None
  | RecvEOF :: _ => Some wb
  | RecvErr _ :: _ => Some wb
  | Recv req :: answers => recv_all answers (wb_Put wb (pr_Key req) (pr_Value req))
  end.

(** [SendAndClose] is the stream's: an error or none. *)
(* src/grpc/server/kv.go:53-90 GrpcServer.PutStream *)
Definition PutStream (server : GrpcServer) (elapsed : Z) (answers : list recv)
    (SendAndClose : PutResponse -> option string) : option (outcome (GrpcServer * option string)) :=
  wb ← recv_all answers NewWriteBatch;
  Some ('(s, err) ← BatchWrite (gs_store server) wb;
        match err with
        | Some err => Ret (with_store server s, Some err)
        | None => Ret (with_store server s, SendAndClose (mkPutResponse (grpc_header server elapsed)))
        end).

(** ** thrift *)
(* src/thrift/server/kv.go:13-15 kvImpl *)
Record kvImpl : Type := mkKvImpl { kv_store : store }.

(* src/thrift/server/server.go:13-18 ThriftSever *)
Record ThriftServer : Type := mkThriftServer { ts_port : Z; ts_impl : kvImpl }.

(** The processor serves the [kvImpl] made here; exiting the process is [None]. *)
(* src/thrift/server/server.go:20-50 NewThriftServer *)
Definition NewThriftServer (OpenDb : string -> result string DB) (socket_err : option string) (port : Z)
    (rocksDBDir : string) : outcome (option ThriftServer) :=
  match NewRocksdbStore OpenDb rocksDBDir with
  | Err _ => Panic
  | Ok s =>
      match socket_err with
      | Some _ => Ret None
      | None => Ret (Some (mkThriftServer port (mkKvImpl s)))
      end
  end.

(* src/thrift/server/server.go:52-58 ThriftSever.Stop *)
Definition thrift_Stop (s : ThriftServer) : ThriftServer :=
  mkThriftServer (ts_port s) (mkKvImpl (store_Close (kv_store (ts_impl s)))).

(* src/thrift/server/kv.go:17-22 kvImpl.Ping *)
Definition Ping : HealthMsg := mkHealthMsg true "".

(* src/thrift/server/kv.go:32-35 kvImpl.Get *)
Definition thrift_header (elapsed : Z) : ResponseHeader := mkHeader 0 0 (i64 elapsed) "0.0.0.0:xxx".

(* src/thrift/server/kv.go:24-45 kvImpl.Get *)
Definition thrift_Get (kv : kvImpl) (elapsed : Z) (key : string) : outcome (result string GetResponse) :=
  r ← Lookup (kv_store kv) key;
  match r with
  | Err err => Ret (Err err)
  | Ok val => Ret (Ok (mkGetResponse (thrift_header elapsed) ([] ++ [mkKeyValue key val])))
  end.

(* src/thrift/server/kv.go:47-62 kvImpl.Put *)
Definition thrift_Put (kv : kvImpl) (elapsed : Z) (req : PutRequest)
    : outcome (kvImpl * result string PutResponse) :=
  '(s, err) ← Write (kv_store kv) (pr_Key req) (pr_Value req);
  match err with
  | Some err => Ret (mkKvImpl s, Err err)
  | None => Ret (mkKvImpl s, Ok (mkPutResponse (thrift_header elapsed)))
  end.

(* src/thrift/server/kv.go:70-72 kvImpl.MultiPut *)
Fixpoint put_all (reqs : list PutRequest) (wb : Batch) : Batch :=
  match reqs with
  | [] => wb
  | req :: reqs => put_all reqs (wb_Put wb (pr_Key req) (pr_Value req))
  end.

(* src/thrift/server/kv.go:64-87 kvImpl.MultiPut *)
Definition MultiPut (kv : kvImpl) (elapsed : Z) (reqs : list PutRequest)
    : outcome (kvImpl * result string PutResponse) :=
  let wb := put_all reqs NewWriteBatch in
  '(s, err) ← BatchWrite (kv_store kv) wb;
  match err with
  | Some err => Ret (mkKvImpl s, Err err)
  | None => Ret (mkKvImpl s, Ok (mkPutResponse (thrift_header elapsed)))
  end.

(** ** The two servers give the same answers *)

(** What a client of either server sees of an answer, and the store it leaves. *)
Definition get_payload (r : result string GetResponse) : result string (list KeyValue) :=
  match r with Ok resp => Ok (Kvs resp) | Err err => Err err end.
Definition put_error (r : result string PutResponse) : option string :=
  match r with Ok _ => None | Err err => Some err end.

Lemma recv_all_put_all reqs stop rest wb :
  (forall req, stop <> Recv req) -> recv_all ((Recv <$> reqs) ++ stop :: rest) wb = Some (put_all reqs wb).
Proof.
  intros Hstop. revert wb. induction reqs as [|req reqs IH]; intros wb; simpl; [|apply IH].
  destruct stop as [req| |]; [|done|done]. by destruct (Hstop req).
Qed.

Lemma recv_all_waits answers wb :
  recv_all answers wb = None <-> forall a, a ∈ answers -> exists req, a = Recv req.
Proof.
  revert wb. induction answers as [|[req| |err] answers IH]; intros wb; simpl.
  - split; [|done]. intros _ a Ha. by apply not_elem_of_nil in Ha.
  - rewrite IH. split.
    + intros Ha a [->|Hin]%elem_of_cons; [by eexists|by apply Ha].
    + intros Ha a Hin. apply Ha. by right.
  - split; [done|]. intros Ha. destruct (Ha RecvEOF) as [req Hr]; [left|done].
  - split; [done|]. intros Ha. destruct (Ha (RecvErr err)) as [req Hr]; [left|done].
Qed.

(** C7: the two servers are equivalent over one store.  On the same store [Get]
    answers the same pairs or the same error on both, [Put] leaves the same store
    and reports the same error, and a grpc stream of requests that is ended does what
    the thrift [MultiPut] of those requests does; each panics exactly when the
    other does.  Only the header differs. *)
Theorem servers_agree server kv elapsed :
  gs_store server = kv_store kv ->
  (forall key, get_payload <$> grpc_Get server elapsed key = get_payload <$> thrift_Get kv elapsed key) /\
  (forall req, (fun p => (gs_store (fst p), put_error (snd p))) <$> grpc_Put server elapsed req =
               (fun p => (kv_store (fst p), put_error (snd p))) <$> thrift_Put kv elapsed req) /\
  (forall reqs rest, PutStream server elapsed ((Recv <$> reqs) ++ RecvEOF :: rest) (fun _ => None) =
     Some ((fun p => (with_store server (kv_store (fst p)), put_error (snd p))) <$> MultiPut kv elapsed reqs)).
Proof.
  intros Hs. split; [|split].
  - intros key. unfold grpc_Get, thrift_Get. rewrite Hs. by destruct (Lookup (kv_store kv) key) as [[?|?]|].
  - intros req. unfold grpc_Put, thrift_Put. rewrite Hs.
    by destruct (Write (kv_store kv) (pr_Key req) (pr_Value req)) as [[s [err|]]|].
  - intros reqs rest. unfold PutStream, MultiPut. rewrite recv_all_put_all by done. simpl. rewrite Hs.
    by destruct (BatchWrite (kv_store kv) (put_all reqs NewWriteBatch)) as [[s [err|]]|].
Qed.

(** The stream handler commits whatever it has received.  It answers as soon as
    its stream ends and waits until then; and it does not distinguish the client's
    end of stream from a broken one: the requests received before an error are
    written as one batch and answered with success, exactly as if the client had
    finished there. *)
Theorem PutStream_commits_prefix server elapsed answers close :
  (PutStream server elapsed answers close = None <-> forall a, a ∈ answers -> exists req, a = Recv req) /\
  (forall reqs err rest rest',
     answers = (Recv <$> reqs) ++ RecvErr err :: rest ->
     PutStream server elapsed answers close =
     PutStream server elapsed ((Recv <$> reqs) ++ RecvEOF :: rest') close).
Proof.
  split.
  - rewrite <- (recv_all_waits answers NewWriteBatch). unfold PutStream.
    by destruct (recv_all answers NewWriteBatch).
  - intros reqs err rest rest' ->. unfold PutStream. by rewrite !recv_all_put_all.
Qed.

(** ** What the handlers do to the pairs *)
Section Contents.
Context `{!RocksDBLaws DB Batch}.

Definition put_pairs (m : gmap string string) (reqs : list PutRequest) : gmap string string :=
  foldl (fun m req => <[pr_Key req := pr_Value req]> m) m reqs.

Lemma put_all_puts reqs wb :
  wb_puts (put_all reqs wb) = wb_puts wb ++ ((fun req => (pr_Key req, pr_Value req)) <$> reqs).
Proof.
  revert wb. induction reqs as [|req reqs IH]; intros wb; simpl; [by rewrite app_nil_r|].
  rewrite IH, wb_puts_Put. by rewrite <- app_assoc.
Qed.

Lemma puts_of_new reqs : wb_puts (put_all reqs NewWriteBatch) = (fun req => (pr_Key req, pr_Value req)) <$> reqs.
Proof. rewrite put_all_puts, wb_puts_new. done. Qed.

Lemma foldl_put_pairs m reqs :
  foldl (fun m p => <[p.1 := p.2]> m) m ((fun req => (pr_Key req, pr_Value req)) <$> reqs) = put_pairs m reqs.
Proof. revert m. induction reqs as [|req reqs IH]; intros m; [done|]. apply IH. Qed.

(** One [Put] after another. *)
Fixpoint thrift_Puts (kv : kvImpl) (elapsed : Z) (reqs : list PutRequest) : outcome (kvImpl * list (option string)) :=
  match reqs with
  | [] => Ret (kv, [])
  | req :: reqs =>
      '(kv, r) ← thrift_Put kv elapsed req;
      '(kv, errs) ← thrift_Puts kv elapsed reqs;
      Ret (kv, put_error r :: errs)
  end.

Lemma thrift_Put_holds kv elapsed req kv' r :
  thrift_Put kv elapsed req = Ret (kv', r) ->
  holds (kv_store kv') = match put_error r with
                         | None => <[pr_Key req := pr_Value req]> (holds (kv_store kv))
                         | Some _ => holds (kv_store kv)
                         end.
Proof.
  unfold thrift_Put. rewrite outcome_bind_Ret. intros ([s err] & Hw & Hr).
  apply Write_spec in Hw as (_ & _ & _ & Hh). by destruct err; injection Hr as <- <-.
Qed.

Lemma thrift_Puts_holds kv elapsed reqs kv' errs :
  thrift_Puts kv elapsed reqs = Ret (kv', errs) -> (forall e, e ∈ errs -> e = None) ->
  holds (kv_store kv') = put_pairs (holds (kv_store kv)) reqs.
Proof.
  revert kv errs. induction reqs as [|req reqs IH]; intros kv errs; simpl.
  - by intros [= <- <-] _.
  - rewrite outcome_bind_Ret. intros ([kv1 r] & Hp & Hrest).
    apply outcome_bind_Ret in Hrest as ([kv2 errs2] & Hps & [= <- <-]). intros Hall.
    apply thrift_Put_holds in Hp. rewrite (Hall (put_error r)) in Hp by left.
    rewrite (IH _ _ Hps); [by rewrite Hp|]. intros e He. apply Hall. by right.
Qed.

Lemma MultiPut_holds kv elapsed reqs kv' r :
  MultiPut kv elapsed reqs = Ret (kv', r) ->
  holds (kv_store kv') = match r with Ok _ => put_pairs (holds (kv_store kv)) reqs | Err _ => holds (kv_store kv) end.
Proof.
  unfold MultiPut. rewrite outcome_bind_Ret. intros ([s err] & Hb & Hr).
  apply BatchWrite_spec in Hb as (_ & _ & _ & Hh). destruct err as [err|]; injection Hr as <- <-; [done|].
  by rewrite puts_of_new, foldl_put_pairs in Hh.
Qed.

(** A batch is its puts, all or nothing.  A successful [MultiPut] leaves exactly the
    pairs that the same [Put]s, one after the other and all successful, leave: a
    later request for a key wins.  A failed one leaves the pairs as they were. *)
Theorem MultiPut_is_puts kv elapsed reqs kv1 r :
  MultiPut kv elapsed reqs = Ret (kv1, r) ->
  match r with
  | Err _ => holds (kv_store kv1) = holds (kv_store kv)
  | Ok _ =>
      holds (kv_store kv1) = put_pairs (holds (kv_store kv)) reqs /\
      forall kv2 errs, thrift_Puts kv elapsed reqs = Ret (kv2, errs) -> (forall e, e ∈ errs -> e = None) ->
        holds (kv_store kv2) = holds (kv_store kv1)
  end.
Proof.
  intros Hm. apply MultiPut_holds in Hm. destruct r as [resp|err]; [|done]. split; [done|].
  intros kv2 errs Hp Hall. by rewrite (thrift_Puts_holds _ _ _ _ _ Hp Hall), Hm.
Qed.

(** A grpc [Get] after a grpc [Put] of its key that succeeded answers exactly the
    value put, under its key; unless the value was empty, which is answered as not
    found, or the database itself fails. *)
Theorem grpc_put_then_get server e1 req server' resp e2 r :
  grpc_Put server e1 req = Ret (server', Ok resp) -> grpc_Get server' e2 (pr_Key req) = Ret r ->
  (exists d err, s_db (gs_store server') = Some d /\ db_Get d (pr_Key req) = Err err /\ r = Err err) \/
  get_payload r = if decide (pr_Value req = ""%string) then Err (not_found (pr_Key req))
                  else Ok [mkKeyValue (pr_Key req) (pr_Value req)].
Proof using All.
  unfold grpc_Put, grpc_Get. rewrite !outcome_bind_Ret.
  intros ([s err] & Hw & Hr) (look & Hl & Hg). destruct err; [done|]. injection Hr as <- _. simpl in *.
  apply Write_spec in Hw as (_ & _ & _ & Hh).
  destruct (Lookup_spec _ _ _ Hl) as [(d & err & Hd & Hget & ->)| ->].
  - left. injection Hg as <-. by exists d, err.
  - right. unfold found in Hg. rewrite Hh, lookup_insert_eq in Hg. by case_decide; injection Hg as <-.
Qed.
End Contents.

(** The receive limit announced by [Start] is the configured size plus the overhead
    as long as that fits an [int]; above, it is negative or has wrapped around, so
    a huge [MaxRequestBytes] gives a smaller limit than asked for. *)
Theorem maxRecvMsgSize_bounds c :
  (0 <= MaxRequestBytes c < 2 ^ 64)%Z ->
  ((MaxRequestBytes c + grpcOverheadBytes < 2 ^ 63)%Z ->
     maxRecvMsgSize c = (MaxRequestBytes c + grpcOverheadBytes)%Z) /\
  ((2 ^ 63 <= MaxRequestBytes c + grpcOverheadBytes)%Z -> (maxRecvMsgSize c < grpcOverheadBytes)%Z).
Proof.
  intros Hm. unfold maxRecvMsgSize, grpcOverheadBytes. split; intros Hs.
  - by no_wrap.
  - destruct (decide (MaxRequestBytes c + 512 * 1024 < 2 ^ 64)%Z).
    + no_wrap. unfold i64.
      rewrite <- (Z.mod_unique (MaxRequestBytes c + 512 * 1024 + 2 ^ 63) (2 ^ 64) 1
        (MaxRequestBytes c + 512 * 1024 - 2 ^ 63)); lia.
    + unfold u64. rewrite <- (Z.mod_unique (MaxRequestBytes c + 512 * 1024) (2 ^ 64) 1
        (MaxRequestBytes c + 512 * 1024 - 2 ^ 64)) by lia. rewrite i64_small; lia.
Qed.
End KVServers.

(** ** Witnesses, over the map database *)
Section Demo.
#[local] Existing Instance range_in_key_order.

Definition demo_kv : kvImpl (DB := map_db) := mkKvImpl store0.
Definition demo_server : GrpcServer (DB := map_db) :=
  mkGrpcServer (mkServerConfig 9001 "db" 1000 "kv") NewHealthServer store0.
Definition demo_reqs : list PutRequest := [mkPutRequest "k" "v"; mkPutRequest "k" "w"]%string.

Example servers_agree_witness :
  get_payload <$> grpc_Get demo_server 5 "k" = get_payload <$> thrift_Get demo_kv 5 "k".
Proof. exact (proj1 (servers_agree demo_server demo_kv 5 eq_refl) "k"%string). Defined.

Lemma demo_multi_put :
  MultiPut demo_kv 5 demo_reqs = Ret (mkKvImpl (mkStore (Some {["k"%string := "w"%string]}) false),
                                      Ok (mkPutResponse (thrift_header 5))).
Proof. vm_compute. reflexivity. Defined.

Example MultiPut_is_puts_witness :
  holds (mkStore (DB := map_db) (Some {["k"%string := "w"%string]}) false) = put_pairs (holds store0) demo_reqs.
Proof. exact (proj1 (MultiPut_is_puts _ _ _ _ _ demo_multi_put)). Defined.

Lemma demo_grpc_put :
  grpc_Put demo_server 5 (mkPutRequest "k" "v") =
  Ret (with_store demo_server store1, Ok (mkPutResponse (grpc_header demo_server 5))).
Proof. vm_compute. reflexivity. Defined.
Lemma demo_grpc_get :
  grpc_Get (with_store demo_server store1) 6 "k" =
  Ret (Ok (mkGetResponse (grpc_header demo_server 6) [mkKeyValue "k" "v"])).
Proof. vm_compute. reflexivity. Defined.

Example grpc_put_then_get_witness :
  get_payload (Ok (mkGetResponse (grpc_header demo_server 6) [mkKeyValue "k" "v"])) = Ok [mkKeyValue "k" "v"].
Proof.
  destruct (grpc_put_then_get demo_server 5 (mkPutRequest "k" "v") _ _ 6 _ demo_grpc_put demo_grpc_get)
    as [(d & err & _ & Hg & _)|Hr]; [discriminate Hg|exact Hr].
Defined.

Example maxRecvMsgSize_bounds_witness :
  maxRecvMsgSize (mkServerConfig 9001 "db" 1000 "kv") = 525288%Z.
Proof. 
  refine (proj1 (maxRecvMsgSize_bounds (mkServerConfig 9001 "db" 1000 "kv") _) _); [simpl; lia|reflexivity].
Defined.
End Demo.
