(* ===== verification/ServerMain.v ===== *)
(** * test/grpc/server and test/thrift/server: the two server processes

    The thrift process serves in a goroutine while [main] waits for a signal and then
    stops the server; the grpc process serves in [main] and has no other way out than
    the end of [Serve].  A call of a handler is one step, which [KVServers] defines; its
    outcome is logged.  What the two libraries do between their calls is a parameter or a
    step of its own. *)
From S2P Require Import Prelude.
From S2P Require Import Health.
From S2P Require Import Store.
From S2P Require Import KVServers.

Section ServerMain.
Context {DB Batch : Type} `{!RocksDB DB Batch} `{!GoRange}.
Context (OpenDb : string -> result string DB).

#[local] Abbreviation thrift_server := (@ThriftServer DB).
#[local] Abbreviation grpc_server := (@GrpcServer DB).

(** How a process ends: with a status, or killed by a signal or a panic. *)
Inductive ended : Type := Status (n : Z) | Killed.

(** ** thrift *)

(** [serve_at]: the goroutine of [Start]; [main_at]: where [main] stands. *)
Inductive serve_at : Type := ToListen | Serving | Served.
Inductive main_at : Type := AwaitSignal | StopServer | CloseStore | Leave.

(** A call the client of an open connection can make: the four functions of the service. *)
Inductive thrift_call : Type :=
| CallPing | CallGet (key : string) | CallPut (req : PutRequest) | CallMultiPut (reqs : list PutRequest).

Record thrift_process : Type := mkProcess {
  tp_server : thrift_server;
  tp_serve : serve_at;
  tp_main : main_at;
  tp_calls : gmap nat thrift_call;        (* read from a connection, not yet handled *)
  tp_panics : nat;                        (* calls whose handler panicked *)
  tp_report : option string;              (* the error of [Serve] that [Start] printed *)
  tp_end : option ended
}.

Definition at_serve (p : thrift_process) s : thrift_process :=
  mkProcess (tp_server p) s (tp_main p) (tp_calls p) (tp_panics p) (tp_report p) (tp_end p).
Definition at_main (p : thrift_process) m : thrift_process :=
  mkProcess (tp_server p) (tp_serve p) m (tp_calls p) (tp_panics p) (tp_report p) (tp_end p).
Definition with_end (p : thrift_process) e : thrift_process :=
  mkProcess (tp_server p) (tp_serve p) (tp_main p) (tp_calls p) (tp_panics p) (tp_report p) (Some e).
Definition with_calls (p : thrift_process) cs : thrift_process :=
  mkProcess (tp_server p) (tp_serve p) (tp_main p) cs (tp_panics p) (tp_report p) (tp_end p).

Definition rocksdbDir : string := "/Users/xkey/raftlab/grpcvsthrift/data/thrift/rocksdb".

(** [None]: the process ended before it served anything. *)
(* src/test/thrift/server/server.go:10-12 main *)
Definition thrift_boot (socket_err : option string) : option thrift_process :=
  match NewThriftServer OpenDb socket_err 50052 rocksdbDir with
  | Ret (Some s) => Some (mkProcess s ToListen AwaitSignal ∅ 0 None None)
  | _ => None
  end.

(** When the library's [Stop] may return, given the calls in progress; it accepts no
    connection afterwards. *)
Context (stop_returns : gmap nat thrift_call -> bool).

Inductive thrift_move : Type :=
| Listen (err : option string)            (* [Serve] listens, or fails *)
| ServeEnds (err : option string)         (* [Serve] returns *)
| Accept (i : nat) (c : thrift_call)      (* a call has been read *)
| Handle (i : nat) (elapsed : Z)          (* its handler runs *)
| Signal | SigKill                        (* SIGINT or SIGTERM; SIGKILL, which cannot be caught *)
| MainStep.                               (* [main] goes on *)

(** [Start] prints and exits if [Serve] reports an error. *)
(* src/thrift/server/server.go:60-68 ThriftSever.Start *)
Definition serve_returns (p : thrift_process) (err : option string) : thrift_process :=
  match err with
  | Some err => mkProcess (tp_server p) (tp_serve p) (tp_main p) (tp_calls p) (tp_panics p) (Some err) (Some (Status 1))
  | None => at_serve p Served
  end.

(** [Stop] is taken apart at the call of the library: first its server, then the store. *)
(* src/thrift/server/server.go:52-58 ThriftSever.Stop *)
Definition stop_step (p : thrift_process) : option thrift_process :=
  match tp_main p with
  | AwaitSignal => None
  | StopServer => if stop_returns (tp_calls p) then Some (at_main p CloseStore) else None
  | CloseStore =>
      Some (mkProcess (thrift_Stop (tp_server p)) (tp_serve p) Leave (tp_calls p) (tp_panics p) (tp_report p) (tp_end p))
  | Leave => Some (with_end p (Status 0))
  end.

(** The handler's effect on the server; the library survives its panic.  [Ping] answers
    without the store. *)
Definition handle (s : thrift_server) (elapsed : Z) (c : thrift_call) : outcome thrift_server :=
  match c with
  | CallPing => Ret s
  | CallGet key => _ ← thrift_Get (ts_impl s) elapsed key; Ret s
  | CallPut req => '(kv, _) ← thrift_Put (ts_impl s) elapsed req; Ret (mkThriftServer (ts_port s) kv)
  | CallMultiPut reqs => '(kv, _) ← MultiPut (ts_impl s) elapsed reqs; Ret (mkThriftServer (ts_port s) kv)
  end.

(* src/test/thrift/server/server.go:14-21 main *)
Definition thrift_do (m : thrift_move) (p : thrift_process) : option thrift_process :=
  match tp_end p with
  | Some _ => None
  | None =>
      match m, tp_serve p, tp_main p with
      | Listen (Some err), ToListen, _ => Some (serve_returns p (Some err))
      | Listen None, ToListen, _ => Some (at_serve p Serving)
      | ServeEnds err, Serving, _ => Some (serve_returns p err)
      | Accept i c, Serving, (AwaitSignal | StopServer) =>
          if decide (tp_calls p !! i = None) then Some (with_calls p (<[i := c]> (tp_calls p))) else None
      | Handle i elapsed, _, _ =>
          c ← tp_calls p !! i;
          Some (match handle (tp_server p) elapsed c with
                | Ret s => mkProcess s (tp_serve p) (tp_main p) (delete i (tp_calls p)) (tp_panics p) (tp_report p) None
                | Panic => mkProcess (tp_server p) (tp_serve p) (tp_main p) (delete i (tp_calls p)) (S (tp_panics p)) (tp_report p) None
                end)
      | Signal, _, AwaitSignal => Some (at_main p StopServer)
      | SigKill, _, _ => Some (with_end p Killed)
      | MainStep, _, _ => stop_step p
      | _, _, _ => None
      end
  end.

Definition thrift_move_step (p p' : thrift_process) : Prop := exists m, thrift_do m p = Some p'.
Inductive thrift_runs : thrift_process -> Prop :=
| runs_boot p : thrift_boot None = Some p -> thrift_runs p
| runs_move p p' : thrift_runs p -> thrift_move_step p p' -> thrift_runs p'.

(** *** A process that stops in order *)
Definition store_of (p : thrift_process) : @RocksdbStore DB := kv_store (ts_impl (tp_server p)).

(** The store is closed exactly when [main] has closed it; and then, if [Stop] waits,
    nobody uses it. *)
Record process_ok (p : thrift_process) : Prop := {
  po_store : s_db (store_of p) = None <-> tp_main p = Leave;
  po_status : forall n, tp_end p = Some (Status n) ->
    n = 0%Z /\ tp_main p = Leave /\ tp_report p = None \/ n = 1%Z /\ is_Some (tp_report p);
  po_report : tp_end p = None -> tp_report p = None;
  po_calls : (forall cs, stop_returns cs = true -> cs = ∅) -> tp_panics p = 0 /\
    ((tp_main p = CloseStore \/ tp_main p = Leave) -> tp_calls p = ∅)
}.

Lemma handle_open (s : thrift_server) elapsed c :
  s_db (kv_store (ts_impl s)) <> None ->
  exists s', handle s elapsed c = Ret s' /\ s_db (kv_store (ts_impl s')) <> None.
Proof.
  intros Hs. unfold handle, thrift_Get, thrift_Put, MultiPut, Lookup, Write, BatchWrite, with_db.
  destruct c as [|key|req|reqs]; [by exists s|..]; destruct (s_db (kv_store (ts_impl s))) as [d|] eqn:Hd; try done; simpl.
  - exists s. destruct (db_Get d key) as [data|err]; [case_decide|]; by rewrite Hd.
  - by destruct (db_Put d _ _) as [d' [err|]]; eexists.
  - by destruct (db_Write d _) as [d' [err|]]; eexists.
Qed.

(** A closed store makes every call panic but [Ping]. *)
Lemma handle_closed (s : thrift_server) elapsed c :
  s_db (kv_store (ts_impl s)) = None -> handle s elapsed c = match c with CallPing => Ret s | _ => Panic end.
Proof.
  intros Hs. unfold handle, thrift_Get, thrift_Put, MultiPut, Lookup, Write, BatchWrite, with_db. rewrite Hs. by destruct c.
Qed.

Lemma boot_ok p : thrift_boot None = Some p -> process_ok p.
Proof.
  unfold thrift_boot, NewThriftServer, NewRocksdbStore. destruct (OpenDb rocksdbDir) as [d|]; [|done]. intros [= <-].
  split; [done..|]. intros _. split; [done|]. by intros [|].
Qed.

Lemma Handle_ok p i elapsed c p' :
  process_ok p -> tp_end p = None -> tp_calls p !! i = Some c ->
  p' = match handle (tp_server p) elapsed c with
       | Ret s => mkProcess s (tp_serve p) (tp_main p) (delete i (tp_calls p)) (tp_panics p) (tp_report p) None
       | Panic => mkProcess (tp_server p) (tp_serve p) (tp_main p) (delete i (tp_calls p)) (S (tp_panics p)) (tp_report p) None
       end -> process_ok p'.
Proof.
  intros [Hst Hend Hrep Hcalls] He Hi ->. unfold store_of in *. specialize (Hrep He).
  destruct (decide (s_db (kv_store (ts_impl (tp_server p))) = None)) as [Hc|Ho].
  - assert (Hno : ~ forall cs, stop_returns cs = true -> cs = ∅).
    { intros Hw. destruct (Hcalls Hw) as [_ Hno]. rewrite Hno in Hi by (right; by apply Hst). by rewrite lookup_empty in Hi. }
    rewrite (handle_closed _ elapsed c Hc). by destruct c; split.
  - destruct (handle_open _ elapsed c Ho) as (s' & -> & Hs'). split; simpl; [|done|done|].
    + split; intros Hx; [by destruct Hs'|]. destruct Ho. by apply Hst.
    + intros Hw. destruct (Hcalls Hw) as [Hp Hno]. split; [done|]. intros Hm. rewrite (Hno Hm). apply delete_empty.
Qed.

Lemma stop_step_ok p p' : process_ok p -> tp_end p = None -> stop_step p = Some p' -> process_ok p'.
Proof.
  intros [Hst Hend Hrep Hcalls] He. specialize (Hrep He). unfold stop_step. destruct (tp_main p) eqn:Hm; [done| | |].
  - destruct (stop_returns (tp_calls p)) eqn:Hr; [|done]. intros [= <-]. split; simpl; [|by rewrite He|done|].
    + split; [|done]. by intros Hx%Hst.
    + intros Hw. split; [by apply Hcalls|]. intros _. by apply Hw.
  - intros [= <-]. split; simpl; [done|by rewrite He|done|].
    intros Hw. destruct (Hcalls Hw) as [Hp Hno]. split; [done|]. intros _. apply Hno. by left.
  - intros [= <-]. split; simpl; [by rewrite Hm| |done|].
    + intros n [= <-]. by left.
    + intros Hw. destruct (Hcalls Hw) as [Hp Hno]. split; [done|]. intros _. apply Hno. by right.
Qed.

(** The goroutine of [Start] moves on, or the process is killed. *)
Lemma serve_step_ok p sv e :
  process_ok p -> tp_end p = None -> e = None \/ e = Some Killed ->
  process_ok (mkProcess (tp_server p) sv (tp_main p) (tp_calls p) (tp_panics p) (tp_report p) e).
Proof. intros [Hst Hend Hrep Hcalls] He Hx. split; [done| |by intros _; apply Hrep|done]. by destruct Hx as [-> | ->]. Qed.
Lemma serve_fails_ok p err : process_ok p -> process_ok (serve_returns p (Some err)).
Proof. intros [Hst Hend Hrep Hcalls]. split; [done| |done|done]. intros n [= <-]. right. by split. Qed.

(** Before [main] has stopped the server calls come in, and a signal moves it on. *)
Lemma running_ok p m cs :
  process_ok p -> tp_end p = None -> tp_main p = AwaitSignal \/ tp_main p = StopServer ->
  m = AwaitSignal \/ m = StopServer ->
  process_ok (mkProcess (tp_server p) (tp_serve p) m cs (tp_panics p) (tp_report p) (tp_end p)).
Proof.
  intros [Hst Hend Hrep Hcalls] He Hp Hm. split; simpl; [|by rewrite He|done|].
  - unfold store_of in *. simpl. rewrite Hst. by destruct Hp as [-> | ->], Hm as [-> | ->].
  - intros Hw. destruct (Hcalls Hw) as [? _]. split; [done|]. by destruct Hm as [-> | ->]; intros [|].
Qed.

Lemma thrift_do_ok m p p' : process_ok p -> thrift_do m p = Some p' -> process_ok p'.
Proof.
  intros Hok. unfold thrift_do. destruct (tp_end p) eqn:He; [done|].
  destruct m as [[err|]|[err|]|i c|i elapsed| | |].
  - destruct (tp_serve p); [|done..]. intros [= <-]. by apply serve_fails_ok.
  - destruct (tp_serve p); [|done..]. intros [= <-]. unfold at_serve. rewrite He. by apply serve_step_ok; [..|left].
  - destruct (tp_serve p); [done| |done]. intros [= <-]. by apply serve_fails_ok.
  - destruct (tp_serve p); [done| |done]. intros [= <-]. unfold serve_returns, at_serve. rewrite He.
    by apply serve_step_ok; [..|left].
  - destruct (tp_serve p); [done| |done]. destruct (tp_main p) eqn:Hm; [| |done..];
      (case_decide; [|done]); intros [= <-]; unfold with_calls; apply running_ok; rewrite ?Hm; auto.
  - intros Hx. destruct (tp_calls p !! i) as [c|] eqn:Hi; [|by destruct (tp_serve p), (tp_main p)].
    eapply (Handle_ok p i elapsed c); [done..|]. destruct (tp_serve p), (tp_main p); by injection Hx as <-.
  - intros Hx. assert (tp_main p = AwaitSignal /\ Some (at_main p StopServer) = Some p') as [Hm [= <-]]
      by (by destruct (tp_serve p), (tp_main p)). apply running_ok; auto.
  - intros Hx. assert (Some (with_end p Killed) = Some p') as [= <-] by (by destruct (tp_serve p), (tp_main p)).
    by apply (serve_step_ok p (tp_serve p) (Some Killed)); [..|right].
  - intros Hx. apply (stop_step_ok p); [done..|]. by destruct (tp_serve p), (tp_main p).
Qed.

(** C29: the thrift process stops in order.  Its clients make the four calls of the service,
    any time it serves.  If the library's [Stop] returns only when no call is in progress, and
    none is accepted after it, no handler ever panics on the closed store.  The store is
    open until [main] closes it, which is its last act.  If the process ends with a
    status of its own, that is 0 after the store was closed, and no error of [Serve] was
    reported, or it is 1 after [Start] printed the error that [Serve] returned. *)
Theorem thrift_process_stops p :
  (forall cs, stop_returns cs = true -> cs = ∅) -> thrift_runs p ->
  tp_panics p = 0 /\ (s_db (store_of p) = None <-> tp_main p = Leave) /\
  (forall n, tp_end p = Some (Status n) ->
     n = 0%Z /\ s_db (store_of p) = None /\ tp_report p = None \/ n = 1%Z /\ is_Some (tp_report p)).
Proof.
  intros Hw Hr. assert (Hok : process_ok p).
  { induction Hr as [p Hb|p p' _ IH [m Hm]]; [by apply boot_ok|by eapply thrift_do_ok]. }
  destruct Hok as [Hst Hend _ Hcalls]. split; [by apply Hcalls|]. split; [done|].
  intros n [(-> & Hl & Hn)|Hn]%Hend; [|by right]. left. split; [done|]. split; [by apply Hst|done].
Qed.

(** ** grpc *)
(* src/test/grpc/server/server.go:22-28 main *)
Definition grpc_config : ServerConfig :=
  mkServerConfig 50051 "/Users/xkey/raftlab/grpcvsthrift/data/grpc/rocksdb" (2 * 1024 * 1024) "grpcvsthrift".

Record grpc_process : Type := mkGrpcProcess { gp_server : grpc_server; gp_serving : bool; gp_end : option ended }.

Inductive grpc_call : Type := GrpcGet (key : string) | GrpcPut (req : PutRequest) | GrpcStreamed (answers : list recv).

(** The handler's effect; a stream that is not ended is still read. *)
Definition grpc_handle (s : grpc_server) (elapsed : Z) (c : grpc_call) : outcome grpc_server :=
  match c with
  | GrpcGet key => _ ← grpc_Get s elapsed key; Ret s
  | GrpcPut req => '(s, _) ← grpc_Put s elapsed req; Ret s
  | GrpcStreamed answers =>
      match PutStream s elapsed answers (fun _ => None) with
      | None => Ret s
      | Some r => '(s, _) ← r; Ret s
      end
  end.

Inductive grpc_move : Type :=
| GStart (listen_err : option string) (chans : channels)
| GHandle (elapsed : Z) (c : grpc_call)
| GServeEnds                              (* [Serve] returns; its error is not looked at *)
| GKill.

(** A panic of a handler ends a grpc process; nothing calls [Stop]. *)
(* src/test/grpc/server/server.go:30-33 main *)
Definition grpc_do (m : grpc_move) (p : grpc_process) : option grpc_process :=
  match gp_end p with
  | Some _ => None
  | None =>
      match m, gp_serving p with
      | GStart err chans, false =>
          match Start err (gp_server p) chans with
          | Panic => Some (mkGrpcProcess (gp_server p) false (Some Killed))
          | Ret None => None
          | Ret (Some (_, s, _)) => Some (mkGrpcProcess s true None)
          end
      | GHandle elapsed c, true =>
          Some (match grpc_handle (gp_server p) elapsed c with
                | Ret s => mkGrpcProcess s true None
                | Panic => mkGrpcProcess (gp_server p) true (Some Killed)
                end)
      | GServeEnds, true => Some (mkGrpcProcess (gp_server p) true (Some (Status 0)))
      | GKill, _ => Some (mkGrpcProcess (gp_server p) (gp_serving p) (Some Killed))
      | _, _ => None
      end
  end.

Inductive grpc_runs : grpc_process -> Prop :=
| grpc_boot s : NewGrpcServer OpenDb grpc_config = Ret s -> grpc_runs (mkGrpcProcess s false None)
| grpc_moves p m p' : grpc_runs p -> grpc_do m p = Some p' -> grpc_runs p'.

Lemma grpc_handle_open (s : grpc_server) elapsed c :
  s_db (gs_store s) <> None -> exists s', grpc_handle s elapsed c = Ret s' /\ s_db (gs_store s') <> None.
Proof.
  intros Hs. unfold grpc_handle, grpc_Get, grpc_Put, PutStream, Lookup, Write, BatchWrite, with_db.
  destruct (s_db (gs_store s)) as [d|] eqn:Hd; [|done]. destruct c as [key|req|answers]; simpl.
  - exists s. destruct (db_Get d key) as [data|err]; [case_decide|]; by rewrite Hd.
  - by destruct (db_Put d _ _) as [d' [err|]]; eexists.
  - destruct (recv_all answers NewWriteBatch) as [wb|]; simpl; [|exists s; by rewrite Hd].
    by destruct (db_Write d wb) as [d' [err|]]; eexists.
Qed.

(** The grpc process never closes its store: whatever ends it, [Stop] is not called, and
    a status of its own is 0, whether [Serve] failed or not.  No handler panics. *)
Theorem grpc_process_keeps_store p :
  grpc_runs p -> s_db (gs_store (gp_server p)) <> None /\ (forall n, gp_end p = Some (Status n) -> n = 0%Z) /\
  forall elapsed c, grpc_handle (gp_server p) elapsed c <> Panic.
Proof.
  intros Hr. assert (Hall : s_db (gs_store (gp_server p)) <> None /\ forall n, gp_end p = Some (Status n) -> n = 0%Z).
  { induction Hr as [s Hb|p m p' _ [Ho He] Hm].
    - revert Hb. unfold NewGrpcServer, NewRocksdbStore. destruct (OpenDb _); by intros [= <-].
    - revert Hm. unfold grpc_do. destruct (gp_end p); [done|]. destruct m as [err chans|elapsed c| |], (gp_serving p); try done.
      + unfold Start. destruct err; [by intros [= <-]|].
        destruct (SetServingStatus _ _ _ _) as [[h ch]|]; simpl; [by intros [= <-]|done].
      + destruct (grpc_handle_open _ elapsed c Ho) as (s' & -> & Hs'). by intros [= <-].
      + intros [= <-]. split; [done|]. by intros n [= <-].
      + by intros [= <-].
      + by intros [= <-]. }
  split; [apply Hall|]. split; [apply Hall|]. intros elapsed c. by destruct (grpc_handle_open _ elapsed c (proj1 Hall)) as (s & -> & _).
Qed.
End ServerMain.

(** ** Runs, over the map database *)
Section Demo.
#[local] Existing Instance range_in_key_order.

Definition demo_open (dir : string) : result string map_db := Ok ∅.
(** A library whose [Stop] waits for the calls, and one whose [Stop] does not. *)
Definition stop_waits (cs : gmap nat thrift_call) : bool := bool_decide (cs = ∅).
Definition stop_at_once (cs : gmap nat thrift_call) : bool := true.

Fixpoint thrift_run (stop_returns : gmap nat thrift_call -> bool) (ms : list thrift_move) (p : @thrift_process map_db)
    : option thrift_process :=
  match ms with [] => Some p | m :: ms => p ← thrift_do stop_returns m p; thrift_run stop_returns ms p end.

Lemma thrift_run_runs stop_returns ms p p' :
  thrift_runs demo_open stop_returns p -> thrift_run stop_returns ms p = Some p' -> thrift_runs demo_open stop_returns p'.
Proof.
  revert p. induction ms as [|m ms IH]; intros p Hr; simpl; [by intros [= <-]|].
  destruct (thrift_do stop_returns m p) as [p1|] eqn:Hm; [|done]. intros Hp. eapply IH; [|exact Hp].
  eapply runs_move; [exact Hr|by exists m].
Qed.

Definition demo_moves : list thrift_move :=
  [Listen None; Accept 0 (CallMultiPut [mkPutRequest "k" "v"]); Accept 1 CallPing; Signal; Handle 0 5; Handle 1 2;
   MainStep; MainStep; MainStep].

Example thrift_process_stops_witness :
  exists p0 p, thrift_boot demo_open None = Some p0 /\ thrift_run stop_waits demo_moves p0 = Some p /\
    tp_panics p = 0 /\ tp_end p = Some (Status 0).
Proof.
  destruct (thrift_boot demo_open None) as [p0|] eqn:H0; [|discriminate H0].
  destruct (thrift_run stop_waits demo_moves p0) as [p|] eqn:Hp; [|vm_compute in H0; injection H0 as <-; discriminate Hp].
  exists p0, p. split; [reflexivity|]. split; [exact Hp|]. split.
  - refine (proj1 (thrift_process_stops demo_open stop_waits p _ _)).
    + intros cs Hc. exact (bool_decide_eq_true_1 _ Hc).
    + eapply thrift_run_runs; [by apply runs_boot|exact Hp].
  - vm_compute in H0. injection H0 as <-. vm_compute in Hp. by injection Hp as <-.
Defined.

(** If [Stop] does not wait, a call in progress meets the closed store. *)
Definition demo_hasty : list thrift_move :=
  [Listen None; Accept 0 (CallGet "k"); Signal; MainStep; MainStep; Handle 0 5].

Example thrift_stop_panics : exists p, thrift_runs demo_open stop_at_once p /\ tp_panics p = 1.
Proof.
  assert (Hrun : tp_panics <$> (p0 ← thrift_boot demo_open None; thrift_run stop_at_once demo_hasty p0) = Some 1)
    by (vm_compute; reflexivity).
  destruct (thrift_boot demo_open None) as [p0|] eqn:H0; [|discriminate Hrun]. cbn [mbind option_bind] in Hrun.
  destruct (thrift_run stop_at_once demo_hasty p0) as [p|] eqn:Hp; [|discriminate Hrun].
  exists p. split; [eapply thrift_run_runs; [by apply runs_boot|exact Hp]|by injection Hrun].
Qed.

Example grpc_process_keeps_store_witness :
  exists s, NewGrpcServer demo_open grpc_config = Ret s /\ grpc_handle s 5 (GrpcPut (mkPutRequest "k" "v")) <> Panic.
Proof.
  destruct (NewGrpcServer demo_open grpc_config) as [s|] eqn:Hs; [|discriminate Hs].
  exists s. split; [reflexivity|].
  exact (proj2 (proj2 (grpc_process_keeps_store demo_open _ (grpc_boot demo_open s Hs))) 5%Z (GrpcPut (mkPutRequest "k" "v"))).
Defined.
End Demo.
