(* ===== verification/GrpcRemote.v ===== *)
(** * grpc/rpcpb: the calls of a grpc client on the store of the server

    The stubs the protobuf compiler generates for the service, on both sides: [kVClient]
    calls through the connection, whose interceptor retries ([Retry]); the handlers of
    [_KV_serviceDesc] decode a request and call the server ([KVServers]).  In between is
    grpc: what it carries where is the class [Transport], and [TransportLaws] what its
    documentation says of a unary call: it runs the handler of its path at most once,
    on the message sent and before the call returns; a success is what that handler
    returned, an error leaves open whether it ran.  Other clients may write at any time,
    what they are allowed to ([foreign]). *)
From S2P Require Import Prelude.
From S2P Require Import Store.
From S2P Require Import Health.
From S2P Require Import KVServers.
From S2P Require Import Retry.
From S2P Require Import Resolver.
From S2P Require Import GrpcClient.

(** ** Messages *)
(* src/grpc/rpcpb/rpc.pb.go:27-33 GetRequest *)
Record GetRequest : Type := mkGetRequest { gq_Key : string; gq_Serializable : bool }.

(** What a [interface{}] argument holds. *)
Inductive message : Type :=
| MGetRequest (m : GetRequest) | MGetResponse (m : GetResponse)
| MPutRequest (m : PutRequest) | MPutResponse (m : PutResponse).

(** [dec], by the type of the message it is asked for. *)
Record decoder : Type := mkDecoder {
  dec_GetRequest : result string GetRequest;
  dec_PutRequest : result string PutRequest
}.

(** ** The server's side *)
(* src/grpc/rpcpb/rpc.pb.go:430-434 KVServer *)
Class KVServer (S : Type) : Type := {
  srv_Get : S -> GetRequest -> outcome (S * result string GetResponse);
  srv_Put : S -> PutRequest -> outcome (S * result string PutResponse)
}.

Section ServiceDesc.
Context {S : Type} `{!KVServer S}.

(** A [grpc.UnaryHandler], and an interceptor around one, which gets the full method. *)
Definition UnaryHandler : Type := S -> message -> outcome (S * result string message).
Definition UnaryServerInterceptor : Type := string -> UnaryHandler -> UnaryHandler.
Definition method_handler : Type := S -> decoder -> option UnaryServerInterceptor -> outcome (S * result string message).

Definition as_message {A} (f : A -> message) (r : outcome (S * result string A)) : outcome (S * result string message) :=
  '(s, r) ← r; Ret (s, match r with Ok a => Ok (f a) | Err e => Err e end).

(** A message of another type fails the type assertion. *)
(* src/grpc/rpcpb/rpc.pb.go:455-471 _KV_Get_Handler *)
Definition KV_Get_Handler : method_handler := fun srv dec interceptor =>
  match dec_GetRequest dec with
  | Err err => Ret (srv, Err err)
  | Ok req =>
      match interceptor with
      | None => as_message MGetResponse (srv_Get srv req)
      | Some interceptor =>
          interceptor "/rpcpb.KV/Get"%string
            (fun srv req => match req with MGetRequest req => as_message MGetResponse (srv_Get srv req) | _ => Panic end)
            srv (MGetRequest req)
      end
  end.

(* src/grpc/rpcpb/rpc.pb.go:473-489 _KV_Put_Handler *)
Definition KV_Put_Handler : method_handler := fun srv dec interceptor =>
  match dec_PutRequest dec with
  | Err err => Ret (srv, Err err)
  | Ok req =>
      match interceptor with
      | None => as_message MPutResponse (srv_Put srv req)
      | Some interceptor =>
          interceptor "/rpcpb.KV/Put"%string
            (fun srv req => match req with MPutRequest req => as_message MPutResponse (srv_Put srv req) | _ => Panic end)
            srv (MPutRequest req)
      end
  end.

Record ServiceDesc : Type := mkServiceDesc { ServiceName : string; Methods : list (string * method_handler) }.

(* src/grpc/rpcpb/rpc.pb.go:517-538 _KV_serviceDesc *)
Definition KV_serviceDesc : ServiceDesc :=
  mkServiceDesc "rpcpb.KV" [("Get"%string, KV_Get_Handler); ("Put"%string, KV_Put_Handler)].

(** The handler grpc finds for a full method. *)
Definition handler_of (desc : ServiceDesc) (path : string) : option method_handler :=
  (fun p => snd (snd p)) <$>
    list_find (fun m => "/" +:+ ServiceName desc +:+ "/" +:+ fst m = path)%string (Methods desc).
End ServiceDesc.

(** [GrpcServer] as a server of the service; it measures [elapsed]. *)
Definition GrpcServer_KVServer {DB Batch : Type} `{!RocksDB DB Batch} (elapsed : Z) :
    KVServer (GrpcServer (DB := DB)) := {|
  srv_Get s req := r ← grpc_Get s elapsed (gq_Key req); Ret (s, r);
  srv_Put s req := grpc_Put s elapsed req
|}.

(** ** The client's side

    grpc, seen from a client in the world [W]: what its invoker does, the message the
    last call wrote to its [out], and the server at the other end. *)
Class Transport (W S error GrpcOption : Type) : Type := {
  raw_invoke : string -> message -> list GrpcOption -> W -> option error * W;
  out : W -> option message;
  server : W -> S
}.

Section Client.
Context {W error GrpcOption S : Type} `{EqDecision error} `{!RpcErrors error} `{!Transport W S error GrpcOption}.
Context (ctx_Err : W -> option ctx_error) (select_timer : Z -> W -> option ctx_error * W).
(** The interceptor the connection was dialed with. *)
Context (defaults : options (W := W)) (optFuncs : list (retryOption (W := W))).
#[local] Abbreviation call_option := (CallOption (W := W) (GrpcOption := GrpcOption)).

(** [cc.Invoke]: the interceptor around grpc's invoker, with the events it makes. *)
Definition Invoke (method : string) (req : message) (opts : list call_option) (w : W) :=
  unaryClientInterceptor (Stream := unit) (Msg := unit) ctx_Err select_timer (raw_invoke method req)
    defaults optFuncs opts w.

(** A [nil] answer of [Invoke] with the message of another type in [out] is not
    expected: it would be a zero message. *)
(* src/grpc/rpcpb/rpc.pb.go:378-385 kVClient.Get *)
Definition kVClient_Get (in_ : GetRequest) (opts : list call_option) (w : W) : result error (option GetResponse) * W :=
  let '(err, w, _) := Invoke "/rpcpb.KV/Get" (MGetRequest in_) opts w in
  match err with
  | Some err => (Err err, w)
  | None => (Ok (match out w with Some (MGetResponse out) => Some out | _ => None end), w)
  end.

(* src/grpc/rpcpb/rpc.pb.go:387-394 kVClient.Put *)
Definition kVClient_Put (in_ : PutRequest) (opts : list call_option) (w : W) : result error (option PutResponse) * W :=
  let '(err, w, _) := Invoke "/rpcpb.KV/Put" (MPutRequest in_) opts w in
  match err with
  | Some err => (Err err, w)
  | None => (Ok (match out w with Some (MPutResponse out) => Some out | _ => None end), w)
  end.
End Client.

(** ** The pairs of the store while calls run *)

(** What happened at the server during a call: the call's own puts, the ones the
    database refused, and the puts of others. *)
Inductive entry : Type := Mine (q : PutRequest) | Refused (q : PutRequest) | Other (q : PutRequest).

Definition apply_entry (m : gmap string string) (e : entry) : gmap string string :=
  match e with Mine q | Other q => <[pr_Key q := pr_Value q]> m | Refused _ => m end.
Definition after (m : gmap string string) (h : list entry) : gmap string string := foldl apply_entry m h.
Definition is_other (e : entry) : Prop := match e with Other _ => True | _ => False end.
#[local] Instance is_other_dec e : Decision (is_other e).
Proof. destruct e; apply _. Defined.
(** The executions of the call itself. *)
Definition own (h : list entry) : list entry := filter (fun e => ~ is_other e) h.

Lemma after_app m h1 h2 : after m (h1 ++ h2) = after (after m h1) h2.
Proof. apply foldl_app. Qed.
Lemma after_others m reqs : after m (Other <$> reqs) = put_pairs m reqs.
Proof. revert m. induction reqs as [|q reqs IH]; intros m; [done|]. apply IH. Qed.
Lemma own_app h1 h2 : own (h1 ++ h2) = own h1 ++ own h2.
Proof. apply filter_app. Qed.
Lemma own_others reqs : own (Other <$> reqs) = [].
Proof. apply filter_none. intros e Hin. apply list_elem_of_fmap in Hin as (q & -> & _). simpl. tauto. Qed.
Lemma own_nil h : own h = [] -> exists reqs, h = Other <$> reqs.
Proof.
  unfold own. induction h as [|e h IH]; [by exists []|]. rewrite filter_cons. case_decide as He; [done|].
  intros (reqs & ->)%IH. destruct e as [q|q|q]; [by destruct He; intros []..|]. by exists (q :: reqs).
Qed.

Section Remote.
Context {DB Batch : Type} `{!RocksDB DB Batch} `{!RocksDBLaws DB Batch}.
#[local] Abbreviation grpc_server := (GrpcServer (DB := DB)).
Context {W error GrpcOption : Type} `{EqDecision error} `{!RpcErrors error}.
Context `{!Transport W grpc_server error GrpcOption}.
Context (ctx_Err : W -> option ctx_error) (select_timer : Z -> W -> option ctx_error * W).
Context (defaults : options (W := W)) (optFuncs : list (retryOption (W := W))).
#[local] Set Default Proof Using "Type".

Definition pairs (s : grpc_server) : gmap string string := holds (gs_store s).

(** Other clients put pairs, some of those they may put. *)
Context (foreign : PutRequest -> Prop).
Definition others (s s' : grpc_server) : Prop := exists reqs, pairs s' = put_pairs (pairs s) reqs /\ Forall foreign reqs.

Definition decodes (dec : decoder) (m : message) : Prop :=
  match m with
  | MGetRequest r => dec_GetRequest dec = Ok r
  | MPutRequest r => dec_PutRequest dec = Ok r
  | _ => True
  end.

(** The handler of [path] ran on [m], between the states [s1] and [s2]. *)
Definition handled (path : string) (m : message) (s1 s2 : grpc_server) (answer : result string message) : Prop :=
  exists elapsed handler dec,
    handler_of (KV_serviceDesc (KVServer0 := GrpcServer_KVServer elapsed)) path = Some handler /\
    decodes dec m /\ handler s1 dec None = Ret (s2, answer).

Class TransportLaws : Prop := {
  raw_invoke_at_most_once path m opts w err w' : raw_invoke path m opts w = (err, w') ->
    (err <> None /\ others (server w) (server w')) \/
    exists s1 s2 answer, others (server w) s1 /\ handled path m s1 s2 answer /\ others s2 (server w') /\
      (err = None -> exists r, answer = Ok r /\ out w' = Some r);
  select_timer_others d w : others (server w) (server (snd (select_timer d w)))
}.

Context {laws : TransportLaws}.
#[local] Set Default Proof Using "Type laws".

Definition history (w : W) (h : list entry) (w' : W) : Prop :=
  pairs (server w') = after (pairs (server w)) h /\ forall q, Other q ∈ h -> foreign q.

Lemma history_app w h1 w1 h2 w2 : history w h1 w1 -> history w1 h2 w2 -> history w (h1 ++ h2) w2.
Proof.
  intros [H1 F1] [H2 F2]. split; [by rewrite after_app, <- H1|]. intros q [?|?]%elem_of_app; [by apply F1|by apply F2].
Qed.
Lemma history_nil w : history w [] w.
Proof. split; [done|]. intros q Hq. by apply not_elem_of_nil in Hq. Qed.
Lemma foreign_others reqs q : Forall foreign reqs -> Other q ∈ (Other <$> reqs) -> foreign q.
Proof. intros Hf (q' & [= <-] & Hin)%list_elem_of_fmap. by eapply Forall_forall in Hf. Qed.
Lemma others_history w w' : others (server w) (server w') -> exists reqs, history w (Other <$> reqs) w'.
Proof. intros (reqs & Hr & Hf). exists reqs. split; [by rewrite after_others|]. intros q. by apply foreign_others. Qed.

(** One invocation: its history, and what a success means of it. *)
Definition invocation (P : entry -> Prop) (final : W -> list entry -> W -> Prop) (w : W) (err : option error) (w' : W) :=
  exists h, history w h w' /\ Forall P (own h) /\ length (own h) <= 1 /\ (err = None -> final w h w').

Section Loop.
Context (invoker : list GrpcOption -> W -> option error * W) (P : entry -> Prop) (final : W -> list entry -> W -> Prop).
Context (Hinv : forall g w err w', invoker g w = (err, w') -> invocation P final w err w').
#[local] Abbreviation loop := (unary_loop (Stream := unit) (Msg := unit) ctx_Err select_timer invoker).

Lemma wait_history attempt co w e w' (ev : list (@event error unit unit)) :
  (forall n w, others (server w) (server (snd (o_backoffFunc co n w)))) ->
  waitRetryBackoff select_timer attempt co w = (e, w', ev) -> exists reqs, history w (Other <$> reqs) w'.
Proof.
  intros Hb. unfold waitRetryBackoff. pose proof (Hb attempt w) as Hb1.
  assert (Hd : exists d w1, (if decide (0 < attempt) then o_backoffFunc co attempt w else (0%Z, w)) = (d, w1) /\
            exists reqs, history w (Other <$> reqs) w1).
  { destruct (decide (0 < attempt)).
    - destruct (o_backoffFunc co attempt w) as [d w1]. exists d, w1. split; [done|]. by apply others_history.
    - exists 0%Z, w. split; [done|]. exists []. apply history_nil. }
  destruct Hd as (d & w1 & -> & reqs1 & H1). case_decide; [|intros [= _ <- _]; by eexists].
  pose proof (select_timer_others d w1) as Hs. destruct (select_timer d w1) as [i w2]. intros [= _ <- _].
  apply others_history in Hs as [reqs2 H2]. exists (reqs1 ++ reqs2). rewrite fmap_app. by eapply history_app.
Qed.

(** The whole loop, from its invocations. *)
Lemma loop_history co g n attempt lastErr w res w' ev :
  (forall n w, others (server w) (server (snd (o_backoffFunc co n w)))) ->
  loop co g n attempt lastErr w = (res, w', ev) ->
  exists h, history w h w' /\ Forall P (own h) /\ length (own h) <= length (invocations ev) /\
    (res = None -> (n = 0 -> lastErr <> None) -> exists h0 w1 h1, h = h0 ++ h1 /\ history w h0 w1 /\ final w1 h1 w').
Proof using Hinv laws.
  intros Hb. revert attempt lastErr w res w' ev. induction n as [|n IH]; intros attempt lastErr w res w' ev; simpl.
  { intros [= <- <- <-]. exists []. split; [apply history_nil|]. split; [by constructor|]. split; [simpl; lia|].
    intros Hl Hn. by destruct (Hn eq_refl). }
  destruct (waitRetryBackoff select_timer attempt co w) as [[werr w1] ev1] eqn:Hw.
  pose proof (wait_no_invocations _ _ _ _ _ _ _ Hw) as Hn1. apply wait_history in Hw as [reqs Hh1]; [|done].
  destruct werr as [e|].
  { intros [= <- <- <-]. exists (Other <$> reqs). rewrite own_others. split; [done|]. split; [by constructor|].
    split; [simpl; lia|done]. }
  destruct (invoker g w1) as [err w2] eqn:Hi. destruct (Hinv _ _ _ _ Hi) as (h2 & Hh2 & HP2 & Hl2 & Hf2).
  assert (Hstep : history w ((Other <$> reqs) ++ h2) w2) by by eapply history_app.
  assert (Hown : own ((Other <$> reqs) ++ h2) = own h2) by by rewrite own_app, own_others.
  destruct err as [err|].
  2: { intros [= <- <- <-]. exists ((Other <$> reqs) ++ h2). rewrite Hown, invocations_app, Hn1. simpl.
       split; [done|]. split; [done|]. split; [done|]. intros _ _. exists (Other <$> reqs), w1, h2.
       split; [done|]. split; [done|]. by apply Hf2. }
  destruct (try_again co (ctx_Err w2) err).
  2: { intros [= <- <- <-]. exists ((Other <$> reqs) ++ h2). rewrite Hown, invocations_app, Hn1. simpl. done. }
  destruct (loop co g n (S attempt) (Some err) w2) as [[res3 w3] ev3] eqn:Hl. intros [= <- <- <-].
  apply IH in Hl as (h3 & Hh3 & HP3 & Hl3 & Hf3). exists (((Other <$> reqs) ++ h2) ++ h3).
  rewrite own_app, Hown, !invocations_app, Hn1. split; [by eapply history_app|].
  split; [by apply Forall_app|]. split; [rewrite !length_app; simpl in *; lia|].
  intros Hres _. destruct (Hf3 Hres ltac:(done)) as (h0 & w0 & h1 & -> & Hh0 & Hf).
  exists (((Other <$> reqs) ++ h2) ++ h0), w0, h1. rewrite <- !app_assoc. split; [done|]. split; [|done].
  rewrite app_assoc. by eapply history_app.
Qed.
End Loop.

Lemma interceptor_history invoker P final opts w res w' ev :
  (forall g w err w', invoker g w = (err, w') -> invocation P final w err w') ->
  let co := effective (GrpcOption := GrpcOption) defaults optFuncs opts in
  (forall n w, others (server w) (server (snd (o_backoffFunc co n w)))) ->
  unaryClientInterceptor (Stream := unit) (Msg := unit) ctx_Err select_timer invoker defaults optFuncs opts w = (res, w', ev) ->
  exists h, history w h w' /\ Forall P (own h) /\ length (own h) <= Nat.max 1 (max co) /\
    (res = None -> exists h0 w1 h1, h = h0 ++ h1 /\ history w h0 w1 /\ final w1 h1 w').
Proof.
  intros Hinv co Hb Hrun. pose proof (interceptor_spec _ _ _ _ _ _ _ _ _ _ Hrun) as ([_ Hlen] & _). fold co in Hlen.
  unfold unaryClientInterceptor in Hrun. subst co. unfold effective in *. destruct (filterCallOptions opts) as [g ro]. simpl in *.
  set (co := reuseOrNewWithCallOptions _ ro) in *. clearbody co. destruct (decide (max co = 0)) as [Hz|Hz].
  - destruct (invoker g w) as [err w1] eqn:Hi. injection Hrun as <- <- <-.
    destruct (Hinv _ _ _ _ Hi) as (h & Hh & HP & Hl & Hf). exists h. split; [done|]. split; [done|]. split; [lia|].
    intros Hr. exists [], w, h. split; [done|]. split; [apply history_nil|]. by apply Hf.
  - apply (loop_history invoker P final Hinv) in Hrun as (h & Hh & HP & Hl & Hf); [|done].
    exists h. split; [done|]. split; [done|]. split; [lia|]. intros Hr. by apply Hf.
Qed.

(** ** What a call finds and leaves *)
Lemma handled_Put q s1 s2 answer :
  handled "/rpcpb.KV/Put" (MPutRequest q) s1 s2 answer ->
  match answer with
  | Ok r => (exists resp, r = MPutResponse resp) /\ pairs s2 = <[pr_Key q := pr_Value q]> (pairs s1)
  | Err _ => pairs s2 = pairs s1
  end.
Proof using RocksDBLaws0.
  intros (elapsed & handler & dec & [= <-] & Hdec & Hrun). simpl in Hdec. unfold KV_Put_Handler in Hrun.
  rewrite Hdec in Hrun. apply outcome_bind_Ret in Hrun as ([s r] & Hput & [= <- <-]).
  unfold srv_Put, GrpcServer_KVServer, grpc_Put in Hput. apply outcome_bind_Ret in Hput as ([st err] & Hw & Hr).
  apply Write_spec in Hw as (_ & _ & _ & Hh). destruct err; injection Hr as <- <-; simpl; [done|].
  split; [by eexists|done].
Qed.

(** A read answers what is held, and changes nothing. *)
Lemma handled_Get q s1 s2 answer :
  handled "/rpcpb.KV/Get" (MGetRequest q) s1 s2 answer ->
  s2 = s1 /\ match answer with
  | Ok r => exists resp v, r = MGetResponse resp /\ found (pairs s1) (gq_Key q) = Ok v /\ Kvs resp = [mkKeyValue (gq_Key q) v]
  | Err _ => True
  end.
Proof using RocksDBLaws0.
  intros (elapsed & handler & dec & [= <-] & Hdec & Hrun). simpl in Hdec. unfold KV_Get_Handler in Hrun.
  rewrite Hdec in Hrun. apply outcome_bind_Ret in Hrun as ([s r] & Hget & [= <- <-]).
  unfold srv_Get, GrpcServer_KVServer, grpc_Get in Hget. apply outcome_bind_Ret in Hget as (r' & Hget & [= <- <-]).
  split; [done|]. apply outcome_bind_Ret in Hget as (look & Hl & Hr). destruct look as [v|e]; injection Hr as <-; [|done].
  apply Lookup_spec in Hl as [(d & err & _ & _ & ?)|Hv]; [done|]. by do 2 eexists.
Qed.

(** The call's own steps [e] between the puts of others. *)
Lemma others_sides w s1 e s2 w' :
  others (server w) s1 -> pairs s2 = after (pairs s1) e -> own e = e -> others s2 (server w') ->
  exists reqs1 reqs2, pairs s1 = put_pairs (pairs (server w)) reqs1 /\
    history w ((Other <$> reqs1) ++ e ++ (Other <$> reqs2)) w' /\ own ((Other <$> reqs1) ++ e ++ (Other <$> reqs2)) = e.
Proof.
  intros (reqs1 & H1 & F1) H2 He (reqs2 & H3 & F2). exists reqs1, reqs2. split; [done|]. split; [split|].
  - by rewrite !after_app, !after_others, H3, H2, H1.
  - intros q. rewrite !elem_of_app. intros [Hq|[Hq|Hq]]; [by apply (foreign_others reqs1)| |by apply (foreign_others reqs2)].
    exfalso. rewrite <- He in Hq. unfold own in Hq. apply list_elem_of_filter in Hq as [Hq _]. by apply Hq.
  - by rewrite !own_app, !own_others, He, app_nil_r.
Qed.

Definition put_entry (q : PutRequest) (e : entry) : Prop := e = Mine q \/ e = Refused q.
Definition put_done (q : PutRequest) (_ : W) (h : list entry) (w' : W) : Prop :=
  (exists h0 reqs, h = h0 ++ Mine q :: (Other <$> reqs)) /\ exists resp, out w' = Some (MPutResponse resp).

Lemma put_invocation q g w err w' :
  raw_invoke "/rpcpb.KV/Put" (MPutRequest q) g w = (err, w') -> invocation (put_entry q) (put_done q) w err w'.
Proof using laws RocksDBLaws0.
  intros Hi. destruct (raw_invoke_at_most_once _ _ _ _ _ _ Hi) as [[Herr Ho]|(s1 & s2 & answer & H1 & Hh & H2 & Hok)].
  { apply others_history in Ho as [reqs Ho]. exists (Other <$> reqs). rewrite own_others.
    split; [done|]. split; [by constructor|]. split; [simpl; lia|]. done. }
  apply handled_Put in Hh. destruct answer as [r|e].
  - destruct Hh as [[resp ->] Hp]. destruct (others_sides w s1 [Mine q] s2 w' H1 Hp eq_refl H2) as (reqs1 & reqs2 & _ & Hh & Ho).
    eexists. split; [exact Hh|]. rewrite Ho. split; [repeat constructor|]. split; [simpl; lia|]. intros Herr.
    destruct (Hok Herr) as (r & [= <-] & Hout). split; [by exists (Other <$> reqs1), reqs2|by exists resp].
  - destruct (others_sides w s1 [Refused q] s2 w' H1 Hh eq_refl H2) as (reqs1 & reqs2 & _ & Hh' & Ho).
    eexists. split; [exact Hh'|]. rewrite Ho. split; [repeat constructor; by right|]. split; [simpl; lia|]. intros Herr.
    by destruct (Hok Herr) as (r & ? & _).
Qed.

Definition get_done (q : GetRequest) (w : W) (h : list entry) (w' : W) : Prop :=
  exists h1 h2 v resp, h = h1 ++ h2 /\ found (after (pairs (server w)) h1) (gq_Key q) = Ok v /\
    out w' = Some (MGetResponse resp) /\ Kvs resp = [mkKeyValue (gq_Key q) v].

Lemma get_invocation q g w err w' :
  raw_invoke "/rpcpb.KV/Get" (MGetRequest q) g w = (err, w') -> invocation (fun _ => False) (get_done q) w err w'.
Proof using laws RocksDBLaws0.
  intros Hi. destruct (raw_invoke_at_most_once _ _ _ _ _ _ Hi) as [[Herr Ho]|(s1 & s2 & answer & H1 & Hh & H2 & Hok)].
  { apply others_history in Ho as [reqs Ho]. exists (Other <$> reqs). rewrite own_others.
    split; [done|]. split; [by constructor|]. split; [simpl; lia|]. done. }
  apply handled_Get in Hh as [-> Hh]. destruct (others_sides w s1 [] s1 w' H1 eq_refl eq_refl H2) as (reqs1 & reqs2 & Hp & Hh' & Ho).
  eexists. split; [exact Hh'|]. rewrite Ho. split; [by constructor|]. split; [simpl; lia|]. intros Herr.
  destruct (Hok Herr) as (r & -> & Hout). destruct Hh as (resp & v & -> & Hf & Hk).
  exists (Other <$> reqs1), (Other <$> reqs2), v, resp. by rewrite after_others, <- Hp.
Qed.

Lemma after_own q h m :
  Forall (put_entry q) h -> after m h = m \/ after m h = <[pr_Key q := pr_Value q]> m.
Proof using Type.
  induction h as [|e h IH] using rev_ind; [by left|]. intros [Hh [He _]%Forall_cons]%Forall_app.
  rewrite after_app. destruct He as [-> | ->]; simpl; [|by apply IH].
  destruct (IH Hh) as [-> | ->]; right; [done|]. by rewrite insert_insert_eq.
Qed.

(** What the retries wait for lets others write. *)
Definition backoff_waits (opts : list (CallOption (W := W) (GrpcOption := GrpcOption))) : Prop :=
  forall n w, others (server w) (server (snd (o_backoffFunc (effective defaults optFuncs opts) n w))).

Lemma put_history q opts w r w' :
  backoff_waits opts -> kVClient_Put ctx_Err select_timer defaults optFuncs q opts w = (r, w') ->
  exists h, history w h w' /\ Forall (put_entry q) (own h) /\
    length (own h) <= Nat.max 1 (max (effective defaults optFuncs opts)) /\
    forall o, r = Ok o -> is_Some o /\ exists h0 reqs, h = h0 ++ Mine q :: (Other <$> reqs).
Proof using laws RocksDBLaws0.
  intros Hb. unfold kVClient_Put, Invoke.
  destruct (unaryClientInterceptor _ _ _ _ _ _ _) as [[err w1] ev] eqn:Hrun.
  apply (interceptor_history _ (put_entry q) (put_done q)) in Hrun as (h & Hh & HP & Hl & Hf);
    [|intros; by eapply put_invocation|done].
  intros Hr. exists h. assert (w1 = w') as -> by (destruct err; by injection Hr).
  split; [done|]. split; [done|]. split; [done|]. destruct err as [err|]; injection Hr as <-; [done|].
  destruct (Hf eq_refl) as (h0 & w2 & h1 & -> & _ & (h2 & reqs & ->) & resp & Hout). rewrite Hout.
  intros o [= <-]. split; [by eexists|]. exists (h0 ++ h2), reqs. by rewrite <- app_assoc.
Qed.

(** C11: what a [Put] does to the store, whatever the network does to it.  During the
    call the database sees the puts of others and at most [max] of the call's own, all
    of the pair asked for.  When the call reports success the last of its own
    succeeded, so the pair is held unless another client put the key later; when it
    reports an error the pair may have been put or not.  Without other clients the
    store is as before or has the pair, and has it after a success. *)
Theorem put_at_least_once q opts w r w' :
  backoff_waits opts -> kVClient_Put ctx_Err select_timer defaults optFuncs q opts w = (r, w') ->
  exists h, history w h w' /\ Forall (put_entry q) (own h) /\
    length (own h) <= Nat.max 1 (max (effective defaults optFuncs opts)) /\
    (forall o, r = Ok o -> is_Some o /\ exists h0 reqs, h = h0 ++ Mine q :: (Other <$> reqs)) /\
    (own h = h -> match r with
                  | Ok _ => pairs (server w') = <[pr_Key q := pr_Value q]> (pairs (server w))
                  | Err _ => pairs (server w') = pairs (server w) \/
                             pairs (server w') = <[pr_Key q := pr_Value q]> (pairs (server w))
                  end).
Proof using laws RocksDBLaws0.
  intros Hb Hr. destruct (put_history _ _ _ _ _ Hb Hr) as (h & Hh & HP & Hl & Hok). exists h.
  split; [done|]. split; [done|]. split; [done|]. split; [done|]. intros Ho. rewrite Ho in HP. rewrite (proj1 Hh).
  destruct r as [o|err]; [|by apply after_own]. destruct (Hok o eq_refl) as (_ & h0 & reqs & ->).
  rewrite after_app. apply Forall_app in HP as [HP [_ HP']%Forall_cons]. destruct reqs as [|x reqs].
  - simpl. destruct (after_own q _ (pairs (server w)) HP) as [-> | ->]; [done|]. by rewrite insert_insert_eq.
  - apply Forall_cons in HP' as [[?|?] _]; done.
Qed.

(** A [Get] that succeeds answers a value its key held at some moment of the call,
    under that key, whatever was retried and whatever others wrote; and no [Get]
    writes anything. *)
Theorem get_reads_held_value q opts w r w' :
  backoff_waits opts -> kVClient_Get ctx_Err select_timer defaults optFuncs q opts w = (r, w') ->
  exists reqs, history w (Other <$> reqs) w' /\
    forall o, r = Ok o -> exists resp k v, o = Some resp /\ Kvs resp = [mkKeyValue (gq_Key q) v] /\
      found (put_pairs (pairs (server w)) (take k reqs)) (gq_Key q) = Ok v.
Proof using laws RocksDBLaws0.
  intros Hb. unfold kVClient_Get, Invoke.
  destruct (unaryClientInterceptor _ _ _ _ _ _ _) as [[err w1] ev] eqn:Hrun.
  apply (interceptor_history _ (fun _ => False) (get_done q)) in Hrun as (h & Hh & HP & Hl & Hf);
    [|intros; by eapply get_invocation|done].
  intros Hr. assert (w1 = w') as -> by (destruct err; by injection Hr).
  assert (exists reqs, h = Other <$> reqs) as [reqs ->].
  { apply own_nil. destruct (own h) as [|e l]; [done|]. by apply Forall_cons in HP as [[] _]. }
  exists reqs. split; [done|]. intros o ->. destruct err as [err|]; [done|].
  destruct (Hf eq_refl) as (h0 & w2 & h1 & Heq & Hh0 & h2 & h3 & v & resp & -> & Hv & Hout & Hk).
  rewrite Hout in Hr. injection Hr as <-. exists resp, (length (h0 ++ h2)), v. split; [done|]. split; [done|].
  rewrite <- Hv, (proj1 Hh0), <- after_app. rewrite <- after_others, fmap_take, Heq, app_assoc, take_app_length. done.
Qed.
End Remote.

(** ** A network that loses replies

    It shows that the laws can hold, and what they allow.  Each invocation waits for
    the puts of others, those that are [foreign]; then its request may be lost, or its
    reply, with the error the client sees instead. *)
Definition anyone (q : PutRequest) : Prop := True.
Instance anyone_dec q : Decision (anyone q) := left I.

Section Network.
Context (foreign : PutRequest -> Prop) {foreign_dec : forall q, Decision (foreign q)}.
#[local] Abbreviation map_server := (GrpcServer (DB := map_db)).
Inductive fate : Type := Answered | RequestLost (e : string) | ReplyLost (e : string).
Record network : Type := mkNetwork {
  n_server : map_server;
  n_fates : list (list PutRequest * fate);
  n_out : option message
}.

Definition other_put (s : map_server) (q : PutRequest) : map_server :=
  match grpc_Put s 0 q with Ret (s, _) => s | Panic => s end.
Definition received (m : message) : decoder :=
  mkDecoder (match m with MGetRequest r => Ok r | _ => Err "wrong type"%string end)
    (match m with MPutRequest r => Ok r | _ => Err "wrong type"%string end).

Definition network_invoke (path : string) (m : message) (_ : list unit) (w : network) : option string * network :=
  let '(reqs, f, rest) := match n_fates w with [] => ([], Answered, []) | (reqs, f) :: rest => (reqs, f, rest) end in
  let s := foldl other_put (n_server w) (filter foreign reqs) in
  let answer := match handler_of (KV_serviceDesc (KVServer0 := GrpcServer_KVServer 0)) path with
                | Some handler => handler s (received m) None
                | None => Panic
                end in
  match f, answer with
  | RequestLost e, _ => (Some e, mkNetwork s rest (n_out w))
  | _, Panic => (Some "unavailable"%string, mkNetwork s rest (n_out w))
  | ReplyLost e, Ret (s, _) => (Some e, mkNetwork s rest (n_out w))
  | Answered, Ret (s, Err e) => (Some e, mkNetwork s rest (n_out w))
  | Answered, Ret (s, Ok r) => (None, mkNetwork s rest (Some r))
  end.

#[local] Instance network_transport : Transport network map_server string unit :=
  {| raw_invoke := network_invoke; out := n_out; server := n_server |}.
Definition network_timer (d : Z) (w : network) : option ctx_error * network := (None, w).

#[local] Abbreviation others := (others (DB := map_db) foreign).

Lemma others_refl s : others s s.
Proof. by exists []. Qed.
Lemma others_trans s1 s2 s3 : others s1 s2 -> others s2 s3 -> others s1 s3.
Proof.
  intros (r1 & H1 & F1) (r2 & H2 & F2). exists (r1 ++ r2). split; [|by apply Forall_app].
  unfold put_pairs in *. by rewrite foldl_app, <- H1.
Qed.
Lemma other_put_others s q : foreign q -> others s (other_put s q).
Proof.
  intros Hq. unfold other_put. destruct (grpc_Put s 0 q) as [[s' r]|] eqn:Hp; [|apply others_refl].
  unfold grpc_Put in Hp. apply outcome_bind_Ret in Hp as ([st err] & Hw & Hr).
  apply Write_spec in Hw as (_ & _ & _ & Hh). destruct err; injection Hr as <- <-; [by exists []|]. exists [q]. split; [done|by apply Forall_singleton].
Qed.
Lemma other_puts s reqs : Forall foreign reqs -> others s (foldl other_put s reqs).
Proof.
  intros Hf. revert s. induction Hf as [|q reqs Hq _ IH]; intros s; [apply others_refl|].
  eapply others_trans; [by apply other_put_others|apply IH].
Qed.

#[local] Instance network_laws : TransportLaws network_timer foreign.
Proof.
  split; [|intros; apply others_refl]. intros path m o w err w'. simpl. unfold network_invoke.
  destruct (match n_fates w with [] => _ | _ => _ end) as [[reqs f] rest].
  assert (Hfor : Forall foreign (filter foreign reqs)) by (apply Forall_forall; by intros q [? _]%list_elem_of_filter).
  pose proof (other_puts (n_server w) _ Hfor) as Ho. set (s := foldl other_put (n_server w) (filter foreign reqs)) in *.
  destruct (handler_of _ path) as [handler|] eqn:Hf.
  2: { destruct f; intros [= <- <-]; by left. }
  destruct (handler s (received m) None) as [[s' answer]|] eqn:Hh.
  2: { destruct f; intros [= <- <-]; by left. }
  assert (Hd : decodes (received m) m) by by destruct m.
  assert (Hrun : handled path m s s' answer) by (by exists 0%Z, handler, (received m)).
  destruct f.
  - intros Heq. right. exists s, s', answer. destruct answer as [r|e]; injection Heq as <- <-;
      (split; [done|split; [done|split; [apply others_refl|]]]); [by eexists|done].
  - intros [= <- <-]. by left.
  - intros [= <- <-]. right. exists s, s', answer. split; [done|]. split; [done|]. split; [apply others_refl|done].
Qed.

#[local] Instance canceled_errors : RpcErrors string := {|
  grpc_Code := fun e => if decide (e = "canceled"%string) then Canceled else Unavailable;
  rpctypes_Error := fun e => e;
  EtcdError_Code := fun _ => None;
  FromError := fun e => Some (if decide (e = "canceled"%string) then Canceled else Unavailable);
  ErrorDesc := fun e => e;
  Errorf := fun _ msg => msg;
  ErrInvalidAuthToken := "etcdserver: invalid auth token";
  EOF := "EOF"
|}%string.

(** The retry options of a client fresh from [NewGRPCClient]. *)
Definition fresh_client (_ : network) : @GrpcClient nat string unit :=
  mkGrpcClient None zero_Config None false [].
Definition half (w : network) : QArith_base.Q * network := (QArith_base.Qmake 1 2, w).
Definition client_options : list (retryOption (W := network)) :=
  [withMax defaultUnaryMaxRetries; rrBackoff half fresh_client].
Definition package_defaults : options := defaultOptions (fun w : network => (50%Z, w)).
Definition alive (_ : network) : option ctx_error := None.
Definition network_Put (q : PutRequest) : network -> result string (option PutResponse) * network :=
  kVClient_Put alive network_timer package_defaults client_options q [].
Definition network_Get (q : GetRequest) : network -> result string (option GetResponse) * network :=
  kVClient_Get alive network_timer package_defaults client_options q [].

Lemma network_waits : backoff_waits package_defaults client_options foreign [].
Proof. intros n w. by exists []. Qed.

Lemma map_grpc_Put s d k v :
  s_db (gs_store s) = Some d -> k <> "ro"%string ->
  exists s', grpc_Put s 0 (mkPutRequest k v) = Ret (s', Ok (KVServers.mkPutResponse (grpc_header s 0))) /\
    s_db (gs_store s') = Some (<[k := v]> d).
Proof.
  intros Hd Hk. unfold grpc_Put, Write, with_db. rewrite Hd. simpl. unfold map_put. rewrite decide_False by done.
  by eexists.
Qed.

(** A call whose first invocation is canceled and whose second succeeds. *)
Lemma second_attempt method m w w1 w2 :
  network_invoke method m [] w = (Some "canceled"%string, w1) -> network_invoke method m [] w1 = (None, w2) ->
  exists ev, Invoke alive network_timer package_defaults client_options method m [] w = (None, w2, ev).
Proof.
  intros H1 H2. unfold Invoke, unaryClientInterceptor. cbn [filterCallOptions]. set (co := reuseOrNewWithCallOptions _ []).
  assert (Hmax : exists n, max co = S (S n)) by by exists 98.
  assert (Hco : o_backoffFunc co = roundRobinQuorumBackoff half fresh_client defaultBackoffWaitBetween
            defaultBackoffJitterFraction) by done. clearbody co. destruct Hmax as [n Hmax]. rewrite !Hmax.
  rewrite decide_False by done. cbn [unary_loop]. unfold waitRetryBackoff. rewrite Hco. simpl. rewrite H1. simpl. rewrite H2. by eexists.
Qed.

End Network.

(** ** A retry that undoes the put of another client *)
Section RetriedPut.
#[local] Abbreviation map_server := (GrpcServer (DB := map_db)).
#[local] Instance anyones_transport : Transport network map_server string unit := network_transport anyone.
#[local] Abbreviation network_invoke := (network_invoke anyone).
#[local] Abbreviation network_Put := (network_Put anyone).

(** C36: a retried [Put] can undo the put of another client.  A client puts [v1]; the
    server stores it and the reply is lost with the code Canceled while the caller's
    context is alive.  Another client puts [v2] under the key and it is stored.  The
    retry then stores [v1] again and the call reports success: the later put of the
    other client is gone, although the first client asked for one put. *)
Theorem retried_put_overwrites s d k v1 v2 :
  s_db (gs_store s) = Some d -> k <> "ro"%string ->
  let put v := mkPutRequest k v in
  let w := mkNetwork s [([], ReplyLost "canceled"); ([put v2], Answered)] None in
  exists w1 resp w', raw_invoke "/rpcpb.KV/Put" (MPutRequest (put v1)) [] w = (Some "canceled"%string, w1) /\
    pairs (n_server w1) !! k = Some v1 /\ pairs (other_put (n_server w1) (put v2)) !! k = Some v2 /\
    network_Put (put v1) w = (Ok (Some resp), w') /\ pairs (n_server w') !! k = Some v1.
Proof.
  intros Hd Hk put w. subst put w. simpl.
  destruct (map_grpc_Put s d k v1 Hd Hk) as (s1 & H1 & Hd1).
  destruct (map_grpc_Put s1 _ k v2 Hd1 Hk) as (s2 & H2 & Hd2).
  destruct (map_grpc_Put s2 _ k v1 Hd2 Hk) as (s3 & H3 & Hd3).
  assert (Hi1 : network_invoke "/rpcpb.KV/Put" (MPutRequest (mkPutRequest k v1)) []
            (mkNetwork s [([], ReplyLost "canceled"); ([mkPutRequest k v2], Answered)] None) =
          (Some "canceled"%string, mkNetwork s1 [([mkPutRequest k v2], Answered)] None)).
  { unfold network_invoke. simpl. unfold KV_Put_Handler. simpl. by rewrite H1. }
  assert (Hi2 : network_invoke "/rpcpb.KV/Put" (MPutRequest (mkPutRequest k v1)) []
            (mkNetwork s1 [([mkPutRequest k v2], Answered)] None) =
          (None, mkNetwork s3 [] (Some (MPutResponse (KVServers.mkPutResponse (grpc_header s2 0)))))).
  { unfold network_invoke. simpl. unfold other_put, KV_Put_Handler. simpl. rewrite H2. simpl. by rewrite H3. }
  do 3 eexists. split; [exact Hi1|]. split; [|split; [|split]].
  - simpl. unfold pairs, holds. rewrite Hd1. apply lookup_insert_eq.
  - simpl. unfold other_put. rewrite H2. unfold pairs, holds. rewrite Hd2. apply lookup_insert_eq.
  - unfold network_Put, kVClient_Put. destruct (second_attempt anyone _ _ _ _ _ Hi1 Hi2) as [ev ->]. reflexivity.
  - simpl. unfold pairs, holds. rewrite Hd3. apply lookup_insert_eq.
Qed.
End RetriedPut.

(** ** Witnesses *)
Section Demo.
#[local] Existing Instances network_laws canceled_errors.
#[local] Instance demo_transport : Transport network (GrpcServer (DB := map_db)) string unit := network_transport anyone.
#[local] Abbreviation network_Put := (network_Put anyone).
#[local] Abbreviation network_Get := (network_Get anyone).
Definition demo_grpc_server : GrpcServer (DB := map_db) :=
  mkGrpcServer (mkServerConfig 50051 "db" 1000 "kv") NewHealthServer store0.
Definition demo_network : network := mkNetwork demo_grpc_server [([], ReplyLost "canceled")] None.

Definition demo_reply : PutResponse := KVServers.mkPutResponse (grpc_header demo_grpc_server 0).
Definition demo_stored : network := mkNetwork (with_store demo_grpc_server store1) [] (Some (MPutResponse demo_reply)).

Lemma demo_retried_put : network_Put (mkPutRequest "k" "v") demo_network = (Ok (Some demo_reply), demo_stored).
Proof. vm_compute. reflexivity. Defined.

Example put_at_least_once_witness :
  exists h, history anyone demo_network h demo_stored /\ length (own h) <= 100.
Proof.
  destruct (put_at_least_once _ _ _ _ anyone _ _ _ _ _ (network_waits anyone) demo_retried_put) as (h & Hh & _ & Hl & _). by exists h.
Defined.

Lemma demo_read : exists resp w', network_Get (mkGetRequest "k" false) demo_stored = (Ok (Some resp), w').
Proof. do 2 eexists. vm_compute. reflexivity. Defined.

Example get_reads_held_value_witness :
  exists resp w', network_Get (mkGetRequest "k" false) demo_stored = (Ok (Some resp), w') /\
    exists v, Kvs resp = [mkKeyValue "k" v].
Proof.
  destruct demo_read as (resp & w' & Hrun). exists resp, w'. split; [exact Hrun|].
  destruct (get_reads_held_value _ _ _ _ anyone _ _ _ _ _ (network_waits anyone) Hrun) as (reqs & _ & Ho).
  destruct (Ho _ eq_refl) as (resp' & _ & v & Heq & Hk & _). injection Heq as <-. exists v. exact Hk.
Defined.

Example retried_put_overwrites_witness :
  exists w', pairs (n_server w') !! "k"%string = Some "mine"%string.
Proof.
  destruct (retried_put_overwrites demo_grpc_server ∅ "k" "mine" "theirs" eq_refl ltac:(discriminate))
    as (_ & _ & w' & _ & _ & _ & _ & Hw). by exists w'.
Defined.
End Demo.
