(* ===== verification/GrpcStream.v ===== *)
(** * grpc/rpcpb: a batch of puts over a grpc stream

    The client's side of [PutStream] and how the load generator uses it: open a stream,
    send every request, close and wait for the reply.  The handler ([KVServers]) reads
    until its stream stops and then writes one batch, so what is written depends on
    how much of the stream reached it.  The class [StreamTransport] is grpc's stream,
    with what grpc has accepted on it and what the handler had received when it stopped;
    [StreamLaws] says what grpc documents: messages arrive in order, the handler runs
    once per stream, and a reply comes only when the handler got all of them. *)
From S2P Require Import Prelude.
From S2P Require Import Store.
From S2P Require Import Health.
From S2P Require Import KVServers.
From S2P Require Import GrpcRemote.

Class StreamTransport (W S error Stream : Type) : Type := {
  NewStream : string -> W -> result error Stream * W;
  SendMsg : Stream -> message -> W -> option error * W;
  CloseSend : Stream -> W -> option error * W;
  RecvMsg : Stream -> W -> option error * W;
  stream_out : W -> option message;
  stream_server : W -> S;
  (** the requests [SendMsg] has accepted, and those the handler got, once it stopped,
      with what it returned *)
  accepted : W -> Stream -> list PutRequest;
  handled_upto : W -> Stream -> option (list PutRequest * option string)
}.

Section Client.
Context {W S error Stream : Type} `{!StreamTransport W S error Stream}.

(* src/grpc/rpcpb/rpc.pb.go:396-403 kVClient.PutStream *)
Definition kVClient_PutStream (w : W) : result error Stream * W := NewStream "/rpcpb.KV/PutStream" w.

(* src/grpc/rpcpb/rpc.pb.go:415-417 kVPutStreamClient.Send *)
Definition kVPutStreamClient_Send (x : Stream) (m : PutRequest) (w : W) : option error * W :=
  SendMsg x (MPutRequest m) w.

(* src/grpc/rpcpb/rpc.pb.go:419-428 kVPutStreamClient.CloseAndRecv *)
Definition kVPutStreamClient_CloseAndRecv (x : Stream) (w : W) : result error (option PutResponse) * W :=
  let '(err, w) := CloseSend x w in
  match err with
  | Some err => (Err err, w)
  | None =>
      let '(err, w) := RecvMsg x w in
      match err with
      | Some err => (Err err, w)
      | None => (Ok (match stream_out w with Some (MPutResponse m) => Some m | _ => None end), w)
      end
  end.

(** The errors are counted and the loop goes on. *)
(* src/test/grpc/client/client.go:92-98 TestGrpcClient.consumeMQ *)
Fixpoint send_all (x : Stream) (reqs : list PutRequest) (counter : nat) (w : W) : nat * W :=
  match reqs with
  | [] => (counter, w)
  | req :: reqs =>
      let '(err, w) := kVPutStreamClient_Send x req w in
      send_all x reqs (match err with Some _ => counter + 1 | None => counter end) w
  end.

(** With the reply; [counter] counts the errors. *)
(* src/test/grpc/client/client.go:81-104 TestGrpcClient.consumeMQ *)
Definition put_batch (reqs : list PutRequest) (counter : nat) (w : W) : nat * W :=
  let '(stream, w) := kVClient_PutStream w in
  match stream with
  | Err _ => (counter + 1, w)
  | Ok stream =>
      let '(counter, w) := send_all stream reqs counter w in
      let '(reply, w) := kVPutStreamClient_CloseAndRecv stream w in
      (match reply with Err _ => counter + 1 | Ok _ => counter end, w)
  end.
End Client.

Section Batch.
Context {DB Batch : Type} `{!RocksDB DB Batch} `{!RocksDBLaws DB Batch}.
#[local] Abbreviation grpc_server := (GrpcServer (DB := DB)).
#[local] Abbreviation others := (others (DB := DB) anyone).
Context {W error Stream : Type} `{!StreamTransport W grpc_server error Stream}.

(** The handler ran on a stream that gave it [reqs] and then stopped. *)
Definition stream_handled (reqs : list PutRequest) (err : option string) (s1 s2 : grpc_server) : Prop :=
  exists elapsed stop SendAndClose, (forall req, stop <> Recv req) /\
    PutStream s1 elapsed ((Recv <$> reqs) ++ [stop]) SendAndClose = Some (Ret (s2, err)).

(** Between [w] and [w'] the handler of [x] went on: it still runs, or it stopped at some
    point, having received the first requests that were accepted. *)
Definition handler_runs (x : Stream) (w w' : W) : Prop :=
  (handled_upto w' x = handled_upto w x /\ others (stream_server w) (stream_server w')) \/
  (handled_upto w x = None /\ exists reqs err s1 s2, handled_upto w' x = Some (reqs, err) /\ reqs `prefix_of` accepted w' x /\
     others (stream_server w) s1 /\ stream_handled reqs err s1 s2 /\ others s2 (stream_server w')).

Class StreamLaws : Prop := {
  NewStream_law path w r w' : NewStream path w = (r, w') ->
    others (stream_server w) (stream_server w') /\
    forall x, r = Ok x -> accepted w' x = [] /\ handled_upto w' x = None;
  SendMsg_law x m w err w' : SendMsg x (MPutRequest m) w = (err, w') ->
    accepted w' x = accepted w x ++ (match err with None => [m] | Some _ => [] end) /\ handler_runs x w w';
  CloseSend_law x w err w' : CloseSend x w = (err, w') -> accepted w' x = accepted w x /\ handler_runs x w w';
  RecvMsg_law x w err w' : RecvMsg x w = (err, w') ->
    accepted w' x = accepted w x /\ handler_runs x w w' /\
    (err = None -> handled_upto w' x = Some (accepted w' x, None))
}.
Context {laws : StreamLaws}.
#[local] Set Default Proof Using "Type laws".

(** A batch that is not written is answered with an error. *)
Lemma stream_handled_pairs reqs err s1 s2 :
  stream_handled reqs err s1 s2 -> exists l, pairs s2 = put_pairs (pairs s1) l /\ (l = reqs \/ l = [] /\ err <> None).
Proof using RocksDBLaws0.
  intros (elapsed & stop & close & Hstop & Hrun). unfold PutStream in Hrun.
  rewrite recv_all_put_all in Hrun by done. simpl in Hrun. injection Hrun as Hrun.
  apply outcome_bind_Ret in Hrun as ([s e] & Hb & Hr). apply BatchWrite_spec in Hb as (_ & _ & _ & Hh).
  destruct e as [e|]; injection Hr as <- <-; unfold pairs; simpl; rewrite Hh; [exists []|exists reqs].
  - split; [done|]. by right.
  - rewrite puts_of_new. split; [apply foldl_put_pairs|by left].
Qed.

(** What the stream [x] has done to the store since [w0]: nothing yet, or one batch. *)
Definition batch_so_far (x : Stream) (w0 w : W) : Prop :=
  match handled_upto w x with
  | None => others (stream_server w0) (stream_server w)
  | Some (reqs, err) =>
      reqs `prefix_of` accepted w x /\
      exists before l after, (l = reqs \/ l = [] /\ err <> None) /\
        pairs (stream_server w) = put_pairs (pairs (stream_server w0)) (before ++ l ++ after)
  end.

Lemma put_pairs_app m l1 l2 : put_pairs m (l1 ++ l2) = put_pairs (put_pairs m l1) l2.
Proof using Type. apply foldl_app. Qed.

Lemma handler_runs_so_far x w0 w w' :
  batch_so_far x w0 w -> accepted w x `prefix_of` accepted w' x -> handler_runs x w w' -> batch_so_far x w0 w'.
Proof using RocksDBLaws0.
  unfold batch_so_far. intros Hw Hacc [[-> (after2 & Ho & _)]|(Hn & reqs & err & s1 & s2 & -> & Hpre & (l1 & H1 & _) & Hrun & (l2 & H2 & _))].
  - destruct (handled_upto w x) as [[reqs err]|].
    + destruct Hw as [Hpre (before & l & after & Hl & Hp)]. split; [by etrans|].
      exists before, l, (after ++ after2). split; [done|]. by rewrite Ho, Hp, !put_pairs_app.
    + destruct Hw as (l1 & H1 & _). exists (l1 ++ after2). split; [by rewrite Ho, H1, put_pairs_app|by apply Forall_true].
  - rewrite Hn in Hw. destruct Hw as (l0 & H0 & _). split; [done|].
    apply stream_handled_pairs in Hrun as (l & Hs & Hl). exists (l0 ++ l1), l, l2. split; [done|].
    by rewrite H2, Hs, H1, H0, !put_pairs_app.
Qed.

Lemma send_all_so_far x w0 reqs counter w counter' w' :
  batch_so_far x w0 w -> send_all x reqs counter w = (counter', w') ->
  batch_so_far x w0 w' /\ counter <= counter' /\
  exists sent, accepted w' x = accepted w x ++ sent /\ sent `sublist_of` reqs /\ (counter' = counter -> sent = reqs).
Proof using laws RocksDBLaws0.
  revert counter w. induction reqs as [|req reqs IH]; intros counter w Hw; simpl.
  { intros [= <- <-]. split; [done|]. split; [done|]. exists []. by rewrite app_nil_r. }
  unfold kVPutStreamClient_Send. destruct (SendMsg x (MPutRequest req) w) as [err w1] eqn:Hs.
  apply SendMsg_law in Hs as [Ha Hrun]. intros Hrest. apply IH in Hrest as (Hw' & Hc & sent & Hsent & Hsub & Hall).
  2: { eapply handler_runs_so_far; [exact Hw| |exact Hrun]. rewrite Ha. by eexists. }
  split; [done|]. destruct err as [e|]; rewrite Ha, <- app_assoc in Hsent.
  - split; [lia|]. exists sent. split; [done|]. split; [by apply sublist_cons|]. lia.
  - split; [lia|]. exists (req :: sent). split; [done|]. split; [by apply sublist_skip|]. intros Heq. by rewrite Hall.
Qed.

Lemma so_far_batch x w0 w :
  batch_so_far x w0 w -> exists before batch after,
    pairs (stream_server w) = put_pairs (pairs (stream_server w0)) (before ++ batch ++ after) /\
    batch `prefix_of` accepted w x /\ (forall l, handled_upto w x = Some (l, None) -> batch = l).
Proof using Type.
  unfold batch_so_far. destruct (handled_upto w x) as [[reqs err]|].
  - intros [Hpre (before & l & after & Hl & Hp)]. exists before, l, after. split; [done|].
    destruct Hl as [-> |[-> Herr]]; [split; [done|by intros l [= ->]]|]. split; [apply prefix_nil|by intros l [= _ ?]].
  - intros (l & Hl & _). exists l, [], []. rewrite app_nil_r. split; [done|]. split; [apply prefix_nil|done].
Qed.

(** C15: a batch over a stream is written at most once and as a whole.  Whatever the stream
    does, the store sees the puts of others and, between two of them, one batch or none:
    the first of the requests the stream accepted, which are some of those asked for,
    in their order.  When no error was counted the batch is exactly the requests asked
    for. *)
Theorem put_batch_prefix reqs counter w counter' w' :
  put_batch reqs counter w = (counter', w') ->
  counter <= counter' /\
  exists before batch after,
    pairs (stream_server w') = put_pairs (pairs (stream_server w)) (before ++ batch ++ after) /\
    (exists sent, batch `prefix_of` sent /\ sent `sublist_of` reqs) /\
    (counter' = counter -> batch = reqs).
Proof using laws RocksDBLaws0.
  unfold put_batch, kVClient_PutStream. destruct (NewStream _ w) as [r w1] eqn:Hn.
  apply NewStream_law in Hn as [Ho Hx]. destruct r as [x|e].
  2: { intros [= <- <-]. split; [lia|]. destruct Ho as (l & Hl & _). exists l, [], []. rewrite app_nil_r.
       split; [done|]. split; [exists []; split; [done|apply sublist_nil_l]|lia]. }
  destruct (Hx x eq_refl) as [Hacc Hnone]. assert (Hw1 : batch_so_far x w w1) by (unfold batch_so_far; by rewrite Hnone).
  destruct (send_all x reqs counter w1) as [c2 w2] eqn:Hs.
  apply (send_all_so_far x w) in Hs as (Hw2 & Hc & sent & Hsent & Hsub & Hall); [|done]. rewrite Hacc in Hsent. simpl in Hsent.
  unfold kVPutStreamClient_CloseAndRecv. destruct (CloseSend x w2) as [err w3] eqn:Hcl.
  apply CloseSend_law in Hcl as [Ha3 Hr3]. apply (handler_runs_so_far x w) in Hr3; [|done|by rewrite Ha3].
  destruct err as [e|].
  - intros [= <- <-]. split; [lia|]. apply so_far_batch in Hr3 as (before & batch & after & Hp & Hpre & _).
    rewrite Ha3, Hsent in Hpre. exists before, batch, after. split; [done|]. split; [by exists sent|lia].
  - destruct (RecvMsg x w3) as [err w4] eqn:Hre. apply RecvMsg_law in Hre as (Ha4 & Hr4 & Hok).
    apply (handler_runs_so_far x w) in Hr4; [|done|by rewrite Ha4]. rewrite Ha3, Hsent in Ha4.
    apply so_far_batch in Hr4 as (before & batch & after & Hp & Hpre & Hfull). rewrite Ha4 in Hpre, Hok.
    destruct err as [e|]; intros [= <- <-]; (split; [lia|]); exists before, batch, after; (split; [done|]);
      (split; [by exists sent|]); [lia|]. intros Hc2. rewrite <- (Hall Hc2). by apply Hfull, Hok.
Qed.
End Batch.

(** ** Witness: one stream over the map database, whose handler runs when it is closed *)
Section Demo.
#[local] Abbreviation map_server := (GrpcServer (DB := map_db)).
Record pipe : Type := mkPipe {
  p_server : map_server;
  p_sent : list PutRequest;
  p_handled : option (list PutRequest * option string);
  p_out : option message
}.

Definition pipe_recv (w : pipe) : option string * pipe :=
  match p_handled w, PutStream (p_server w) 0 ((Recv <$> p_sent w) ++ [RecvEOF]) (fun _ => None) with
  | None, Some (Ret (s, err)) =>
      (err, mkPipe s (p_sent w) (Some (p_sent w, err)) (Some (MPutResponse (mkPutResponse (grpc_header s 0)))))
  | _, _ => (Some "closed"%string, w)
  end.

#[local] Instance pipe_stream : StreamTransport pipe map_server string unit := {|
  NewStream _ w := (Ok tt, mkPipe (p_server w) [] None (p_out w));
  SendMsg _ m w :=
    match m with
    | MPutRequest q =>
        if decide (pr_Key q = "huge"%string) then (Some "message larger than max"%string, w)
        else (None, mkPipe (p_server w) (p_sent w ++ [q]) (p_handled w) (p_out w))
    | _ => (Some "marshal"%string, w)
    end;
  CloseSend _ w := (None, w);
  RecvMsg _ := pipe_recv;
  stream_out := p_out;
  stream_server := p_server;
  accepted w _ := p_sent w;
  handled_upto w _ := p_handled w
|}.

#[local] Instance pipe_laws : StreamLaws (DB := map_db) (W := pipe) (error := string) (Stream := unit).
Proof.
  assert (Hrefl : forall s, others (DB := map_db) anyone s s) by (intros s; by exists []).
  split.
  - intros path w r w' [= <- <-]. split; [apply Hrefl|done].
  - intros x m w err w'. simpl. case_decide; intros [= <- <-]; simpl.
    + rewrite app_nil_r. split; [done|]. left. by split.
    + split; [done|]. left. by split.
  - intros x w err w' [= <- <-]. split; [done|]. left. by split.
  - intros x w err w'. simpl. unfold pipe_recv. destruct (p_handled w) as [h|] eqn:Hh.
    { intros [= <- <-]. split; [done|]. split; [left; by split|done]. }
    destruct (PutStream (p_server w) 0 _ _) as [[[s e]|]|] eqn:Hp; intros [= <- <-]; simpl.
    2,3: split; [done|]; split; [left; by split|done].
    split; [done|]. split; [|by intros ->]. right. split; [done|]. exists (p_sent w), e, (p_server w), s.
    split; [done|]. split; [done|]. split; [apply Hrefl|]. split; [|apply Hrefl].
    by exists 0%Z, RecvEOF, (fun _ => None).
Qed.

Definition demo_pipe : pipe :=
  mkPipe (mkGrpcServer (mkServerConfig 50051 "db" 1000 "kv") NewHealthServer store0) [] None None.
Definition demo_batch : list PutRequest := [mkPutRequest "a" "1"; mkPutRequest "b" "2"].

Lemma demo_put_batch : exists w', put_batch (W := pipe) demo_batch 0 demo_pipe = (0, w').
Proof. eexists. vm_compute. reflexivity. Defined.

Example put_batch_prefix_witness :
  exists w' before after, put_batch (W := pipe) demo_batch 0 demo_pipe = (0, w') /\
    pairs (p_server w') = put_pairs (pairs (p_server demo_pipe)) (before ++ demo_batch ++ after).
Proof.
  destruct demo_put_batch as [w' Hrun]. exists w'.
  destruct (put_batch_prefix (DB := map_db) _ _ _ _ _ Hrun) as (_ & before & batch & after & Hp & _ & Hb).
  exists before, after. split; [exact Hrun|]. rewrite <- (Hb eq_refl). exact Hp.
Defined.
End Demo.
