(* ===== verification/GrpcPath.v ===== *)
(** * A grpc client and its own writes

    A session: the calls one client makes over [GrpcRemote], one after the other, each with
    the retries of its interceptor.  Replies and requests can be lost, and others may put
    whatever they are allowed to; what the client may conclude from the answers it got is
    the specification below, which has no network, no retries and no server. *)
From S2P Require Import Prelude.
From S2P Require Import Store.
From S2P Require Import Health.
From S2P Require Import KVServers.
From S2P Require Import Retry.
From S2P Require Import Resolver.
From S2P Require Import GrpcClient.
From S2P Require Import GrpcRemote.

Inductive rpc : Type := RPut (q : PutRequest) | RGet (q : GetRequest).
Inductive answer (error : Type) : Type :=
| APut (r : result error (option PutResponse)) | AGet (r : result error (option GetResponse)).
Arguments APut {error} r.
Arguments AGet {error} r.

(** ** What a client knows of a key

    The values it may hold ([None]: none): after a [Put] that succeeded, that one; a
    [Put] that failed may have been made. *)
Section Known.
Context {error : Type} (key : string).

Definition learn (values : list (option string)) (c : rpc * answer error) : list (option string) :=
  match c with
  | (RPut q, APut r) =>
      if decide (pr_Key q = key) then
        match r with Ok _ => [Some (pr_Value q)] | Err _ => Some (pr_Value q) :: values end
      else values
  | _ => values
  end.
Definition known (values : list (option string)) (session : list (rpc * answer error)) : list (option string) :=
  foldl learn values session.
End Known.

(** ** The session *)
Section Session.
Context {DB Batch : Type} `{!RocksDB DB Batch} `{!RocksDBLaws DB Batch}.
Context {W error GrpcOption : Type} `{EqDecision error} `{!RpcErrors error}.
Context `{!Transport W (GrpcServer (DB := DB)) error GrpcOption}.
Context (ctx_Err : W -> option ctx_error) (select_timer : Z -> W -> option ctx_error * W).
Context (defaults : options (W := W)) (optFuncs : list (retryOption (W := W))) (opts : list (CallOption (W := W) (GrpcOption := GrpcOption))).
Context (foreign : PutRequest -> Prop) {laws : TransportLaws select_timer foreign}.
Context (waits : backoff_waits defaults optFuncs foreign opts).
(** Others do not write the key. *)
Context (key : string) (mine : forall q, foreign q -> pr_Key q <> key).

Definition do_rpc (c : rpc) (w : W) : answer error * W :=
  match c with
  | RPut q => let '(r, w) := kVClient_Put ctx_Err select_timer defaults optFuncs q opts w in (APut r, w)
  | RGet q => let '(r, w) := kVClient_Get ctx_Err select_timer defaults optFuncs q opts w in (AGet r, w)
  end.
Fixpoint do_rpcs (cs : list rpc) (w : W) : list (rpc * answer error) * W :=
  match cs with
  | [] => ([], w)
  | c :: cs => let '(a, w) := do_rpc c w in let '(session, w) := do_rpcs cs w in ((c, a) :: session, w)
  end.

#[local] Abbreviation value w := (pairs (server w) !! key).
#[local] Set Default Proof Using "All".

(** The key under puts of one pair and the puts of others. *)
Lemma after_key q h m :
  (forall q', Other q' ∈ h -> foreign q') -> Forall (put_entry q) (own h) ->
  after m h !! key = m !! key \/ pr_Key q = key /\ after m h !! key = Some (pr_Value q).
Proof.
  induction h as [|e h IH] using rev_ind; [by left|]. intros Hf Hp. rewrite own_app in Hp. apply Forall_app in Hp as [Hp He].
  assert (Hh : after m h !! key = m !! key \/ pr_Key q = key /\ after m h !! key = Some (pr_Value q)).
  { apply IH; [|done]. intros q' Hq. apply Hf, elem_of_app. by left. }
  rewrite after_app. destruct e as [q'|q'|q']; simpl.
  - apply Forall_cons in He as [[[= ->]|?] _]; [|done].
    destruct (decide (pr_Key q = key)) as [<-|Hne]; [right; by rewrite lookup_insert_eq|by rewrite lookup_insert_ne].
  - exact Hh.
  - rewrite lookup_insert_ne; [exact Hh|]. apply mine, Hf, elem_of_app. right. by left.
Qed.

Lemma after_foreign reqs m : Forall foreign reqs -> put_pairs m reqs !! key = m !! key.
Proof.
  intros Hf. revert m. induction Hf as [|q reqs Hq _ IH]; intros m; [done|]. simpl. rewrite IH.
  rewrite lookup_insert_ne; [done|]. by apply mine.
Qed.

Lemma put_learns q w r w' values :
  kVClient_Put ctx_Err select_timer defaults optFuncs q opts w = (r, w') -> value w ∈ values ->
  value w' ∈ learn key values (RPut q, APut r).
Proof.
  intros Hr Hv. destruct (put_history _ _ _ _ _ _ _ _ _ _ waits Hr) as (h & [Hh Hf] & Hp & _ & Hok). simpl. rewrite Hh.
  destruct r as [o|err].
  - destruct (Hok o eq_refl) as (_ & h0 & reqs & ->). rewrite after_app. simpl. rewrite after_others.
    rewrite after_foreign by (apply Forall_forall; intros q' Hq; apply Hf, elem_of_app; right; right; by apply list_elem_of_fmap_2).
    rewrite own_app in Hp. apply Forall_app in Hp as [Hp _].
    destruct (decide (pr_Key q = key)) as [<-|Hne]; [rewrite lookup_insert_eq; by left|]. rewrite lookup_insert_ne by done.
    destruct (after_key q h0 (pairs (server w))) as [->|[? _]]; [|done..].
    intros q' Hq. apply Hf, elem_of_app. by left.
  - destruct (after_key q h (pairs (server w)) Hf Hp) as [->|[-> ->]].
    + case_decide; [by right|done].
    + rewrite decide_True by done. by left.
Qed.

(** A [Get] of any key leaves the key, and one of the key answers what it holds. *)
Lemma get_learns q w r w' :
  kVClient_Get ctx_Err select_timer defaults optFuncs q opts w = (r, w') ->
  value w' = value w /\
  (gq_Key q = key -> forall o, r = Ok o ->
     exists resp v, o = Some resp /\ Kvs resp = [mkKeyValue key v] /\ value w = Some v).
Proof.
  intros Hr. destruct (get_reads_held_value _ _ _ _ _ _ _ _ _ _ waits Hr) as (reqs & [Hh Hf] & Hok).
  assert (Hfor : Forall foreign reqs) by (apply Forall_forall; intros q' Hq; apply Hf; by apply list_elem_of_fmap_2).
  split; [by rewrite Hh, after_others, after_foreign|]. intros Hk o ->.
  destruct (Hok o eq_refl) as (resp & k & v & -> & Hkvs & Hv). rewrite Hk in Hkvs, Hv.
  exists resp, v. split; [done|]. split; [done|]. rewrite <- (after_foreign (take k reqs)) by by apply Forall_take. unfold found in Hv.
  destruct (put_pairs _ _ !! key) as [v'|]; [|done]. case_decide; by simplify_eq.
Qed.

Lemma do_rpc_learns c w a w' values :
  do_rpc c w = (a, w') -> value w ∈ values ->
  value w' ∈ learn key values (c, a) /\
  forall q o, c = RGet q -> gq_Key q = key -> a = AGet (Ok o) ->
    exists resp v, o = Some resp /\ Kvs resp = [mkKeyValue key v] /\ Some v ∈ values.
Proof.
  destruct c as [q|q]; simpl.
  - destruct (kVClient_Put _ _ _ _ _ _ _) as [r w1] eqn:Hr. intros [= <- <-] Hv. split; [by eapply put_learns|done].
  - destruct (kVClient_Get _ _ _ _ _ _ _) as [r w1] eqn:Hr. intros [= <- <-] Hv.
    destruct (get_learns _ _ _ _ Hr) as [-> Hget]. split; [done|]. intros q' o [= <-] Hk [= ->].
    destruct (Hget Hk o eq_refl) as (resp & v & -> & Hkvs & Hval). exists resp, v. by rewrite <- Hval.
Qed.

Lemma do_rpcs_learn cs w session w' values :
  do_rpcs cs w = (session, w') -> value w ∈ values ->
  value w' ∈ known key values session /\
  forall before q o after, session = before ++ (RGet q, AGet (Ok o)) :: after -> gq_Key q = key ->
    exists resp v, o = Some resp /\ Kvs resp = [mkKeyValue key v] /\ Some v ∈ known key values before.
Proof.
  revert w session w' values. induction cs as [|c cs IH]; intros w session w' values; simpl.
  { intros [= <- <-] Hv. split; [done|]. intros [|] q o after; done. }
  destruct (do_rpc c w) as [a w1] eqn:Hc. destruct (do_rpcs cs w1) as [s w2] eqn:Hcs. intros [= <- <-] Hv.
  destruct (do_rpc_learns _ _ _ _ _ Hc Hv) as [Hv1 Hget]. destruct (IH _ _ _ _ Hcs Hv1) as [Hv2 Hrest].
  split; [done|]. intros [|x before] q o after Heq Hk.
  - injection Heq as -> -> _. by eapply Hget.
  - injection Heq as <- ->. by eapply Hrest.
Qed.

(** C16: a client reads its own writes.  In a session of puts and gets over grpc, whatever
    requests and replies are lost and however often each call is retried, as long as
    nobody else puts the key and no request reaches the server after its call has returned: every get of it that succeeds answers the value of the last
    put of it that succeeded before, or of a put that failed since (or, when there is
    none, what it held at the start), and the store ends with such a value.  A put that
    failed stays open until the next one that succeeds. *)
Theorem session_reads_own_writes cs w session w' :
  do_rpcs cs w = (session, w') ->
  session.*1 = cs /\
  value w' ∈ known key [value w] session /\
  forall before q o after, session = before ++ (RGet q, AGet (Ok o)) :: after -> gq_Key q = key ->
    exists resp v, o = Some resp /\ Kvs resp = [mkKeyValue key v] /\ Some v ∈ known key [value w] before.
Proof.
  intros Hs. split; [|by eapply do_rpcs_learn; [exact Hs|left]].
  revert w session w' Hs. induction cs as [|c cs IH]; intros w session w'; simpl; [by intros [= <- _]|].
  destruct (do_rpc c w) as [a w1]. destruct (do_rpcs cs w1) as [s w2] eqn:Hcs. intros [= <- _]. simpl. f_equal. by eapply IH.
Qed.
End Session.

(** ** A session over a network that loses replies *)
Section Demo.
(** Others put every key but ["k"]. *)
Definition not_k (q : PutRequest) : Prop := pr_Key q <> "k"%string.
#[local] Instance not_k_dec q : Decision (not_k q).
Proof. unfold not_k. apply _. Defined.
#[local] Existing Instances network_laws canceled_errors.
#[local] Instance session_transport : Transport network (GrpcServer (DB := map_db)) string unit := network_transport not_k.

(** The reply of the first put is lost twice, another client writes in between, and the
    second put is refused. *)
Definition session_start : network :=
  mkNetwork demo_grpc_server
    [([], ReplyLost "canceled"); ([mkPutRequest "k" "theirs"; mkPutRequest "j" "theirs"], ReplyLost "canceled"); ([], Answered);
     ([], RequestLost "lost")] None.
Definition session_calls : list rpc :=
  [RPut (mkPutRequest "k" "v"); RPut (mkPutRequest "k" "w"); RGet (mkGetRequest "k" false)].
Definition session_run : list (rpc * answer string) * network :=
  do_rpcs alive network_timer package_defaults client_options [] session_calls session_start.

Example session_reads_own_writes_witness :
  exists session w', session_run = (session, w') /\
    pairs (n_server w') !! "k"%string ∈ known (error := string) "k" [None] session /\
    known (error := string) "k" [None] session = [Some "w"%string; Some "v"%string].
Proof.
  destruct session_run as [session w'] eqn:Hrun. exists session, w'. split; [reflexivity|].
  destruct (session_reads_own_writes alive network_timer package_defaults client_options [] not_k (network_waits not_k)
    "k" (fun q Hq => Hq) session_calls session_start session w' Hrun) as (_ & Hv & _).
  split; [exact Hv|]. clear Hv. vm_compute in Hrun. injection Hrun as <- _. reflexivity.
Defined.
End Demo.
