(* ===== verification/GrpcStubs.v ===== *)
(** * grpc/rpcpb: the rest of the generated code

    The getters of the messages, which answer zero values on nil, the servers that implement
    nothing, the registration of the services, and the server's side of the stream of puts:
    the stub the handler of [KVServers] receives from, over grpc's [ServerStream].  It is
    what [GrpcStream] assumes of the handler. *)
From S2P Require Import Prelude.
From S2P Require Import Store.
From S2P Require Import Health.
From S2P Require Import KVServers.
From S2P Require Import GrpcRemote.
From S2P Require Import GrpcStream.

(** ** Getters *)
(* src/grpc/rpcpb/rpc.pb.go:60-65 GetRequest.GetKey *)
Definition GetRequest_GetKey (m : option GetRequest) : string := match m with Some m => gq_Key m | None => "" end.
(* src/grpc/rpcpb/rpc.pb.go:67-72 GetRequest.GetSerializable *)
Definition GetRequest_GetSerializable (m : option GetRequest) : bool :=
  match m with Some m => gq_Serializable m | None => false end.
(* src/grpc/rpcpb/rpc.pb.go:107-112 GetResponse.GetHeader *)
Definition GetResponse_GetHeader (m : option GetResponse) : option ResponseHeader :=
  match m with Some m => Some (gr_Header m) | None => None end.
(* src/grpc/rpcpb/rpc.pb.go:114-119 GetResponse.GetKvs *)
Definition GetResponse_GetKvs (m : option GetResponse) : list KeyValue := match m with Some m => Kvs m | None => [] end.
(* src/grpc/rpcpb/rpc.pb.go:154-159 KeyValue.GetKey *)
Definition KeyValue_GetKey (m : option KeyValue) : string := match m with Some m => Key m | None => "" end.
(* src/grpc/rpcpb/rpc.pb.go:161-166 KeyValue.GetValue *)
Definition KeyValue_GetValue (m : option KeyValue) : string := match m with Some m => Value m | None => "" end.
(* src/grpc/rpcpb/rpc.pb.go:201-206 PutRequest.GetKey *)
Definition PutRequest_GetKey (m : option PutRequest) : string := match m with Some m => pr_Key m | None => "" end.
(* src/grpc/rpcpb/rpc.pb.go:208-213 PutRequest.GetValue *)
Definition PutRequest_GetValue (m : option PutRequest) : string := match m with Some m => pr_Value m | None => "" end.
(* src/grpc/rpcpb/rpc.pb.go:250-255 ResponseHeader.GetClusterId *)
Definition ResponseHeader_GetClusterId (m : option ResponseHeader) : Z := match m with Some m => ClusterId m | None => 0 end.
(* src/grpc/rpcpb/rpc.pb.go:257-262 ResponseHeader.GetNodeId *)
Definition ResponseHeader_GetNodeId (m : option ResponseHeader) : Z := match m with Some m => NodeId m | None => 0 end.
(* src/grpc/rpcpb/rpc.pb.go:264-269 ResponseHeader.GetConsumeTime *)
Definition ResponseHeader_GetConsumeTime (m : option ResponseHeader) : Z := match m with Some m => ConsumeTime m | None => 0 end.
(* src/grpc/rpcpb/rpc.pb.go:271-276 ResponseHeader.GetNodeIp *)
Definition ResponseHeader_GetNodeIp (m : option ResponseHeader) : string := match m with Some m => NodeIp m | None => "" end.
(* src/grpc/rpcpb/rpc.pb.go:310-315 PutResponse.GetHeader *)
Definition PutResponse_GetHeader (m : option PutResponse) : option ResponseHeader :=
  match m with Some m => Some (pr_Header m) | None => None end.

(** ** Servers that implement nothing, and registration *)
(* src/grpc/rpcpb/rpc.pb.go:438-446 UnimplementedKVServer *)
Definition UnimplementedKVServer : KVServer unit := {|
  srv_Get s _ := Ret (s, Err "method Get not implemented"%string);
  srv_Put s _ := Ret (s, Err "method Put not implemented"%string)
|}.
(* src/grpc/rpcpb/health.pb.go:238-243 UnimplementedHealthServer *)
Definition UnimplementedHealth_Check (service : string) : result string ServingStatus :=
  Err "method Check not implemented"%string.

Section Register.
Context {GServer S : Type} `{!KVServer S} (RegisterService : ServiceDesc (S := S) -> S -> GServer -> GServer).
(* src/grpc/rpcpb/rpc.pb.go:451-453 RegisterKVServer *)
Definition RegisterKVServer (s : GServer) (srv : S) : GServer := RegisterService KV_serviceDesc srv s.
End Register.

(** ** The stream of puts, at the server *)
Class ServerStream (W : Type) : Type := {
  ss_RecvMsg : W -> result string PutRequest * W;
  ss_SendMsg : message -> W -> option string * W;
  io_EOF : string
}.

Section PutStreamServer.
Context {W : Type} `{!ServerStream W}.

(* src/grpc/rpcpb/rpc.pb.go:505-507 kVPutStreamServer.SendAndClose *)
Definition kVPutStreamServer_SendAndClose (m : PutResponse) (w : W) : option string * W := ss_SendMsg (MPutResponse m) w.

(** What the loop of the handler distinguishes. *)
(* src/grpc/rpcpb/rpc.pb.go:509-515 kVPutStreamServer.Recv *)
Definition kVPutStreamServer_Recv (w : W) : recv * W :=
  let '(r, w) := ss_RecvMsg w in
  (match r with Ok m => Recv m | Err err => if decide (err = io_EOF) then RecvEOF else RecvErr err end, w).

(** The answers the loop gets, up to the first that is not a request. *)
Fixpoint received_from (fuel : nat) (w : W) : option (list recv * W) :=
  match fuel with
  | 0 => None
  | S fuel =>
      let '(a, w) := kVPutStreamServer_Recv w in
      match a with
      | Recv _ => '(answers, w) ← received_from fuel w; Some (a :: answers, w)
      | _ => Some ([a], w)
      end
  end.

Context {DB Batch : Type} `{!RocksDB DB Batch}.

(** [None]: it still waits for its stream. *)
(* src/grpc/rpcpb/rpc.pb.go:491-493 _KV_PutStream_Handler *)
Definition KV_PutStream_Handler (fuel : nat) (srv : GrpcServer (DB := DB)) (elapsed : Z) (w : W)
    : option (outcome (GrpcServer (DB := DB) * option string)) :=
  '(answers, w) ← received_from fuel w;
  PutStream srv elapsed answers (fun resp => fst (kVPutStreamServer_SendAndClose resp w)).

(** The stream gives these requests, one after the other, and then stops. *)
Inductive gives : W -> list PutRequest -> recv -> W -> Prop :=
| gives_stop w stop w' : kVPutStreamServer_Recv w = (stop, w') -> (forall q, stop <> Recv q) -> gives w [] stop w'
| gives_next w q w1 qs stop w' : kVPutStreamServer_Recv w = (Recv q, w1) -> gives w1 qs stop w' -> gives w (q :: qs) stop w'.

Lemma received_gives w qs stop w' fuel :
  gives w qs stop w' -> length qs < fuel -> received_from fuel w = Some ((Recv <$> qs) ++ [stop], w').
Proof.
  intros Hg. revert fuel. induction Hg as [w stop w' Hr Hstop|w q w1 qs stop w' Hr _ IH]; intros [|fuel] Hf; simpl in Hf; try lia.
  - simpl. rewrite Hr. destruct stop as [q| |]; [by destruct (Hstop q)|done..].
  - simpl. rewrite Hr. rewrite IH by lia. done.
Qed.

Lemma gives_stops w qs stop w' : gives w qs stop w' -> forall q, stop <> Recv q.
Proof. by induction 1. Qed.

(** The handler returns once its stream has stopped, after one receive per request and one
    more, and what it then does is what [GrpcStream] assumes of a handler; a stream that
    breaks is handled like one that has ended. *)
Theorem PutStream_handler_returns srv elapsed w qs stop w' fuel :
  gives w qs stop w' -> length qs < fuel ->
  KV_PutStream_Handler fuel srv elapsed w =
    PutStream srv elapsed ((Recv <$> qs) ++ [RecvEOF]) (fun resp => fst (kVPutStreamServer_SendAndClose resp w')) /\
  exists r, KV_PutStream_Handler fuel srv elapsed w = Some r /\
    forall srv' err, r = Ret (srv', err) -> stream_handled qs err srv srv'.
Proof.
  intros Hg Hf. unfold KV_PutStream_Handler. rewrite (received_gives _ _ _ _ _ Hg Hf). cbn [mbind option_bind].
  pose proof (gives_stops _ _ _ _ Hg) as Hstop.
  destruct (PutStream srv elapsed ((Recv <$> qs) ++ [stop]) _) as [r|] eqn:Hr.
  - split; [|exists r; split; [done|]; intros srv' err ->; by exists elapsed, stop, (fun resp => fst (kVPutStreamServer_SendAndClose resp w'))].
    rewrite <- Hr. unfold PutStream. by rewrite !recv_all_put_all.
  - exfalso. unfold PutStream in Hr. by rewrite recv_all_put_all in Hr.
Qed.
End PutStreamServer.

(** ** A stream that breaks after one request *)
Section Demo.
Definition script : Type := list (result string PutRequest).
#[local] Instance script_stream : ServerStream script := {|
  ss_RecvMsg w := match w with [] => (Err "EOF"%string, []) | r :: w => (r, w) end;
  ss_SendMsg _ w := (None, w);
  io_EOF := "EOF"
|}.
Definition broken : script := [Ok (mkPutRequest "k" "v"); Err "reset"%string].

Example PutStream_handler_returns_witness :
  exists r, KV_PutStream_Handler 2 demo_grpc_server 0 broken = Some r /\
    forall srv' err, r = Ret (srv', err) -> stream_handled [mkPutRequest "k" "v"] err demo_grpc_server srv'.
Proof.
  refine (proj2 (PutStream_handler_returns demo_grpc_server 0 broken [mkPutRequest "k" "v"] (RecvErr "reset") [] 2 _ _)).
  - eapply gives_next; [reflexivity|]. by apply gives_stop.
  - simpl. lia.
Defined.
End Demo.
