(* ===== verification/ThriftProtocol.v ===== *)
(** * The thrift protocol as the generated code uses it

    [TProtocol] and its constants belong to the thrift library: they are the class
    [Thrift] and the class [TProtocol].  What the code relies on is in [TProtocolLaws]:
    each operation writes, or reads back, one token.  A value on the wire is a tree
    [tvalue]; [tokens_of] is how it is sent.  The second half holds the two loops every
    generated struct has, and what they do to every value. *)
From S2P Require Import Prelude.

(** The errors, the types of values and of messages, and the kinds of application
    exceptions. *)
Class Thrift : Type := {
  error : Type;
  Error : error -> string;
  errors_New : string -> error;
  PrependError : string -> error -> error;
  TType : Type;
  #[global] TType_dec :: EqDecision TType;
  STOP : TType; BOOL : TType; I64 : TType; STRING : TType; STRUCT : TType; LIST : TType;
  types_distinct : NoDup [STOP; BOOL; I64; STRING; STRUCT; LIST];
  TMessageType : Type;
  CALL : TMessageType; REPLY : TMessageType; EXCEPTION : TMessageType;
  exception_kind : Type;
  UNKNOWN_METHOD : exception_kind; INTERNAL_ERROR : exception_kind; PROTOCOL_ERROR : exception_kind;
  NewTApplicationException : exception_kind -> string -> error
}.

(** A protocol in state [P].  Names that are read and never used are left out. *)
Class TProtocol `{Thrift} (P : Type) : Type := {
  WriteMessageBegin : string -> TMessageType -> Z -> P -> P * option error;
  WriteMessageEnd : P -> P * option error;
  WriteStructBegin : string -> P -> P * option error;
  WriteStructEnd : P -> P * option error;
  WriteFieldBegin : string -> TType -> Z -> P -> P * option error;
  WriteFieldEnd : P -> P * option error;
  WriteFieldStop : P -> P * option error;
  WriteListBegin : TType -> Z -> P -> P * option error;
  WriteListEnd : P -> P * option error;
  WriteBool : bool -> P -> P * option error;
  WriteI64 : Z -> P -> P * option error;
  WriteString : string -> P -> P * option error;
  Flush : P -> P * option error;
  ReadMessageBegin : P -> P * result error (string * TMessageType * Z);
  ReadMessageEnd : P -> P * option error;
  ReadStructBegin : P -> P * option error;
  ReadStructEnd : P -> P * option error;
  ReadFieldBegin : P -> P * (TType * Z * option error);
  ReadFieldEnd : P -> P * option error;
  ReadListBegin : P -> P * result error (TType * Z);
  ReadListEnd : P -> P * option error;
  ReadBool : P -> P * result error bool;
  ReadI64 : P -> P * result error Z;
  ReadString : P -> P * result error string;
  Skip : TType -> P -> P * option error;
  TApplicationException_Write : exception_kind -> string -> P -> P * option error
}.

(** ** Code over a protocol *)
Inductive run `{Thrift} (P A : Type) : Type :=
| Done (p : P) (r : result error A)
| Panicked
| OutOfFuel.
Arguments Done {_ P A} p r.
Arguments Panicked {_ P A}.
Arguments OutOfFuel {_ P A}.

Definition proto `{Thrift} (P A : Type) : Type := P -> run P A.

Section Monad.
Context `{Thrift} {P : Type}.

#[global] Instance proto_ret : MRet (proto P) := fun A a p => Done p (Ok a).
(** An error ends the function with that error. *)
#[global] Instance proto_bind : MBind (proto P) := fun A B f m p =>
  match m p with
  | Done p (Ok a) => f a p
  | Done p (Err e) => Done p (Err e)
  | Panicked => Panicked
  | OutOfFuel => OutOfFuel
  end.

Definition ask {A} (op : P -> P * result error A) : proto P A := fun p => let '(p, r) := op p in Done p r.
Definition tell (op : P -> P * option error) : proto P unit :=
  fun p => let '(p, err) := op p in Done p (match err with Some e => Err e | None => Ok tt end).

Definition panic {A} : proto P A := fun _ => Panicked.
Definition out_of_fuel {A} : proto P A := fun _ => OutOfFuel.

(** [if err := m; err != nil { return thrift.PrependError(msg, err) }] *)
Definition wrap {A} (msg : string) (m : proto P A) : proto P A := fun p =>
  match m p with
  | Done p (Err e) => Done p (Err (PrependError msg e))
  | r => r
  end.
End Monad.

(** ** Values and tokens *)
Section Values.
Context `{Thrift}.

(** A value of a type the generated code does not use is opaque. *)
#[local] Set Warnings "-register-all".
Inductive tvalue : Type :=
| VBool (b : bool)
| VI64 (z : Z)
| VString (s : string)
| VStruct (fs : list (Z * tvalue))
| VList (t : TType) (vs : list tvalue)
| VOther (t : TType).

Inductive token : Type :=
| TStructBegin | TStructEnd
| TFieldBegin (t : TType) (id : Z) | TFieldEnd | TFieldStop
| TListBegin (t : TType) (size : Z) | TListEnd
| TBool (b : bool) | TI64 (z : Z) | TString (s : string) | TOther (t : TType)
| TMessageBegin (name : string) (t : TMessageType) (seqId : Z) | TMessageEnd.

Definition type_of (v : tvalue) : TType :=
  match v with
  | VBool _ => BOOL | VI64 _ => I64 | VString _ => STRING
  | VStruct _ => STRUCT | VList _ _ => LIST | VOther t => t
  end.

Fixpoint tokens_of (v : tvalue) : list token :=
  match v with
  | VBool b => [TBool b]
  | VI64 z => [TI64 z]
  | VString s => [TString s]
  | VOther t => [TOther t]
  | VStruct fs =>
      TStructBegin ::
      concat (map (fun f => TFieldBegin (type_of (snd f)) (fst f) :: tokens_of (snd f) ++ [TFieldEnd]) fs) ++
      [TFieldStop; TStructEnd]
  | VList t vs => TListBegin t (Z.of_nat (length vs)) :: concat (map tokens_of vs) ++ [TListEnd]
  end.

(** The value of a field if it has the type wanted. *)
Definition on_bool {A} (v : tvalue) (set : bool -> A) (a : A) : A := match v with VBool b => set b | _ => a end.
Definition on_i64 {A} (v : tvalue) (set : Z -> A) (a : A) : A := match v with VI64 z => set z | _ => a end.
Definition on_string {A} (v : tvalue) (set : string -> A) (a : A) : A := match v with VString s => set s | _ => a end.
Definition on_struct {A} (v : tvalue) (set : list (Z * tvalue) -> A) (a : A) : A :=
  match v with VStruct fs => set fs | _ => a end.
Definition on_list {A} (v : tvalue) (set : list tvalue -> A) (a : A) : A :=
  match v with VList _ vs => set vs | _ => a end.

Definition field_tokens (f : Z * tvalue) : list token :=
  TFieldBegin (type_of (snd f)) (fst f) :: tokens_of (snd f) ++ [TFieldEnd].

Definition known_types : list TType := [STOP; BOOL; I64; STRING; STRUCT; LIST].

(** The elements of a list have its type, and an opaque value a type of its own. *)
Fixpoint value_ok (v : tvalue) : bool :=
  match v with
  | VBool _ | VI64 _ | VString _ => true
  | VStruct fs => forallb (fun f => value_ok (snd f)) fs
  | VList t vs => forallb (fun v => value_ok v && bool_decide (type_of v = t)) vs
  | VOther t => bool_decide (t ∉ known_types)
  end.

Lemma field_tokens_eq id v : field_tokens (id, v) = [TFieldBegin (type_of v) id] ++ tokens_of v ++ [TFieldEnd].
Proof. done. Qed.
Lemma tokens_of_struct fs :
  tokens_of (VStruct fs) = [TStructBegin] ++ (concat (map field_tokens fs) ++ [TFieldStop]) ++ [TStructEnd].
Proof. by rewrite <- app_assoc. Qed.

(** The types tell the constructors apart. *)
Lemma type_of_known v i t :
  value_ok v = true -> known_types !! i = Some t -> type_of v = t ->
  match v with
  | VBool _ => i = 1 | VI64 _ => i = 2 | VString _ => i = 3
  | VStruct _ => i = 4 | VList _ _ => i = 5 | VOther _ => False
  end.
Proof.
  intros Hok Hi Ht. destruct v; simpl in Ht; subst t.
  6: { simpl in Hok. rewrite bool_decide_eq_true in Hok. apply Hok. by eapply list_elem_of_lookup_2. }
  all: by eapply NoDup_lookup; [apply types_distinct|exact Hi|].
Qed.

Lemma type_not_STOP v : value_ok v = true -> type_of v <> STOP.
Proof. intros Hok Ht. apply (type_of_known v 0) in Ht; [by destruct v|done|done]. Qed.
End Values.

(** ** What an operation does to the tokens *)

(** A protocol that can be written, what was written to it, and what can be read next.
    [sendable] tokens arrive as they were sent: a string has at most [2^31 - 1] bytes. *)
Class TStream `{Thrift} (P : Type) : Type := {
  write_ok : P -> Prop;
  written : P -> list token;
  unread : P -> list token -> Prop;
  sendable : token -> Prop
}.

Section Effects.
Context `{Thrift} {P : Type} `{!TStream P}.

Definition writes {A} (m : proto P A) (ts : list token) (a : A) : Prop :=
  forall p, write_ok p -> exists p', m p = Done p' (Ok a) /\ write_ok p' /\ written p' = written p ++ ts.
Definition reads {A} (m : proto P A) (ts : list token) (a : A) : Prop :=
  forall p rest, unread p (ts ++ rest) -> exists p', m p = Done p' (Ok a) /\ unread p' rest.

Lemma writes_ret {A} (a : A) : writes (mret a) [] a.
Proof. intros p Hp. exists p. by rewrite app_nil_r. Qed.
Lemma reads_ret {A} (a : A) : reads (mret a) [] a.
Proof. intros p rest Hp. by exists p. Qed.

Lemma writes_bind {A B} (m : proto P A) (f : A -> proto P B) ts1 ts2 a b :
  writes m ts1 a -> writes (f a) ts2 b -> writes (m ≫= f) (ts1 ++ ts2) b.
Proof.
  intros Hm Hf p Hp. destruct (Hm p Hp) as (p1 & He & Hp1 & Hw1). destruct (Hf p1 Hp1) as (p2 & He2 & Hp2 & Hw2).
  exists p2. unfold mbind, proto_bind. rewrite He, He2, Hw2, Hw1, app_assoc. done.
Qed.
Lemma reads_bind {A B} (m : proto P A) (f : A -> proto P B) ts1 ts2 a b :
  reads m ts1 a -> reads (f a) ts2 b -> reads (m ≫= f) (ts1 ++ ts2) b.
Proof.
  intros Hm Hf p rest Hp. rewrite <- app_assoc in Hp. destruct (Hm p _ Hp) as (p1 & He & Hp1).
  destruct (Hf p1 _ Hp1) as (p2 & He2 & Hp2). exists p2. unfold mbind, proto_bind. by rewrite He, He2.
Qed.

(** The last step writes, or reads, nothing. *)
Lemma reads_last {A B} (m : proto P A) (f : A -> B) ts a :
  reads m ts a -> reads (x ← m; mret (f x)) ts (f a).
Proof. intros Hm. rewrite <- (app_nil_r ts). by eapply reads_bind, reads_ret. Qed.

Lemma writes_wrap {A} msg (m : proto P A) ts a : writes m ts a -> writes (wrap msg m) ts a.
Proof. intros Hm p Hp. destruct (Hm p Hp) as (p' & He & ?). exists p'. unfold wrap. by rewrite He. Qed.
Lemma reads_wrap {A} msg (m : proto P A) ts a : reads m ts a -> reads (wrap msg m) ts a.
Proof. intros Hm p rest Hp. destruct (Hm p rest Hp) as (p' & He & ?). exists p'. unfold wrap. by rewrite He. Qed.
End Effects.

(** What the code relies on. *)
Class TProtocolLaws `{Thrift} (P : Type) `{!TProtocol P} `{!TStream P} : Prop := {
  WriteMessageBegin_law n t z : writes (tell (WriteMessageBegin n t z)) [TMessageBegin n t z] tt;
  WriteMessageEnd_law : writes (tell WriteMessageEnd) [TMessageEnd] tt;
  WriteStructBegin_law n : writes (tell (WriteStructBegin n)) [TStructBegin] tt;
  WriteStructEnd_law : writes (tell WriteStructEnd) [TStructEnd] tt;
  WriteFieldBegin_law n t id : writes (tell (WriteFieldBegin n t id)) [TFieldBegin t id] tt;
  WriteFieldEnd_law : writes (tell WriteFieldEnd) [TFieldEnd] tt;
  WriteFieldStop_law : writes (tell WriteFieldStop) [TFieldStop] tt;
  WriteListBegin_law t n : writes (tell (WriteListBegin t n)) [TListBegin t n] tt;
  WriteListEnd_law : writes (tell WriteListEnd) [TListEnd] tt;
  WriteBool_law b : writes (tell (WriteBool b)) [TBool b] tt;
  WriteI64_law z : writes (tell (WriteI64 z)) [TI64 z] tt;
  WriteString_law s : writes (tell (WriteString s)) [TString s] tt;
  Flush_law : writes (tell Flush) [] tt;
  TApplicationException_Write_law k msg :
    exists fs, writes (tell (TApplicationException_Write k msg)) (tokens_of (VStruct fs)) tt;
  ReadMessageBegin_law n t z : reads (ask ReadMessageBegin) [TMessageBegin n t z] (n, t, z);
  ReadMessageEnd_law : reads (tell ReadMessageEnd) [TMessageEnd] tt;
  ReadStructBegin_law : reads (tell ReadStructBegin) [TStructBegin] tt;
  ReadStructEnd_law : reads (tell ReadStructEnd) [TStructEnd] tt;
  ReadFieldBegin_law t id p rest : unread p (TFieldBegin t id :: rest) ->
    exists p', ReadFieldBegin p = (p', (t, id, None)) /\ unread p' rest;
  ReadFieldStop_law p rest : unread p (TFieldStop :: rest) ->
    exists p' id, ReadFieldBegin p = (p', (STOP, id, None)) /\ unread p' rest;
  ReadFieldEnd_law : reads (tell ReadFieldEnd) [TFieldEnd] tt;
  ReadListBegin_law t n : reads (ask ReadListBegin) [TListBegin t n] (t, n);
  ReadListEnd_law : reads (tell ReadListEnd) [TListEnd] tt;
  ReadBool_law b : reads (ask ReadBool) [TBool b] b;
  ReadI64_law z : reads (ask ReadI64) [TI64 z] z;
  ReadString_law s : reads (ask ReadString) [TString s] s;
  Skip_law v : value_ok v = true -> reads (tell (Skip (type_of v))) (tokens_of v) tt
}.

Create HintDb thrift.
#[export] Hint Resolve writes_ret reads_ret writes_wrap reads_wrap : thrift.
#[export] Hint Resolve WriteMessageBegin_law WriteMessageEnd_law WriteStructBegin_law WriteStructEnd_law
  WriteFieldBegin_law WriteFieldEnd_law WriteFieldStop_law WriteListBegin_law WriteListEnd_law WriteBool_law
  WriteI64_law WriteString_law Flush_law ReadMessageBegin_law ReadMessageEnd_law ReadStructBegin_law
  ReadStructEnd_law ReadFieldEnd_law ReadListBegin_law ReadListEnd_law ReadBool_law ReadI64_law ReadString_law
  : thrift.

(** ** The code every generated struct repeats *)
Section Struct.
Context `{Thrift} {P : Type} `{!TProtocol P}.

(** The error of [ReadFieldBegin] comes with a field id. *)
Definition field_begin (T : string) : proto P (TType * Z) := fun p =>
  let '(p, (fieldTypeId, fieldId, err)) := ReadFieldBegin p in
  match err with
  | Some e => Done p (Err (PrependError (T +:+ " field " +:+ pretty fieldId +:+ " read error: ") e))
  | None => Done p (Ok (fieldTypeId, fieldId))
  end.

(** The [for] loop of [Read]; [switch] is its [switch fieldId]. *)
Fixpoint read_fields {A} (fuel : nat) (T : string) (switch : Z -> TType -> A -> proto P A) (a : A) : proto P A :=
  match fuel with
  | 0 => out_of_fuel
  | S fuel =>
      '(fieldTypeId, fieldId) ← field_begin T;
      if decide (fieldTypeId = STOP) then mret a
      else
        a ← switch fieldId fieldTypeId a;
        _ ← tell ReadFieldEnd;
        read_fields fuel T switch a
  end.

Definition read_struct {A} (fuel : nat) (T : string) (switch : Z -> TType -> A -> proto P A) (a : A) : proto P A :=
  _ ← wrap (T +:+ " read error: ") (tell ReadStructBegin);
  a ← read_fields fuel T switch a;
  _ ← wrap (T +:+ " read struct end error: ") (tell ReadStructEnd);
  mret a.

Definition skip {A} (fieldTypeId : TType) (a : A) : proto P A := _ ← tell (Skip fieldTypeId); mret a.

(** [if fieldTypeId == t { read } else { iprot.Skip(fieldTypeId) }] *)
Definition expect {A} (t fieldTypeId : TType) (read : A -> proto P A) (a : A) : proto P A :=
  if decide (fieldTypeId = t) then read a else skip fieldTypeId a.

Fixpoint read_times {A} (n : nat) (elem : proto P A) : proto P (list A) :=
  match n with
  | 0 => mret []
  | S n => a ← elem; l ← read_times n elem; mret (a :: l)
  end.

(** [make] panics on a negative size; the type of the elements is not looked at. *)
Definition read_list {A} (elem : proto P A) : proto P (list A) :=
  '(_, size) ← wrap "error reading list begin: " (ask ReadListBegin);
  if (size <? 0)%Z then panic
  else
    l ← read_times (Z.to_nat size) elem;
    _ ← wrap "error reading list end: " (tell ReadListEnd);
    mret l.

Definition write_struct (T name : string) (body : proto P unit) : proto P unit :=
  _ ← wrap (T +:+ " write struct begin error: ") (tell (WriteStructBegin name));
  _ ← body;
  _ ← wrap "write field stop error: " (tell WriteFieldStop);
  wrap "write struct stop error: " (tell WriteStructEnd).

Definition write_field (T name : string) (t : TType) (id : Z) (body : proto P unit) : proto P unit :=
  _ ← wrap (T +:+ " write field begin error " +:+ pretty id +:+ ":" +:+ name +:+ ": ") (tell (WriteFieldBegin name t id));
  _ ← body;
  wrap (T +:+ " write field end error " +:+ pretty id +:+ ":" +:+ name +:+ ": ") (tell WriteFieldEnd).

Fixpoint write_each {A} (elem : A -> proto P unit) (l : list A) : proto P unit :=
  match l with [] => mret tt | a :: l => _ ← elem a; write_each elem l end.

Definition write_list {A} (elem : A -> proto P unit) (l : list A) : proto P unit :=
  _ ← wrap "error writing list begin: " (tell (WriteListBegin STRUCT (Z.of_nat (length l))));
  _ ← write_each elem l;
  wrap "error writing list end: " (tell WriteListEnd).

(** *** What they do *)
#[local] Set Default Proof Using "All".
Context `{!TStream P} `{!TProtocolLaws P}.

Lemma skip_reads {A} v (a : A) : value_ok v = true -> reads (skip (type_of v) a) (tokens_of v) a.
Proof. intros Hok. apply (reads_last _ (fun _ => a) _ tt). by apply Skip_law. Qed.

Lemma expect_reads {A} t v read (a a' : A) :
  value_ok v = true -> (type_of v = t -> reads (read a) (tokens_of v) a') -> (type_of v <> t -> a' = a) ->
  reads (expect t (type_of v) read a) (tokens_of v) a'.
Proof.
  intros Hok Hyes Hno. unfold expect. case_decide as Ht; [by apply Hyes|].
  rewrite (Hno Ht). by apply skip_reads.
Qed.

(** A field of each type: its value is read into the message, or it is skipped. *)
Lemma expect_bool {A} (set : bool -> A) read a v :
  value_ok v = true -> (forall b, reads (read a) (tokens_of (VBool b)) (set b)) ->
  reads (expect BOOL (type_of v) read a) (tokens_of v) (on_bool v set a).
Proof.
  intros Hok Hr. apply expect_reads; [done| |by destruct v].
  intros Ht. apply (type_of_known v 1) in Ht; [|done|done]. by destruct v; try apply Hr.
Qed.
Lemma expect_i64 {A} (set : Z -> A) read a v :
  value_ok v = true -> (forall z, reads (read a) (tokens_of (VI64 z)) (set z)) ->
  reads (expect I64 (type_of v) read a) (tokens_of v) (on_i64 v set a).
Proof.
  intros Hok Hr. apply expect_reads; [done| |by destruct v].
  intros Ht. apply (type_of_known v 2) in Ht; [|done|done]. by destruct v; try apply Hr.
Qed.
Lemma expect_string {A} (set : string -> A) read a v :
  value_ok v = true -> (forall s, reads (read a) (tokens_of (VString s)) (set s)) ->
  reads (expect STRING (type_of v) read a) (tokens_of v) (on_string v set a).
Proof.
  intros Hok Hr. apply expect_reads; [done| |by destruct v].
  intros Ht. apply (type_of_known v 3) in Ht; [|done|done]. by destruct v; try apply Hr.
Qed.
Lemma expect_struct {A} (set : list (Z * tvalue) -> A) read a v :
  value_ok v = true -> (forall fs, v = VStruct fs -> reads (read a) (tokens_of v) (set fs)) ->
  reads (expect STRUCT (type_of v) read a) (tokens_of v) (on_struct v set a).
Proof.
  intros Hok Hr. apply expect_reads; [done| |by destruct v].
  intros Ht. apply (type_of_known v 4) in Ht; [|done|done]. by destruct v; try apply Hr.
Qed.
Lemma expect_list {A} (set : list tvalue -> A) read a v :
  value_ok v = true -> (forall t vs, v = VList t vs -> reads (read a) (tokens_of v) (set vs)) ->
  reads (expect LIST (type_of v) read a) (tokens_of v) (on_list v set a).
Proof.
  intros Hok Hr. apply expect_reads; [done| |by destruct v].
  intros Ht. apply (type_of_known v 5) in Ht; [|done|done]. by destruct v; try eapply Hr.
Qed.

Lemma field_begin_reads T t id : reads (field_begin T) [TFieldBegin t id] (t, id).
Proof.
  intros p rest Hp. destruct (ReadFieldBegin_law t id p rest Hp) as (p' & He & Hp').
  exists p'. unfold field_begin. by rewrite He.
Qed.

Lemma read_fields_stop {A} fuel T switch (a : A) : reads (read_fields (S fuel) T switch a) [TFieldStop] a.
Proof.
  intros p rest Hp. destruct (ReadFieldStop_law p rest Hp) as (p' & id & He & Hp').
  exists p'. simpl. unfold mbind, proto_bind, field_begin. rewrite He. by rewrite decide_True.
Qed.

Lemma read_fields_reads {A} T (switch : Z -> TType -> A -> proto P A) (assign : A -> Z * tvalue -> A) fs :
  (forall a f, f ∈ fs -> reads (switch (fst f) (type_of (snd f)) a) (tokens_of (snd f)) (assign a f)) ->
  forallb (fun f => value_ok (snd f)) fs = true -> forall fuel a, length fs < fuel ->
  reads (read_fields fuel T switch a) (concat (map field_tokens fs) ++ [TFieldStop]) (foldl assign a fs).
Proof.
  intros Hsw Hok. induction fs as [|[id v] fs IH]; intros [|fuel] a Hf; simpl in Hf; try lia.
  { apply read_fields_stop. }
  apply andb_true_iff in Hok as [Hv Hok]. cbn [map concat foldl].
  rewrite field_tokens_eq, <- !app_assoc. eapply reads_bind; [apply field_begin_reads|]. cbn beta iota.
  rewrite decide_False by by apply type_not_STOP.
  eapply reads_bind; [apply (Hsw a (id, v)); left|].
  eapply reads_bind; [apply ReadFieldEnd_law|].
  apply IH; [|done|lia]. intros b f Hin. apply Hsw. by right.
Qed.

(** A struct is read as the fold of its fields: in order, so the last one wins. *)
Lemma read_struct_reads {A} fuel T (switch : Z -> TType -> A -> proto P A) (assign : A -> Z * tvalue -> A) fs a :
  (forall a f, f ∈ fs -> reads (switch (fst f) (type_of (snd f)) a) (tokens_of (snd f)) (assign a f)) ->
  value_ok (VStruct fs) = true -> length fs < fuel ->
  reads (read_struct fuel T switch a) (tokens_of (VStruct fs)) (foldl assign a fs).
Proof.
  intros Hsw Hok Hf. rewrite tokens_of_struct.
  eapply reads_bind; [apply reads_wrap, ReadStructBegin_law|].
  eapply reads_bind; [by apply (read_fields_reads _ _ assign)|].
  apply (reads_last _ (fun _ => foldl assign a fs) _ tt). apply reads_wrap, ReadStructEnd_law.
Qed.

Lemma read_times_reads {A} (elem : proto P A) (dec : tvalue -> A) vs :
  (forall v, v ∈ vs -> reads elem (tokens_of v) (dec v)) ->
  reads (read_times (length vs) elem) (concat (map tokens_of vs)) (map dec vs).
Proof.
  induction vs as [|v vs IH]; intros He; [apply reads_ret|].
  eapply reads_bind; [apply He; left|]. apply (reads_last _ (cons (dec v))).
  apply IH. intros v' Hin. apply He. by right.
Qed.

Lemma read_list_reads {A} (elem : proto P A) (dec : tvalue -> A) t vs :
  (forall v, v ∈ vs -> reads elem (tokens_of v) (dec v)) ->
  reads (read_list elem) (tokens_of (VList t vs)) (map dec vs).
Proof.
  intros He. change (tokens_of (VList t vs))
    with ([TListBegin t (Z.of_nat (length vs))] ++ concat (map tokens_of vs) ++ [TListEnd]).
  eapply reads_bind; [apply reads_wrap, ReadListBegin_law|]. cbn beta iota.
  destruct (Z.ltb_spec (Z.of_nat (length vs)) 0); [lia|]. rewrite Nat2Z.id.
  eapply reads_bind; [by apply (read_times_reads _ dec)|].
  apply (reads_last _ (fun _ => map dec vs) _ tt). apply reads_wrap, ReadListEnd_law.
Qed.

(** A negative size ends the goroutine. *)
Lemma read_list_negative {A} (elem : proto P A) p rest t n :
  (n < 0)%Z -> unread p (TListBegin t n :: rest) -> read_list elem p = Panicked.
Proof.
  intros Hn Hp. destruct (reads_wrap "error reading list begin: " _ _ _ (ReadListBegin_law t n) p rest Hp) as (p' & He & _).
  unfold read_list, mbind, proto_bind. rewrite He. by destruct (Z.ltb_spec n 0); [|lia].
Qed.

Lemma write_struct_writes T name body fs :
  writes body (concat (map field_tokens fs)) tt -> writes (write_struct T name body) (tokens_of (VStruct fs)) tt.
Proof.
  intros Hb. rewrite tokens_of_struct, <- app_assoc.
  eapply writes_bind; [apply writes_wrap, WriteStructBegin_law|].
  eapply writes_bind; [exact Hb|].
  eapply writes_bind; apply writes_wrap; [apply WriteFieldStop_law|apply WriteStructEnd_law].
Qed.

Lemma write_field_writes T name t id body v :
  type_of v = t -> writes body (tokens_of v) tt -> writes (write_field T name t id body) (field_tokens (id, v)) tt.
Proof.
  intros <- Hb. rewrite field_tokens_eq.
  eapply writes_bind; [apply writes_wrap, WriteFieldBegin_law|].
  eapply writes_bind; [exact Hb|]. apply writes_wrap, WriteFieldEnd_law.
Qed.

Lemma write_list_writes {A} (elem : A -> proto P unit) (enc : A -> tvalue) l :
  (forall a, writes (elem a) (tokens_of (enc a)) tt) ->
  writes (write_list elem l) (tokens_of (VList STRUCT (map enc l))) tt.
Proof.
  intros He. change (tokens_of (VList STRUCT (map enc l)))
    with ([TListBegin STRUCT (Z.of_nat (length (map enc l)))] ++ concat (map tokens_of (map enc l)) ++ [TListEnd]).
  rewrite length_map. eapply writes_bind; [apply writes_wrap, WriteListBegin_law|].
  eapply writes_bind; [|apply writes_wrap, WriteListEnd_law].
  induction l as [|a l IH]; [apply writes_ret|]. eapply writes_bind; [apply He|exact IH].
Qed.
End Struct.

(** ** The interface of a generated struct

    What a struct makes of a field it reads ([assign], from [zero]), the fields it
    writes, and the fields it can read: an element of a list it wants has to be a
    struct, since the code does not look. *)
Class Schema `{Thrift} (A : Type) : Type := {
  zero : A;
  assign : A -> Z * tvalue -> A;
  accepts : Z * tvalue -> bool;
  fields : A -> list (Z * tvalue)
}.

(** [*A] as a value: nil is sent as a struct without fields. *)
Definition wire `{Schema A} (a : option A) : tvalue :=
  VStruct (match a with Some a => fields a | None => [] end).
Definition decode `{Schema A} (fs : list (Z * tvalue)) : A := foldl assign zero fs.
Definition decode_value `{Schema A} (v : tvalue) : A :=
  match v with VStruct fs => decode fs | _ => zero end.
(** A field that holds a pointer to a struct, and one that holds a list of them. *)
Definition on_message `{Schema B} {A} (v : tvalue) (set : B -> A) (a : A) : A :=
  on_struct v (fun fs => set (decode fs)) a.
Definition on_messages `{Schema B} {A} (v : tvalue) (set : list (option B) -> A) (a : A) : A :=
  on_list v (fun vs => set (map (fun v => Some (decode_value v)) vs)) a.
Definition accepts_value `{Thrift} (A : Type) `{!Schema A} (v : tvalue) : bool :=
  match v with VStruct fs => forallb accepts fs | _ => true end.
Definition accepts_list `{Thrift} (A : Type) `{!Schema A} (v : tvalue) : bool :=
  match v with VList t vs => bool_decide (t = STRUCT) && forallb (accepts_value A) vs | _ => true end.
Definition acceptable `{Thrift} (A : Type) `{!Schema A} (fs : list (Z * tvalue)) : bool :=
  value_ok (VStruct fs) && forallb accepts fs.

Class Codec `{Thrift} (P A : Type) : Type := {
  msg_Read : nat -> A -> proto P A;
  msg_Write : option A -> proto P unit
}.

Class CodecLaws `{Thrift} (P A : Type) `{!TStream P} `{!Schema A} `{!Codec P A} : Prop := {
  Read_reads fuel a fs : acceptable A fs = true -> length (tokens_of (VStruct fs)) <= fuel ->
    reads (msg_Read fuel a) (tokens_of (VStruct fs)) (foldl assign a fs);
  Write_writes a : writes (msg_Write a) (tokens_of (wire a)) tt;
  fields_acceptable a : acceptable A (fields a) = true
}.

Section Messages.
Context `{Thrift}.

Lemma acceptable_elem `{!Schema A} fs f :
  acceptable A fs = true -> f ∈ fs -> value_ok (snd f) = true /\ accepts f = true.
Proof.
  unfold acceptable. simpl. rewrite andb_true_iff, !forallb_forall. intros [Hv Ha] Hin%list_elem_of_In.
  split; [by apply Hv|by apply Ha].
Qed.

Lemma acceptable_Forall `{!Schema A} fs :
  Forall (fun f => value_ok (snd f) = true /\ accepts f = true) fs -> acceptable A fs = true.
Proof.
  intros Hf. unfold acceptable. simpl. rewrite andb_true_iff, !forallb_forall.
  rewrite Forall_forall in Hf. split; intros f Hin%list_elem_of_In; by apply Hf.
Qed.

Lemma acceptable_value `{!Schema A} fs :
  value_ok (VStruct fs) = true -> accepts_value A (VStruct fs) = true -> acceptable A fs = true.
Proof. intros Hok Ha. unfold acceptable. by rewrite Hok. Qed.

Lemma length_tokens_of v : 0 < length (tokens_of v).
Proof. destruct v; simpl; lia. Qed.

(** A struct has more tokens than fields, and more than any of its fields; a list
    more than any of its elements. *)
Lemma length_fields fs : length fs < length (tokens_of (VStruct fs)).
Proof.
  rewrite tokens_of_struct, !length_app. simpl. induction fs as [|f fs IH]; simpl in *; [lia|].
  rewrite length_app. lia.
Qed.
Lemma length_field fs f : f ∈ fs -> length (tokens_of (snd f)) < length (tokens_of (VStruct fs)).
Proof.
  intros Hin. rewrite tokens_of_struct, !length_app. simpl.
  assert (length (tokens_of (snd f)) <= length (concat (map field_tokens fs))); [|lia].
  induction Hin as [fs|f g fs Hin IH]; simpl; rewrite !length_app; simpl; lia.
Qed.
Lemma length_element t vs v : v ∈ vs -> length (tokens_of v) < length (tokens_of (VList t vs)).
Proof.
  intros Hin. simpl. rewrite length_app. simpl.
  assert (length (tokens_of v) <= length (concat (map tokens_of vs))); [|lia].
  induction Hin as [vs|v w vs Hin IH]; simpl; rewrite length_app; lia.
Qed.

Context {P : Type} `{!TProtocol P} `{!TStream P} `{!TProtocolLaws P}.
#[local] Set Default Proof Using "All".

(** [Read] of a struct, from its [switch]. *)
Lemma read_struct_codec `{!Schema A} fuel T (switch : Z -> TType -> A -> proto P A) a fs :
  (forall a id v, value_ok v = true -> accepts (id, v) = true -> length (tokens_of v) <= fuel ->
     reads (switch id (type_of v) a) (tokens_of v) (assign a (id, v))) ->
  acceptable A fs = true -> length (tokens_of (VStruct fs)) <= fuel ->
  reads (read_struct fuel T switch a) (tokens_of (VStruct fs)) (foldl assign a fs).
Proof.
  intros Hsw Hok Hf. apply read_struct_reads.
  - intros b [id v] Hin. destruct (acceptable_elem _ _ Hok Hin). apply Hsw; [done|done|].
    pose proof (length_field _ _ Hin). simpl in *. lia.
  - by apply andb_true_iff in Hok as [? _].
  - pose proof (length_fields fs). lia.
Qed.

Lemma expect_message {A B} `{!Schema B} `{!Codec P B} `{!CodecLaws P B} (set : B -> A) fuel msg read a v :
  value_ok v = true -> accepts_value B v = true -> length (tokens_of v) <= fuel ->
  read a = (b ← wrap msg (msg_Read fuel zero); mret (set b)) ->
  reads (expect STRUCT (type_of v) read a) (tokens_of v) (on_message v set a).
Proof.
  intros Hok Ha Hf Hr. unfold on_message. apply expect_struct; [done|]. intros fs ->. rewrite Hr.
  apply (reads_last _ set), reads_wrap. apply Read_reads; [by apply acceptable_value|done].
Qed.

Lemma expect_messages {A B} `{!Schema B} `{!Codec P B} `{!CodecLaws P B} (set : list (option B) -> A) fuel msg read a v :
  value_ok v = true -> accepts_list B v = true -> length (tokens_of v) <= fuel ->
  read a = (l ← read_list (b ← wrap msg (msg_Read fuel zero); mret (Some b)); mret (set l)) ->
  reads (expect LIST (type_of v) read a) (tokens_of v) (on_messages v set a).
Proof.
  intros Hok Ha Hf Hr. unfold on_messages. apply expect_list; [done|].
  intros t vs ->. rewrite Hr. apply (reads_last _ set). apply read_list_reads. intros v Hin.
  apply andb_true_iff in Ha as [->%bool_decide_eq_true Ha].
  pose proof (length_element STRUCT _ _ Hin). simpl in Hok. rewrite forallb_forall in Hok, Ha.
  apply list_elem_of_In in Hin. specialize (Hok v Hin). specialize (Ha v Hin).
  apply andb_true_iff in Hok as [Hv Ht%bool_decide_eq_true]. apply (type_of_known v 4) in Ht; [|done|done].
  destruct v as [| | |fs| |]; try done. apply (reads_last _ Some), reads_wrap.
  apply Read_reads; [by apply acceptable_value|]. lia.
Qed.

Lemma wire_ok `{!Schema A} `{!Codec P A} `{!CodecLaws P A} a : value_ok (wire a) = true /\ accepts_value A (wire a) = true.
Proof.
  destruct a as [a|]; [|done]. pose proof (fields_acceptable (P := P) a) as Ha.
  by apply andb_true_iff in Ha as [??].
Qed.

Lemma wire_list_ok `{!Schema A} `{!Codec P A} `{!CodecLaws P A} (l : list (option A)) :
  value_ok (VList STRUCT (map wire l)) = true /\ accepts_list A (VList STRUCT (map wire l)) = true.
Proof.
  cbn [value_ok accepts_list]. rewrite bool_decide_true by done. cbn [andb].
  rewrite !forallb_forall. split; intros v (a & <- & _)%in_map_iff; destruct (wire_ok a) as [Hv Ha]; [|done].
  by rewrite Hv, bool_decide_true.
Qed.

(** *** Writing the fields one after the other *)
Lemma writes_last_field (m : proto P unit) f :
  writes m (field_tokens f) tt -> writes m (concat (map field_tokens [f])) tt.
Proof. intros Hm. cbn [map concat]. by rewrite app_nil_r. Qed.
Lemma writes_next_field (m k : proto P unit) f fs :
  writes m (field_tokens f) tt -> writes k (concat (map field_tokens fs)) tt ->
  writes (_ ← m; k) (concat (map field_tokens (f :: fs))) tt.
Proof. intros Hm Hk. by apply (writes_bind m (fun _ => k) _ _ tt). Qed.
Lemma write_message `{!Schema A} `{!Codec P A} `{!CodecLaws P A} (write : option A -> proto P unit) msg a :
  write = msg_Write -> writes (wrap msg (write a)) (tokens_of (wire a)) tt.
Proof. intros ->. apply writes_wrap, Write_writes. Qed.
Lemma write_messages `{!Schema A} `{!Codec P A} `{!CodecLaws P A} (write : option A -> proto P unit) msg l :
  write = msg_Write -> writes (write_list (fun a => wrap msg (write a)) l) (tokens_of (VList STRUCT (map wire l))) tt.
Proof. intros ->. apply write_list_writes. intros a. by apply write_message. Qed.

(** Reading what was written, into a new struct. *)
Lemma read_written `{!Schema A} `{!Codec P A} `{!CodecLaws P A} fuel a :
  length (tokens_of (wire (Some a))) <= fuel ->
  writes (msg_Write (Some a)) (tokens_of (wire (Some a))) tt /\
  reads (msg_Read fuel zero) (tokens_of (wire (Some a))) (decode (fields a)).
Proof. intros Hf. split; [apply Write_writes|]. apply Read_reads; [apply (fields_acceptable (P := P))|done]. Qed.
End Messages.

(** ** Automation for a generated struct *)
Ltac codec_scalar :=
  intros;
  match goal with |- reads ?m ?ts ?a => let m' := eval red in m in change (reads m' ts a) end;
  rewrite <- (app_nil_r (tokens_of _)); eapply reads_bind; [eauto with thrift|apply reads_ret].

Ltac codec_field :=
  first
    [ apply expect_bool; [assumption|codec_scalar]
    | apply expect_i64; [assumption|codec_scalar]
    | apply expect_string; [assumption|codec_scalar]
    | eapply expect_message; [assumption|assumption|eassumption|reflexivity]
    | eapply expect_messages; [assumption|assumption|eassumption|reflexivity]
    | by apply skip_reads ].

Ltac codec_write_field :=
  apply write_field_writes; [reflexivity|]; first [by apply write_message | by apply write_messages | eauto with thrift].
Ltac codec_write :=
  first
    [ apply writes_last_field; codec_write_field
    | apply writes_next_field; [codec_write_field|codec_write]
    | apply writes_ret ].

Ltac codec_accepts :=
  cbn [fst snd];
  repeat first [rewrite decide_True by reflexivity | rewrite decide_False by discriminate];
  first [apply wire_ok | apply wire_list_ok | done].

(** [unfold_schema] unfolds the instance; a result has its field only if it is set. *)
Ltac codec_laws unfold_schema := split;
  [ intros fuel p fs Hok Hf; apply (read_struct_codec fuel); [|exact Hok|exact Hf];
    intros q id v Hv Ha Hl; unfold assign, accepts in *; unfold_schema; repeat case_decide; codec_field
  | intros [p|]; apply write_struct_writes; [|apply writes_ret];
    unfold fields; unfold_schema; first [codec_write | destruct p as [[?|]]; codec_write]
  | intros p; apply acceptable_Forall; unfold fields, accepts; unfold_schema;
    first [repeat (apply Forall_cons; split); try apply Forall_nil; codec_accepts
          | destruct p as [[?|]]; repeat (apply Forall_cons; split); try apply Forall_nil; codec_accepts] ].
