(* ===== verification/TokenProtocol.v ===== *)
(** * A protocol of tokens

    The simplest protocol that satisfies [TProtocolLaws]: its state is the tokens to be
    read and those written.  It shows that the laws can hold and evaluates the
    examples of the files that follow. *)
From S2P Require Import Prelude.
From S2P Require Import ThriftProtocol.

Lemma numbers_distinct : NoDup [0%Z; 2%Z; 10%Z; 11%Z; 12%Z; 15%Z].
Proof. apply (bool_decide_unpack _). exact I. Qed.

(** The types have the numbers thrift gives them. *)
#[local] Instance numbered : Thrift := {|
  error := string; Error e := e; errors_New s := s; PrependError msg e := (msg +:+ e)%string;
  TType := Z; STOP := 0%Z; BOOL := 2%Z; I64 := 10%Z; STRING := 11%Z; STRUCT := 12%Z; LIST := 15%Z;
  types_distinct := numbers_distinct;
  TMessageType := Z; CALL := 1%Z; REPLY := 2%Z; EXCEPTION := 3%Z;
  exception_kind := Z; UNKNOWN_METHOD := 1%Z; INTERNAL_ERROR := 6%Z; PROTOCOL_ERROR := 7%Z;
  NewTApplicationException _ msg := msg
|}.

Record tokens : Type := mkTokens { to_read : list token; sent : list token }.

(** [+1] where a value opens, [-1] where it closes. *)
Definition nesting (t : token) : Z :=
  match t with TStructBegin | TListBegin _ _ => 1 | TStructEnd | TListEnd => -1 | _ => 0 end.

(** The tokens after the value that is open at depth [d], or after the next one. *)
Fixpoint drop_value (d : Z) (ts : list token) : option (list token) :=
  match ts with
  | [] => None
  | t :: ts => if decide (d + nesting t = 0)%Z then Some ts else drop_value (d + nesting t) ts
  end.

Definition emit (t : token) (p : tokens) : tokens * option string :=
  (mkTokens (to_read p) (sent p ++ [t]), None).
Definition next (p : tokens) : option (token * tokens) :=
  match to_read p with [] => None | t :: ts => Some (t, mkTokens ts (sent p)) end.
Definition take_if (ok : token -> bool) (p : tokens) : tokens * option string :=
  match next p with
  | Some (t, p) => (p, if ok t then None else Some "unexpected token"%string)
  | None => (p, Some "EOF"%string)
  end.
Definition take {A} (sel : token -> option A) (p : tokens) : tokens * result string A :=
  match next p with
  | Some (t, p) => (p, match sel t with Some a => Ok a | None => Err "unexpected token"%string end)
  | None => (p, Err "EOF"%string)
  end.

#[local] Instance token_protocol : TProtocol tokens := {|
  WriteMessageBegin n t z := emit (TMessageBegin n t z);
  WriteMessageEnd := emit TMessageEnd;
  WriteStructBegin _ := emit TStructBegin;
  WriteStructEnd := emit TStructEnd;
  WriteFieldBegin _ t id := emit (TFieldBegin t id);
  WriteFieldEnd := emit TFieldEnd;
  WriteFieldStop := emit TFieldStop;
  WriteListBegin t n := emit (TListBegin t n);
  WriteListEnd := emit TListEnd;
  WriteBool b := emit (TBool b);
  WriteI64 z := emit (TI64 z);
  WriteString s := emit (TString s);
  Flush p := (p, None);
  ReadMessageBegin := take (fun t => match t with TMessageBegin n t z => Some (n, t, z) | _ => None end);
  ReadMessageEnd := take_if (fun t => match t with TMessageEnd => true | _ => false end);
  ReadStructBegin := take_if (fun t => match t with TStructBegin => true | _ => false end);
  ReadStructEnd := take_if (fun t => match t with TStructEnd => true | _ => false end);
  ReadFieldBegin p :=
    match next p with
    | Some (TFieldBegin t id, p) => (p, (t, id, None))
    | Some (TFieldStop, p) => (p, (STOP, 0%Z, None))
    | Some (_, p) => (p, (STOP, 0%Z, Some "unexpected token"%string))
    | None => (p, (STOP, 0%Z, Some "EOF"%string))
    end;
  ReadFieldEnd := take_if (fun t => match t with TFieldEnd => true | _ => false end);
  ReadListBegin := take (fun t => match t with TListBegin t n => Some (t, n) | _ => None end);
  ReadListEnd := take_if (fun t => match t with TListEnd => true | _ => false end);
  ReadBool := take (fun t => match t with TBool b => Some b | _ => None end);
  ReadI64 := take (fun t => match t with TI64 z => Some z | _ => None end);
  ReadString := take (fun t => match t with TString s => Some s | _ => None end);
  Skip _ p :=
    match drop_value 0 (to_read p) with
    | Some ts => (mkTokens ts (sent p), None)
    | None => (p, Some "EOF"%string)
    end;
  TApplicationException_Write k msg p :=
    (mkTokens (to_read p) (sent p ++ tokens_of (VStruct [(1%Z, VString msg); (2%Z, VI64 k)])), None)
|}.

#[local] Instance token_stream : TStream tokens := {|
  write_ok _ := True; written := sent; unread p ts := to_read p = ts; sendable _ := True
|}.

(** ** A value is dropped as a whole *)
Definition drops (ts : list token) : Prop :=
  forall d rest, (0 < d)%Z -> drop_value d (ts ++ rest) = drop_value d rest.

Lemma drops_flat t : nesting t = 0%Z -> drops [t].
Proof. intros Ht d rest Hd. simpl. rewrite Ht, Z.add_0_r. by rewrite decide_False by lia. Qed.
Lemma drops_app ts1 ts2 : drops ts1 -> drops ts2 -> drops (ts1 ++ ts2).
Proof. intros H1 H2 d rest Hd. by rewrite <- app_assoc, H1, H2. Qed.
Lemma drops_concat (l : list (list token)) : Forall drops l -> drops (concat l).
Proof. induction 1 as [|ts l Hts _ IH]; [by intros d rest _|]. by apply drops_app. Qed.
(** A value is one token, or tokens between an opening and a closing one. *)
Inductive shape : list token -> Prop :=
| shape_flat t : nesting t = 0%Z -> shape [t]
| shape_bracket o c ts : nesting o = 1%Z -> nesting c = (-1)%Z -> drops ts -> shape (o :: ts ++ [c]).

Lemma shape_drops ts : shape ts -> drops ts.
Proof.
  intros [t Ht|o c ts' Ho Hc Hts]; [by apply drops_flat|]. intros d rest Hd. simpl.
  rewrite Ho, decide_False by lia. rewrite <- app_assoc, Hts by lia. simpl.
  rewrite Hc, decide_False by lia. f_equal. lia.
Qed.
Lemma shape_drop_value ts rest : shape ts -> drop_value 0 (ts ++ rest) = Some rest.
Proof.
  intros [t Ht|o c ts' Ho Hc Hts]; simpl; [by rewrite Ht, decide_True|].
  rewrite Ho, decide_False by lia. rewrite <- app_assoc, Hts by lia. simpl. by rewrite Hc, decide_True.
Qed.

Lemma shape_value n v : length (tokens_of v) <= n -> shape (tokens_of v).
Proof.
  revert v. induction n as [|n IH]; intros v Hn; [pose proof (length_tokens_of v); lia|].
  destruct v as [b|z|s|fs|t vs|t]; [by apply shape_flat..| | |by apply shape_flat].
  - rewrite tokens_of_struct. apply (shape_bracket TStructBegin TStructEnd); [done..|].
    apply drops_app; [|by apply drops_flat]. apply drops_concat, Forall_forall.
    intros ts ([id v] & <- & Hin)%list_elem_of_In%in_map_iff.
    apply list_elem_of_In in Hin. pose proof (length_field _ _ Hin) as Hl. rewrite field_tokens_eq.
    apply drops_app; [by apply drops_flat|]. apply drops_app; [|by apply drops_flat].
    apply shape_drops, IH. simpl in Hl, Hn. lia.
  - apply (shape_bracket (TListBegin t (Z.of_nat (length vs))) TListEnd); [done..|].
    apply drops_concat, Forall_forall. intros ts (v & <- & Hin)%list_elem_of_In%in_map_iff.
    apply list_elem_of_In in Hin. pose proof (length_element t _ _ Hin). apply shape_drops, IH. lia.
Qed.

#[local] Instance token_laws : TProtocolLaws tokens.
Proof.
  split; try (intros; intros [] _; eexists; split_and!; [reflexivity|done|]; simpl; by rewrite ?app_nil_r);
    try (intros; intros [] rest Hr; simpl in Hr; subst; eexists; split; reflexivity).
  - intros k msg. eexists. intros [] _. by eexists.
  - intros t id [] rest Hr; simpl in Hr; subst. eexists; split; reflexivity.
  - intros [] rest Hr; simpl in Hr; subst. do 2 eexists; split; reflexivity.
  - intros v Hok [r w] rest Hr. simpl in Hr. subst r. eexists. unfold tell. simpl.
    rewrite shape_drop_value by by eapply shape_value. by split.
Qed.
