(* ===== verification/ThriftRpc.v ===== *)
(** * thrift/rpc/rpc.go: the messages of the service

    One record per struct, with its [ReadField], [Read], [writeField] and [Write]
    functions over the loops of [ThriftProtocol]; a pointer is an option, and a struct
    that a failed [Read] leaves half filled is dropped, as its callers do.  The fuel of
    a [Read] bounds the fields it reads; as many as the value has tokens is enough.
    Each struct is an instance of [Schema] and [Codec], and its code satisfies
    [CodecLaws]. *)
From S2P Require Import Prelude.
From S2P Require Import ThriftProtocol.
From S2P Require Import TokenProtocol.

(** ** The structs *)
(* src/thrift/rpc/rpc.go:24-27 Health *)
Record Health : Type := mkHealth { OK : bool; Errors : string }.
(* src/thrift/rpc/rpc.go:151-154 GetRequest *)
Record GetRequest : Type := mkGetRequest { get_Key : string; Serializable : bool }.
(* src/thrift/rpc/rpc.go:432-435 KeyValue *)
Record KeyValue : Type := mkKeyValue { Key : string; Value : string }.
(* src/thrift/rpc/rpc.go:559-562 PutRequest *)
Record PutRequest : Type := mkPutRequest { put_Key : string; put_Value : string }.
(* src/thrift/rpc/rpc.go:688-693 ResponseHeader *)
Record ResponseHeader : Type := mkResponseHeader { ClusterID : Z; NodeID : Z; ConsumeTime : Z; NodeIP : string }.
(* src/thrift/rpc/rpc.go:278-281 GetResponse *)
Record GetResponse : Type := mkGetResponse { get_Header : option ResponseHeader; Kvs : list (option KeyValue) }.
(* src/thrift/rpc/rpc.go:884-886 PutResponse *)
Record PutResponse : Type := mkPutResponse { put_Header : option ResponseHeader }.
(* src/thrift/rpc/rpc.go:1303-1304 KVPingArgs *)
Record KVPingArgs : Type := mkKVPingArgs { }.
(* src/thrift/rpc/rpc.go:1356-1358 KVPingResult *)
Record KVPingResult : Type := mkKVPingResult { ping_Success : option Health }.
(* src/thrift/rpc/rpc.go:1456-1458 KVGetArgs *)
Record KVGetArgs : Type := mkKVGetArgs { get_Req : option GetRequest }.
(* src/thrift/rpc/rpc.go:1554-1556 KVGetResult *)
Record KVGetResult : Type := mkKVGetResult { get_Success : option GetResponse }.
(* src/thrift/rpc/rpc.go:1654-1656 KVPutArgs *)
Record KVPutArgs : Type := mkKVPutArgs { put_Req : option PutRequest }.
(* src/thrift/rpc/rpc.go:1752-1754 KVPutResult *)
Record KVPutResult : Type := mkKVPutResult { put_Success : option PutResponse }.
(* src/thrift/rpc/rpc.go:1852-1854 KVMultiPutArgs *)
Record KVMultiPutArgs : Type := mkKVMultiPutArgs { Reqs : list (option PutRequest) }.
(* src/thrift/rpc/rpc.go:1963-1965 KVMultiPutResult *)
Record KVMultiPutResult : Type := mkKVMultiPutResult { multi_Success : option PutResponse }.

Section ThriftRpc.
Context `{Thrift} {P : Type} `{!TProtocol P}.

(** ** Health *)
(* src/thrift/rpc/rpc.go:29-31 NewHealth *)
Definition NewHealth : Health := mkHealth false "".

(* src/thrift/rpc/rpc.go:89-96 Health.ReadField1 *)
Definition Health_ReadField1 (p : Health) : proto P Health :=
  v ← wrap "error reading field 1: " (ask ReadBool);
  mret (mkHealth v (Errors p)).
(* src/thrift/rpc/rpc.go:98-105 Health.ReadField2 *)
Definition Health_ReadField2 (p : Health) : proto P Health :=
  v ← wrap "error reading field 2: " (ask ReadString);
  mret (mkHealth (OK p) v).
(* src/thrift/rpc/rpc.go:41-87 Health.Read *)
Definition Health_Read (fuel : nat) : Health -> proto P Health :=
  read_struct fuel "*rpc.Health" (fun fieldId fieldTypeId p =>
    if decide (fieldId = 1%Z) then expect BOOL fieldTypeId Health_ReadField1 p else
    if decide (fieldId = 2%Z) then expect STRING fieldTypeId Health_ReadField2 p else
    skip fieldTypeId p).

(* src/thrift/rpc/rpc.go:121-129 Health.writeField1 *)
Definition Health_writeField1 (p : Health) : proto P unit :=
  write_field "*rpc.Health" "OK" BOOL 1 (wrap "*rpc.Health.OK (1) field write error: " (tell (WriteBool (OK p)))).
(* src/thrift/rpc/rpc.go:131-139 Health.writeField2 *)
Definition Health_writeField2 (p : Health) : proto P unit :=
  write_field "*rpc.Health" "Errors" STRING 2 (wrap "*rpc.Health.Errors (2) field write error: " (tell (WriteString (Errors p)))).
(* src/thrift/rpc/rpc.go:107-119 Health.Write *)
Definition Health_Write (p : option Health) : proto P unit :=
  write_struct "*rpc.Health" "Health" (match p with Some p => _ ← Health_writeField1 p; Health_writeField2 p | None => mret tt end).

(** ** GetRequest *)
(* src/thrift/rpc/rpc.go:156-158 NewGetRequest *)
Definition NewGetRequest : GetRequest := mkGetRequest "" false.

(* src/thrift/rpc/rpc.go:216-223 GetRequest.ReadField1 *)
Definition GetRequest_ReadField1 (p : GetRequest) : proto P GetRequest :=
  v ← wrap "error reading field 1: " (ask ReadString);
  mret (mkGetRequest v (Serializable p)).
(* src/thrift/rpc/rpc.go:225-232 GetRequest.ReadField2 *)
Definition GetRequest_ReadField2 (p : GetRequest) : proto P GetRequest :=
  v ← wrap "error reading field 2: " (ask ReadBool);
  mret (mkGetRequest (get_Key p) v).
(* src/thrift/rpc/rpc.go:168-214 GetRequest.Read *)
Definition GetRequest_Read (fuel : nat) : GetRequest -> proto P GetRequest :=
  read_struct fuel "*rpc.GetRequest" (fun fieldId fieldTypeId p =>
    if decide (fieldId = 1%Z) then expect STRING fieldTypeId GetRequest_ReadField1 p else
    if decide (fieldId = 2%Z) then expect BOOL fieldTypeId GetRequest_ReadField2 p else
    skip fieldTypeId p).

(* src/thrift/rpc/rpc.go:248-256 GetRequest.writeField1 *)
Definition GetRequest_writeField1 (p : GetRequest) : proto P unit :=
  write_field "*rpc.GetRequest" "key" STRING 1 (wrap "*rpc.GetRequest.key (1) field write error: " (tell (WriteString (get_Key p)))).
(* src/thrift/rpc/rpc.go:258-266 GetRequest.writeField2 *)
Definition GetRequest_writeField2 (p : GetRequest) : proto P unit :=
  write_field "*rpc.GetRequest" "serializable" BOOL 2 (wrap "*rpc.GetRequest.serializable (2) field write error: " (tell (WriteBool (Serializable p)))).
(* src/thrift/rpc/rpc.go:234-246 GetRequest.Write *)
Definition GetRequest_Write (p : option GetRequest) : proto P unit :=
  write_struct "*rpc.GetRequest" "GetRequest" (match p with Some p => _ ← GetRequest_writeField1 p; GetRequest_writeField2 p | None => mret tt end).

(** ** KeyValue *)
(* src/thrift/rpc/rpc.go:437-439 NewKeyValue *)
Definition NewKeyValue : KeyValue := mkKeyValue "" "".

(* src/thrift/rpc/rpc.go:497-504 KeyValue.ReadField1 *)
Definition KeyValue_ReadField1 (p : KeyValue) : proto P KeyValue :=
  v ← wrap "error reading field 1: " (ask ReadString);
  mret (mkKeyValue v (Value p)).
(* src/thrift/rpc/rpc.go:506-513 KeyValue.ReadField2 *)
Definition KeyValue_ReadField2 (p : KeyValue) : proto P KeyValue :=
  v ← wrap "error reading field 2: " (ask ReadString);
  mret (mkKeyValue (Key p) v).
(* src/thrift/rpc/rpc.go:449-495 KeyValue.Read *)
Definition KeyValue_Read (fuel : nat) : KeyValue -> proto P KeyValue :=
  read_struct fuel "*rpc.KeyValue" (fun fieldId fieldTypeId p =>
    if decide (fieldId = 1%Z) then expect STRING fieldTypeId KeyValue_ReadField1 p else
    if decide (fieldId = 2%Z) then expect STRING fieldTypeId KeyValue_ReadField2 p else
    skip fieldTypeId p).

(* src/thrift/rpc/rpc.go:529-537 KeyValue.writeField1 *)
Definition KeyValue_writeField1 (p : KeyValue) : proto P unit :=
  write_field "*rpc.KeyValue" "key" STRING 1 (wrap "*rpc.KeyValue.key (1) field write error: " (tell (WriteString (Key p)))).
(* src/thrift/rpc/rpc.go:539-547 KeyValue.writeField2 *)
Definition KeyValue_writeField2 (p : KeyValue) : proto P unit :=
  write_field "*rpc.KeyValue" "value" STRING 2 (wrap "*rpc.KeyValue.value (2) field write error: " (tell (WriteString (Value p)))).
(* src/thrift/rpc/rpc.go:515-527 KeyValue.Write *)
Definition KeyValue_Write (p : option KeyValue) : proto P unit :=
  write_struct "*rpc.KeyValue" "KeyValue" (match p with Some p => _ ← KeyValue_writeField1 p; KeyValue_writeField2 p | None => mret tt end).

(** ** PutRequest *)
(* src/thrift/rpc/rpc.go:564-566 NewPutRequest *)
Definition NewPutRequest : PutRequest := mkPutRequest "" "".

(* src/thrift/rpc/rpc.go:624-631 PutRequest.ReadField1 *)
Definition PutRequest_ReadField1 (p : PutRequest) : proto P PutRequest :=
  v ← wrap "error reading field 1: " (ask ReadString);
  mret (mkPutRequest v (put_Value p)).
(* src/thrift/rpc/rpc.go:633-640 PutRequest.ReadField2 *)
Definition PutRequest_ReadField2 (p : PutRequest) : proto P PutRequest :=
  v ← wrap "error reading field 2: " (ask ReadString);
  mret (mkPutRequest (put_Key p) v).
(* src/thrift/rpc/rpc.go:576-622 PutRequest.Read *)
Definition PutRequest_Read (fuel : nat) : PutRequest -> proto P PutRequest :=
  read_struct fuel "*rpc.PutRequest" (fun fieldId fieldTypeId p =>
    if decide (fieldId = 1%Z) then expect STRING fieldTypeId PutRequest_ReadField1 p else
    if decide (fieldId = 2%Z) then expect STRING fieldTypeId PutRequest_ReadField2 p else
    skip fieldTypeId p).

(* src/thrift/rpc/rpc.go:656-664 PutRequest.writeField1 *)
Definition PutRequest_writeField1 (p : PutRequest) : proto P unit :=
  write_field "*rpc.PutRequest" "key" STRING 1 (wrap "*rpc.PutRequest.key (1) field write error: " (tell (WriteString (put_Key p)))).
(* src/thrift/rpc/rpc.go:666-674 PutRequest.writeField2 *)
Definition PutRequest_writeField2 (p : PutRequest) : proto P unit :=
  write_field "*rpc.PutRequest" "value" STRING 2 (wrap "*rpc.PutRequest.value (2) field write error: " (tell (WriteString (put_Value p)))).
(* src/thrift/rpc/rpc.go:642-654 PutRequest.Write *)
Definition PutRequest_Write (p : option PutRequest) : proto P unit :=
  write_struct "*rpc.PutRequest" "PutRequest" (match p with Some p => _ ← PutRequest_writeField1 p; PutRequest_writeField2 p | None => mret tt end).

(** ** ResponseHeader *)
(* src/thrift/rpc/rpc.go:695-697 NewResponseHeader *)
Definition NewResponseHeader : ResponseHeader := mkResponseHeader 0 0 0 "".

(* src/thrift/rpc/rpc.go:783-790 ResponseHeader.ReadField1 *)
Definition ResponseHeader_ReadField1 (p : ResponseHeader) : proto P ResponseHeader :=
  v ← wrap "error reading field 1: " (ask ReadI64);
  mret (mkResponseHeader v (NodeID p) (ConsumeTime p) (NodeIP p)).
(* src/thrift/rpc/rpc.go:792-799 ResponseHeader.ReadField2 *)
Definition ResponseHeader_ReadField2 (p : ResponseHeader) : proto P ResponseHeader :=
  v ← wrap "error reading field 2: " (ask ReadI64);
  mret (mkResponseHeader (ClusterID p) v (ConsumeTime p) (NodeIP p)).
(* src/thrift/rpc/rpc.go:801-808 ResponseHeader.ReadField3 *)
Definition ResponseHeader_ReadField3 (p : ResponseHeader) : proto P ResponseHeader :=
  v ← wrap "error reading field 3: " (ask ReadI64);
  mret (mkResponseHeader (ClusterID p) (NodeID p) v (NodeIP p)).
(* src/thrift/rpc/rpc.go:810-817 ResponseHeader.ReadField4 *)
Definition ResponseHeader_ReadField4 (p : ResponseHeader) : proto P ResponseHeader :=
  v ← wrap "error reading field 4: " (ask ReadString);
  mret (mkResponseHeader (ClusterID p) (NodeID p) (ConsumeTime p) v).
(* src/thrift/rpc/rpc.go:715-781 ResponseHeader.Read *)
Definition ResponseHeader_Read (fuel : nat) : ResponseHeader -> proto P ResponseHeader :=
  read_struct fuel "*rpc.ResponseHeader" (fun fieldId fieldTypeId p =>
    if decide (fieldId = 1%Z) then expect I64 fieldTypeId ResponseHeader_ReadField1 p else
    if decide (fieldId = 2%Z) then expect I64 fieldTypeId ResponseHeader_ReadField2 p else
    if decide (fieldId = 3%Z) then expect I64 fieldTypeId ResponseHeader_ReadField3 p else
    if decide (fieldId = 4%Z) then expect STRING fieldTypeId ResponseHeader_ReadField4 p else
    skip fieldTypeId p).

(* src/thrift/rpc/rpc.go:835-843 ResponseHeader.writeField1 *)
Definition ResponseHeader_writeField1 (p : ResponseHeader) : proto P unit :=
  write_field "*rpc.ResponseHeader" "cluster_id" I64 1 (wrap "*rpc.ResponseHeader.cluster_id (1) field write error: " (tell (WriteI64 (ClusterID p)))).
(* src/thrift/rpc/rpc.go:845-853 ResponseHeader.writeField2 *)
Definition ResponseHeader_writeField2 (p : ResponseHeader) : proto P unit :=
  write_field "*rpc.ResponseHeader" "node_id" I64 2 (wrap "*rpc.ResponseHeader.node_id (2) field write error: " (tell (WriteI64 (NodeID p)))).
(* src/thrift/rpc/rpc.go:855-863 ResponseHeader.writeField3 *)
Definition ResponseHeader_writeField3 (p : ResponseHeader) : proto P unit :=
  write_field "*rpc.ResponseHeader" "consume_time" I64 3 (wrap "*rpc.ResponseHeader.consume_time (3) field write error: " (tell (WriteI64 (ConsumeTime p)))).
(* src/thrift/rpc/rpc.go:865-873 ResponseHeader.writeField4 *)
Definition ResponseHeader_writeField4 (p : ResponseHeader) : proto P unit :=
  write_field "*rpc.ResponseHeader" "node_ip" STRING 4 (wrap "*rpc.ResponseHeader.node_ip (4) field write error: " (tell (WriteString (NodeIP p)))).
(* src/thrift/rpc/rpc.go:819-833 ResponseHeader.Write *)
Definition ResponseHeader_Write (p : option ResponseHeader) : proto P unit :=
  write_struct "*rpc.ResponseHeader" "ResponseHeader" (match p with Some p => _ ← ResponseHeader_writeField1 p; _ ← ResponseHeader_writeField2 p; _ ← ResponseHeader_writeField3 p; ResponseHeader_writeField4 p | None => mret tt end).

(** ** GetResponse *)
(* src/thrift/rpc/rpc.go:283-285 NewGetResponse *)
Definition NewGetResponse : GetResponse := mkGetResponse None [].

(* src/thrift/rpc/rpc.go:350-356 GetResponse.ReadField1 *)
Definition GetResponse_ReadField1 (fuel : nat) (p : GetResponse) : proto P GetResponse :=
  v ← wrap "*rpc.ResponseHeader error reading struct: " (ResponseHeader_Read fuel NewResponseHeader);
  mret (mkGetResponse (Some v) (Kvs p)).
(* src/thrift/rpc/rpc.go:358-376 GetResponse.ReadField2 *)
Definition GetResponse_ReadField2 (fuel : nat) (p : GetResponse) : proto P GetResponse :=
  l ← read_list (v ← wrap "*rpc.KeyValue error reading struct: " (KeyValue_Read fuel NewKeyValue); mret (Some v));
  mret (mkGetResponse (get_Header p) l).
(* src/thrift/rpc/rpc.go:302-348 GetResponse.Read *)
Definition GetResponse_Read (fuel : nat) : GetResponse -> proto P GetResponse :=
  read_struct fuel "*rpc.GetResponse" (fun fieldId fieldTypeId p =>
    if decide (fieldId = 1%Z) then expect STRUCT fieldTypeId (GetResponse_ReadField1 fuel) p else
    if decide (fieldId = 2%Z) then expect LIST fieldTypeId (GetResponse_ReadField2 fuel) p else
    skip fieldTypeId p).

(* src/thrift/rpc/rpc.go:392-401 GetResponse.writeField1 *)
Definition GetResponse_writeField1 (p : GetResponse) : proto P unit :=
  write_field "*rpc.GetResponse" "header" STRUCT 1 (wrap "*rpc.ResponseHeader error writing struct: " (ResponseHeader_Write (get_Header p))).
(* src/thrift/rpc/rpc.go:403-420 GetResponse.writeField2 *)
Definition GetResponse_writeField2 (p : GetResponse) : proto P unit :=
  write_field "*rpc.GetResponse" "kvs" LIST 2
    (write_list (fun v => wrap "*rpc.KeyValue error writing struct: " (KeyValue_Write v)) (Kvs p)).
(* src/thrift/rpc/rpc.go:378-390 GetResponse.Write *)
Definition GetResponse_Write (p : option GetResponse) : proto P unit :=
  write_struct "*rpc.GetResponse" "GetResponse" (match p with Some p => _ ← GetResponse_writeField1 p; GetResponse_writeField2 p | None => mret tt end).

(** ** PutResponse *)
(* src/thrift/rpc/rpc.go:888-890 NewPutResponse *)
Definition NewPutResponse : PutResponse := mkPutResponse None.

(* src/thrift/rpc/rpc.go:941-947 PutResponse.ReadField1 *)
Definition PutResponse_ReadField1 (fuel : nat) (p : PutResponse) : proto P PutResponse :=
  v ← wrap "*rpc.ResponseHeader error reading struct: " (ResponseHeader_Read fuel NewResponseHeader);
  mret (mkPutResponse (Some v)).
(* src/thrift/rpc/rpc.go:903-939 PutResponse.Read *)
Definition PutResponse_Read (fuel : nat) : PutResponse -> proto P PutResponse :=
  read_struct fuel "*rpc.PutResponse" (fun fieldId fieldTypeId p =>
    if decide (fieldId = 1%Z) then expect STRUCT fieldTypeId (PutResponse_ReadField1 fuel) p else
    skip fieldTypeId p).

(* src/thrift/rpc/rpc.go:962-971 PutResponse.writeField1 *)
Definition PutResponse_writeField1 (p : PutResponse) : proto P unit :=
  write_field "*rpc.PutResponse" "header" STRUCT 1 (wrap "*rpc.ResponseHeader error writing struct: " (ResponseHeader_Write (put_Header p))).
(* src/thrift/rpc/rpc.go:949-960 PutResponse.Write *)
Definition PutResponse_Write (p : option PutResponse) : proto P unit :=
  write_struct "*rpc.PutResponse" "PutResponse" (match p with Some p => PutResponse_writeField1 p | None => mret tt end).

(** ** KVPingArgs *)
(* src/thrift/rpc/rpc.go:1306-1308 NewKVPingArgs *)
Definition NewKVPingArgs : KVPingArgs := mkKVPingArgs.

(* src/thrift/rpc/rpc.go:1310-1333 KVPingArgs.Read *)
Definition KVPingArgs_Read (fuel : nat) : KVPingArgs -> proto P KVPingArgs :=
  read_struct fuel "*rpc.KVPingArgs" (fun fieldId fieldTypeId p =>
    skip fieldTypeId p).

(* src/thrift/rpc/rpc.go:1335-1345 KVPingArgs.Write *)
Definition KVPingArgs_Write (p : option KVPingArgs) : proto P unit :=
  write_struct "*rpc.KVPingArgs" "Ping_args" (match p with Some p => mret tt | None => mret tt end).

(** ** KVPingResult *)
(* src/thrift/rpc/rpc.go:1360-1362 NewKVPingResult *)
Definition NewKVPingResult : KVPingResult := mkKVPingResult None.

(* src/thrift/rpc/rpc.go:1371-1373 KVPingResult.IsSetSuccess *)
Definition KVPingResult_IsSetSuccess (p : KVPingResult) : bool := bool_decide (is_Some (ping_Success p)).
(* src/thrift/rpc/rpc.go:1365-1370 KVPingResult.GetSuccess *)
Definition KVPingResult_GetSuccess (p : KVPingResult) : option Health := if KVPingResult_IsSetSuccess p then ping_Success p else None.

(* src/thrift/rpc/rpc.go:1413-1419 KVPingResult.ReadField0 *)
Definition KVPingResult_ReadField0 (fuel : nat) (p : KVPingResult) : proto P KVPingResult :=
  v ← wrap "*rpc.Health error reading struct: " (Health_Read fuel NewHealth);
  mret (mkKVPingResult (Some v)).
(* src/thrift/rpc/rpc.go:1375-1411 KVPingResult.Read *)
Definition KVPingResult_Read (fuel : nat) : KVPingResult -> proto P KVPingResult :=
  read_struct fuel "*rpc.KVPingResult" (fun fieldId fieldTypeId p =>
    if decide (fieldId = 0%Z) then expect STRUCT fieldTypeId (KVPingResult_ReadField0 fuel) p else
    skip fieldTypeId p).

(* src/thrift/rpc/rpc.go:1434-1445 KVPingResult.writeField0 *)
Definition KVPingResult_writeField0 (p : KVPingResult) : proto P unit :=
  if KVPingResult_IsSetSuccess p
  then write_field "*rpc.KVPingResult" "success" STRUCT 0 (wrap "*rpc.Health error writing struct: " (Health_Write (ping_Success p)))
  else mret tt.
(* src/thrift/rpc/rpc.go:1421-1432 KVPingResult.Write *)
Definition KVPingResult_Write (p : option KVPingResult) : proto P unit :=
  write_struct "*rpc.KVPingResult" "Ping_result" (match p with Some p => KVPingResult_writeField0 p | None => mret tt end).

(** ** KVGetArgs *)
(* src/thrift/rpc/rpc.go:1460-1462 NewKVGetArgs *)
Definition NewKVGetArgs : KVGetArgs := mkKVGetArgs None.

(* src/thrift/rpc/rpc.go:1513-1519 KVGetArgs.ReadField1 *)
Definition KVGetArgs_ReadField1 (fuel : nat) (p : KVGetArgs) : proto P KVGetArgs :=
  v ← wrap "*rpc.GetRequest error reading struct: " (GetRequest_Read fuel NewGetRequest);
  mret (mkKVGetArgs (Some v)).
(* src/thrift/rpc/rpc.go:1475-1511 KVGetArgs.Read *)
Definition KVGetArgs_Read (fuel : nat) : KVGetArgs -> proto P KVGetArgs :=
  read_struct fuel "*rpc.KVGetArgs" (fun fieldId fieldTypeId p =>
    if decide (fieldId = 1%Z) then expect STRUCT fieldTypeId (KVGetArgs_ReadField1 fuel) p else
    skip fieldTypeId p).

(* src/thrift/rpc/rpc.go:1534-1543 KVGetArgs.writeField1 *)
Definition KVGetArgs_writeField1 (p : KVGetArgs) : proto P unit :=
  write_field "*rpc.KVGetArgs" "req" STRUCT 1 (wrap "*rpc.GetRequest error writing struct: " (GetRequest_Write (get_Req p))).
(* src/thrift/rpc/rpc.go:1521-1532 KVGetArgs.Write *)
Definition KVGetArgs_Write (p : option KVGetArgs) : proto P unit :=
  write_struct "*rpc.KVGetArgs" "Get_args" (match p with Some p => KVGetArgs_writeField1 p | None => mret tt end).

(** ** KVGetResult *)
(* src/thrift/rpc/rpc.go:1558-1560 NewKVGetResult *)
Definition NewKVGetResult : KVGetResult := mkKVGetResult None.

(* src/thrift/rpc/rpc.go:1569-1571 KVGetResult.IsSetSuccess *)
Definition KVGetResult_IsSetSuccess (p : KVGetResult) : bool := bool_decide (is_Some (get_Success p)).
(* src/thrift/rpc/rpc.go:1563-1568 KVGetResult.GetSuccess *)
Definition KVGetResult_GetSuccess (p : KVGetResult) : option GetResponse := if KVGetResult_IsSetSuccess p then get_Success p else None.

(* src/thrift/rpc/rpc.go:1611-1617 KVGetResult.ReadField0 *)
Definition KVGetResult_ReadField0 (fuel : nat) (p : KVGetResult) : proto P KVGetResult :=
  v ← wrap "*rpc.GetResponse error reading struct: " (GetResponse_Read fuel NewGetResponse);
  mret (mkKVGetResult (Some v)).
(* src/thrift/rpc/rpc.go:1573-1609 KVGetResult.Read *)
Definition KVGetResult_Read (fuel : nat) : KVGetResult -> proto P KVGetResult :=
  read_struct fuel "*rpc.KVGetResult" (fun fieldId fieldTypeId p =>
    if decide (fieldId = 0%Z) then expect STRUCT fieldTypeId (KVGetResult_ReadField0 fuel) p else
    skip fieldTypeId p).

(* src/thrift/rpc/rpc.go:1632-1643 KVGetResult.writeField0 *)
Definition KVGetResult_writeField0 (p : KVGetResult) : proto P unit :=
  if KVGetResult_IsSetSuccess p
  then write_field "*rpc.KVGetResult" "success" STRUCT 0 (wrap "*rpc.GetResponse error writing struct: " (GetResponse_Write (get_Success p)))
  else mret tt.
(* src/thrift/rpc/rpc.go:1619-1630 KVGetResult.Write *)
Definition KVGetResult_Write (p : option KVGetResult) : proto P unit :=
  write_struct "*rpc.KVGetResult" "Get_result" (match p with Some p => KVGetResult_writeField0 p | None => mret tt end).

(** ** KVPutArgs *)
(* src/thrift/rpc/rpc.go:1658-1660 NewKVPutArgs *)
Definition NewKVPutArgs : KVPutArgs := mkKVPutArgs None.

(* src/thrift/rpc/rpc.go:1711-1717 KVPutArgs.ReadField1 *)
Definition KVPutArgs_ReadField1 (fuel : nat) (p : KVPutArgs) : proto P KVPutArgs :=
  v ← wrap "*rpc.PutRequest error reading struct: " (PutRequest_Read fuel NewPutRequest);
  mret (mkKVPutArgs (Some v)).
(* src/thrift/rpc/rpc.go:1673-1709 KVPutArgs.Read *)
Definition KVPutArgs_Read (fuel : nat) : KVPutArgs -> proto P KVPutArgs :=
  read_struct fuel "*rpc.KVPutArgs" (fun fieldId fieldTypeId p =>
    if decide (fieldId = 1%Z) then expect STRUCT fieldTypeId (KVPutArgs_ReadField1 fuel) p else
    skip fieldTypeId p).

(* src/thrift/rpc/rpc.go:1732-1741 KVPutArgs.writeField1 *)
Definition KVPutArgs_writeField1 (p : KVPutArgs) : proto P unit :=
  write_field "*rpc.KVPutArgs" "req" STRUCT 1 (wrap "*rpc.PutRequest error writing struct: " (PutRequest_Write (put_Req p))).
(* src/thrift/rpc/rpc.go:1719-1730 KVPutArgs.Write *)
Definition KVPutArgs_Write (p : option KVPutArgs) : proto P unit :=
  write_struct "*rpc.KVPutArgs" "Put_args" (match p with Some p => KVPutArgs_writeField1 p | None => mret tt end).

(** ** KVPutResult *)
(* src/thrift/rpc/rpc.go:1756-1758 NewKVPutResult *)
Definition NewKVPutResult : KVPutResult := mkKVPutResult None.

(* src/thrift/rpc/rpc.go:1767-1769 KVPutResult.IsSetSuccess *)
Definition KVPutResult_IsSetSuccess (p : KVPutResult) : bool := bool_decide (is_Some (put_Success p)).
(* src/thrift/rpc/rpc.go:1761-1766 KVPutResult.GetSuccess *)
Definition KVPutResult_GetSuccess (p : KVPutResult) : option PutResponse := if KVPutResult_IsSetSuccess p then put_Success p else None.

(* src/thrift/rpc/rpc.go:1809-1815 KVPutResult.ReadField0 *)
Definition KVPutResult_ReadField0 (fuel : nat) (p : KVPutResult) : proto P KVPutResult :=
  v ← wrap "*rpc.PutResponse error reading struct: " (PutResponse_Read fuel NewPutResponse);
  mret (mkKVPutResult (Some v)).
(* src/thrift/rpc/rpc.go:1771-1807 KVPutResult.Read *)
Definition KVPutResult_Read (fuel : nat) : KVPutResult -> proto P KVPutResult :=
  read_struct fuel "*rpc.KVPutResult" (fun fieldId fieldTypeId p =>
    if decide (fieldId = 0%Z) then expect STRUCT fieldTypeId (KVPutResult_ReadField0 fuel) p else
    skip fieldTypeId p).

(* src/thrift/rpc/rpc.go:1830-1841 KVPutResult.writeField0 *)
Definition KVPutResult_writeField0 (p : KVPutResult) : proto P unit :=
  if KVPutResult_IsSetSuccess p
  then write_field "*rpc.KVPutResult" "success" STRUCT 0 (wrap "*rpc.PutResponse error writing struct: " (PutResponse_Write (put_Success p)))
  else mret tt.
(* src/thrift/rpc/rpc.go:1817-1828 KVPutResult.Write *)
Definition KVPutResult_Write (p : option KVPutResult) : proto P unit :=
  write_struct "*rpc.KVPutResult" "Put_result" (match p with Some p => KVPutResult_writeField0 p | None => mret tt end).

(** ** KVMultiPutArgs *)
(* src/thrift/rpc/rpc.go:1856-1858 NewKVMultiPutArgs *)
Definition NewKVMultiPutArgs : KVMultiPutArgs := mkKVMultiPutArgs [].

(* src/thrift/rpc/rpc.go:1902-1920 KVMultiPutArgs.ReadField1 *)
Definition KVMultiPutArgs_ReadField1 (fuel : nat) (p : KVMultiPutArgs) : proto P KVMultiPutArgs :=
  l ← read_list (v ← wrap "*rpc.PutRequest error reading struct: " (PutRequest_Read fuel NewPutRequest); mret (Some v));
  mret (mkKVMultiPutArgs l).
(* src/thrift/rpc/rpc.go:1864-1900 KVMultiPutArgs.Read *)
Definition KVMultiPutArgs_Read (fuel : nat) : KVMultiPutArgs -> proto P KVMultiPutArgs :=
  read_struct fuel "*rpc.KVMultiPutArgs" (fun fieldId fieldTypeId p =>
    if decide (fieldId = 1%Z) then expect LIST fieldTypeId (KVMultiPutArgs_ReadField1 fuel) p else
    skip fieldTypeId p).

(* src/thrift/rpc/rpc.go:1935-1952 KVMultiPutArgs.writeField1 *)
Definition KVMultiPutArgs_writeField1 (p : KVMultiPutArgs) : proto P unit :=
  write_field "*rpc.KVMultiPutArgs" "reqs" LIST 1
    (write_list (fun v => wrap "*rpc.PutRequest error writing struct: " (PutRequest_Write v)) (Reqs p)).
(* src/thrift/rpc/rpc.go:1922-1933 KVMultiPutArgs.Write *)
Definition KVMultiPutArgs_Write (p : option KVMultiPutArgs) : proto P unit :=
  write_struct "*rpc.KVMultiPutArgs" "MultiPut_args" (match p with Some p => KVMultiPutArgs_writeField1 p | None => mret tt end).

(** ** KVMultiPutResult *)
(* src/thrift/rpc/rpc.go:1967-1969 NewKVMultiPutResult *)
Definition NewKVMultiPutResult : KVMultiPutResult := mkKVMultiPutResult None.

(* src/thrift/rpc/rpc.go:1978-1980 KVMultiPutResult.IsSetSuccess *)
Definition KVMultiPutResult_IsSetSuccess (p : KVMultiPutResult) : bool := bool_decide (is_Some (multi_Success p)).
(* src/thrift/rpc/rpc.go:1972-1977 KVMultiPutResult.GetSuccess *)
Definition KVMultiPutResult_GetSuccess (p : KVMultiPutResult) : option PutResponse := if KVMultiPutResult_IsSetSuccess p then multi_Success p else None.

(* src/thrift/rpc/rpc.go:2020-2026 KVMultiPutResult.ReadField0 *)
Definition KVMultiPutResult_ReadField0 (fuel : nat) (p : KVMultiPutResult) : proto P KVMultiPutResult :=
  v ← wrap "*rpc.PutResponse error reading struct: " (PutResponse_Read fuel NewPutResponse);
  mret (mkKVMultiPutResult (Some v)).
(* src/thrift/rpc/rpc.go:1982-2018 KVMultiPutResult.Read *)
Definition KVMultiPutResult_Read (fuel : nat) : KVMultiPutResult -> proto P KVMultiPutResult :=
  read_struct fuel "*rpc.KVMultiPutResult" (fun fieldId fieldTypeId p =>
    if decide (fieldId = 0%Z) then expect STRUCT fieldTypeId (KVMultiPutResult_ReadField0 fuel) p else
    skip fieldTypeId p).

(* src/thrift/rpc/rpc.go:2041-2052 KVMultiPutResult.writeField0 *)
Definition KVMultiPutResult_writeField0 (p : KVMultiPutResult) : proto P unit :=
  if KVMultiPutResult_IsSetSuccess p
  then write_field "*rpc.KVMultiPutResult" "success" STRUCT 0 (wrap "*rpc.PutResponse error writing struct: " (PutResponse_Write (multi_Success p)))
  else mret tt.
(* src/thrift/rpc/rpc.go:2028-2039 KVMultiPutResult.Write *)
Definition KVMultiPutResult_Write (p : option KVMultiPutResult) : proto P unit :=
  write_struct "*rpc.KVMultiPutResult" "MultiPut_result" (match p with Some p => KVMultiPutResult_writeField0 p | None => mret tt end).

(** ** The structs as values *)
#[global] Instance Health_schema : Schema Health := {|
  zero := NewHealth;
  assign p '(id, v) :=
    if decide (id = 1%Z) then on_bool v (fun x => mkHealth x (Errors p)) p else
    if decide (id = 2%Z) then on_string v (fun x => mkHealth (OK p) x) p else
    p;
  accepts _ := true;
  fields p := [(1%Z, VBool (OK p)); (2%Z, VString (Errors p))]
|}.
#[global] Instance GetRequest_schema : Schema GetRequest := {|
  zero := NewGetRequest;
  assign p '(id, v) :=
    if decide (id = 1%Z) then on_string v (fun x => mkGetRequest x (Serializable p)) p else
    if decide (id = 2%Z) then on_bool v (fun x => mkGetRequest (get_Key p) x) p else
    p;
  accepts _ := true;
  fields p := [(1%Z, VString (get_Key p)); (2%Z, VBool (Serializable p))]
|}.
#[global] Instance KeyValue_schema : Schema KeyValue := {|
  zero := NewKeyValue;
  assign p '(id, v) :=
    if decide (id = 1%Z) then on_string v (fun x => mkKeyValue x (Value p)) p else
    if decide (id = 2%Z) then on_string v (fun x => mkKeyValue (Key p) x) p else
    p;
  accepts _ := true;
  fields p := [(1%Z, VString (Key p)); (2%Z, VString (Value p))]
|}.
#[global] Instance PutRequest_schema : Schema PutRequest := {|
  zero := NewPutRequest;
  assign p '(id, v) :=
    if decide (id = 1%Z) then on_string v (fun x => mkPutRequest x (put_Value p)) p else
    if decide (id = 2%Z) then on_string v (fun x => mkPutRequest (put_Key p) x) p else
    p;
  accepts _ := true;
  fields p := [(1%Z, VString (put_Key p)); (2%Z, VString (put_Value p))]
|}.
#[global] Instance ResponseHeader_schema : Schema ResponseHeader := {|
  zero := NewResponseHeader;
  assign p '(id, v) :=
    if decide (id = 1%Z) then on_i64 v (fun x => mkResponseHeader x (NodeID p) (ConsumeTime p) (NodeIP p)) p else
    if decide (id = 2%Z) then on_i64 v (fun x => mkResponseHeader (ClusterID p) x (ConsumeTime p) (NodeIP p)) p else
    if decide (id = 3%Z) then on_i64 v (fun x => mkResponseHeader (ClusterID p) (NodeID p) x (NodeIP p)) p else
    if decide (id = 4%Z) then on_string v (fun x => mkResponseHeader (ClusterID p) (NodeID p) (ConsumeTime p) x) p else
    p;
  accepts _ := true;
  fields p := [(1%Z, VI64 (ClusterID p)); (2%Z, VI64 (NodeID p)); (3%Z, VI64 (ConsumeTime p)); (4%Z, VString (NodeIP p))]
|}.
#[global] Instance GetResponse_schema : Schema GetResponse := {|
  zero := NewGetResponse;
  assign p '(id, v) :=
    if decide (id = 1%Z) then on_message v (fun x => mkGetResponse (Some x) (Kvs p)) p else
    if decide (id = 2%Z) then on_messages v (fun l => mkGetResponse (get_Header p) l) p else
    p;
  accepts '(id, v) := if decide (id = 1%Z) then accepts_value ResponseHeader v else if decide (id = 2%Z) then accepts_list KeyValue v else true;
  fields p := [(1%Z, wire (get_Header p)); (2%Z, VList STRUCT (map wire (Kvs p)))]
|}.
#[global] Instance PutResponse_schema : Schema PutResponse := {|
  zero := NewPutResponse;
  assign p '(id, v) :=
    if decide (id = 1%Z) then on_message v (fun x => mkPutResponse (Some x)) p else
    p;
  accepts '(id, v) := if decide (id = 1%Z) then accepts_value ResponseHeader v else true;
  fields p := [(1%Z, wire (put_Header p))]
|}.
#[global] Instance KVPingArgs_schema : Schema KVPingArgs := {|
  zero := NewKVPingArgs;
  assign p _ := p;
  accepts _ := true;
  fields _ := []
|}.
#[global] Instance KVPingResult_schema : Schema KVPingResult := {|
  zero := NewKVPingResult;
  assign p '(id, v) :=
    if decide (id = 0%Z) then on_message v (fun x => mkKVPingResult (Some x)) p else
    p;
  accepts '(id, v) := if decide (id = 0%Z) then accepts_value Health v else true;
  fields p := match ping_Success p with Some v => [(0%Z, wire (Some v))] | None => [] end
|}.
#[global] Instance KVGetArgs_schema : Schema KVGetArgs := {|
  zero := NewKVGetArgs;
  assign p '(id, v) :=
    if decide (id = 1%Z) then on_message v (fun x => mkKVGetArgs (Some x)) p else
    p;
  accepts '(id, v) := if decide (id = 1%Z) then accepts_value GetRequest v else true;
  fields p := [(1%Z, wire (get_Req p))]
|}.
#[global] Instance KVGetResult_schema : Schema KVGetResult := {|
  zero := NewKVGetResult;
  assign p '(id, v) :=
    if decide (id = 0%Z) then on_message v (fun x => mkKVGetResult (Some x)) p else
    p;
  accepts '(id, v) := if decide (id = 0%Z) then accepts_value GetResponse v else true;
  fields p := match get_Success p with Some v => [(0%Z, wire (Some v))] | None => [] end
|}.
#[global] Instance KVPutArgs_schema : Schema KVPutArgs := {|
  zero := NewKVPutArgs;
  assign p '(id, v) :=
    if decide (id = 1%Z) then on_message v (fun x => mkKVPutArgs (Some x)) p else
    p;
  accepts '(id, v) := if decide (id = 1%Z) then accepts_value PutRequest v else true;
  fields p := [(1%Z, wire (put_Req p))]
|}.
#[global] Instance KVPutResult_schema : Schema KVPutResult := {|
  zero := NewKVPutResult;
  assign p '(id, v) :=
    if decide (id = 0%Z) then on_message v (fun x => mkKVPutResult (Some x)) p else
    p;
  accepts '(id, v) := if decide (id = 0%Z) then accepts_value PutResponse v else true;
  fields p := match put_Success p with Some v => [(0%Z, wire (Some v))] | None => [] end
|}.
#[global] Instance KVMultiPutArgs_schema : Schema KVMultiPutArgs := {|
  zero := NewKVMultiPutArgs;
  assign p '(id, v) :=
    if decide (id = 1%Z) then on_messages v (fun l => mkKVMultiPutArgs l) p else
    p;
  accepts '(id, v) := if decide (id = 1%Z) then accepts_list PutRequest v else true;
  fields p := [(1%Z, VList STRUCT (map wire (Reqs p)))]
|}.
#[global] Instance KVMultiPutResult_schema : Schema KVMultiPutResult := {|
  zero := NewKVMultiPutResult;
  assign p '(id, v) :=
    if decide (id = 0%Z) then on_message v (fun x => mkKVMultiPutResult (Some x)) p else
    p;
  accepts '(id, v) := if decide (id = 0%Z) then accepts_value PutResponse v else true;
  fields p := match multi_Success p with Some v => [(0%Z, wire (Some v))] | None => [] end
|}.

#[global] Instance Health_codec : Codec P Health := {| msg_Read := Health_Read; msg_Write := Health_Write |}.
#[global] Instance GetRequest_codec : Codec P GetRequest := {| msg_Read := GetRequest_Read; msg_Write := GetRequest_Write |}.
#[global] Instance KeyValue_codec : Codec P KeyValue := {| msg_Read := KeyValue_Read; msg_Write := KeyValue_Write |}.
#[global] Instance PutRequest_codec : Codec P PutRequest := {| msg_Read := PutRequest_Read; msg_Write := PutRequest_Write |}.
#[global] Instance ResponseHeader_codec : Codec P ResponseHeader := {| msg_Read := ResponseHeader_Read; msg_Write := ResponseHeader_Write |}.
#[global] Instance GetResponse_codec : Codec P GetResponse := {| msg_Read := GetResponse_Read; msg_Write := GetResponse_Write |}.
#[global] Instance PutResponse_codec : Codec P PutResponse := {| msg_Read := PutResponse_Read; msg_Write := PutResponse_Write |}.
#[global] Instance KVPingArgs_codec : Codec P KVPingArgs := {| msg_Read := KVPingArgs_Read; msg_Write := KVPingArgs_Write |}.
#[global] Instance KVPingResult_codec : Codec P KVPingResult := {| msg_Read := KVPingResult_Read; msg_Write := KVPingResult_Write |}.
#[global] Instance KVGetArgs_codec : Codec P KVGetArgs := {| msg_Read := KVGetArgs_Read; msg_Write := KVGetArgs_Write |}.
#[global] Instance KVGetResult_codec : Codec P KVGetResult := {| msg_Read := KVGetResult_Read; msg_Write := KVGetResult_Write |}.
#[global] Instance KVPutArgs_codec : Codec P KVPutArgs := {| msg_Read := KVPutArgs_Read; msg_Write := KVPutArgs_Write |}.
#[global] Instance KVPutResult_codec : Codec P KVPutResult := {| msg_Read := KVPutResult_Read; msg_Write := KVPutResult_Write |}.
#[global] Instance KVMultiPutArgs_codec : Codec P KVMultiPutArgs := {| msg_Read := KVMultiPutArgs_Read; msg_Write := KVMultiPutArgs_Write |}.
#[global] Instance KVMultiPutResult_codec : Codec P KVMultiPutResult := {| msg_Read := KVMultiPutResult_Read; msg_Write := KVMultiPutResult_Write |}.

(** ** The code satisfies the interface *)
Context `{!TStream P} `{!TProtocolLaws P}.
#[local] Set Default Proof Using "All".

#[global] Instance Health_laws : CodecLaws P Health.
Proof. codec_laws ltac:(unfold Health_schema in *). Qed.
#[global] Instance GetRequest_laws : CodecLaws P GetRequest.
Proof. codec_laws ltac:(unfold GetRequest_schema in *). Qed.
#[global] Instance KeyValue_laws : CodecLaws P KeyValue.
Proof. codec_laws ltac:(unfold KeyValue_schema in *). Qed.
#[global] Instance PutRequest_laws : CodecLaws P PutRequest.
Proof. codec_laws ltac:(unfold PutRequest_schema in *). Qed.
#[global] Instance ResponseHeader_laws : CodecLaws P ResponseHeader.
Proof. codec_laws ltac:(unfold ResponseHeader_schema in *). Qed.
#[global] Instance GetResponse_laws : CodecLaws P GetResponse.
Proof. codec_laws ltac:(unfold GetResponse_schema in *). Qed.
#[global] Instance PutResponse_laws : CodecLaws P PutResponse.
Proof. codec_laws ltac:(unfold PutResponse_schema in *). Qed.
#[global] Instance KVPingArgs_laws : CodecLaws P KVPingArgs.
Proof. codec_laws ltac:(unfold KVPingArgs_schema in *). Qed.
#[global] Instance KVPingResult_laws : CodecLaws P KVPingResult.
Proof. codec_laws ltac:(unfold KVPingResult_schema in *). Qed.
#[global] Instance KVGetArgs_laws : CodecLaws P KVGetArgs.
Proof. codec_laws ltac:(unfold KVGetArgs_schema in *). Qed.
#[global] Instance KVGetResult_laws : CodecLaws P KVGetResult.
Proof. codec_laws ltac:(unfold KVGetResult_schema in *). Qed.
#[global] Instance KVPutArgs_laws : CodecLaws P KVPutArgs.
Proof. codec_laws ltac:(unfold KVPutArgs_schema in *). Qed.
#[global] Instance KVPutResult_laws : CodecLaws P KVPutResult.
Proof. codec_laws ltac:(unfold KVPutResult_schema in *). Qed.
#[global] Instance KVMultiPutArgs_laws : CodecLaws P KVMultiPutArgs.
Proof. codec_laws ltac:(unfold KVMultiPutArgs_schema in *). Qed.
#[global] Instance KVMultiPutResult_laws : CodecLaws P KVMultiPutResult.
Proof. codec_laws ltac:(unfold KVMultiPutResult_schema in *). Qed.
End ThriftRpc.

Section Reading.
Context `{Thrift}.

(** ** Reading any value

    The last field with an id and a type. *)
Definition last_field {X} (id : Z) (sel : tvalue -> option X) (fs : list (Z * tvalue)) : option X :=
  last (omap (fun f => if decide (fst f = id) then sel (snd f) else None) fs).
Definition as_bool (v : tvalue) : option bool := match v with VBool b => Some b | _ => None end.
Definition as_i64 (v : tvalue) : option Z := match v with VI64 z => Some z | _ => None end.
Definition as_string (v : tvalue) : option string := match v with VString s => Some s | _ => None end.
Definition as_struct (A : Type) `{!Schema A} (v : tvalue) : option A :=
  match v with VStruct fs => Some (decode fs) | _ => None end.
Definition as_list (A : Type) `{!Schema A} (v : tvalue) : option (list (option A)) :=
  match v with VList _ vs => Some (map (fun v => Some (decode_value v)) vs) | _ => None end.

Lemma last_field_snoc {X} id (sel : tvalue -> option X) fs i v :
  last_field id sel (fs ++ [(i, v)]) =
  match (if decide (i = id) then sel v else None) with Some x => Some x | None => last_field id sel fs end.
Proof.
  unfold last_field. rewrite omap_app, last_app. simpl. by destruct (decide (i = id)); [destruct (sel v)|].
Qed.

Ltac last_fields :=
  intros fs; unfold decode; induction fs as [|[i v] fs IH] using rev_ind; [reflexivity|];
  rewrite foldl_app, !last_field_snoc; cbn [foldl]; rewrite IH;
  unfold assign, Health_schema, GetRequest_schema, KeyValue_schema, PutRequest_schema, ResponseHeader_schema,
    GetResponse_schema, PutResponse_schema, KVGetArgs_schema, KVPutArgs_schema, KVMultiPutArgs_schema;
  repeat case_decide; subst; try discriminate; destruct v; reflexivity.

Lemma decode_Health fs :
  decode fs = mkHealth (default false (last_field 1 as_bool fs)) (default ""%string (last_field 2 as_string fs)).
Proof. revert fs. last_fields. Qed.
Lemma decode_GetRequest fs :
  decode fs = mkGetRequest (default ""%string (last_field 1 as_string fs)) (default false (last_field 2 as_bool fs)).
Proof. revert fs. last_fields. Qed.
Lemma decode_KeyValue fs :
  decode fs = mkKeyValue (default ""%string (last_field 1 as_string fs)) (default ""%string (last_field 2 as_string fs)).
Proof. revert fs. last_fields. Qed.
Lemma decode_PutRequest fs :
  decode fs = mkPutRequest (default ""%string (last_field 1 as_string fs)) (default ""%string (last_field 2 as_string fs)).
Proof. revert fs. last_fields. Qed.
Lemma decode_ResponseHeader fs :
  decode fs = mkResponseHeader (default 0%Z (last_field 1 as_i64 fs)) (default 0%Z (last_field 2 as_i64 fs))
    (default 0%Z (last_field 3 as_i64 fs)) (default ""%string (last_field 4 as_string fs)).
Proof. revert fs. last_fields. Qed.
Lemma decode_GetResponse fs :
  decode fs = mkGetResponse (last_field 1 (as_struct ResponseHeader) fs) (default [] (last_field 2 (as_list KeyValue) fs)).
Proof. revert fs. last_fields. Qed.
Lemma decode_PutResponse fs : decode fs = mkPutResponse (last_field 1 (as_struct ResponseHeader) fs).
Proof. revert fs. last_fields. Qed.
Lemma decode_KVGetArgs fs : decode fs = mkKVGetArgs (last_field 1 (as_struct GetRequest) fs).
Proof. revert fs. last_fields. Qed.
Lemma decode_KVPutArgs fs : decode fs = mkKVPutArgs (last_field 1 (as_struct PutRequest) fs).
Proof. revert fs. last_fields. Qed.
Lemma decode_KVMultiPutArgs fs : decode fs = mkKVMultiPutArgs (default [] (last_field 1 (as_list PutRequest) fs)).
Proof. revert fs. last_fields. Qed.

(** A nil pointer is read back as a new struct. *)
Definition filled_GetResponse (r : GetResponse) : GetResponse :=
  mkGetResponse (Some (default NewResponseHeader (get_Header r))) ((fun kv => Some (default NewKeyValue kv)) <$> Kvs r).
Definition filled_PutResponse (r : PutResponse) : PutResponse :=
  mkPutResponse (Some (default NewResponseHeader (put_Header r))).
Definition filled_KVGetArgs (a : KVGetArgs) : KVGetArgs := mkKVGetArgs (Some (default NewGetRequest (get_Req a))).
Definition filled_KVPutArgs (a : KVPutArgs) : KVPutArgs := mkKVPutArgs (Some (default NewPutRequest (put_Req a))).
Definition filled_KVMultiPutArgs (a : KVMultiPutArgs) : KVMultiPutArgs :=
  mkKVMultiPutArgs ((fun r => Some (default NewPutRequest r)) <$> Reqs a).

Lemma decode_list `{!Schema A} (f : option A -> A) l :
  (forall o, decode_value (wire o) = f o) ->
  map (fun v => Some (decode_value v)) (map wire l) = (fun o => Some (f o)) <$> l.
Proof. intros Hf. rewrite map_map. apply map_ext. intros o. by rewrite Hf. Qed.

Lemma decode_wire_GetResponse o : decode_value (wire o) = from_option filled_GetResponse NewGetResponse o.
Proof.
  destruct o as [[h kvs]|]; [|done]. unfold filled_GetResponse. cbn [get_Header Kvs from_option].
  rewrite <- (decode_list (default NewKeyValue)) by by intros [[]|]. by destruct h as [[]|].
Qed.
Lemma decode_wire_PutResponse o : decode_value (wire o) = from_option filled_PutResponse NewPutResponse o.
Proof. by destruct o as [[[[]|]]|]. Qed.
Lemma decode_wire_KVGetArgs a : decode_value (wire (Some a)) = filled_KVGetArgs a.
Proof. by destruct a as [[[]|]]. Qed.
Lemma decode_wire_KVPutArgs a : decode_value (wire (Some a)) = filled_KVPutArgs a.
Proof. by destruct a as [[[]|]]. Qed.
Lemma decode_wire_KVMultiPutArgs a : decode_value (wire (Some a)) = filled_KVMultiPutArgs a.
Proof.
  destruct a as [l]. unfold filled_KVMultiPutArgs. cbn [Reqs].
  by rewrite <- (decode_list (default NewPutRequest)) by by intros [[]|].
Qed.
Lemma decode_wire_KVPingResult (r : KVPingResult) : decode_value (wire (Some r)) = r.
Proof. by destruct r as [[[]|]]. Qed.
Lemma decode_wire_KVGetResult r :
  decode_value (wire (Some r)) = mkKVGetResult (filled_GetResponse <$> get_Success r).
Proof. destruct r as [[resp|]]; [|done]. cbn. f_equal. f_equal. exact (decode_wire_GetResponse (Some resp)). Qed.
Lemma decode_wire_KVPutResult r :
  decode_value (wire (Some r)) = mkKVPutResult (filled_PutResponse <$> put_Success r).
Proof. destruct r as [[resp|]]; [|done]. cbn. f_equal. f_equal. exact (decode_wire_PutResponse (Some resp)). Qed.
Lemma decode_wire_KVMultiPutResult r :
  decode_value (wire (Some r)) = mkKVMultiPutResult (filled_PutResponse <$> multi_Success r).
Proof. destruct r as [[resp|]]; [|done]. cbn. f_equal. f_equal. exact (decode_wire_PutResponse (Some resp)). Qed.
End Reading.

Section Correct.
Context `{Thrift} {P : Type} `{!TProtocol P} `{!TStream P} `{!TProtocolLaws P}.
#[local] Set Default Proof Using "All".

(** [read] makes [f fs] of the fields [fs] of any acceptable struct; fuel for as many
    fields as the struct has tokens is enough. *)
Definition reads_fields {A} `{!Schema A} (read : nat -> proto P A) (f : list (Z * tvalue) -> A) : Prop :=
  forall fuel fs, acceptable A fs = true -> length (tokens_of (VStruct fs)) <= fuel ->
    reads (read fuel) (tokens_of (VStruct fs)) (f fs).

Lemma reads_decode {A} `{!Schema A} `{!Codec P A} `{!CodecLaws P A} read f :
  read = (fun fuel => msg_Read fuel zero) -> (forall fs, decode fs = f fs) -> reads_fields read f.
Proof. intros -> Hf fuel fs Hok Hl. rewrite <- Hf. by apply Read_reads. Qed.

(** C20: what each [Read] makes of any well-formed struct on the wire, whatever its
    fields: a field is the last one sent with its id and its type, or the zero value
    when there is none; the others, of an unknown id or another type, change nothing.
    The lists of structs have to hold structs.  Every [Read] returns, given fuel for
    the fields there are. *)
Theorem Read_last_fields :
  reads_fields (fun n => Health_Read n NewHealth) (fun fs =>
    mkHealth (default false (last_field 1 as_bool fs)) (default ""%string (last_field 2 as_string fs))) /\
  reads_fields (fun n => GetRequest_Read n NewGetRequest) (fun fs =>
    mkGetRequest (default ""%string (last_field 1 as_string fs)) (default false (last_field 2 as_bool fs))) /\
  reads_fields (fun n => KeyValue_Read n NewKeyValue) (fun fs =>
    mkKeyValue (default ""%string (last_field 1 as_string fs)) (default ""%string (last_field 2 as_string fs))) /\
  reads_fields (fun n => PutRequest_Read n NewPutRequest) (fun fs =>
    mkPutRequest (default ""%string (last_field 1 as_string fs)) (default ""%string (last_field 2 as_string fs))) /\
  reads_fields (fun n => ResponseHeader_Read n NewResponseHeader) (fun fs =>
    mkResponseHeader (default 0%Z (last_field 1 as_i64 fs)) (default 0%Z (last_field 2 as_i64 fs))
      (default 0%Z (last_field 3 as_i64 fs)) (default ""%string (last_field 4 as_string fs))) /\
  reads_fields (fun n => GetResponse_Read n NewGetResponse) (fun fs =>
    mkGetResponse (last_field 1 (as_struct ResponseHeader) fs) (default [] (last_field 2 (as_list KeyValue) fs))) /\
  reads_fields (fun n => PutResponse_Read n NewPutResponse) (fun fs =>
    mkPutResponse (last_field 1 (as_struct ResponseHeader) fs)) /\
  reads_fields (fun n => KVGetArgs_Read n NewKVGetArgs) (fun fs =>
    mkKVGetArgs (last_field 1 (as_struct GetRequest) fs)) /\
  reads_fields (fun n => KVPutArgs_Read n NewKVPutArgs) (fun fs =>
    mkKVPutArgs (last_field 1 (as_struct PutRequest) fs)) /\
  reads_fields (fun n => KVMultiPutArgs_Read n NewKVMultiPutArgs) (fun fs =>
    mkKVMultiPutArgs (default [] (last_field 1 (as_list PutRequest) fs))).
Proof.
  repeat apply conj; (apply reads_decode; [reflexivity|intros fs]);
    auto using decode_Health, decode_GetRequest, decode_KeyValue, decode_PutRequest, decode_ResponseHeader,
      decode_GetResponse, decode_PutResponse, decode_KVGetArgs, decode_KVPutArgs, decode_KVMultiPutArgs.
Qed.

(** What [write] sends, [read] turns into [a]. *)
Definition roundtrips {A} (write : proto P unit) (read : nat -> proto P A) (a : A) : Prop :=
  exists ts, writes write ts tt /\ forall fuel, length ts <= fuel -> reads (read fuel) ts a.

Lemma roundtrips_wire {A} `{!Schema A} `{!Codec P A} `{!CodecLaws P A} write read (o : option A) b :
  write = msg_Write o -> read = (fun fuel => msg_Read fuel zero) -> decode_value (wire o) = b ->
  roundtrips write read b.
Proof.
  intros -> -> <-. exists (tokens_of (wire o)). split; [apply Write_writes|]. intros fuel Hf.
  apply Read_reads; [|done]. destruct o as [a|]; [apply (fields_acceptable (P := P))|done].
Qed.

(** C19: every message of the service survives the wire: what its [Write] sends, its
    [Read] reads back into an equal message; a nil message arrives as a new one, and
    so do the nil structs inside a message. *)
Theorem messages_roundtrip :
  (forall m, roundtrips (Health_Write m) (fun n => Health_Read n NewHealth) (default NewHealth m)) /\
  (forall m, roundtrips (GetRequest_Write m) (fun n => GetRequest_Read n NewGetRequest) (default NewGetRequest m)) /\
  (forall m, roundtrips (KeyValue_Write m) (fun n => KeyValue_Read n NewKeyValue) (default NewKeyValue m)) /\
  (forall m, roundtrips (PutRequest_Write m) (fun n => PutRequest_Read n NewPutRequest) (default NewPutRequest m)) /\
  (forall m, roundtrips (ResponseHeader_Write m) (fun n => ResponseHeader_Read n NewResponseHeader)
     (default NewResponseHeader m)) /\
  (forall m, roundtrips (GetResponse_Write m) (fun n => GetResponse_Read n NewGetResponse)
     (from_option filled_GetResponse NewGetResponse m)) /\
  (forall m, roundtrips (PutResponse_Write m) (fun n => PutResponse_Read n NewPutResponse)
     (from_option filled_PutResponse NewPutResponse m)).
Proof.
  repeat apply conj; intros m; (eapply roundtrips_wire; [reflexivity|reflexivity|]); try (by destruct m as [[]|]);
    [apply decode_wire_GetResponse|apply decode_wire_PutResponse].
Qed.
End Correct.

(** ** Witnesses, over token lists *)
#[local] Existing Instances numbered token_protocol token_stream token_laws.
Definition demo_fields : list (Z * tvalue) :=
  [(7%Z, VI64 3); (1%Z, VString "a"); (1%Z, VBool true); (1%Z, VString "b")].

Example Read_last_fields_witness :
  exists p', GetRequest_Read 20 NewGetRequest (mkTokens (tokens_of (VStruct demo_fields)) []) =
    Done p' (Ok (mkGetRequest "b" false)).
Proof.
  destruct (Read_last_fields (P := tokens)) as (_ & Hg & _).
  destruct (Hg 20 demo_fields eq_refl ltac:(simpl; lia) (mkTokens (tokens_of (VStruct demo_fields)) []) [] eq_refl)
    as (p' & Hr & _).
  exists p'. exact Hr.
Defined.

Example messages_roundtrip_witness :
  roundtrips (GetResponse_Write (Some (mkGetResponse None [None]))) (fun n => GetResponse_Read n NewGetResponse)
    (mkGetResponse (Some NewResponseHeader) [Some NewKeyValue]).
Proof.
  destruct (messages_roundtrip (P := tokens)) as (_ & _ & _ & _ & _ & Hr & _).
  exact (Hr (Some (mkGetResponse None [None]))).
Defined.
