(* ===== verification/ThriftFuel.v ===== *)
(** * How much fuel reading takes

    The generated readers loop until the stop field, so the model gives them fuel.  A
    protocol over finite input gives each of them only so many fields: [TConsumes]
    bounds what is left to read by a number that every field makes smaller.  With more
    fuel than that every [Read] of the generated code comes to an end, whatever is read. *)
From S2P Require Import Prelude.
From S2P Require Import ThriftProtocol.
From S2P Require Import TokenProtocol.
From S2P Require Import ThriftRpc.

(** What is left to read: reading never adds to it, and a field takes from it. *)
Class TConsumes `{Thrift} (P : Type) `{!TProtocol P} : Type := {
  left_to_read : P -> nat;
  ReadFieldBegin_takes p p' t id : ReadFieldBegin p = (p', (t, id, None)) ->
    left_to_read p' <= left_to_read p /\ (t <> STOP -> left_to_read p' < left_to_read p);
  ReadStructBegin_takes p p' : ReadStructBegin p = (p', None) -> left_to_read p' <= left_to_read p;
  ReadStructEnd_takes p p' : ReadStructEnd p = (p', None) -> left_to_read p' <= left_to_read p;
  ReadFieldEnd_takes p p' : ReadFieldEnd p = (p', None) -> left_to_read p' <= left_to_read p;
  ReadListBegin_takes p p' r : ReadListBegin p = (p', Ok r) -> left_to_read p' <= left_to_read p;
  ReadListEnd_takes p p' : ReadListEnd p = (p', None) -> left_to_read p' <= left_to_read p;
  ReadBool_takes p p' b : ReadBool p = (p', Ok b) -> left_to_read p' <= left_to_read p;
  ReadI64_takes p p' z : ReadI64 p = (p', Ok z) -> left_to_read p' <= left_to_read p;
  ReadString_takes p p' s : ReadString p = (p', Ok s) -> left_to_read p' <= left_to_read p;
  Skip_takes t p p' : Skip t p = (p', None) -> left_to_read p' <= left_to_read p
}.

Section Fuel.
Context `{Thrift} {P : Type} `{!TProtocol P} `{!TConsumes P} (fuel : nat).

(** Where less than [fuel] is left, the code ends and leaves no more. *)
Definition ends {A} (m : proto P A) : Prop := forall p, left_to_read p < fuel ->
  match m p with
  | Done p' (Ok _) => left_to_read p' <= left_to_read p
  | OutOfFuel => False
  | _ => True
  end.

Lemma ends_ret {A} (a : A) : ends (mret a).
Proof. intros p Hp. simpl. lia. Qed.
Lemma ends_panic {A} : ends (panic (A := A)).
Proof. done. Qed.
Lemma ends_bind {A B} (m : proto P A) (f : A -> proto P B) : ends m -> (forall a, ends (f a)) -> ends (m ≫= f).
Proof.
  intros Hm Hf p Hp. specialize (Hm p Hp). unfold mbind, proto_bind. destruct (m p) as [p1 [a|]| |]; [|done..].
  specialize (Hf a p1 ltac:(lia)). destruct (f a p1) as [p2 [b|]| |]; [lia|done..].
Qed.
Lemma ends_wrap {A} msg (m : proto P A) : ends m -> ends (wrap msg m).
Proof. intros Hm p Hp. specialize (Hm p Hp). unfold wrap. by destruct (m p) as [p1 [a|]| |]. Qed.
Lemma ends_tell (op : P -> P * option error) :
  (forall p p', op p = (p', None) -> left_to_read p' <= left_to_read p) -> ends (tell op).
Proof. intros Hop p Hp. unfold tell. destruct (op p) as [p' [e|]] eqn:He; [done|by apply Hop]. Qed.
Lemma ends_ask {A} (op : P -> P * result error A) :
  (forall p p' a, op p = (p', Ok a) -> left_to_read p' <= left_to_read p) -> ends (ask op).
Proof. intros Hop p Hp. unfold ask. destruct (op p) as [p' [a|e]] eqn:He; [by eapply Hop|done]. Qed.

Create HintDb ends.
#[local] Hint Resolve ends_ret ends_panic ends_wrap ends_tell ends_ask ReadStructBegin_takes ReadStructEnd_takes
  ReadFieldEnd_takes ReadListBegin_takes ReadListEnd_takes ReadBool_takes ReadI64_takes ReadString_takes Skip_takes : ends.
#[local] Hint Extern 2 (ends (_ ≫= _)) => apply ends_bind; [|intros ?] : ends.

Lemma ends_skip {A} t (a : A) : ends (skip t a).
Proof. unfold skip. eauto with ends. Qed.
Lemma ends_expect {A} t u (read : A -> proto P A) a : ends (read a) -> ends (expect t u read a).
Proof. intros Hr. unfold expect. case_decide; [done|apply ends_skip]. Qed.

Lemma ends_read_fields {A} T (switch : Z -> TType -> A -> proto P A) k a p :
  (forall id t a, ends (switch id t a)) -> left_to_read p < k -> k <= fuel ->
  match read_fields k T switch a p with
  | Done p' (Ok _) => left_to_read p' <= left_to_read p
  | OutOfFuel => False
  | _ => True
  end.
Proof.
  intros Hs. revert a p. induction k as [|k IH]; intros a p Hp Hk; [lia|].
  cbn [read_fields]. unfold mbind, proto_bind, field_begin.
  destruct (ReadFieldBegin p) as [p1 [[t id] [e|]]] eqn:He; [done|].
  destruct (ReadFieldBegin_takes _ _ _ _ He) as [Hle Hlt]. case_decide as Ht; [done|]. specialize (Hlt Ht).
  pose proof (Hs id t a p1 ltac:(lia)) as Hsw. destruct (switch id t a p1) as [p2 [a2|]| |]; [|done..].
  unfold tell. destruct (ReadFieldEnd p2) as [p3 [e|]] eqn:Hf; [done|]. apply ReadFieldEnd_takes in Hf.
  specialize (IH a2 p3 ltac:(lia) ltac:(lia)). destruct (read_fields k T switch a2 p3) as [p4 [b|]| |]; [lia|done..].
Qed.
Lemma ends_read_struct {A} T (switch : Z -> TType -> A -> proto P A) a :
  (forall id t a, ends (switch id t a)) -> ends (read_struct fuel T switch a).
Proof.
  intros Hs. unfold read_struct. apply ends_bind; [eauto with ends|]. intros _. apply ends_bind; [|eauto with ends].
  intros p Hp. by apply ends_read_fields.
Qed.

Lemma ends_read_times {A} n (elem : proto P A) : ends elem -> ends (read_times n elem).
Proof. intros He. induction n as [|n IH]; cbn [read_times]; eauto with ends. Qed.
Lemma ends_read_list {A} (elem : proto P A) : ends elem -> ends (read_list elem).
Proof.
  intros He. unfold read_list. apply ends_bind; [eauto with ends|]. intros [t size]. destruct (_ <? _)%Z; [apply ends_panic|].
  apply ends_bind; [by apply ends_read_times|eauto with ends].
Qed.
#[local] Hint Resolve ends_read_list : ends.

(** A generated [Read]: its fields one by one. *)
Ltac ends_fields :=
  apply ends_read_struct; intros; repeat (case_decide; [apply ends_expect; cbn beta; solve [eauto 10 with ends]|]);
  apply ends_skip.

Lemma ends_Health a : ends (Health_Read fuel a).
Proof. unfold Health_Read, Health_ReadField1, Health_ReadField2. ends_fields. Qed.
Lemma ends_GetRequest a : ends (GetRequest_Read fuel a).
Proof. unfold GetRequest_Read, GetRequest_ReadField1, GetRequest_ReadField2. ends_fields. Qed.
Lemma ends_KeyValue a : ends (KeyValue_Read fuel a).
Proof. unfold KeyValue_Read, KeyValue_ReadField1, KeyValue_ReadField2. ends_fields. Qed.
Lemma ends_PutRequest a : ends (PutRequest_Read fuel a).
Proof. unfold PutRequest_Read, PutRequest_ReadField1, PutRequest_ReadField2. ends_fields. Qed.
Lemma ends_ResponseHeader a : ends (ResponseHeader_Read fuel a).
Proof.
  unfold ResponseHeader_Read, ResponseHeader_ReadField1, ResponseHeader_ReadField2, ResponseHeader_ReadField3,
    ResponseHeader_ReadField4. ends_fields.
Qed.
#[local] Hint Resolve ends_Health ends_GetRequest ends_KeyValue ends_PutRequest ends_ResponseHeader : ends.

Lemma ends_GetResponse a : ends (GetResponse_Read fuel a).
Proof. unfold GetResponse_Read, GetResponse_ReadField1, GetResponse_ReadField2. ends_fields. Qed.
Lemma ends_PutResponse a : ends (PutResponse_Read fuel a).
Proof. unfold PutResponse_Read, PutResponse_ReadField1. ends_fields. Qed.
#[local] Hint Resolve ends_GetResponse ends_PutResponse : ends.

Lemma ends_KVPingResult a : ends (KVPingResult_Read fuel a).
Proof. unfold KVPingResult_Read, KVPingResult_ReadField0. ends_fields. Qed.
Lemma ends_KVGetResult a : ends (KVGetResult_Read fuel a).
Proof. unfold KVGetResult_Read, KVGetResult_ReadField0. ends_fields. Qed.
Lemma ends_KVPutResult a : ends (KVPutResult_Read fuel a).
Proof. unfold KVPutResult_Read, KVPutResult_ReadField0. ends_fields. Qed.
Lemma ends_KVMultiPutResult a : ends (KVMultiPutResult_Read fuel a).
Proof. unfold KVMultiPutResult_Read, KVMultiPutResult_ReadField0. ends_fields. Qed.
Lemma ends_requests a : ends (KVMultiPutArgs_ReadField1 fuel a).
Proof. unfold KVMultiPutArgs_ReadField1. eauto 10 with ends. Qed.

(** Never the lack of fuel. *)
Lemma ends_not_stuck {A} (m : proto P A) p : ends m -> left_to_read p < fuel -> m p <> OutOfFuel.
Proof. intros Hm Hp He. specialize (Hm p Hp). by rewrite He in Hm. Qed.
End Fuel.

(** ** Tokens are finite *)
#[local] Existing Instances numbered token_protocol.

Lemma drop_value_length d ts rest : drop_value d ts = Some rest -> length rest <= length ts.
Proof.
  revert d. induction ts as [|t ts IH]; intros d; simpl; [done|]. case_decide; [intros [= <-]; lia|].
  intros Hd%IH. lia.
Qed.
Lemma take_length {A} (sel : token -> option A) p p' a : take sel p = (p', Ok a) -> length (to_read p') <= length (to_read p).
Proof. unfold take, next. destruct p as [[|t ts] w]; simpl; [done|]. destruct (sel t); [|done]. intros [= <- _]. simpl. lia. Qed.
Lemma take_if_length ok p p' : take_if ok p = (p', None) -> length (to_read p') <= length (to_read p).
Proof. unfold take_if, next. destruct p as [[|t ts] w]; simpl; [done|]. destruct (ok t); [|done]. intros [= <-]. simpl. lia. Qed.

Definition token_consumes : TConsumes tokens.
Proof.
  refine {| left_to_read p := length (to_read p) |}.
  - intros [[|[] ts] w] p' u i; cbn; try done; intros [= <- <- <-]; simpl; (split; [lia|]); intros; first [lia|done].
  - intros p p' Hr. exact (take_if_length _ p p' Hr).
  - intros p p' Hr. exact (take_if_length _ p p' Hr).
  - intros p p' Hr. exact (take_if_length _ p p' Hr).
  - intros p p' r Hr. exact (take_length _ p p' r Hr).
  - intros p p' Hr. exact (take_if_length _ p p' Hr).
  - intros p p' r Hr. exact (take_length _ p p' r Hr).
  - intros p p' r Hr. exact (take_length _ p p' r Hr).
  - intros p p' r Hr. exact (take_length _ p p' r Hr).
  - intros u [ts w] p'. cbn. destruct (drop_value 0 ts) as [rest|] eqn:Hd; [|done]. intros [= <-]. by eapply drop_value_length.
Defined.
