(* ===== verification/ThriftText.v ===== *)
(** * thrift/rpc/rpc.go: the getters of the generated structs and their text

    A receiver is a pointer: reading a field of a nil one panics, while [String] of a nil
    one is a text.  [String] prints the struct with [%+v]: the fields by name, a nested
    pointer by its own [String], a slice in brackets. *)
From S2P Require Import Prelude.
From S2P Require Import ThriftProtocol.
From S2P Require Import ThriftRpc.

Definition deref {A} (p : option A) : outcome A := match p with Some a => Ret a | None => Panic end.

(** ** fmt.Sprintf with %+v *)
Definition fmt_slice (elems : list string) : string := "[" +:+ String.concat " " elems +:+ "]".
Definition fmt_fields (fs : list (string * string)) : string :=
  String.concat " " (map (fun f => fst f +:+ ":" +:+ snd f) fs).
Definition fmt_struct (fs : list (string * string)) : string := "{" +:+ fmt_fields fs +:+ "}".

(** [if p == nil { return "<nil>" }; return fmt.Sprintf("T(%+v)", *p)] *)
Definition fmt_pointer {A} (T : string) (fs : A -> list (string * string)) (p : option A) : string :=
  match p with
  | None => "<nil>"
  | Some p => T +:+ "(" +:+ fmt_struct (fs p) +:+ ")"
  end.

(** ** Health *)
(* src/thrift/rpc/rpc.go:34-36 Health.GetOK *)
Definition Health_GetOK (p : option Health) : outcome bool := p ← deref p; Ret (OK p).
(* src/thrift/rpc/rpc.go:38-40 Health.GetErrors *)
Definition Health_GetErrors (p : option Health) : outcome string := p ← deref p; Ret (Errors p).
(* src/thrift/rpc/rpc.go:141-146 Health.String *)
Definition Health_String : option Health -> string := fmt_pointer "Health" (fun p => [("OK", fmt_bool (OK p)); ("Errors", Errors p)]%string).

(** ** GetRequest *)
(* src/thrift/rpc/rpc.go:161-163 GetRequest.GetKey *)
Definition GetRequest_GetKey (p : option GetRequest) : outcome string := p ← deref p; Ret (get_Key p).
(* src/thrift/rpc/rpc.go:165-167 GetRequest.GetSerializable *)
Definition GetRequest_GetSerializable (p : option GetRequest) : outcome bool := p ← deref p; Ret (Serializable p).
(* src/thrift/rpc/rpc.go:268-273 GetRequest.String *)
Definition GetRequest_String : option GetRequest -> string := fmt_pointer "GetRequest" (fun p => [("Key", get_Key p); ("Serializable", fmt_bool (Serializable p))]%string).

(** ** KeyValue *)
(* src/thrift/rpc/rpc.go:442-444 KeyValue.GetKey *)
Definition KeyValue_GetKey (p : option KeyValue) : outcome string := p ← deref p; Ret (Key p).
(* src/thrift/rpc/rpc.go:446-448 KeyValue.GetValue *)
Definition KeyValue_GetValue (p : option KeyValue) : outcome string := p ← deref p; Ret (Value p).
(* src/thrift/rpc/rpc.go:549-554 KeyValue.String *)
Definition KeyValue_String : option KeyValue -> string := fmt_pointer "KeyValue" (fun p => [("Key", Key p); ("Value", Value p)]%string).

(** ** PutRequest *)
(* src/thrift/rpc/rpc.go:569-571 PutRequest.GetKey *)
Definition PutRequest_GetKey (p : option PutRequest) : outcome string := p ← deref p; Ret (put_Key p).
(* src/thrift/rpc/rpc.go:573-575 PutRequest.GetValue *)
Definition PutRequest_GetValue (p : option PutRequest) : outcome string := p ← deref p; Ret (put_Value p).
(* src/thrift/rpc/rpc.go:676-681 PutRequest.String *)
Definition PutRequest_String : option PutRequest -> string := fmt_pointer "PutRequest" (fun p => [("Key", put_Key p); ("Value", put_Value p)]%string).

(** ** ResponseHeader *)
(* src/thrift/rpc/rpc.go:700-702 ResponseHeader.GetClusterID *)
Definition ResponseHeader_GetClusterID (p : option ResponseHeader) : outcome Z := p ← deref p; Ret (ClusterID p).
(* src/thrift/rpc/rpc.go:704-706 ResponseHeader.GetNodeID *)
Definition ResponseHeader_GetNodeID (p : option ResponseHeader) : outcome Z := p ← deref p; Ret (NodeID p).
(* src/thrift/rpc/rpc.go:708-710 ResponseHeader.GetConsumeTime *)
Definition ResponseHeader_GetConsumeTime (p : option ResponseHeader) : outcome Z := p ← deref p; Ret (ConsumeTime p).
(* src/thrift/rpc/rpc.go:712-714 ResponseHeader.GetNodeIP *)
Definition ResponseHeader_GetNodeIP (p : option ResponseHeader) : outcome string := p ← deref p; Ret (NodeIP p).
(* src/thrift/rpc/rpc.go:875-880 ResponseHeader.String *)
Definition ResponseHeader_String : option ResponseHeader -> string := fmt_pointer "ResponseHeader" (fun p => [("ClusterID", pretty (ClusterID p)); ("NodeID", pretty (NodeID p)); ("ConsumeTime", pretty (ConsumeTime p)); ("NodeIP", NodeIP p)]%string).

(** ** GetResponse *)
(* src/thrift/rpc/rpc.go:298-300 GetResponse.IsSetHeader *)
Definition GetResponse_IsSetHeader (p : option GetResponse) : outcome bool := p ← deref p; Ret (bool_decide (is_Some (get_Header p))).
(* src/thrift/rpc/rpc.go:288-293 GetResponse.GetHeader *)
Definition GetResponse_GetHeader (p : option GetResponse) : outcome (option ResponseHeader) :=
  set ← GetResponse_IsSetHeader p; if negb set then Ret None else p ← deref p; Ret (get_Header p).
(* src/thrift/rpc/rpc.go:295-297 GetResponse.GetKvs *)
Definition GetResponse_GetKvs (p : option GetResponse) : outcome (list (option KeyValue)) := p ← deref p; Ret (Kvs p).
(* src/thrift/rpc/rpc.go:422-427 GetResponse.String *)
Definition GetResponse_String : option GetResponse -> string := fmt_pointer "GetResponse" (fun p => [("Header", ResponseHeader_String (get_Header p)); ("Kvs", fmt_slice (map KeyValue_String (Kvs p)))]%string).

(** ** PutResponse *)
(* src/thrift/rpc/rpc.go:899-901 PutResponse.IsSetHeader *)
Definition PutResponse_IsSetHeader (p : option PutResponse) : outcome bool := p ← deref p; Ret (bool_decide (is_Some (put_Header p))).
(* src/thrift/rpc/rpc.go:893-898 PutResponse.GetHeader *)
Definition PutResponse_GetHeader (p : option PutResponse) : outcome (option ResponseHeader) :=
  set ← PutResponse_IsSetHeader p; if negb set then Ret None else p ← deref p; Ret (put_Header p).
(* src/thrift/rpc/rpc.go:973-978 PutResponse.String *)
Definition PutResponse_String : option PutResponse -> string := fmt_pointer "PutResponse" (fun p => [("Header", ResponseHeader_String (put_Header p))]%string).

(** ** KVPingArgs *)
(* src/thrift/rpc/rpc.go:1347-1352 KVPingArgs.String *)
Definition KVPingArgs_String : option KVPingArgs -> string := fmt_pointer "KVPingArgs" (fun p => []%string).

(** ** KVPingResult *)
(* src/thrift/rpc/rpc.go:1447-1452 KVPingResult.String *)
Definition KVPingResult_String : option KVPingResult -> string := fmt_pointer "KVPingResult" (fun p => [("Success", Health_String (ping_Success p))]%string).

(** ** KVGetArgs *)
(* src/thrift/rpc/rpc.go:1471-1473 KVGetArgs.IsSetReq *)
Definition KVGetArgs_IsSetReq (p : option KVGetArgs) : outcome bool := p ← deref p; Ret (bool_decide (is_Some (get_Req p))).
(* src/thrift/rpc/rpc.go:1465-1470 KVGetArgs.GetReq *)
Definition KVGetArgs_GetReq (p : option KVGetArgs) : outcome (option GetRequest) :=
  set ← KVGetArgs_IsSetReq p; if negb set then Ret None else p ← deref p; Ret (get_Req p).
(* src/thrift/rpc/rpc.go:1545-1550 KVGetArgs.String *)
Definition KVGetArgs_String : option KVGetArgs -> string := fmt_pointer "KVGetArgs" (fun p => [("Req", GetRequest_String (get_Req p))]%string).

(** ** KVGetResult *)
(* src/thrift/rpc/rpc.go:1645-1650 KVGetResult.String *)
Definition KVGetResult_String : option KVGetResult -> string := fmt_pointer "KVGetResult" (fun p => [("Success", GetResponse_String (get_Success p))]%string).

(** ** KVPutArgs *)
(* src/thrift/rpc/rpc.go:1669-1671 KVPutArgs.IsSetReq *)
Definition KVPutArgs_IsSetReq (p : option KVPutArgs) : outcome bool := p ← deref p; Ret (bool_decide (is_Some (put_Req p))).
(* src/thrift/rpc/rpc.go:1663-1668 KVPutArgs.GetReq *)
Definition KVPutArgs_GetReq (p : option KVPutArgs) : outcome (option PutRequest) :=
  set ← KVPutArgs_IsSetReq p; if negb set then Ret None else p ← deref p; Ret (put_Req p).
(* src/thrift/rpc/rpc.go:1743-1748 KVPutArgs.String *)
Definition KVPutArgs_String : option KVPutArgs -> string := fmt_pointer "KVPutArgs" (fun p => [("Req", PutRequest_String (put_Req p))]%string).

(** ** KVPutResult *)
(* src/thrift/rpc/rpc.go:1843-1848 KVPutResult.String *)
Definition KVPutResult_String : option KVPutResult -> string := fmt_pointer "KVPutResult" (fun p => [("Success", PutResponse_String (put_Success p))]%string).

(** ** KVMultiPutArgs *)
(* src/thrift/rpc/rpc.go:1861-1863 KVMultiPutArgs.GetReqs *)
Definition KVMultiPutArgs_GetReqs (p : option KVMultiPutArgs) : outcome (list (option PutRequest)) := p ← deref p; Ret (Reqs p).
(* src/thrift/rpc/rpc.go:1954-1959 KVMultiPutArgs.String *)
Definition KVMultiPutArgs_String : option KVMultiPutArgs -> string := fmt_pointer "KVMultiPutArgs" (fun p => [("Reqs", fmt_slice (map PutRequest_String (Reqs p)))]%string).

(** ** KVMultiPutResult *)
(* src/thrift/rpc/rpc.go:2054-2059 KVMultiPutResult.String *)
Definition KVMultiPutResult_String : option KVMultiPutResult -> string := fmt_pointer "KVMultiPutResult" (fun p => [("Success", PutResponse_String (multi_Success p))]%string).

(** ** What a text tells *)
Lemma fmt_fields_cons n v f fs : fmt_fields ((n, v) :: f :: fs) = n +:+ ":" +:+ v +:+ String " " (fmt_fields (f :: fs)).
Proof. unfold fmt_fields. cbn [map String.concat fst snd]. by rewrite !string_app_assoc. Qed.
Lemma fmt_fields_last n v : fmt_fields [(n, v)] = n +:+ ":" +:+ v.
Proof. done. Qed.

(** A value without a blank ends where its field ends. *)
Lemma fmt_field_inv n v w f fs g gs :
  all_chars (not_char " ") v = true -> all_chars (not_char " ") w = true ->
  fmt_fields ((n, v) :: f :: fs) = fmt_fields ((n, w) :: g :: gs) ->
  v = w /\ fmt_fields (f :: fs) = fmt_fields (g :: gs).
Proof.
  intros Hv Hw. rewrite !fmt_fields_cons. intros H%(inj _)%(inj _). by apply cut_at in H.
Qed.
Lemma fmt_last_inv n v w : fmt_fields [(n, v)] = fmt_fields [(n, w)] -> v = w.
Proof. rewrite !fmt_fields_last. by intros H%(inj _)%(inj _). Qed.

Lemma pretty_no_blank (z : Z) : all_chars (not_char " ") (pretty z) = true.
Proof. apply pretty_Z_chars; [done|]. intros n. unfold pretty_N_char. by repeat case_match. Qed.
Lemma fmt_bool_no_blank b : all_chars (not_char " ") (fmt_bool b) = true.
Proof. by destruct b. Qed.

#[global] Instance fmt_bool_inj : Inj (=) (=) fmt_bool.
Proof. by intros [] []. Qed.

Lemma true_not_false s1 s2 : s1 +:+ "true" <> s2 +:+ "false".
Proof.
  change "true" with ("tru" +:+ "e"). change "false" with ("fals" +:+ "e"). rewrite <- !string_app_assoc.
  intros H%string_app_inv_r. change "tru" with ("tr" +:+ "u") in H. change "fals" with ("fal" +:+ "s") in H.
  rewrite <- !string_app_assoc in H. by apply string_snoc_inv in H as [_ ?].
Qed.
(** A text that ends in a boolean. *)
Lemma app_fmt_bool_inv s1 s2 b1 b2 : s1 +:+ fmt_bool b1 = s2 +:+ fmt_bool b2 -> s1 = s2 /\ b1 = b2.
Proof.
  destruct b1, b2; intros H; [by apply string_app_inv_r in H|by apply true_not_false in H| |by apply string_app_inv_r in H].
  by apply symmetry, true_not_false in H.
Qed.

(** The text of a pointer tells what the fields of its struct tell. *)
Lemma fmt_pointer_inj {A} T (fs : A -> list (string * string)) :
  (forall t, T +:+ t <> "<nil>") -> (forall a b, fmt_fields (fs a) = fmt_fields (fs b) -> a = b) ->
  Inj (=) (=) (fmt_pointer T fs).
Proof.
  intros HT Hfs [a|] [b|] H; simpl in H; [|by apply HT in H|by apply symmetry, HT in H|done].
  apply (inj _), (inj _), string_app_inv_r in H. unfold fmt_struct in H.
  apply (inj _), string_app_inv_r in H. by rewrite (Hfs a b H).
Qed.

#[local] Hint Resolve pretty_no_blank fmt_bool_no_blank : core.
#[local] Arguments fmt_fields : simpl never.
#[local] Arguments fmt_bool : simpl never.
#[local] Arguments pretty : simpl never.

(** The texts of two structs agree; the fields without blanks first. *)
Ltac same_texts :=
  apply fmt_pointer_inj; [done|]; intros a b H; destruct a, b; cbn in H |- *;
  repeat (apply fmt_field_inv in H as [?%(inj _) H]; [|by auto|by auto]); try apply fmt_last_inv in H.

#[global] Instance Health_String_inj : Inj (=) (=) Health_String.
Proof. same_texts. by subst. Qed.
#[global] Instance GetRequest_String_inj : Inj (=) (=) GetRequest_String.
Proof.
  same_texts. rewrite !fmt_fields_cons, !fmt_fields_last in H. apply (inj _), (inj _) in H.
  assert (Hcut : forall k b, k +:+ String " " ("Serializable" +:+ ":" +:+ fmt_bool b) = (k +:+ " Serializable:") +:+ fmt_bool b)
    by (intros; by rewrite string_app_assoc).
  rewrite !Hcut in H. by apply app_fmt_bool_inv in H as [->%string_app_inv_r ->].
Qed.
#[global] Instance ResponseHeader_String_inj : Inj (=) (=) ResponseHeader_String.
Proof. same_texts. by subst. Qed.
#[global] Instance PutResponse_String_inj : Inj (=) (=) PutResponse_String.
Proof. same_texts. by apply (inj _) in H as ->. Qed.
#[global] Instance KVPingArgs_String_inj : Inj (=) (=) KVPingArgs_String.
Proof. by same_texts. Qed.
#[global] Instance KVPingResult_String_inj : Inj (=) (=) KVPingResult_String.
Proof. same_texts. by apply (inj _) in H as ->. Qed.
#[global] Instance KVGetArgs_String_inj : Inj (=) (=) KVGetArgs_String.
Proof. same_texts. by apply (inj _) in H as ->. Qed.
#[global] Instance KVPutResult_String_inj : Inj (=) (=) KVPutResult_String.
Proof. same_texts. by apply (inj _) in H as ->. Qed.
#[global] Instance KVMultiPutResult_String_inj : Inj (=) (=) KVMultiPutResult_String.
Proof. same_texts. by apply (inj _) in H as ->. Qed.

(** Two values with one text. *)
Definition ambiguous {A} (String : option A -> string) : Prop := exists a b, a <> b /\ String a = String b.

Definition blank1 : PutRequest := mkPutRequest "k Value:x" "y".
Definition blank2 : PutRequest := mkPutRequest "k" "x Value:y".
Definition blank_kv1 : KeyValue := mkKeyValue "k Value:x" "y".
Definition blank_kv2 : KeyValue := mkKeyValue "k" "x Value:y".

(** C35: what the printed answers tell.  The texts of [String] of two values are equal
    exactly if the values are, nil included, for health, the headers, the answers to
    writes and the request of a read; but a text with a pair in it does not tell the
    key from the value: two different pairs have the same text, so two answers of [Get]
    have, and two requests to write. *)
Theorem String_tells :
  Inj (=) (=) Health_String /\ Inj (=) (=) GetRequest_String /\ Inj (=) (=) ResponseHeader_String /\
  Inj (=) (=) PutResponse_String /\ Inj (=) (=) KVPingArgs_String /\ Inj (=) (=) KVPingResult_String /\
  Inj (=) (=) KVGetArgs_String /\ Inj (=) (=) KVPutResult_String /\ Inj (=) (=) KVMultiPutResult_String /\
  ambiguous KeyValue_String /\ ambiguous PutRequest_String /\ ambiguous GetResponse_String /\
  ambiguous KVGetResult_String /\ ambiguous KVPutArgs_String /\ ambiguous KVMultiPutArgs_String.
Proof.
  repeat (split; [apply _|]). split; [|split; [|split; [|split; [|split]]]].
  - by exists (Some blank_kv1), (Some blank_kv2).
  - by exists (Some blank1), (Some blank2).
  - by exists (Some (mkGetResponse None [Some blank_kv1])), (Some (mkGetResponse None [Some blank_kv2])).
  - by exists (Some (mkKVGetResult (Some (mkGetResponse None [Some blank_kv1])))),
      (Some (mkKVGetResult (Some (mkGetResponse None [Some blank_kv2])))).
  - by exists (Some (mkKVPutArgs (Some blank1))), (Some (mkKVPutArgs (Some blank2))).
  - by exists (Some (mkKVMultiPutArgs [Some blank1])), (Some (mkKVMultiPutArgs [Some blank2])).
Qed.

Example PutResponse_text :
  PutResponse_String (Some (mkPutResponse (Some (mkResponseHeader 0 (-1) 5 "h")))) =
    "PutResponse({Header:ResponseHeader({ClusterID:0 NodeID:-1 ConsumeTime:5 NodeIP:h})})"%string.
Proof. reflexivity. Qed.
