(* ===== verification/ThriftService.v ===== *)
(** * thrift/rpc/rpc.go: the client and the processor of the service

    [KV] is the interface a handler implements; the processor reads a call, asks the
    handler and writes its answer, and [KVClient] makes such calls through a thrift
    client.  The last part connects the client with the handlers of
    [thrift/server/kv.go]. *)
From S2P Require Import Prelude.
From S2P Require Import ThriftProtocol.
From S2P Require Import TokenProtocol.
From S2P Require Import ThriftRpc.

(** A handler in state [K]; a handler may panic, and its answer may be nil. *)
(* src/thrift/rpc/rpc.go:980-991 KV *)
Class KV `{Thrift} (K : Type) : Type := {
  kv_Ping : K -> outcome (K * result error (option Health));
  kv_Get : K -> option GetRequest -> outcome (K * result error (option GetResponse));
  kv_Put : K -> option PutRequest -> outcome (K * result error (option PutResponse));
  kv_MultiPut : K -> list (option PutRequest) -> outcome (K * result error (option PutResponse))
}.

(** What a call of a processor ends with: the handler, both protocols and the two
    results; or the panic of the handler. *)
Inductive processed `{Thrift} (K P : Type) : Type :=
| Processed (h : K) (iprot oprot : P) (success : bool) (err : option error)
| ProcessPanic
| ProcessOutOfFuel.
Arguments Processed {_ K P} h iprot oprot success err.
Arguments ProcessPanic {_ K P}.
Arguments ProcessOutOfFuel {_ K P}.

Section Processor.
Context `{Thrift} {P : Type} `{!TProtocol P} {K : Type} `{!KV K}.

(** The answer to a call that failed; the errors of the writes are dropped. *)
Definition write_exception (name : string) (kind : exception_kind) (msg : string) (seqId : Z) (oprot : P) : P :=
  let '(oprot, _) := WriteMessageBegin name EXCEPTION seqId oprot in
  let '(oprot, _) := TApplicationException_Write kind msg oprot in
  let '(oprot, _) := WriteMessageEnd oprot in
  let '(oprot, _) := Flush oprot in
  oprot.

Definition first_error (err err2 : option error) : option error :=
  match err with Some _ => err | None => err2 end.
Definition result_error {A} (r : result error A) : option error :=
  match r with Ok _ => None | Err e => Some e end.

(** The body the four processor functions share: read the arguments, call the handler,
    write its result; every write is tried, and the first error is returned. *)
Definition process_function {A R} (name : string) (read : proto P A)
    (call : K -> A -> outcome (K * result error R)) (write : R -> proto P unit)
    (seqId : Z) (h : K) (iprot oprot : P) : processed K P :=
  match read iprot with
  | Panicked => ProcessPanic
  | OutOfFuel => ProcessOutOfFuel
  | Done iprot (Err err) =>
      let '(iprot, _) := ReadMessageEnd iprot in
      Processed h iprot (write_exception name PROTOCOL_ERROR (Error err) seqId oprot) false (Some err)
  | Done iprot (Ok args) =>
      let '(iprot, _) := ReadMessageEnd iprot in
      match call h args with
      | Panic => ProcessPanic
      | Ret (h, Err err2) =>
          let msg := "Internal error processing " +:+ name +:+ ": " +:+ Error err2 in
          Processed h iprot (write_exception name INTERNAL_ERROR msg seqId oprot) true (Some err2)
      | Ret (h, Ok retval) =>
          let '(oprot, err) := WriteMessageBegin name REPLY seqId oprot in
          match write retval oprot with
          | Panicked => ProcessPanic
          | OutOfFuel => ProcessOutOfFuel
          | Done oprot r =>
              let err := first_error err (result_error r) in
              let '(oprot, err2) := WriteMessageEnd oprot in
              let err := first_error err err2 in
              let '(oprot, err2) := Flush oprot in
              let err := first_error err err2 in
              match err with
              | Some _ => Processed h iprot oprot false err
              | None => Processed h iprot oprot true err
              end
          end
      end
  end.

(* src/thrift/rpc/rpc.go:1112-1154 kVProcessorPing.Process *)
Definition kVProcessorPing_Process (fuel : nat) : Z -> K -> P -> P -> processed K P :=
  process_function "Ping" (KVPingArgs_Read fuel NewKVPingArgs) (fun h _ => kv_Ping h)
    (fun retval => KVPingResult_Write (Some (mkKVPingResult retval))).
(* src/thrift/rpc/rpc.go:1160-1202 kVProcessorGet.Process *)
Definition kVProcessorGet_Process (fuel : nat) : Z -> K -> P -> P -> processed K P :=
  process_function "Get" (KVGetArgs_Read fuel NewKVGetArgs) (fun h args => kv_Get h (get_Req args))
    (fun retval => KVGetResult_Write (Some (mkKVGetResult retval))).
(* src/thrift/rpc/rpc.go:1208-1250 kVProcessorPut.Process *)
Definition kVProcessorPut_Process (fuel : nat) : Z -> K -> P -> P -> processed K P :=
  process_function "Put" (KVPutArgs_Read fuel NewKVPutArgs) (fun h args => kv_Put h (put_Req args))
    (fun retval => KVPutResult_Write (Some (mkKVPutResult retval))).
(* src/thrift/rpc/rpc.go:1256-1298 kVProcessorMultiPut.Process *)
Definition kVProcessorMultiPut_Process (fuel : nat) : Z -> K -> P -> P -> processed K P :=
  process_function "MultiPut" (KVMultiPutArgs_Read fuel NewKVMultiPutArgs) (fun h args => kv_MultiPut h (Reqs args))
    (fun retval => KVMultiPutResult_Write (Some (mkKVMultiPutResult retval))).

(** The functions share the handler, so it is passed to each call. *)
(* src/thrift/rpc/rpc.go:1063-1066 KVProcessor *)
Definition KVProcessor : Type := gmap string (Z -> K -> P -> P -> processed K P).

(* src/thrift/rpc/rpc.go:1068-1070 KVProcessor.AddToProcessorMap *)
Definition AddToProcessorMap (p : KVProcessor) (key : string) (processor : Z -> K -> P -> P -> processed K P)
    : KVProcessor := <[key := processor]> p.
(* src/thrift/rpc/rpc.go:1072-1075 KVProcessor.GetProcessorFunction *)
Definition GetProcessorFunction (p : KVProcessor) (key : string) := p !! key.

(* src/thrift/rpc/rpc.go:1081-1089 NewKVProcessor *)
Definition NewKVProcessor (fuel : nat) : KVProcessor :=
  let self9 : KVProcessor := ∅ in
  let self9 := <["Ping" := kVProcessorPing_Process fuel]> self9 in
  let self9 := <["Get" := kVProcessorGet_Process fuel]> self9 in
  let self9 := <["Put" := kVProcessorPut_Process fuel]> self9 in
  <["MultiPut" := kVProcessorMultiPut_Process fuel]> self9.

(* src/thrift/rpc/rpc.go:1091-1106 KVProcessor.Process *)
Definition Process (p : KVProcessor) (h : K) (iprot oprot : P) : processed K P :=
  match ReadMessageBegin iprot with
  | (iprot, Err err) => Processed h iprot oprot false (Some err)
  | (iprot, Ok (name, _, seqId)) =>
      match GetProcessorFunction p name with
      | Some processor => processor seqId h iprot oprot
      | None =>
          let '(iprot, _) := Skip STRUCT iprot in
          let '(iprot, _) := ReadMessageEnd iprot in
          let msg := "Unknown function " +:+ name in
          Processed h iprot (write_exception name UNKNOWN_METHOD msg seqId oprot) false
            (Some (NewTApplicationException UNKNOWN_METHOD msg))
      end
  end.
End Processor.

(** ** Calls answered *)
Section Served.
Context `{Thrift} {P : Type} `{!TProtocol P} `{!TStream P} `{!TProtocolLaws P} {K : Type} `{!KV K}.
Context (fuel : nat).
#[local] Set Default Proof Using "All".

Definition message (name : string) (t : TMessageType) (seqId : Z) (v : tvalue) : list token :=
  TMessageBegin name t seqId :: tokens_of v ++ [TMessageEnd].

(** Given the tokens [call], the processor leaves the handler in state [h'] and
    writes the tokens [reply]. *)
Definition answers (h : K) (call : list token) (h' : K) (reply : list token) : Prop :=
  forall (iprot oprot : P) rest, unread iprot (call ++ rest) -> write_ok oprot ->
    exists iprot' oprot' success err,
      Process (NewKVProcessor fuel) h iprot oprot = Processed h' iprot' oprot' success err /\
      unread iprot' rest /\ written oprot' = written oprot ++ reply.

(** It panics. *)
Definition panics (h : K) (call : list token) : Prop :=
  forall (iprot oprot : P) rest, unread iprot (call ++ rest) ->
    Process (NewKVProcessor fuel) h iprot oprot = ProcessPanic.

(** What the processor makes of an answer of the handler. *)
Definition relays {R} (name : string) (seqId : Z) (h : K) (v : tvalue) (answer : outcome (K * result error R))
    (result_of : R -> tvalue) : Prop :=
  let call t := message name t seqId v in
  match answer with
  | Ret (h', Ok retval) => forall t, answers h (call t) h' (message name REPLY seqId (result_of retval))
  | Ret (h', Err _) => exists fs, forall t, answers h (call t) h' (message name EXCEPTION seqId (VStruct fs))
  | Panic => forall t, panics h (call t)
  end.

Lemma tell_writes (op : P -> P * option error) ts p :
  writes (tell op) ts tt -> write_ok p ->
  exists p', op p = (p', None) /\ write_ok p' /\ written p' = written p ++ ts.
Proof.
  intros Hw Hp. destruct (Hw p Hp) as (p' & He & Hp' & Hw'). exists p'. unfold tell in He.
  destruct (op p) as [q [e|]]; by injection He as ->.
Qed.
Lemma tell_reads (op : P -> P * option error) ts p rest :
  reads (tell op) ts tt -> unread p (ts ++ rest) -> exists p', op p = (p', None) /\ unread p' rest.
Proof.
  intros Hr Hp. destruct (Hr p rest Hp) as (p' & He & Hp'). exists p'. unfold tell in He.
  destruct (op p) as [q [e|]]; by injection He as ->.
Qed.
Lemma ask_reads {A} (op : P -> P * result error A) ts a p rest :
  reads (ask op) ts a -> unread p (ts ++ rest) -> exists p', op p = (p', Ok a) /\ unread p' rest.
Proof.
  intros Hr Hp. destruct (Hr p rest Hp) as (p' & He & Hp'). exists p'. unfold ask in He.
  destruct (op p) as [q r]; by injection He as -> ->.
Qed.

Lemma write_exception_writes name kind msg seqId :
  exists fs, forall oprot, write_ok oprot ->
    written (write_exception name kind msg seqId oprot) = written oprot ++ message name EXCEPTION seqId (VStruct fs).
Proof.
  destruct (TApplicationException_Write_law kind msg) as [fs Hx]. exists fs. intros p0 Hp0.
  destruct (tell_writes _ _ p0 (WriteMessageBegin_law name EXCEPTION seqId) Hp0) as (p1 & H1 & Hp1 & Hw1).
  destruct (tell_writes _ _ p1 Hx Hp1) as (p2 & H2 & Hp2 & Hw2).
  destruct (tell_writes _ _ p2 WriteMessageEnd_law Hp2) as (p3 & H3 & Hp3 & Hw3).
  destruct (tell_writes _ _ p3 Flush_law Hp3) as (p4 & H4 & Hp4 & Hw4).
  unfold write_exception. rewrite H1, H2, H3, H4, Hw4, Hw3, Hw2, Hw1, app_nil_r, <- !app_assoc. done.
Qed.

Lemma GetProcessorFunction_New (name : string) :
  GetProcessorFunction (NewKVProcessor (P := P) (K := K) fuel) name =
  if decide (name = "Ping"%string) then Some (kVProcessorPing_Process fuel)
  else if decide (name = "Get"%string) then Some (kVProcessorGet_Process fuel)
  else if decide (name = "Put"%string) then Some (kVProcessorPut_Process fuel)
  else if decide (name = "MultiPut"%string) then Some (kVProcessorMultiPut_Process fuel)
  else None.
Proof.
  unfold GetProcessorFunction, NewKVProcessor, KVProcessor. cbv zeta. rewrite !lookup_insert, lookup_empty.
  repeat case_decide; congruence.
Qed.

(** A call of a known function runs that function on the arguments. *)
Lemma Process_known name f h (iprot : P) oprot t seqId rest :
  GetProcessorFunction (NewKVProcessor fuel) name = Some f ->
  unread iprot (TMessageBegin name t seqId :: rest) ->
  exists iprot', Process (NewKVProcessor fuel) h iprot oprot = f seqId h iprot' oprot /\ unread iprot' rest.
Proof.
  intros Hf Hu. destruct (ask_reads _ _ _ iprot rest (ReadMessageBegin_law name t seqId) Hu) as (p1 & H1 & Hu1).
  exists p1. unfold Process. by rewrite H1, Hf.
Qed.

(** Arguments of type [A], a result of type [B]. *)
Lemma process_function_relays `{!Schema A} `{!Codec P A} `{!CodecLaws P A} `{!Schema B} `{!Codec P B} `{!CodecLaws P B}
    {R} name read write (pack : R -> B) (call : K -> A -> outcome (K * result error R)) (args : A) seqId h fs :
  GetProcessorFunction (NewKVProcessor fuel) name = Some (process_function name read call (fun r => write (Some (pack r)))) ->
  read = msg_Read fuel zero -> write = msg_Write -> decode fs = args ->
  acceptable A fs = true -> length (tokens_of (VStruct fs)) <= fuel ->
  relays name seqId h (VStruct fs) (call h args) (fun r => wire (Some (pack r))).
Proof.
  intros Hf -> -> <- Hok Hl. unfold relays.
  assert (Hread : forall (iprot oprot : P) t rest, unread iprot (message name t seqId (VStruct fs) ++ rest) ->
    exists p1 p2 p3, Process (NewKVProcessor fuel) h iprot oprot =
        process_function name (msg_Read fuel (zero (A := A))) call (fun r => msg_Write (Some (pack r))) seqId h p1 oprot /\
      msg_Read fuel zero p1 = Done p2 (Ok (decode (A := A) fs)) /\ ReadMessageEnd p2 = (p3, None) /\ unread p3 rest).
  { intros iprot oprot t rest Hu. destruct (Process_known name _ h iprot oprot t seqId _ Hf Hu) as (p1 & Hp & Hu1).
    change (unread p1 ((tokens_of (VStruct fs) ++ [TMessageEnd]) ++ rest)) in Hu1. rewrite <- app_assoc in Hu1.
    destruct (Read_reads fuel (zero (A := A)) fs Hok Hl p1 _ Hu1) as (p2 & Hr & Hu2).
    destruct (tell_reads _ _ p2 rest ReadMessageEnd_law Hu2) as (p3 & He & Hu3). by exists p1, p2, p3. }
  destruct (call h (decode (A := A) fs)) as [[h' [retval|err]]|] eqn:Hc.
  - intros t iprot oprot rest Hu Hok0. destruct (Hread iprot oprot t rest Hu) as (p1 & p2 & p3 & -> & Hr & He & Hu3).
    destruct (tell_writes _ _ oprot (WriteMessageBegin_law name REPLY seqId) Hok0) as (o1 & H1 & Ho1 & Hw1).
    destruct (Write_writes (Some (pack retval)) o1 Ho1) as (o2 & H2 & Ho2 & Hw2).
    destruct (tell_writes _ _ o2 WriteMessageEnd_law Ho2) as (o3 & H3 & Ho3 & Hw3).
    destruct (tell_writes _ _ o3 Flush_law Ho3) as (o4 & H4 & Ho4 & Hw4).
    exists p3, o4, true, None. unfold process_function. rewrite Hr, He, Hc, H1, H2. cbn. rewrite H3, H4.
    split; [done|]. split; [done|]. by rewrite Hw4, Hw3, Hw2, Hw1, app_nil_r, <- !app_assoc.
  - destruct (write_exception_writes name INTERNAL_ERROR ("Internal error processing " +:+ name +:+ ": " +:+ Error err) seqId)
      as [efs Hx]. exists efs. intros t iprot oprot rest Hu Hok0.
    destruct (Hread iprot oprot t rest Hu) as (p1 & p2 & p3 & -> & Hr & He & Hu3).
    unfold process_function. rewrite Hr, He, Hc. do 4 eexists. split; [done|]. split; [done|by apply Hx].
  - intros t iprot oprot rest Hu. destruct (Hread iprot oprot t rest Hu) as (p1 & p2 & p3 & -> & Hr & He & Hu3).
    unfold process_function. by rewrite Hr, He, Hc.
Qed.

(** The four functions, on the arguments as they are decoded. *)
Lemma relays_Ping seqId h fs :
  acceptable KVPingArgs fs = true -> length (tokens_of (VStruct fs)) <= fuel ->
  relays "Ping" seqId h (VStruct fs) (kv_Ping h) (fun r => wire (Some (mkKVPingResult r))).
Proof.
  by apply (process_function_relays "Ping" (KVPingArgs_Read fuel NewKVPingArgs) KVPingResult_Write mkKVPingResult
    (fun h _ => kv_Ping h) (decode fs)); [rewrite GetProcessorFunction_New|..].
Qed.
Lemma relays_Get seqId h fs :
  acceptable KVGetArgs fs = true -> length (tokens_of (VStruct fs)) <= fuel ->
  relays "Get" seqId h (VStruct fs) (kv_Get h (get_Req (decode fs))) (fun r => wire (Some (mkKVGetResult r))).
Proof.
  by apply (process_function_relays "Get" (KVGetArgs_Read fuel NewKVGetArgs) KVGetResult_Write mkKVGetResult
    (fun h args => kv_Get h (get_Req args))); [rewrite GetProcessorFunction_New|..].
Qed.
Lemma relays_Put seqId h fs :
  acceptable KVPutArgs fs = true -> length (tokens_of (VStruct fs)) <= fuel ->
  relays "Put" seqId h (VStruct fs) (kv_Put h (put_Req (decode fs))) (fun r => wire (Some (mkKVPutResult r))).
Proof.
  by apply (process_function_relays "Put" (KVPutArgs_Read fuel NewKVPutArgs) KVPutResult_Write mkKVPutResult
    (fun h args => kv_Put h (put_Req args))); [rewrite GetProcessorFunction_New|..].
Qed.
Lemma relays_MultiPut seqId h fs :
  acceptable KVMultiPutArgs fs = true -> length (tokens_of (VStruct fs)) <= fuel ->
  relays "MultiPut" seqId h (VStruct fs) (kv_MultiPut h (Reqs (decode fs))) (fun r => wire (Some (mkKVMultiPutResult r))).
Proof.
  by apply (process_function_relays "MultiPut" (KVMultiPutArgs_Read fuel NewKVMultiPutArgs) KVMultiPutResult_Write
    mkKVMultiPutResult (fun h args => kv_MultiPut h (Reqs args))); [rewrite GetProcessorFunction_New|..].
Qed.

Lemma Process_unknown name seqId h fs :
  name ∉ ["Ping"; "Get"; "Put"; "MultiPut"]%string -> value_ok (VStruct fs) = true ->
  exists efs, forall t, answers h (message name t seqId (VStruct fs)) h (message name EXCEPTION seqId (VStruct efs)).
Proof.
  intros Hname Hok. destruct (write_exception_writes name UNKNOWN_METHOD ("Unknown function " +:+ name) seqId) as [efs Hx].
  exists efs. intros t iprot oprot rest Hu Ho.
  destruct (ask_reads _ _ _ iprot _ (ReadMessageBegin_law name t seqId) Hu) as (p1 & H1 & Hu1).
  change (unread p1 ((tokens_of (VStruct fs) ++ [TMessageEnd]) ++ rest)) in Hu1. rewrite <- app_assoc in Hu1.
  destruct (tell_reads _ _ p1 _ (Skip_law _ Hok) Hu1) as (p2 & H2 & Hu2).
  destruct (tell_reads _ _ p2 rest ReadMessageEnd_law Hu2) as (p3 & H3 & Hu3).
  unfold Process. rewrite H1. rewrite GetProcessorFunction_New.
  rewrite !decide_False by (intros ->; apply Hname; set_solver). cbn [type_of] in H2. rewrite H2, H3.
  do 4 eexists. split; [done|]. split; [done|by apply Hx].
Qed.

(** C21: the processor relays every call.  It hands the handler the arguments that were
    sent, answers with what the handler returns or with an exception if it fails, and
    panics exactly if the handler does; the message type of the call does not matter.
    A request that was not sent is nil, an absent batch is empty.  A call of an
    unknown function is answered with an exception and does not reach the handler. *)
Theorem processor_relays seqId h fs :
  length (tokens_of (VStruct fs)) <= fuel ->
  (acceptable KVPingArgs fs = true ->
     relays "Ping" seqId h (VStruct fs) (kv_Ping h) (fun r => wire (Some (mkKVPingResult r)))) /\
  (acceptable KVGetArgs fs = true ->
     relays "Get" seqId h (VStruct fs) (kv_Get h (last_field 1 (as_struct GetRequest) fs))
       (fun r => wire (Some (mkKVGetResult r)))) /\
  (acceptable KVPutArgs fs = true ->
     relays "Put" seqId h (VStruct fs) (kv_Put h (last_field 1 (as_struct PutRequest) fs))
       (fun r => wire (Some (mkKVPutResult r)))) /\
  (acceptable KVMultiPutArgs fs = true ->
     relays "MultiPut" seqId h (VStruct fs) (kv_MultiPut h (default [] (last_field 1 (as_list PutRequest) fs)))
       (fun r => wire (Some (mkKVMultiPutResult r)))) /\
  (forall name, name ∉ ["Ping"; "Get"; "Put"; "MultiPut"]%string -> value_ok (VStruct fs) = true ->
     exists efs, forall t, answers h (message name t seqId (VStruct fs)) h (message name EXCEPTION seqId (VStruct efs))).
Proof.
  intros Hl. repeat apply conj; try (intros name; apply Process_unknown); intros Hok.
  - by apply relays_Ping.
  - pose proof (relays_Get seqId h fs Hok Hl) as Hr. by rewrite decode_KVGetArgs in Hr.
  - pose proof (relays_Put seqId h fs Hok Hl) as Hr. by rewrite decode_KVPutArgs in Hr.
  - pose proof (relays_MultiPut seqId h fs Hok Hl) as Hr. by rewrite decode_KVMultiPutArgs in Hr.
Qed.
End Served.

(** ** The client

    [Call] is the thrift client's: it sends the call, waits for the reply and reads the
    result from it. *)
Class TClient `{Thrift} (P C : Type) : Type := {
  Call : forall {A : Type}, string -> proto P unit -> proto P A -> proto C A
}.

Section Client.
Context `{Thrift} {P : Type} `{!TProtocol P} {C : Type} `{!TClient P C} (fuel : nat).

(* src/thrift/rpc/rpc.go:1018-1025 KVClient.Ping *)
Definition KVClient_Ping : proto C (option Health) :=
  result ← Call "Ping" (KVPingArgs_Write (Some NewKVPingArgs)) (KVPingResult_Read fuel NewKVPingResult);
  mret (KVPingResult_GetSuccess result).
(* src/thrift/rpc/rpc.go:1029-1037 KVClient.Get *)
Definition KVClient_Get (req : option GetRequest) : proto C (option GetResponse) :=
  result ← Call "Get" (KVGetArgs_Write (Some (mkKVGetArgs req))) (KVGetResult_Read fuel NewKVGetResult);
  mret (KVGetResult_GetSuccess result).
(* src/thrift/rpc/rpc.go:1041-1049 KVClient.Put *)
Definition KVClient_Put (req : option PutRequest) : proto C (option PutResponse) :=
  result ← Call "Put" (KVPutArgs_Write (Some (mkKVPutArgs req))) (KVPutResult_Read fuel NewKVPutResult);
  mret (KVPutResult_GetSuccess result).
(* src/thrift/rpc/rpc.go:1053-1061 KVClient.MultiPut *)
Definition KVClient_MultiPut (reqs : list (option PutRequest)) : proto C (option PutResponse) :=
  result ← Call "MultiPut" (KVMultiPutArgs_Write (Some (mkKVMultiPutArgs reqs)))
             (KVMultiPutResult_Read fuel NewKVMultiPutResult);
  mret (KVMultiPutResult_GetSuccess result).
End Client.

(** A client and the handler at the other end of its connection. *)
Class Connection (C K : Type) : Type := { server : C -> K; SeqId : C -> Z }.

(** What a thrift client does over a working connection to the processor: its call is
    answered, and it reads the result of a reply or turns an exception into an error. *)
Class TClientLaws `{Thrift} (P C K : Type) (fuel : nat) `{!TProtocol P} `{!TStream P} `{!TClient P C} `{!KV K}
    `{!Connection C K} : Prop := {
  Call_reply {A : Type} m (w : proto P unit) (r : proto P A) v rv a h c :
    writes w (tokens_of v) tt -> Forall sendable (tokens_of v) ->
    answers (P := P) fuel (server c) (message m CALL (SeqId c) v) h (message m REPLY (SeqId c) rv) ->
    reads r (tokens_of rv) a -> Forall sendable (tokens_of rv) ->
    exists c', Call m w r c = Done c' (Ok a) /\ server c' = h;
  Call_exception {A : Type} m (w : proto P unit) (r : proto P A) v fs h c :
    writes w (tokens_of v) tt -> Forall sendable (tokens_of v) ->
    answers (P := P) fuel (server c) (message m CALL (SeqId c) v) h (message m EXCEPTION (SeqId c) (VStruct fs)) ->
    exists c' e, Call m w r c = Done c' (Err e) /\ server c' = h
}.

Section Remote.
Context `{Thrift} {P : Type} `{!TProtocol P} `{!TStream P} `{!TProtocolLaws P} {K : Type} `{!KV K}.
Context {C : Type} `{!TClient P C} `{!Connection C K} (fuel : nat) `{!TClientLaws P C K fuel}.
#[local] Set Default Proof Using "All".

(** It is not too long for the wire nor for the fuel. *)
Definition fits (v : tvalue) : Prop := Forall sendable (tokens_of v) /\ length (tokens_of v) <= fuel.

(** The call [m] gives what the handler answers, and leaves the handler as that does. *)
Definition remote {R S} (answer : outcome (K * result error R)) (result_of : R -> tvalue) (f : R -> S)
    (m : proto C S) (c : C) : Prop :=
  match answer with
  | Ret (h, Ok r) => fits (result_of r) -> exists c', m c = Done c' (Ok (f r)) /\ server c' = h
  | Ret (h, Err _) => exists c' e, m c = Done c' (Err e) /\ server c' = h
  | Panic => True
  end.

Lemma call_remote `{!Schema A} `{!Codec P A} `{!CodecLaws P A} `{!Schema B} `{!Codec P B} `{!CodecLaws P B} {R S}
    name write read (args : A) (pack : R -> B) answer (get : B -> S) f c :
  write = msg_Write -> read = msg_Read fuel zero ->
  relays (P := P) fuel name (SeqId c) (server c) (wire (Some args)) answer (fun r => wire (Some (pack r))) ->
  (forall r, get (decode_value (wire (Some (pack r)))) = f r) -> Forall sendable (tokens_of (wire (Some args))) ->
  remote answer (fun r => wire (Some (pack r))) f (b ← Call name (write (Some args)) read; mret (get b)) c.
Proof.
  intros -> -> Hrel Hget Hs. unfold relays in Hrel. destruct answer as [[h [r|err]]|]; simpl; [| |done].
  - intros [Hsr Hlr]. edestruct (Call_reply name (msg_Write (Some args)) (msg_Read fuel (zero (A := B))))
      as (c' & Hc & Hserver); [apply Write_writes|exact Hs|apply Hrel| |exact Hsr|].
    + apply (Read_reads fuel zero); [apply (fields_acceptable (P := P))|exact Hlr].
    + exists c'. unfold mbind, proto_bind. rewrite Hc. split; [|done]. by rewrite <- Hget.
  - destruct Hrel as [fs Hrel]. edestruct (Call_exception name (msg_Write (Some args)) (msg_Read fuel (zero (A := B))))
      as (c' & e & Hc & Hserver); [apply Write_writes|exact Hs|apply Hrel|].
    exists c', e. unfold mbind, proto_bind. by rewrite Hc.
Qed.

Lemma sent_acceptable `{!Schema A} `{!Codec P A} `{!CodecLaws P A} (a : A) : acceptable A (fields a) = true.
Proof. apply (fields_acceptable (P := P)). Qed.

Lemma Ping_remote c :
  fits (wire (Some NewKVPingArgs)) ->
  remote (kv_Ping (server c)) (fun r => wire (Some (mkKVPingResult r))) id (KVClient_Ping fuel) c.
Proof.
  intros [Hs Hl]. apply call_remote; [done|done|by apply relays_Ping| |done].
  intros r. rewrite decode_wire_KVPingResult. by destruct r.
Qed.
Lemma Get_remote req c :
  fits (wire (Some (mkKVGetArgs req))) ->
  remote (kv_Get (server c) (Some (default NewGetRequest req))) (fun r => wire (Some (mkKVGetResult r)))
    (fmap filled_GetResponse) (KVClient_Get fuel req) c.
Proof.
  intros [Hs Hl]. apply call_remote; [done|done| | |done].
  - change (Some (default NewGetRequest req)) with (get_Req (filled_KVGetArgs (mkKVGetArgs req))).
    rewrite <- decode_wire_KVGetArgs. by apply relays_Get; [apply sent_acceptable|].
  - intros r. rewrite decode_wire_KVGetResult. by destruct r.
Qed.
Lemma Put_remote req c :
  fits (wire (Some (mkKVPutArgs req))) ->
  remote (kv_Put (server c) (Some (default NewPutRequest req))) (fun r => wire (Some (mkKVPutResult r)))
    (fmap filled_PutResponse) (KVClient_Put fuel req) c.
Proof.
  intros [Hs Hl]. apply call_remote; [done|done| | |done].
  - change (Some (default NewPutRequest req)) with (put_Req (filled_KVPutArgs (mkKVPutArgs req))).
    rewrite <- decode_wire_KVPutArgs. by apply relays_Put; [apply sent_acceptable|].
  - intros r. rewrite decode_wire_KVPutResult. by destruct r.
Qed.
Lemma MultiPut_remote reqs c :
  fits (wire (Some (mkKVMultiPutArgs reqs))) ->
  remote (kv_MultiPut (server c) ((fun r => Some (default NewPutRequest r)) <$> reqs))
    (fun r => wire (Some (mkKVMultiPutResult r))) (fmap filled_PutResponse) (KVClient_MultiPut fuel reqs) c.
Proof.
  intros [Hs Hl]. apply call_remote; [done|done| | |done].
  - change ((fun r => Some (default NewPutRequest r)) <$> reqs) with (Reqs (filled_KVMultiPutArgs (mkKVMultiPutArgs reqs))).
    rewrite <- decode_wire_KVMultiPutArgs. by apply relays_MultiPut; [apply sent_acceptable|].
  - intros r. rewrite decode_wire_KVMultiPutResult. by destruct r.
Qed.

(** C12: a thrift call is a call of the handler.  Over a working connection each function
    of [KVClient] returns what the handler returns for its request, an error if the
    handler fails, and leaves the handler as that call does; a nil request reaches it
    as an empty one.  Request and reply have to fit on the wire. *)
Theorem client_calls_handler c :
  (fits (wire (Some NewKVPingArgs)) ->
     remote (kv_Ping (server c)) (fun r => wire (Some (mkKVPingResult r))) id (KVClient_Ping fuel) c) /\
  (forall req, fits (wire (Some (mkKVGetArgs req))) ->
     remote (kv_Get (server c) (Some (default NewGetRequest req))) (fun r => wire (Some (mkKVGetResult r)))
       (fmap filled_GetResponse) (KVClient_Get fuel req) c) /\
  (forall req, fits (wire (Some (mkKVPutArgs req))) ->
     remote (kv_Put (server c) (Some (default NewPutRequest req))) (fun r => wire (Some (mkKVPutResult r)))
       (fmap filled_PutResponse) (KVClient_Put fuel req) c) /\
  (forall reqs, fits (wire (Some (mkKVMultiPutArgs reqs))) ->
     remote (kv_MultiPut (server c) ((fun r => Some (default NewPutRequest r)) <$> reqs))
       (fun r => wire (Some (mkKVMultiPutResult r))) (fmap filled_PutResponse) (KVClient_MultiPut fuel reqs) c).
Proof.
  split; [apply Ping_remote|]. split; [intros req; apply Get_remote|].
  split; [intros req; apply Put_remote|intros reqs; apply MultiPut_remote].
Qed.
End Remote.

(** ** A client that is its own server

    A connection over token lists: [Call] runs the processor on the tokens of the call
    and reads its answer.  It shows that the laws of a client can hold. *)
#[local] Existing Instances numbered token_protocol token_stream token_laws.

Section Loopback.
Context {K : Type} `{!KV K} (fuel : nat).

Definition loopback : TClient tokens K := {|
  Call A m write read h :=
    match write (mkTokens [] []) with
    | Done p (Ok _) =>
        match Process (NewKVProcessor fuel) h (mkTokens (TMessageBegin m CALL 0 :: sent p ++ [TMessageEnd]) []) (mkTokens [] []) with
        | Processed h _ oprot _ _ =>
            match sent oprot with
            | TMessageBegin _ t _ :: body =>
                if decide (t = REPLY)
                then match read (mkTokens body []) with Done _ r => Done h r | Panicked => Panicked | OutOfFuel => OutOfFuel end
                else Done h (Err "exception"%string)
            | _ => Done h (Err "EOF"%string)
            end
        | _ => Done h (Err "connection closed"%string)
        end
    | _ => Done h (Err "not sent"%string)
    end
|}.
#[local] Instance loopback_server : Connection K K := {| server h := h; SeqId _ := 0%Z |}.

Lemma loopback_laws : TClientLaws tokens K K fuel (TClient0 := loopback).
Proof.
  split.
  - intros A m w r v rv a h c Hw _ Ha Hr _. destruct (Hw (mkTokens [] []) I) as (p & Hp & _ & Hs).
    destruct (Ha (mkTokens (message m CALL 0 v) []) (mkTokens [] []) [] (eq_sym (app_nil_r _)) I)
      as (i & o & ok & err & HP & _ & Ho).
    destruct (Hr (mkTokens (tokens_of rv ++ [TMessageEnd]) []) [TMessageEnd] eq_refl) as (p' & Hp' & _).
    exists h. split; [|done]. unfold Call, loopback. simpl in Hs, Ho. unfold message, server, loopback_server in HP, Ho.
    by rewrite Hp, Hs, HP, Ho, decide_True, Hp'.
  - intros A m w r v fs h c Hw _ Ha. destruct (Hw (mkTokens [] []) I) as (p & Hp & _ & Hs).
    destruct (Ha (mkTokens (message m CALL 0 v) []) (mkTokens [] []) [] (eq_sym (app_nil_r _)) I)
      as (i & o & ok & err & HP & _ & Ho).
    exists h. eexists. split; [|done]. unfold Call, loopback. simpl in Hs, Ho. unfold message, server, loopback_server in HP, Ho.
    by rewrite Hp, Hs, HP, Ho.
Qed.
End Loopback.

(** ** Witnesses *)
#[local] Instance demo_KV : KV nat := {|
  kv_Ping n := Ret (n, Ok (Some (mkHealth true "")));
  kv_Get n req := Ret (S n, match req with Some r => Ok (Some (mkGetResponse None [Some (mkKeyValue (get_Key r) "v")])) | None => Err "nil"%string end);
  kv_Put n _ := Ret (n, Err "full"%string);
  kv_MultiPut n _ := Ret (n, Ok None)
|}.

Definition demo_args : list (Z * tvalue) := [(1%Z, VStruct [(1%Z, VString "k")])].

Example processor_relays_witness :
  relays (P := tokens) 20 "Get" 5 1 (VStruct demo_args) (kv_Get 1 (Some (mkGetRequest "k" false)))
    (fun r => wire (Some (mkKVGetResult r))).
Proof.
  destruct (processor_relays (P := tokens) 20 5 1 demo_args ltac:(simpl; lia)) as (_ & Hg & _).
  exact (Hg eq_refl).
Defined.

#[local] Existing Instance loopback_server.
#[local] Instance demo_client : TClient tokens nat := loopback 60.
#[local] Instance demo_laws : TClientLaws tokens nat nat 60 := loopback_laws 60.

Lemma demo_fits v : length (tokens_of v) <= 60 -> fits (P := tokens) 60 v.
Proof. intros Hl. split; [by apply Forall_true|exact Hl]. Qed.

Example client_calls_handler_witness :
  exists c, KVClient_Get (P := tokens) 60 (Some (mkGetRequest "k" true)) 1 =
    Done c (Ok (Some (mkGetResponse (Some NewResponseHeader) [Some (mkKeyValue "k" "v")]))) /\ c = 2.
Proof.
  destruct (client_calls_handler (P := tokens) (K := nat) (C := nat) 60 1) as (_ & Hg & _).
  refine (Hg (Some (mkGetRequest "k" true)) (demo_fits _ _) (demo_fits _ _)); simpl; lia.
Defined.
