(* ===== verification/ThriftRemote.v ===== *)
(** * thrift/server behind thrift/rpc: the store over the wire

    The handlers of [thrift/server/kv.go] as an instance of the interface [KV] the
    processor calls, and what a client of [thrift/rpc] finds in the store. *)
From S2P Require Import Prelude.
From S2P Require Import Store.
From S2P Require Import KVServers.
From S2P Require Import ThriftProtocol.
From S2P Require Import TokenProtocol.
From S2P Require Import ThriftRpc.
From S2P Require Import ThriftService.

Section Handler.
Context `{Thrift} {DB Batch : Type} `{!RocksDB DB Batch} (elapsed : Z).
#[local] Abbreviation impl := (kvImpl (DB := DB)).

(** The handlers' messages and the generated ones. *)
Definition rpc_header (h : KVServers.ResponseHeader) : ResponseHeader :=
  mkResponseHeader (KVServers.ClusterId h) (KVServers.NodeId h) (KVServers.ConsumeTime h) (KVServers.NodeIp h).
Definition rpc_KeyValue (kv : KVServers.KeyValue) : KeyValue := mkKeyValue (KVServers.Key kv) (KVServers.Value kv).
Definition rpc_GetResponse (r : KVServers.GetResponse) : GetResponse :=
  mkGetResponse (Some (rpc_header (gr_Header r))) ((fun kv => Some (rpc_KeyValue kv)) <$> KVServers.Kvs r).
Definition rpc_PutResponse (r : KVServers.PutResponse) : PutResponse := mkPutResponse (Some (rpc_header (pr_Header r))).
Definition of_PutRequest (r : PutRequest) : KVServers.PutRequest :=
  KVServers.mkPutRequest (put_Key r) (put_Value r).

Definition to_error {A B} (f : A -> B) (r : result string A) : result error (option B) :=
  match r with Ok a => Ok (Some (f a)) | Err e => Err (errors_New e) end.

(** A handler reads the fields of the request it is given: it panics on a nil one, a
    batch before anything is written. *)
Definition kvImpl_KV : KV impl := {|
  kv_Ping kv := Ret (kv, Ok (Some (mkHealth (KVServers.OK Ping) (KVServers.Errors Ping))));
  kv_Get kv req :=
    match req with
    | None => Panic
    | Some req => r ← thrift_Get kv elapsed (get_Key req); Ret (kv, to_error rpc_GetResponse r)
    end;
  kv_Put kv req :=
    match req with
    | None => Panic
    | Some req => '(kv, r) ← thrift_Put kv elapsed (of_PutRequest req); Ret (kv, to_error rpc_PutResponse r)
    end;
  kv_MultiPut kv reqs :=
    match mapM (fun r => of_PutRequest <$> r) reqs with
    | None => Panic
    | Some reqs => '(kv, r) ← MultiPut kv elapsed reqs; Ret (kv, to_error rpc_PutResponse r)
    end
|}.
End Handler.

Section RemoteStore.
Context `{Thrift} {P : Type} `{!TProtocol P} `{!TStream P} `{!TProtocolLaws P}.
Context {DB Batch : Type} `{!RocksDB DB Batch} `{!RocksDBLaws DB Batch} (elapsed : Z).
#[local] Abbreviation impl := (kvImpl (DB := DB)).
#[local] Instance handler : KV impl := kvImpl_KV elapsed.
Context {C : Type} `{!TClient P C} `{!Connection C impl} (fuel : nat).
Context `{!TClientLaws P C impl fuel}.
#[local] Set Default Proof Using "All".

(** The server's store is open. *)
Definition running (kv : impl) : Prop := is_Some (s_db (kv_store kv)).
Definition pairs (kv : impl) : gmap string string := holds (kv_store kv).

(** The answer to a write, and to a read of a key. *)
Definition put_reply : PutResponse := rpc_PutResponse (KVServers.mkPutResponse (thrift_header elapsed)).
Definition get_reply (key value : string) : GetResponse :=
  mkGetResponse (Some (rpc_header (thrift_header elapsed))) [Some (mkKeyValue key value)].

(** What a handler answers while the store is open: the writes that succeed change the
    pairs to [m], the others leave them. *)
Definition stored (kv : impl) (answer : outcome (impl * result error (option PutResponse))) (m : gmap string string)
    : Prop :=
  exists kv' r, answer = Ret (kv', r) /\ running kv' /\
    match r with Ok resp => resp = Some put_reply /\ pairs kv' = m | Err _ => pairs kv' = pairs kv end.

Lemma handler_Put kv q :
  running kv -> stored kv (kv_Put kv (Some q)) (<[put_Key q := put_Value q]> (pairs kv)).
Proof.
  intros [d Hd]. unfold stored, kv_Put, handler, kvImpl_KV, thrift_Put. destruct (Write _ _ _) as [[s err]|] eqn:Hw.
  - apply Write_spec in Hw as (_ & _ & Hs & Hh). destruct err; do 2 eexists; (split; [reflexivity|split; [exact Hs|done]]).
  - unfold Write, with_db in Hw. by rewrite Hd in Hw.
Qed.

Lemma handler_MultiPut kv qs :
  running kv -> stored kv (kv_MultiPut kv (Some <$> qs)) (put_pairs (pairs kv) (of_PutRequest <$> qs)).
Proof.
  intros [d Hd]. unfold stored, kv_MultiPut, handler, kvImpl_KV.
  assert (mapM (fun r => of_PutRequest <$> r) (Some <$> qs) = Some (of_PutRequest <$> qs)) as ->.
  { rewrite mapM_Some, Forall2_fmap_l, Forall2_fmap_r. apply Forall_Forall2_diag, Forall_true. done. }
  destruct (MultiPut kv elapsed _) as [[kv' r]|] eqn:Hm.
  - pose proof (MultiPut_holds _ _ _ _ _ Hm) as Hh. unfold MultiPut in Hm.
    apply outcome_bind_Ret in Hm as ([s err] & Hb & Hr). apply BatchWrite_spec in Hb as (_ & _ & Hs & _).
    destruct err; injection Hr as <- <-; do 2 eexists; (split; [reflexivity|split; [exact Hs|done]]).
  - unfold MultiPut, BatchWrite, with_db in Hm. rewrite Hd in Hm. simpl in Hm. by destruct (db_Write _ _) as [? []].
Qed.

(** The client's side of a write. *)
Definition stored_remotely (m : proto C (option PutResponse)) (c : C) (now : gmap string string) : Prop :=
  exists c' r, m c = Done c' r /\ running (server c') /\
    match r with
    | Ok resp => resp = Some put_reply /\ pairs (server c') = now
    | Err _ => pairs (server c') = pairs (server c)
    end.

Lemma remote_stored answer result_of m c now :
  remote (P := P) fuel answer result_of (fmap filled_PutResponse) m c -> stored (server c) answer now ->
  fits (P := P) fuel (result_of (Some put_reply)) -> stored_remotely m c now.
Proof.
  intros Hm (kv' & r & -> & Hrun & Hr) Hfits. destruct r as [resp|err]; simpl in Hm.
  - destruct Hr as [-> Hp]. destruct (Hm Hfits) as (c' & Hc & Hs). exists c'. eexists. rewrite Hs. by split.
  - destruct Hm as (c' & e & Hc & Hs). exists c'. eexists. rewrite Hs. by split.
Qed.

(** The store over the wire.  While the server's store is open every call of the
    client returns.  A [Put] or a [MultiPut] that succeeds has written its pairs, in
    order, and one that fails has changed nothing; a [Get] that succeeds returns the
    value the store holds under its key and one that fails means there is none or the
    database failed, and neither changes the store.  A nil request writes the empty
    value under the empty key. *)
Theorem remote_store c :
  running (server c) ->
  (forall req, let q := default NewPutRequest req in
     fits (P := P) fuel (wire (Some (mkKVPutArgs req))) ->
     fits (P := P) fuel (wire (Some (mkKVPutResult (Some put_reply)))) ->
     stored_remotely (KVClient_Put fuel req) c (<[put_Key q := put_Value q]> (pairs (server c)))) /\
  (forall reqs, let qs := default NewPutRequest <$> reqs in
     fits (P := P) fuel (wire (Some (mkKVMultiPutArgs reqs))) ->
     fits (P := P) fuel (wire (Some (mkKVMultiPutResult (Some put_reply)))) ->
     stored_remotely (KVClient_MultiPut fuel reqs) c (put_pairs (pairs (server c)) (of_PutRequest <$> qs))) /\
  (forall req, let key := get_Key (default NewGetRequest req) in
     fits (P := P) fuel (wire (Some (mkKVGetArgs req))) ->
     (forall v, found (pairs (server c)) key = Ok v ->
        fits (P := P) fuel (wire (Some (mkKVGetResult (Some (get_reply key v)))))) ->
     exists c' r, KVClient_Get fuel req c = Done c' r /\ server c' = server c /\
       match r with
       | Ok resp => exists v, found (pairs (server c)) key = Ok v /\ resp = Some (get_reply key v)
       | Err _ => (exists e, found (pairs (server c)) key = Err e) \/
                  (exists d e, s_db (kv_store (server c)) = Some d /\ db_Get d key = Err e)
       end).
Proof.
  intros Hrun. split; [|split].
  - intros req q Hfits Hreply. eapply remote_stored; [by apply Put_remote|by apply handler_Put|exact Hreply].
  - intros reqs qs Hfits Hreply. eapply remote_stored; [by apply MultiPut_remote| |exact Hreply].
    unfold qs. rewrite (list_fmap_compose (default NewPutRequest) Some). by apply handler_MultiPut.
  - intros req key Hfits Hreply. pose proof (Get_remote fuel req c Hfits) as Hg.
    unfold kv_Get, handler, kvImpl_KV, thrift_Get in Hg.
    fold key in Hg.
    destruct (Lookup (kv_store (server c)) key) as [r|] eqn:Hl.
    2: { destruct Hrun as [d Hd]. unfold Lookup, with_db in Hl. rewrite Hd in Hl. simpl in Hl.
         destruct (db_Get d key); [by case_decide|done]. }
    apply Lookup_spec in Hl as [(d & err & Hd & Hget & ->)| ->].
    + destruct Hg as (c' & e & Hc & Hs). exists c', (Err e). repeat split; [done|done|]. right. by exists d, err.
    + destruct (found (holds (kv_store (server c))) key) as [v|e] eqn:Hf.
      * destruct (Hg (Hreply v Hf)) as (c' & Hc & Hs). exists c'. eexists. repeat split; [exact Hc|done|].
        exists v. by split.
      * destruct Hg as (c' & e' & Hc & Hs). exists c', (Err e'). repeat split; [done|done|]. left. by exists e.
Qed.

(** A call without its request stops the handler.  A [Get] or a [Put] message whose
    arguments have no request field reaches the handler with a nil request, which it
    dereferences: processing it panics, whatever the store. *)
Theorem missing_request_panics seqId (kv : impl) fs t :
  length (tokens_of (VStruct fs)) <= fuel ->
  (acceptable KVGetArgs fs = true -> last_field 1 (as_struct GetRequest) fs = None ->
     panics (P := P) fuel kv (message "Get" t seqId (VStruct fs))) /\
  (acceptable KVPutArgs fs = true -> last_field 1 (as_struct PutRequest) fs = None ->
     panics (P := P) fuel kv (message "Put" t seqId (VStruct fs))).
Proof.
  intros Hl. split; intros Hok Hnone.
  - pose proof (relays_Get (P := P) fuel seqId kv fs Hok Hl) as Hr. rewrite decode_KVGetArgs, Hnone in Hr. apply Hr.
  - pose proof (relays_Put (P := P) fuel seqId kv fs Hok Hl) as Hr. rewrite decode_KVPutArgs, Hnone in Hr. apply Hr.
Qed.
End RemoteStore.

(** ** Witnesses: a server over the map database, behind a connection of token lists *)
Section Demo.
#[local] Existing Instances numbered token_protocol token_stream token_laws loopback_server.
#[local] Instance demo_handler : KV (kvImpl (DB := map_db)) := kvImpl_KV 5.
#[local] Instance demo_client : TClient tokens (kvImpl (DB := map_db)) := loopback 60.
#[local] Instance demo_laws : TClientLaws tokens (kvImpl (DB := map_db)) (kvImpl (DB := map_db)) 60 := loopback_laws 60.
Definition demo_fs : list (Z * tvalue) := [(2%Z, VString "k")].

Lemma wire_fits v : length (tokens_of v) <= 60 -> fits (P := tokens) 60 v.
Proof. intros Hl. split; [by apply Forall_true|exact Hl]. Qed.

Example remote_store_witness :
  stored_remotely 5 (KVClient_Put (P := tokens) 60 (Some (mkPutRequest "k" "v"))) (mkKvImpl store0)
    (<["k"%string := "v"%string]> ∅).
Proof.
  destruct (remote_store (P := tokens) (DB := map_db) 5 60 (mkKvImpl store0) ltac:(by eexists)) as (Hp & _ & _).
  refine (Hp (Some (mkPutRequest "k" "v")) (wire_fits _ _) (wire_fits _ _)); simpl; lia.
Defined.

Example missing_request_panics_witness :
  panics (P := tokens) 60 (mkKvImpl (DB := map_db) store0) (message "Get" CALL 1 (VStruct demo_fs)).
Proof.
  refine (proj1 (missing_request_panics (P := tokens) (DB := map_db) 5 60 1 (mkKvImpl store0) demo_fs CALL _) eq_refl eq_refl).
  simpl; lia.
Defined.
End Demo.
