(* ===== verification/ThriftTypes.v ===== *)
(** * thrift/rpc/rpc.thrift: the types of the service

    The interface description as data, with a checker of values against it; and what
    the code generated from it in [rpc.go] does with typed values: it writes nothing
    else, and reads every one. *)
From S2P Require Import Prelude.
From S2P Require Import ThriftProtocol.
From S2P Require Import TokenProtocol.
From S2P Require Import ThriftRpc.
From S2P Require Import ThriftService.

Inductive ttype : Type := TyBool | TyI64 | TyString | TyStruct (name : string) | TyList (elem : ttype).

(* src/thrift/rpc/rpc.thrift:5-39 KV *)
Definition idl_structs : list (string * list (Z * ttype)) :=
  [("Health", [(1, TyBool); (2, TyString)]);
   ("GetRequest", [(1, TyString); (2, TyBool)]);
   ("GetResponse", [(1, TyStruct "ResponseHeader"); (2, TyList (TyStruct "KeyValue"))]);
   ("KeyValue", [(1, TyString); (2, TyString)]);
   ("PutRequest", [(1, TyString); (2, TyString)]);
   ("ResponseHeader", [(1, TyI64); (2, TyI64); (3, TyI64); (4, TyString)]);
   ("PutResponse", [(1, TyStruct "ResponseHeader")])]%string%Z.

(** A function: its result and its arguments. *)
(* src/thrift/rpc/rpc.thrift:41-46 KV *)
Definition idl_service : list (string * (ttype * list (Z * ttype))) :=
  [("Ping", (TyStruct "Health", []));
   ("Get", (TyStruct "GetResponse", [(1, TyStruct "GetRequest")]));
   ("Put", (TyStruct "PutResponse", [(1, TyStruct "PutRequest")]));
   ("MultiPut", (TyStruct "PutResponse", [(1, TyList (TyStruct "PutRequest"))]))]%string%Z.

Definition assoc {K A} `{EqDecision K} (k : K) (l : list (K * A)) : option A :=
  (fun p => snd (snd p)) <$> list_find (fun p => fst p = k) l.

(** Each function has a struct for its arguments and one for its result. *)
Definition service_structs : list (string * list (Z * ttype)) :=
  concat (map (fun f => [((fst f +:+ "_args")%string, snd (snd f)); ((fst f +:+ "_result")%string, [(0%Z, fst (snd f))])])
    idl_service).
Definition idl_fields (name : string) : list (Z * ttype) := default [] (assoc name (idl_structs ++ service_structs)).

Section Typing.
Context `{Thrift}.

Definition wire_type (t : ttype) : TType :=
  match t with TyBool => BOOL | TyI64 => I64 | TyString => STRING | TyStruct _ => STRUCT | TyList _ => LIST end.

(** A struct has only fields that are declared, each of its type. *)
Fixpoint typed (t : ttype) (v : tvalue) : bool :=
  match t, v with
  | TyBool, VBool _ => true
  | TyI64, VI64 _ => true
  | TyString, VString _ => true
  | TyStruct name, VStruct fs =>
      forallb (fun f => match assoc (fst f) (idl_fields name) with Some t => typed t (snd f) | None => false end) fs
  | TyList elem, VList t vs => bool_decide (t = wire_type elem) && forallb (typed elem) vs
  | _, _ => false
  end.

Lemma typed_type_of t v : typed t v = true -> type_of v = wire_type t.
Proof. by destruct t, v. Qed.

Lemma typed_value_ok_size n t v : length (tokens_of v) <= n -> typed t v = true -> value_ok v = true.
Proof.
  revert t v. induction n as [|n IH]; intros t v Hn Ht; [pose proof (length_tokens_of v); lia|].
  destruct t, v as [b|z|s|fs|t' vs|t']; try done; simpl in Ht |- *.
  - rewrite forallb_forall in Ht |- *. intros [id v] Hin. specialize (Ht _ Hin). simpl in *.
    apply list_elem_of_In in Hin. pose proof (length_field _ _ Hin) as Hl. simpl in Hl, Hn.
    destruct (assoc id _) as [t|]; [|done]. by apply (IH t); [lia|].
  - apply andb_true_iff in Ht as [->%bool_decide_eq_true Ht]. rewrite forallb_forall in Ht |- *. intros v Hin.
    specialize (Ht _ Hin). apply list_elem_of_In in Hin. pose proof (length_element (wire_type t) _ _ Hin) as Hl. simpl in Hl, Hn.
    rewrite (typed_type_of _ _ Ht), bool_decide_true by done. rewrite andb_true_r. by apply (IH t); [lia|].
Qed.
Lemma typed_value_ok t v : typed t v = true -> value_ok v = true.
Proof. by apply (typed_value_ok_size (length (tokens_of v))). Qed.

(** *** Structs that keep to their declaration *)
Class Typed (name : string) (A : Type) `{!Schema A} : Prop := {
  typed_fields (a : A) : typed (TyStruct name) (VStruct (fields a)) = true;
  typed_field id t v : assoc id (idl_fields name) = Some t -> typed t v = true -> accepts (A := A) (id, v) = true
}.

Lemma typed_accepts {A} `{!Schema A} `{!Typed name A} fs :
  typed (TyStruct name) (VStruct fs) = true -> forallb accepts fs = true.
Proof.
  simpl. rewrite !forallb_forall. intros Ht [id v] Hin. specialize (Ht _ Hin). simpl in Ht.
  destruct (assoc id _) as [t|] eqn:Ha; [|done]. by eapply typed_field.
Qed.
Lemma typed_acceptable {A} `{!Schema A} `{!Typed name A} fs :
  typed (TyStruct name) (VStruct fs) = true -> acceptable A fs = true.
Proof.
  intros Ht. unfold acceptable. rewrite (typed_value_ok _ _ Ht). by apply typed_accepts.
Qed.
Lemma typed_wire {A} `{!Schema A} `{!Typed name A} (a : option A) : typed (TyStruct name) (wire a) = true.
Proof. destruct a as [a|]; [apply typed_fields|done]. Qed.
Lemma typed_wires {A} `{!Schema A} `{!Typed name A} (l : list (option A)) :
  typed (TyList (TyStruct name)) (VList STRUCT (map wire l)) = true.
Proof.
  simpl. rewrite bool_decide_true by done. apply forallb_forall. intros v (a & <- & _)%in_map_iff. apply typed_wire.
Qed.
Lemma typed_accepts_value {A} `{!Schema A} `{!Typed name A} v :
  typed (TyStruct name) v = true -> accepts_value A v = true.
Proof. destruct v as [| | |fs| |]; try done. apply typed_accepts. Qed.
Lemma typed_accepts_list {A} `{!Schema A} `{!Typed name A} v :
  typed (TyList (TyStruct name)) v = true -> accepts_list A v = true.
Proof.
  destruct v as [| | | |t vs|]; try done. intros Ht. cbn [typed] in Ht. unfold accepts_list.
  apply andb_true_iff in Ht as [->%bool_decide_eq_true Ht]. rewrite bool_decide_true by done. cbn [andb].
  rewrite forallb_forall in Ht |- *. intros v Hin. by apply typed_accepts_value, Ht.
Qed.

Lemma typed_struct_fields name fs :
  Forall (fun f => exists t, assoc (fst f) (idl_fields name) = Some t /\ typed t (snd f) = true) fs ->
  typed (TyStruct name) (VStruct fs) = true.
Proof.
  intros Hf. simpl. apply forallb_forall. intros f Hin%list_elem_of_In. rewrite Forall_forall in Hf.
  by destruct (Hf f Hin) as (t & -> & Ht).
Qed.

(** The declared fields of a struct, one by one. *)
Ltac typed_field :=
  eexists; split; [reflexivity|]; cbn [snd]; first [apply typed_wires | apply typed_wire | reflexivity].
Ltac typed_struct unfold_schema :=
  split;
  [ intros a; apply typed_struct_fields; unfold fields; unfold_schema;
    first [ repeat (apply Forall_cons; split; [typed_field|]); by apply Forall_nil
          | destruct a as [[?|]]; repeat (apply Forall_cons; split; [typed_field|]); by apply Forall_nil ]
  | intros id t v Ha Hv; unfold accepts; unfold_schema; repeat case_decide; subst; try done;
    cbv in Ha; injection Ha as <-; first [by apply typed_accepts_value | by apply typed_accepts_list] ].

#[global] Instance Health_typed : Typed "Health" Health.
Proof. typed_struct ltac:(unfold Health_schema). Qed.
#[global] Instance GetRequest_typed : Typed "GetRequest" GetRequest.
Proof. typed_struct ltac:(unfold GetRequest_schema). Qed.
#[global] Instance KeyValue_typed : Typed "KeyValue" KeyValue.
Proof. typed_struct ltac:(unfold KeyValue_schema). Qed.
#[global] Instance PutRequest_typed : Typed "PutRequest" PutRequest.
Proof. typed_struct ltac:(unfold PutRequest_schema). Qed.
#[global] Instance ResponseHeader_typed : Typed "ResponseHeader" ResponseHeader.
Proof. typed_struct ltac:(unfold ResponseHeader_schema). Qed.
#[global] Instance GetResponse_typed : Typed "GetResponse" GetResponse.
Proof. typed_struct ltac:(unfold GetResponse_schema). Qed.
#[global] Instance PutResponse_typed : Typed "PutResponse" PutResponse.
Proof. typed_struct ltac:(unfold PutResponse_schema). Qed.
#[global] Instance KVPingArgs_typed : Typed "Ping_args" KVPingArgs.
Proof. typed_struct ltac:(unfold KVPingArgs_schema). Qed.
#[global] Instance KVPingResult_typed : Typed "Ping_result" KVPingResult.
Proof. typed_struct ltac:(unfold KVPingResult_schema). Qed.
#[global] Instance KVGetArgs_typed : Typed "Get_args" KVGetArgs.
Proof. typed_struct ltac:(unfold KVGetArgs_schema). Qed.
#[global] Instance KVGetResult_typed : Typed "Get_result" KVGetResult.
Proof. typed_struct ltac:(unfold KVGetResult_schema). Qed.
#[global] Instance KVPutArgs_typed : Typed "Put_args" KVPutArgs.
Proof. typed_struct ltac:(unfold KVPutArgs_schema). Qed.
#[global] Instance KVPutResult_typed : Typed "Put_result" KVPutResult.
Proof. typed_struct ltac:(unfold KVPutResult_schema). Qed.
#[global] Instance KVMultiPutArgs_typed : Typed "MultiPut_args" KVMultiPutArgs.
Proof. typed_struct ltac:(unfold KVMultiPutArgs_schema). Qed.
#[global] Instance KVMultiPutResult_typed : Typed "MultiPut_result" KVMultiPutResult.
Proof. typed_struct ltac:(unfold KVMultiPutResult_schema). Qed.
End Typing.

Section Correct.
Context `{Thrift} {P : Type} `{!TProtocol P} `{!TStream P} `{!TProtocolLaws P} {K : Type} `{!KV K}.
#[local] Set Default Proof Using "All".

(** [write] sends only values of the type, and [read] reads each of them. *)
Definition keeps_type {A} (name : string) (write : option A -> proto P unit) (read : nat -> proto P A) : Prop :=
  (forall m, exists v, writes (write m) (tokens_of v) tt /\ typed (TyStruct name) v = true) /\
  (forall fuel v, typed (TyStruct name) v = true -> length (tokens_of v) <= fuel ->
     exists a, reads (read fuel) (tokens_of v) a).

Lemma codec_keeps_type name {A} `{!Schema A} `{!Typed name A} `{!Codec P A} `{!CodecLaws P A} write read :
  write = msg_Write -> read = (fun fuel => msg_Read fuel zero) -> keeps_type name write read.
Proof.
  intros -> ->. split.
  - intros m. exists (wire m). split; [apply Write_writes|apply typed_wire].
  - intros fuel v Ht Hl. destruct v as [| | |fs| |]; try done. eexists. apply Read_reads; [|done].
    by eapply typed_acceptable.
Qed.

(** C14: the generated code keeps to the types of [rpc.thrift].  Every struct writes only
    values of its declared type, whatever it holds, nil pointers included; and every
    value of that type, with any of its fields missing, repeated or in another order,
    is read without an error or a panic, given fuel for it.  The processor knows
    exactly the functions of the service. *)
Theorem structs_keep_types :
  keeps_type "Health" Health_Write (fun n => Health_Read n NewHealth) /\
  keeps_type "GetRequest" GetRequest_Write (fun n => GetRequest_Read n NewGetRequest) /\
  keeps_type "GetResponse" GetResponse_Write (fun n => GetResponse_Read n NewGetResponse) /\
  keeps_type "KeyValue" KeyValue_Write (fun n => KeyValue_Read n NewKeyValue) /\
  keeps_type "PutRequest" PutRequest_Write (fun n => PutRequest_Read n NewPutRequest) /\
  keeps_type "ResponseHeader" ResponseHeader_Write (fun n => ResponseHeader_Read n NewResponseHeader) /\
  keeps_type "PutResponse" PutResponse_Write (fun n => PutResponse_Read n NewPutResponse) /\
  keeps_type "Ping_args" KVPingArgs_Write (fun n => KVPingArgs_Read n NewKVPingArgs) /\
  keeps_type "Ping_result" KVPingResult_Write (fun n => KVPingResult_Read n NewKVPingResult) /\
  keeps_type "Get_args" KVGetArgs_Write (fun n => KVGetArgs_Read n NewKVGetArgs) /\
  keeps_type "Get_result" KVGetResult_Write (fun n => KVGetResult_Read n NewKVGetResult) /\
  keeps_type "Put_args" KVPutArgs_Write (fun n => KVPutArgs_Read n NewKVPutArgs) /\
  keeps_type "Put_result" KVPutResult_Write (fun n => KVPutResult_Read n NewKVPutResult) /\
  keeps_type "MultiPut_args" KVMultiPutArgs_Write (fun n => KVMultiPutArgs_Read n NewKVMultiPutArgs) /\
  keeps_type "MultiPut_result" KVMultiPutResult_Write (fun n => KVMultiPutResult_Read n NewKVMultiPutResult) /\
  (forall fuel name, is_Some (GetProcessorFunction (NewKVProcessor (P := P) (K := K) fuel) name) <->
     is_Some (assoc name idl_service)).
Proof.
  repeat (split; [lazymatch goal with |- keeps_type ?name _ _ => by apply (codec_keeps_type name) end|]).
  intros fuel name. rewrite GetProcessorFunction_New.
  destruct (decide (name = "Ping"%string)) as [->|Hping]; [split; intros _; by eexists|].
  destruct (decide (name = "Get"%string)) as [->|Hget]; [split; intros _; by eexists|].
  destruct (decide (name = "Put"%string)) as [->|Hput]; [split; intros _; by eexists|].
  destruct (decide (name = "MultiPut"%string)) as [->|Hmulti]; [split; intros _; by eexists|].
  unfold assoc, idl_service. cbn [list_find fst]. repeat rewrite decide_False by congruence. by split; intros [].
Qed.
End Correct.

(** ** Witness *)
#[local] Existing Instances numbered token_protocol token_stream token_laws demo_KV.
Example structs_keep_types_witness :
  exists v, writes (P := tokens) (GetRequest_Write (Some (mkGetRequest "k" true))) (tokens_of v) tt /\
    typed (TyStruct "GetRequest") v = true.
Proof.
  destruct (structs_keep_types (P := tokens) (K := nat)) as (_ & [Hw _] & _). apply Hw.
Defined.
