(* ===== verification/KvFlags.v ===== *)
(** * thrift/rpc/k_v-remote: the command line

    What [main] reads from its arguments: the seven flags it defines and the arguments
    after them, as the package [flag] of Go parses them; the integers and booleans of
    [strconv], in the version go.mod names; the headers of [httpHeaders]. *)
From S2P Require Import Prelude.
From S2P Require Import Store.
From stdpp Require Import sorting.

(** ** strconv *)

(** The digit a letter or a figure stands for, in any base. *)
Definition digit36 (c : ascii) : option Z :=
  let n := Z.of_nat (nat_of_ascii c) in
  if decide (48 <= n <= 57)%Z then Some (n - 48)%Z
  else if decide (97 <= n <= 122)%Z then Some (n - 97 + 10)%Z
  else if decide (65 <= n <= 90)%Z then Some (n - 65 + 10)%Z
  else None.

Fixpoint parse_base (base : Z) (s : string) (n : Z) : Z * option num_error :=
  match s with
  | EmptyString => (n, None)
  | String c s =>
      match digit36 c with
      | None => (0%Z, Some ErrSyntax)
      | Some d =>
          if decide (base <= d)%Z then (0%Z, Some ErrSyntax)
          else if decide (maxUint64 `div` base + 1 <= n)%Z then (maxUint64, Some ErrRange)
          else
            let n := u64 (n * base) in
            let n1 := u64 (n + d) in
            if decide (n1 < n)%Z then (maxUint64, Some ErrRange) else parse_base base s n1
      end
  end.

(** [ParseUint(s, 0, 64)]: the base is the one the prefix says. *)
Definition ParseUint0 (s : string) : Z * option num_error :=
  match s with
  | EmptyString => (0%Z, Some ErrSyntax)
  | String "0" (String x s) =>
      if decide (x = "x"%char \/ x = "X"%char) then
        match s with EmptyString => (0%Z, Some ErrSyntax) | _ => parse_base 16 s 0 end
      else parse_base 8 (String x s) 0
  | _ => parse_base 10 s 0
  end.

(** Whether there is a minus, and what follows the sign. *)
Definition sign_cut (s : string) : bool * string :=
  match s with String "+" s => (false, s) | String "-" s => (true, s) | s => (false, s) end.
Definition ParseInt0 (s : string) : result num_error Z :=
  let '(neg, s) := sign_cut s in
  match ParseUint0 s with
  | (_, Some ErrSyntax) => Err ErrSyntax
  | (un, err) =>
      if negb neg && bool_decide (2 ^ 63 <= un)%Z then Err ErrRange
      else if neg && bool_decide (2 ^ 63 < un)%Z then Err ErrRange
      else match err with
           | Some err => Err err
           | None => Ok (if neg then i64 (- i64 un) else i64 un)
           end
  end.

Definition ParseBool (s : string) : result num_error bool :=
  if decide (s ∈ ["1"; "t"; "T"; "TRUE"; "true"; "True"]%string) then Ok true
  else if decide (s ∈ ["0"; "f"; "F"; "FALSE"; "false"; "False"]%string) then Ok false
  else Err ErrSyntax.

(** ** httpHeaders *)

(** [strings.Split(s, ": ")] *)
Definition push (c : ascii) (parts : list string) : list string :=
  match parts with [] => [] | s :: parts => String c s :: parts end.
Fixpoint Split (s : string) : list string :=
  match s with
  | EmptyString => [""%string]
  | String c s =>
      match s with
      | String d t => if decide (c = ":"%char /\ d = " "%char) then ""%string :: Split t else push c (Split s)
      | EmptyString => [String c ""]
      end
  end.

(* src/thrift/rpc/k_v-remote/k_v-remote.go:33-33 httpHeaders *)
Definition httpHeaders : Type := gmap string string.

(** [fmt] prints a map in the order of its keys. *)
(* src/thrift/rpc/k_v-remote/k_v-remote.go:35-38 httpHeaders.String *)
Definition httpHeaders_String (h : httpHeaders) : string :=
  "map[" +:+ String.concat " " (map (fun p => fst p +:+ ":" +:+ snd p)
    (merge_sort (fun p q => String.le (fst p) (fst q)) (map_to_list h))) +:+ "]".

(* src/thrift/rpc/k_v-remote/k_v-remote.go:40-47 httpHeaders.Set *)
Definition httpHeaders_Set (h : httpHeaders) (value : string) : result string httpHeaders :=
  match Split value with
  | [key; value] => Ok (<[key := value]> h)
  | _ => Err "header should be of format 'Key: Value'"%string
  end.

(** ** The flags *)
(* src/thrift/rpc/k_v-remote/k_v-remote.go:51-57 main *)
Record flags : Type := mkFlags {
  host : string; port : Z; protocol : string; urlString : string; framed : bool; useHttp : bool; headers : httpHeaders
}.

(** A flag that is given: whether it is a boolean one, and [Set]; [None] is the error
    the value is refused with. *)
Record flag_var : Type := mkVar { IsBoolFlag : bool; Set_ : string -> flags -> option flags }.

Definition to_option {E A} (r : result E A) : option A := match r with Ok a => Some a | Err _ => None end.

Definition StringVar (set : string -> flags -> flags) : flag_var := mkVar false (fun v f => Some (set v f)).
Definition IntVar (set : Z -> flags -> flags) : flag_var :=
  mkVar false (fun v f => (fun z => set z f) <$> to_option (ParseInt0 v)).
Definition BoolVar (set : bool -> flags -> flags) : flag_var :=
  mkVar true (fun v f => (fun b => set b f) <$> to_option (ParseBool v)).
Definition Var (set : string -> flags -> option flags) : flag_var := mkVar false set.

Definition set_host v f := mkFlags v (port f) (protocol f) (urlString f) (framed f) (useHttp f) (headers f).
Definition set_port v f := mkFlags (host f) v (protocol f) (urlString f) (framed f) (useHttp f) (headers f).
Definition set_protocol v f := mkFlags (host f) (port f) v (urlString f) (framed f) (useHttp f) (headers f).
Definition set_urlString v f := mkFlags (host f) (port f) (protocol f) v (framed f) (useHttp f) (headers f).
Definition set_framed v f := mkFlags (host f) (port f) (protocol f) (urlString f) v (useHttp f) (headers f).
Definition set_useHttp v f := mkFlags (host f) (port f) (protocol f) (urlString f) (framed f) v (headers f).
Definition set_headers v f := mkFlags (host f) (port f) (protocol f) (urlString f) (framed f) (useHttp f) v.

(** The values before parsing. *)
(* src/thrift/rpc/k_v-remote/k_v-remote.go:63-69 main *)
Definition defaults : flags := mkFlags "localhost" 9090 "binary" "" false false ∅.

(* src/thrift/rpc/k_v-remote/k_v-remote.go:63-69 main *)
Definition formal (name : string) : option flag_var :=
  if decide (name = "h")%string then Some (StringVar set_host) else
  if decide (name = "p")%string then Some (IntVar set_port) else
  if decide (name = "P")%string then Some (StringVar set_protocol) else
  if decide (name = "u")%string then Some (StringVar set_urlString) else
  if decide (name = "framed")%string then Some (BoolVar set_framed) else
  if decide (name = "http")%string then Some (BoolVar set_useHttp) else
  if decide (name = "H")%string then
    Some (Var (fun v f => (fun h => set_headers h f) <$> to_option (httpHeaders_Set (headers f) v)))
  else None.

(** ** flag.Parse *)

(** Why an argument is refused; each is reported and then the usage is shown. *)
Inductive flag_error : Type :=
| BadSyntax (arg : string) | HelpWanted | NotDefined (name : string)
| BadValue (name value : string) | NeedsArgument (name : string).

(** The name and the value after the first [=] that is not its first letter. *)
Fixpoint cut_equals (s : string) : string * option string :=
  match s with
  | EmptyString => (""%string, None)
  | String c s => if decide (c = "="%char) then (""%string, Some s) else let '(n, v) := cut_equals s in (String c n, v)
  end.
Definition name_value (s : string) : string * option string :=
  match s with
  | EmptyString => (""%string, None)
  | String c s => let '(n, v) := cut_equals s in (String c n, v)
  end.

(** What [parseOne] makes of an argument: it is not a flag, it ends the flags, or it is
    one, or not a good one. *)
Inductive arg_kind : Type := NotFlag | Terminator | Flag (text : string) | Malformed.
Definition arg_kind_of (s : string) : arg_kind :=
  let name_ok name := match name with
                      | EmptyString => Malformed
                      | String c _ => if decide (c = "-"%char \/ c = "="%char) then Malformed else Flag name
                      end in
  match s with
  | String "-" (String "-" name) => match name with EmptyString => Terminator | _ => name_ok name end
  | String "-" (String c name) => name_ok (String c name)
  | _ => NotFlag
  end.

(** The arguments left are what [flag.Args] returns. *)
Fixpoint flag_Parse (f : flags) (args : list string) : result flag_error (flags * list string) :=
  match args with
  | [] => Ok (f, [])
  | s :: rest =>
      match arg_kind_of s with
      | NotFlag => Ok (f, s :: rest)
      | Terminator => Ok (f, rest)
      | Malformed => Err (BadSyntax s)
      | Flag text =>
          let '(name, value) := name_value text in
          match formal name with
          | None => Err (if decide (name = "help" \/ name = "h")%string then HelpWanted else NotDefined name)
          | Some fv =>
              match (if IsBoolFlag fv then Some (default "true"%string value) else value), rest with
              | Some v, rest => match Set_ fv v f with Some f => flag_Parse f rest | None => Err (BadValue name v) end
              | None, v :: rest => match Set_ fv v f with Some f => flag_Parse f rest | None => Err (BadValue name v) end
              | None, [] => Err (NeedsArgument name)
              end
          end
      end
  end.

Example parse1 : flag_Parse defaults ["-h"; "box:1"; "--framed"; "-p=0x10"; "-H"; "a: b"; "Get"; "-p"]%string =
  Ok (mkFlags "box:1" 16 "binary" "" true false {["a" := "b"]}, ["Get"; "-p"])%string.
Proof. reflexivity. Qed.
Example parse2 : flag_Parse defaults ["-f"]%string = Err (NotDefined "f").
Proof. reflexivity. Qed.

(** ** Integers as they are printed *)
(** A property of the figures from [a] on. *)
Lemma figures (P : ascii -> Prop) a n d :
  Forall (fun k => P (pretty_N_char (N.of_nat k))) (seq a n) -> (N.of_nat a <= d < N.of_nat (a + n))%N -> P (pretty_N_char d).
Proof.
  intros Hall Hd. rewrite Forall_forall in Hall. rewrite <- (N2Nat.id d). apply Hall, elem_of_seq. lia.
Qed.

Lemma digit_pretty_N_char (n : N) : (n < 10)%N -> digit (pretty_N_char n) = Some (Z.of_N n).
Proof.
  intros Hn. assert (Hall : Forall (fun k => digit (pretty_N_char (N.of_nat k)) = Some (Z.of_nat k)) (seq 0 10))
    by by repeat constructor.
  rewrite Forall_forall in Hall. rewrite <- (N2Nat.id n) at 1. rewrite (Hall (N.to_nat n)); [f_equal; lia|].
  apply elem_of_seq. lia.
Qed.

Lemma decimal_pretty_N_go x s : decimal (pretty_N_go x s) 0 = decimal s (Z.of_N x).
Proof.
  revert s. induction (N.lt_wf_0 x) as [x _ IH]; intros s.
  destruct (decide (0 < x)%N) as [Hx|Hx]; [|by replace x with 0%N by lia].
  rewrite pretty_N_go_step, IH by (try apply N.div_lt; lia). simpl.
  rewrite digit_pretty_N_char by (by apply N.mod_lt). f_equal.
  pose proof (N.div_mod x 10 ltac:(done)). lia.
Qed.
Lemma decimal_pretty_N (x : N) : decimal (pretty x) 0 = Some (Z.of_N x).
Proof. unfold pretty, pretty_N. case_decide; [by subst|]. apply decimal_pretty_N_go. Qed.

(** A positive number does not start with a zero. *)
Lemma pretty_N_go_head x s : (0 < x)%N ->
  exists d t, (1 <= d <= 9)%N /\ pretty_N_go x s = String (pretty_N_char d) t.
Proof.
  revert s. induction (N.lt_wf_0 x) as [x _ IH]; intros s Hx. rewrite pretty_N_go_step by done.
  destruct (decide (0 < x `div` 10)%N) as [Hd|Hd]; [apply IH; [by apply N.div_lt|done]|].
  pose proof (N.div_mod x 10 ltac:(done)) as Hm. pose proof (N.mod_lt x 10 ltac:(done)) as Hl.
  destruct (x `div` 10)%N as [|q]; [|by destruct Hd]. exists (x `mod` 10)%N, s. split; [|done].
  revert Hm Hl. generalize (x `mod` 10)%N. lia.
Qed.

Lemma digit_digit36 c d : digit c = Some d -> digit36 c = Some d.
Proof. unfold digit, digit36. by case_decide. Qed.

Definition is_digit (c : ascii) : bool := bool_decide (is_Some (digit c)).

Lemma parse_base_10 s n : all_chars is_digit s = true -> parse_base 10 s n = parse_digits s n.
Proof.
  revert n. induction s as [|c s IH]; intros n Hd; [done|]. cbn [all_chars parse_base parse_digits] in *.
  apply andb_true_iff in Hd as [[d Hc]%bool_decide_eq_true Hs]. rewrite (digit_digit36 _ _ Hc), Hc.
  pose proof (digit_range _ _ Hc). rewrite decide_False by lia. change (maxUint64 `div` 10 + 1)%Z with cutoff.
  cbv zeta. do 2 (case_decide; [done|]). by apply IH.
Qed.

Lemma is_digit_pretty_N (x : N) : all_chars is_digit (pretty x) = true.
Proof. apply pretty_N_chars. intros n. unfold pretty_N_char. by repeat case_match. Qed.

Lemma pretty_pos_head p : exists d t, (1 <= d <= 9)%N /\ pretty (N.pos p) = String (pretty_N_char d) t.
Proof. unfold pretty, pretty_N. rewrite decide_False by done. by apply pretty_N_go_head. Qed.

Lemma ParseUint0_pretty p : (Z.pos p < 2 ^ 64)%Z -> ParseUint0 (pretty (N.pos p)) = (Z.pos p, None).
Proof.
  intros Hp. assert (ParseUint0 (pretty (N.pos p)) = parse_base 10 (pretty (N.pos p)) 0) as ->.
  { destruct (pretty_pos_head p) as (d & t & Hd & ->).
    apply (figures (fun c => ParseUint0 (String c t) = parse_base 10 (String c t) 0) 1 9); [by repeat constructor|lia]. }
  rewrite parse_base_10 by apply is_digit_pretty_N.
  pose proof (parse_digits_decimal (pretty (N.pos p)) 0 ltac:(lia)) as Hd.
  rewrite decimal_pretty_N in Hd. rewrite Hd. by rewrite decide_True.
Qed.

(** An [int] is read back from its decimal text. *)
Lemma ParseInt0_pretty (z : Z) : (- 2 ^ 63 <= z < 2 ^ 63)%Z -> ParseInt0 (pretty z) = Ok z.
Proof.
  intros Hz. destruct z as [|p|p]; [done|..].
  - assert (ParseInt0 (pretty (N.pos p)) = Ok (Z.pos p)); [|done].
    pose proof (ParseUint0_pretty p ltac:(lia)) as Hu. destruct (pretty_pos_head p) as (d & t & Hd & Hp).
    rewrite Hp in Hu |- *. unfold ParseInt0.
    assert (sign_cut (String (pretty_N_char d) t) = (false, String (pretty_N_char d) t)) as ->
      by (apply (figures (fun c => sign_cut (String c t) = (false, String c t)) 1 9); [by repeat constructor|lia]).
    cbv beta iota.
    rewrite Hu. simpl negb. rewrite bool_decide_false by lia. simpl. by rewrite i64_small by lia.
  - assert (ParseInt0 ("-" +:+ pretty (N.pos p)) = Ok (Z.neg p)); [|done].
    unfold ParseInt0. change (sign_cut ("-" +:+ pretty (N.pos p))) with (true, pretty (N.pos p)). cbv beta iota.
    rewrite ParseUint0_pretty by lia. simpl negb.
    rewrite (bool_decide_false (2 ^ 63 < Z.pos p)%Z) by lia. simpl. f_equal.
    change (Z.neg p) with (- Z.pos p)%Z in *. revert Hz. generalize (Z.pos p). intros z Hz.
    destruct (decide (z = 2 ^ 63)%Z) as [->|Hp]; [done|]. by rewrite !i64_small by (rewrite ?i64_small; lia).
Qed.

(** ** Headers *)
Lemma Split_cons2 c d t :
  Split (String c (String d t)) =
  if decide (c = ":"%char /\ d = " "%char) then ""%string :: Split t else push c (Split (String d t)).
Proof. done. Qed.
Lemma Split_nonempty s : Split s <> [].
Proof.
  induction s as [|c [|d t] IH]; [done|done|]. rewrite Split_cons2. case_decide; [done|]. by destruct (Split (String d t)).
Qed.

(** A key without a separator is cut off where it ends. *)
Lemma Split_join k v : Split k = [k] -> Split (k +:+ ": " +:+ v) = k :: Split v.
Proof.
  induction k as [|c [|d t] IH]; intros Hk.
  - done.
  - change (String c "" +:+ ": " +:+ v) with (String c (String ":" (String " " v))). rewrite Split_cons2, decide_False by (by intros []).
    by rewrite Split_cons2, decide_True by done.
  - rewrite Split_cons2 in Hk. case_decide as Hc; [by destruct (Split t)|].
    change (String c (String d t) +:+ ": " +:+ v) with (String c (String d (t +:+ ": " +:+ v))).
    rewrite Split_cons2, decide_False by done. change (String d t +:+ ": " +:+ v) with (String d (t +:+ ": " +:+ v)) in IH.
    destruct (Split (String d t)) as [|h l] eqn:Hs; [done|]. simpl in Hk. injection Hk as -> ->. by rewrite (IH eq_refl).
Qed.

Lemma foldl_insert_map (l : list (string * string)) (m : gmap string string) :
  NoDup l.*1 -> foldl (fun m p => <[fst p := snd p]> m) m l = list_to_map l ∪ m.
Proof.
  revert m. induction l as [|[k v] l IH]; intros m Hl; [by rewrite left_id_L by apply _|].
  apply NoDup_cons in Hl as [Hk Hl]. simpl. rewrite (IH _ Hl), <- insert_union_l.
  symmetry. apply insert_union_r. by apply not_elem_of_list_to_map.
Qed.

(** ** A command line and its flags *)
Definition header_args (p : string * string) : list string := ["-H"%string; fst p +:+ ": " +:+ snd p].

(** All flags, written out. *)
Definition render (f : flags) : list string :=
  ["-h"; host f; "-p"; pretty (port f); "-P"; protocol f; "-u"; urlString f;
   "-framed=" +:+ fmt_bool (framed f); "-http=" +:+ fmt_bool (useHttp f)]%string ++
  concat (map header_args (map_to_list (headers f))).

(** Neither part of a header contains the separator. *)
Definition printable (h : httpHeaders) : Prop := forall k v, h !! k = Some v -> Split k = [k] /\ Split v = [v].

Section Steps.
Context (g : flags) (rest : list string).
Lemma parse_h v : flag_Parse g ("-h"%string :: v :: rest) = flag_Parse (set_host v g) rest.
Proof. done. Qed.
Lemma parse_P v : flag_Parse g ("-P"%string :: v :: rest) = flag_Parse (set_protocol v g) rest.
Proof. done. Qed.
Lemma parse_u v : flag_Parse g ("-u"%string :: v :: rest) = flag_Parse (set_urlString v g) rest.
Proof. done. Qed.
Lemma parse_p z : (- 2 ^ 63 <= z < 2 ^ 63)%Z ->
  flag_Parse g ("-p"%string :: pretty z :: rest) = flag_Parse (set_port z g) rest.
Proof.
  intros Hz. change (match (fun z => set_port z g) <$> to_option (ParseInt0 (pretty z)) with
                     | Some f => flag_Parse f rest | None => Err (BadValue "p" (pretty z)) end = flag_Parse (set_port z g) rest).
  by rewrite ParseInt0_pretty.
Qed.
Lemma parse_framed b : flag_Parse g (("-framed=" +:+ fmt_bool b) :: rest) = flag_Parse (set_framed b g) rest.
Proof. by destruct b. Qed.
Lemma parse_http b : flag_Parse g (("-http=" +:+ fmt_bool b) :: rest) = flag_Parse (set_useHttp b g) rest.
Proof. by destruct b. Qed.
Lemma parse_H v h : httpHeaders_Set (headers g) v = Ok h ->
  flag_Parse g ("-H"%string :: v :: rest) = flag_Parse (set_headers h g) rest.
Proof.
  intros Hset. change (match (fun h => set_headers h g) <$> to_option (httpHeaders_Set (headers g) v) with
                       | Some f => flag_Parse f rest | None => Err (BadValue "H" v) end = flag_Parse (set_headers h g) rest).
  by rewrite Hset.
Qed.
End Steps.

Lemma flag_Parse_headers l f args :
  (forall p, p ∈ l -> Split (fst p) = [fst p] /\ Split (snd p) = [snd p]) ->
  flag_Parse f (concat (map header_args l) ++ "--"%string :: args) =
    Ok (set_headers (foldl (fun m p => <[fst p := snd p]> m) (headers f) l) f, args).
Proof.
  revert f. induction l as [|p l IH]; intros f Hl; [by destruct f|].
  destruct (Hl p ltac:(left)) as [Hk Hv].
  assert (httpHeaders_Set (headers f) (fst p +:+ ": " +:+ snd p) = Ok (<[fst p := snd p]> (headers f))) as Hset
    by (unfold httpHeaders_Set; by rewrite Split_join, Hv).
  change (concat (map header_args (p :: l)) ++ "--"%string :: args)
    with ("-H"%string :: (fst p +:+ ": " +:+ snd p) :: concat (map header_args l) ++ "--"%string :: args).
  rewrite (parse_H _ _ _ _ Hset), IH; [done|]. intros q Hq. apply Hl. by right.
Qed.

(** C34: the tool reads the flags that were meant.  A command line that gives every flag,
    an [int] port in decimal, the booleans with [=], each header as [Key: Value] and
    [--] before the arguments, is parsed to exactly those flags, whatever their texts
    are (empty, starting with a dash, or naming other flags), and leaves the arguments
    as they are; provided no part of a header contains the separator. *)
Theorem flag_Parse_render f args :
  (- 2 ^ 63 <= port f < 2 ^ 63)%Z -> printable (headers f) ->
  flag_Parse defaults (render f ++ "--"%string :: args) = Ok (f, args).
Proof.
  intros Hp Hh. unfold render. rewrite <- app_assoc. cbn [app].
  rewrite parse_h, parse_p, parse_P, parse_u, parse_framed, parse_http by done.
  rewrite flag_Parse_headers.
  2: { intros [k v] Hin%elem_of_map_to_list. by apply Hh. }
  rewrite foldl_insert_map by apply NoDup_fst_map_to_list.
  destruct f as [h p P u fr ht hd]. unfold set_headers. simpl.
  replace (list_to_map (map_to_list hd) ∪ (∅ : gmap string string)) with hd; [done|].
  rewrite right_id_L by apply _. symmetry. apply list_to_map_to_list.
Qed.

(** ** Witness *)
Example flag_Parse_render_witness :
  let f := mkFlags "-p" (-1) "" "--" true false {["Accept" := "x:y"]}%string in
  printable (headers f) /\ flag_Parse defaults (render f ++ ["--"%string; "-h"%string]) = Ok (f, ["-h"%string]).
Proof.
  intros f. assert (Hp : printable (headers f)).
  { intros k v Hk. simpl in Hk. apply lookup_singleton_Some in Hk as [<- <-]. by split. }
  split; [exact Hp|]. apply (flag_Parse_render f ["-h"]%string); [simpl; lia|exact Hp].
Defined.
