(* ===== verification/KvRemote.v ===== *)
(** * thrift/rpc/k_v-remote: one call from the command line

    [main], from the flags to the call and what it prints.  The process has its two
    outputs, the connection it opened, and a way to end; [os.Exit] ends it at once.  The
    thrift library and [net/url] are the class [Library]; [net.SplitHostPort] is the
    standard one.  What follows [main] is how it ends, and then the tool together with the
    handler at the other end. *)
From S2P Require Import Prelude.
From S2P Require Import ThriftProtocol.
From S2P Require Import TokenProtocol.
From S2P Require Import ThriftRpc.
From S2P Require Import ThriftFuel.
From S2P Require Import ThriftText.
From S2P Require Import ThriftService.
From S2P Require Import KvFlags.

(** ** net.SplitHostPort and net.JoinHostPort *)

(** Before and after the first, and the last, [c]. *)
Fixpoint cut_first (c : ascii) (s : string) : option (string * string) :=
  match s with
  | EmptyString => None
  | String d s => if decide (d = c) then Some (""%string, s) else (fun p => (String d (fst p), snd p)) <$> cut_first c s
  end.
Fixpoint cut_last (c : ascii) (s : string) : option (string * string) :=
  match s with
  | EmptyString => None
  | String d s =>
      match cut_last c s with
      | Some (a, b) => Some (String d a, b)
      | None => if decide (d = c) then Some (""%string, s) else None
      end
  end.

(** [[host]:port]: what follows the bracket has to be the last colon and the port. *)
Definition SplitHostPort (hostport : string) : result string (string * string) :=
  let addrErr (why : string) := Err (match hostport with EmptyString => why | _ => "address " +:+ hostport +:+ ": " +:+ why end) in
  match cut_last ":" hostport with
  | None => addrErr "missing port in address"%string
  | Some (before, port) =>
      match hostport with
      | String "[" inner =>
          match cut_first "]" inner with
          | None => addrErr "missing ']' in address"%string
          | Some (host, after) =>
              match after with
              | String ":" rest =>
                  if has_char ":" rest then addrErr "too many colons in address"%string
                  else if has_char "[" inner then addrErr "unexpected '[' in address"%string
                  else if has_char "]" after then addrErr "unexpected ']' in address"%string
                  else Ok (host, port)
              | _ => addrErr "missing port in address"%string
              end
          end
      | _ =>
          if has_char ":" before then addrErr "too many colons in address"%string
          else if has_char "[" hostport then addrErr "unexpected '[' in address"%string
          else if has_char "]" hostport then addrErr "unexpected ']' in address"%string
          else Ok (before, port)
      end
  end.

Definition JoinHostPort (host port : string) : string :=
  if has_char ":" host then "[" +:+ host +:+ "]:" +:+ port else host +:+ ":" +:+ port.

(** ** The process *)
Definition newline : string := String "010" "".

(** A line of the error output; the text of the flags' defaults and of their errors is
    the package's. *)
Inductive line : Type := Line (text : string) | PrintDefaults | FlagError (err : flag_error).

Record process (C : Type) : Type := mkProcess { stdout : string; stderr : list line; conn : option C }.
Arguments mkProcess {C} stdout stderr conn.
Arguments stdout {C} p.
Arguments stderr {C} p.
Arguments conn {C} p.

(** How code ends: it goes on, the process exits, it panics, or the fuel was too little. *)
Inductive ending (A : Type) : Type := Go (a : A) | Exited (status : Z) | Crashed | Stuck.
Arguments Go {A} a.
Arguments Exited {A} status.
Arguments Crashed {A}.
Arguments Stuck {A}.

Definition proc (C A : Type) : Type := process C -> process C * ending A.

Section Process.
Context {C : Type}.

#[global] Instance proc_ret : MRet (proc C) := fun A a p => (p, Go a).
#[global] Instance proc_bind : MBind (proc C) := fun A B f m p =>
  match m p with
  | (p, Go a) => f a p
  | (p, Exited status) => (p, Exited status)
  | (p, Crashed) => (p, Crashed)
  | (p, Stuck) => (p, Stuck)
  end.

Definition Exit {A} (status : Z) : proc C A := fun p => (p, Exited status).
Definition crash {A} : proc C A := fun p => (p, Crashed).
Definition report (l : line) : proc C unit := fun p => (mkProcess (stdout p) (stderr p ++ [l]) (conn p), Go tt).
(** [fmt.Fprintln(os.Stderr, ...)] *)
Definition Fprintln (args : list string) : proc C unit := report (Line (String.concat " " args)).
(** [fmt.Print] of one text. *)
Definition Print_ (text : string) : proc C unit := fun p => (mkProcess (stdout p +:+ text) (stderr p) (conn p), Go tt).
Definition set_conn (c : C) : proc C unit := fun p => (mkProcess (stdout p) (stderr p) (Some c), Go tt).
End Process.

(** ** The thrift library and net/url *)
Inductive wire_protocol : Type := Binary | Compact | SimpleJSON | JSON.

(** A url, a transport, the state of a client over one, and a JSON protocol to read from.
    The protocols of a client refer to its transport, so opening and closing that
    transport are operations of the client. *)
Class Library `{Thrift} (URL Trans C J : Type) : Type := {
  url_Parse : string -> result error URL;
  url_Host : URL -> string;
  url_Scheme : URL -> string;
  url_String : URL -> string;
  NewTHttpClient : string -> result error Trans;
  SetHeader : string -> string -> Trans -> Trans;
  NewTSocket : string -> result error Trans;
  NewTFramedTransport : Trans -> Trans;
  NewTStandardClient : wire_protocol -> Trans -> C;
  Open : C -> C * option error;
  Close : C -> C;
  (** the JSON protocol on a memory buffer with the text *)
  NewTJSONProtocol : string -> result error J
}.

Section Main.
Context `{GoRange} `{Thrift} {URL Trans C J : Type} `{!Library URL Trans C J}.
Context {P : Type} `{!TProtocol P} `{!TClient P C} `{!TProtocol J}.
(** The fuel of the readers, and [os.Args[0]]. *)
Context (fuel : nat) (program : string).
#[local] Abbreviation proc := (proc C).

(* src/thrift/rpc/k_v-remote/k_v-remote.go:21-31 Usage *)
Definition Usage : proc unit :=
  _ ← Fprintln ["Usage of "; program; " [-h host:port] [-u url] [-f[ramed]] function [arg1 [arg2...]]:"]%string;
  _ ← report PrintDefaults;
  _ ← Fprintln [newline +:+ "Functions:"];
  _ ← Fprintln ["  Health Ping()"%string];
  _ ← Fprintln ["  GetResponse Get(GetRequest req)"%string];
  _ ← Fprintln ["  PutResponse Put(PutRequest req)"%string];
  _ ← Fprintln ["  PutResponse MultiPut( reqs)"%string];
  _ ← Fprintln [];
  Exit 0.

(** [flag.Parse]: an error is reported, then the usage is shown; only if that returned
    would the package end the process with status 2. *)
(* src/thrift/rpc/k_v-remote/k_v-remote.go:62-70 main *)
Definition parse_flags (arguments : list string) : proc (flags * list string) :=
  match flag_Parse defaults arguments with
  | Ok r => mret r
  | Err HelpWanted => _ ← Usage; Exit 2
  | Err err => _ ← report (FlagError err); _ ← Usage; Exit 2
  end.

(** The host to dial, whether to use http, and the url; reading a nil url panics. *)
(* src/thrift/rpc/k_v-remote/k_v-remote.go:72-87 main *)
Definition resolve_target (f : flags) : proc (string * bool * option URL) :=
  if decide (urlString f <> ""%string) then
    parsedUrl ← match url_Parse (urlString f) with
                | Err err => _ ← Fprintln ["Error parsing URL: "%string; Error err]; _ ← Usage; crash
                | Ok u => mret u
                end;
    mret (url_Host parsedUrl,
          bool_decide (url_Scheme parsedUrl ∈ [""; "http"; "https"]%string),
          Some parsedUrl)
  else if useHttp f then
    _ ← match url_Parse ("http://" +:+ host f +:+ ":" +:+ pretty (port f)) with
        | Err err => _ ← Fprintln ["Error parsing URL: "%string; Error err]; Usage
        | Ok _ => mret tt
        end;
    mret (host f, useHttp f, None)
  else mret (host f, useHttp f, None).

(** The headers are set before the error is looked at; a nil transport is no
    [*THttpClient]. *)
(* src/thrift/rpc/k_v-remote/k_v-remote.go:91-120 main *)
Definition make_transport (f : flags) (host : string) (useHttp : bool) (parsedUrl : option URL) : proc (string * Trans) :=
  if useHttp then
    u ← match parsedUrl with Some u => mret u | None => crash end;
    let made := NewTHttpClient (url_String u) in
    made ← (if decide (headers f = ∅) then mret made
            else match made with
                 | Err _ => crash
                 | Ok trans => mret (Ok (foldl (fun trans p => SetHeader (fst p) (snd p) trans) trans (go_range (headers f))))
                 end);
    match made with
    | Err err => _ ← Fprintln ["Error creating transport"%string; Error err]; Exit 1
    | Ok trans => mret (host, trans)
    end
  else
    '(host, portStr) ← (if has_char ":" host
                        then match SplitHostPort host with
                             | Err err => _ ← Fprintln ["error with host:"%string; err]; Exit 1
                             | Ok r => mret r
                             end
                        else mret (host, pretty (port f)));
    match NewTSocket (JoinHostPort host portStr) with
    | Err err => _ ← Fprintln ["error resolving address:"%string; Error err]; Exit 1
    | Ok trans => mret (host, if framed f then NewTFramedTransport trans else trans)
    end.

(* src/thrift/rpc/k_v-remote/k_v-remote.go:122-140 main *)
Definition choose_protocol (protocol : string) : proc wire_protocol :=
  if decide (protocol = "compact")%string then mret Compact
  else if decide (protocol = "simplejson")%string then mret SimpleJSON
  else if decide (protocol = "json")%string then mret JSON
  else if decide (protocol = "binary" \/ protocol = "")%string then mret Binary
  else _ ← Fprintln ["Invalid protocol specified: "%string; protocol]; _ ← Usage; Exit 1.

(* src/thrift/rpc/k_v-remote/k_v-remote.go:141-147 main *)
Definition connect (f : flags) (host : string) (wire : wire_protocol) (trans : Trans) : proc unit :=
  let client := NewTStandardClient wire trans in
  match Open client with
  | (_, Some err) =>
      _ ← Fprintln ["Error opening socket to "%string; host; ":"%string; pretty (port f); " "%string; Error err]; Exit 1
  | (client, None) => set_conn client
  end.

(** Everything up to the open connection. *)
(* src/thrift/rpc/k_v-remote/k_v-remote.go:72-147 main *)
Definition dial (f : flags) : proc unit :=
  '(host, useHttp, parsedUrl) ← resolve_target f;
  '(host, trans) ← make_transport f host useHttp parsedUrl;
  wire ← choose_protocol (protocol f);
  connect f host wire trans.

(** [fmt.Print(client.M(...)); fmt.Print("\n")]: the result and the error with a blank
    between them.  A failed call returns a nil result. *)
Definition print_call {A} (String : option A -> string) (m : proto C (option A)) : proc unit := fun p =>
  match conn p with
  | None => (p, Crashed)
  | Some c =>
      match m c with
      | Done c (Ok r) => (_ ← set_conn c; _ ← Print_ (String r +:+ " <nil>"); Print_ newline) p
      | Done c (Err err) => (_ ← set_conn c; _ ← Print_ (String None +:+ " " +:+ Error err); Print_ newline) p
      | Panicked => (p, Crashed)
      | OutOfFuel => (p, Stuck)
      end
  end.

(** The argument, read as JSON; nothing is called if that fails. *)
Definition with_argument {A} (arg : string) (read : proto J A) (call : A -> proc unit) : proc unit :=
  match NewTJSONProtocol arg with
  | Err _ => _ ← Usage; mret tt
  | Ok jsProt =>
      match read jsProt with
      | Done _ (Ok value) => call value
      | Done _ (Err _) => _ ← Usage; mret tt
      | Panicked => crash
      | OutOfFuel => fun p => (p, Stuck)
      end
  end.

Definition requires (cmd count : string) (n : nat) (args : list string) : proc unit :=
  if decide (length args - 1 = n) then mret tt
  else _ ← Fprintln [cmd +:+ " requires " +:+ count +:+ " args"]; Usage.

(* src/thrift/rpc/k_v-remote/k_v-remote.go:150-157 main *)
Definition run_Ping (args : list string) : proc unit :=
  _ ← requires "Ping" "0" 0 args;
  print_call Health_String (KVClient_Ping (P := P) fuel).
(* src/thrift/rpc/k_v-remote/k_v-remote.go:158-182 main *)
Definition run_Get (args : list string) : proc unit :=
  _ ← requires "Get" "1" 1 args;
  with_argument (default ""%string (args !! 1)) (GetRequest_Read fuel NewGetRequest)
    (fun value0 => print_call GetResponse_String (KVClient_Get (P := P) fuel (Some value0))).
(* src/thrift/rpc/k_v-remote/k_v-remote.go:183-207 main *)
Definition run_Put (args : list string) : proc unit :=
  _ ← requires "Put" "1" 1 args;
  with_argument (default ""%string (args !! 1)) (PutRequest_Read fuel NewPutRequest)
    (fun value0 => print_call PutResponse_String (KVClient_Put (P := P) fuel (Some value0))).
(* src/thrift/rpc/k_v-remote/k_v-remote.go:208-233 main *)
Definition run_MultiPut (args : list string) : proc unit :=
  _ ← requires "MultiPut" "1" 1 args;
  with_argument (default ""%string (args !! 1)) (KVMultiPutArgs_ReadField1 fuel NewKVMultiPutArgs)
    (fun containerStruct0 => print_call PutResponse_String (KVClient_MultiPut (P := P) fuel (Reqs containerStruct0))).

(* src/thrift/rpc/k_v-remote/k_v-remote.go:149-239 main *)
Definition run_command (args : list string) : proc unit :=
  let cmd := default ""%string (args !! 0) in
  if decide (cmd = "Ping")%string then run_Ping args
  else if decide (cmd = "Get")%string then run_Get args
  else if decide (cmd = "Put")%string then run_Put args
  else if decide (cmd = "MultiPut")%string then run_MultiPut args
  else if decide (cmd = "")%string then Usage
  else Fprintln ["Invalid function "%string; cmd].

(** The deferred [trans.Close]; leaving [main] is status 0. *)
Definition close_conn : proc unit := fun p => (mkProcess (stdout p) (stderr p) (Close <$> conn p), Go tt).

(* src/thrift/rpc/k_v-remote/k_v-remote.go:49-240 main *)
Definition main (arguments : list string) : proc unit :=
  '(f, args) ← parse_flags arguments;
  _ ← dial f;
  _ ← run_command args;
  close_conn.

(** ** How it ends *)
Definition usage_lines : list line :=
  [Line (String.concat " " ["Usage of "; program; " [-h host:port] [-u url] [-f[ramed]] function [arg1 [arg2...]]:"]%string);
   PrintDefaults; Line (newline +:+ "Functions:"); Line "  Health Ping()"; Line "  GetResponse Get(GetRequest req)";
   Line "  PutResponse Put(PutRequest req)"; Line "  PutResponse MultiPut( reqs)"; Line ""].
Definition start : process C := mkProcess "" [] None.

Lemma Usage_exits p : Usage p = (mkProcess (stdout p) (stderr p ++ usage_lines) (conn p), Exited 0).
Proof.
  unfold Usage, mbind, proc_bind, Fprintln, report, Exit, usage_lines. cbn [stdout stderr conn].
  by rewrite <- !app_assoc.
Qed.
Lemma bind_Go {A B} (m : proc A) (f : A -> proc B) p p' a : m p = (p', Go a) -> (m ≫= f) p = f a p'.
Proof. intros Hm. unfold mbind, proc_bind. by rewrite Hm. Qed.

(** What the code of a process ends in: after it went on [G] holds, after [os.Exit]
    [E], after a panic [K], and if it does not come to an end [S]. *)
Definition ends_in {A} (E : Z -> process C -> Prop) (K S : process C -> Prop) (G : A -> process C -> Prop)
    (m : proc A) (p : process C) : Prop :=
  match m p with
  | (p, Go a) => G a p
  | (p, Exited status) => E status p
  | (p, Crashed) => K p
  | (p, Stuck) => S p
  end.

Lemma ends_in_bind {A B} E K S (G : B -> process C -> Prop) (m : proc A) (k : A -> proc B) p :
  ends_in E K S (fun a p => ends_in E K S G (k a) p) m p -> ends_in E K S G (m ≫= k) p.
Proof. unfold ends_in, mbind, proc_bind. by destruct (m p) as [p' [a|s| |]]. Qed.
Lemma ends_in_impl {A} E K S (G G' : A -> process C -> Prop) m p :
  (forall a p, G a p -> G' a p) -> ends_in E K S G m p -> ends_in E K S G' m p.
Proof. intros HG. unfold ends_in. destruct (m p) as [p' [a|s| |]]; auto. Qed.
Lemma ends_in_Usage E K S (G : unit -> process C -> Prop) p :
  E 0%Z (mkProcess (stdout p) (stderr p ++ usage_lines) (conn p)) -> ends_in E K S G Usage p.
Proof. unfold ends_in. by rewrite Usage_exits. Qed.

(** [-http] alone never works.  With it and without [-u] the tool makes no
    connection and no call, whatever the host and port given with [-h] and [-p] are: it
    panics on the nil url, or if host and port do not make a url shows the usage and
    exits with status 0. *)
Theorem http_needs_url arguments f args :
  flag_Parse defaults arguments = Ok (f, args) -> useHttp f = true -> urlString f = ""%string ->
  match url_Parse ("http://" +:+ host f +:+ ":" +:+ pretty (port f)) with
  | Ok _ => main arguments start = (start, Crashed)
  | Err err =>
      main arguments start =
        (mkProcess "" (Line (String.concat " " ["Error parsing URL: "; Error err]%string) :: usage_lines) None, Exited 0)
  end.
Proof.
  intros Hf Hh Hu. unfold main. rewrite (bind_Go _ _ start start (f, args)) by (unfold parse_flags; by rewrite Hf).
  unfold dial, resolve_target. rewrite decide_False by (by intros Hn; apply Hn). rewrite Hh.
  destruct (url_Parse _) as [u|err]; unfold mbind, proc_bind, mret, proc_ret; [done|].
  unfold Fprintln, report. by rewrite Usage_exits.
Qed.
End Main.

(** ** How it ends *)
Section Ends.
Context `{GoRange} `{Thrift} {URL Trans C J : Type} `{!Library URL Trans C J}.
Context {P : Type} `{!TProtocol P} `{!TClient P C} `{!TProtocol J} `{!TConsumes P} `{!TConsumes J}.
Context (fuel : nat) (program : string) (arguments : list string).
#[local] Abbreviation proc := (proc C).

(** Why there is no connection, in the words of the tool. *)
Inductive refused (f : flags) : string -> Prop :=
| no_client url err :
    url_Parse (urlString f) = Ok url -> NewTHttpClient (url_String url) = Err err ->
    refused f (String.concat " " ["Error creating transport"; Error err])
| bad_host h err :
    h = host f \/ (exists url, url_Parse (urlString f) = Ok url /\ h = url_Host url) -> SplitHostPort h = Err err ->
    refused f (String.concat " " ["error with host:"; err])
| no_address address err :
    NewTSocket address = Err err -> refused f (String.concat " " ["error resolving address:"; Error err])
| not_opened h wire trans c err :
    Open (NewTStandardClient wire trans) = (c, Some err) ->
    refused f (String.concat " " ["Error opening socket to "; h; ":"; pretty (port f); " "; Error err]).

(** Status 0 by the usage, after at most one line; status 1 by one line; no output. *)
Definition explained (status : Z) (p : process C) : Prop :=
  stdout p = ""%string /\
  ((status = 0%Z /\ exists l, length l <= 1 /\ stderr p = l ++ usage_lines program) \/
   (status = 1%Z /\ exists f args text,
      flag_Parse defaults arguments = Ok (f, args) /\ refused f text /\ stderr p = [Line text])).

(** What holds of the call that the arguments left over make. *)
Definition the_call (args : list string) (c : C) (Q : forall A, run C A -> Prop) : Prop :=
  (args !! 0 = Some "Ping"%string /\ Q _ (KVClient_Ping (P := P) fuel c)) \/
  (exists req, args !! 0 = Some "Get"%string /\ Q _ (KVClient_Get (P := P) fuel (Some req) c)) \/
  (exists req, args !! 0 = Some "Put"%string /\ Q _ (KVClient_Put (P := P) fuel (Some req) c)) \/
  (exists reqs, args !! 0 = Some "MultiPut"%string /\ Q _ (KVClient_MultiPut (P := P) fuel reqs c)).
(** The JSON of the argument sends its reader into a panic. *)
Definition argument_panics (args : list string) : Prop :=
  exists j, NewTJSONProtocol (default ""%string (args !! 1)) = Ok j /\
    ((args !! 0 = Some "Get"%string /\ GetRequest_Read fuel NewGetRequest j = Panicked) \/
     (args !! 0 = Some "Put"%string /\ PutRequest_Read fuel NewPutRequest j = Panicked) \/
     (args !! 0 = Some "MultiPut"%string /\ KVMultiPutArgs_ReadField1 fuel NewKVMultiPutArgs j = Panicked)).

(** Where the program panics: on the url that [-http] alone leaves nil, on the transport
    that is nil when there are headers to set, reading the argument, or in the call. *)
Definition panicked (p : process C) : Prop :=
  stdout p = ""%string /\ stderr p = [] /\ exists f args, flag_Parse defaults arguments = Ok (f, args) /\
  match conn p with
  | None =>
      (useHttp f = true /\ urlString f = ""%string) \/
      (headers f <> ∅ /\ exists url err, url_Parse (urlString f) = Ok url /\ NewTHttpClient (url_String url) = Err err)
  | Some c => argument_panics args \/ the_call args c (fun _ r => r = Panicked)
  end.

(** Every call on this connection returns unless its reader lacks fuel for what it
    gets, which is less than the fuel. *)
Definition replies_within (c : C) : Prop :=
  forall A m w (r : proto P A), Call m w r c = OutOfFuel -> exists p, left_to_read p < fuel /\ r p = OutOfFuel.
(** The call has not returned: no reply comes, or one of as many fields as there is fuel. *)
Definition unanswered (p : process C) : Prop :=
  stdout p = ""%string /\ stderr p = [] /\ exists f args c, flag_Parse defaults arguments = Ok (f, args) /\
    conn p = Some c /\ the_call args c (fun _ r => r = OutOfFuel) /\ ~ replies_within c.

(** The line of an unknown function, or the line of a call that returned. *)
Definition one_line (close : C -> C) (p : process C) : Prop :=
  exists f args, flag_Parse defaults arguments = Ok (f, args) /\
  ((exists cmd c, args !! 0 = Some cmd /\ stdout p = ""%string /\ stderr p = [Line ("Invalid function  " +:+ cmd)] /\
      conn p = Some (close c)) \/
   (exists text c c', stdout p = text +:+ newline /\ stderr p = [] /\ conn p = Some (close c') /\
      the_call args c (fun _ r => exists answer, r = Done c' answer))).

#[local] Abbreviation ends := (ends_in explained panicked unanswered).
#[local] Abbreviation opened c := (mkProcess "" [] (Some c)).

Lemma explained_usage l c : length l <= 1 -> explained 0 (mkProcess "" (l ++ usage_lines program) c).
Proof. intros Hl. split; [done|]. left. split; [done|]. by exists l. Qed.
Lemma usage_after {A} l c (G : A -> process C -> Prop) (k : unit -> proc A) :
  length l <= 1 -> ends G (Usage program ≫= k) (mkProcess "" l c).
Proof. intros Hl. apply ends_in_bind, ends_in_Usage. by apply explained_usage. Qed.

Section Parsed.
Context (f : flags) (args : list string) (Hf : flag_Parse defaults arguments = Ok (f, args)).

Lemma explained_refused text c : refused f text -> explained 1 (mkProcess "" [Line text] c).
Proof using All. intros Hr. split; [done|]. right. split; [done|]. by exists f, args, text. Qed.

(** The url was parsed if there is one. *)
Definition target_ok (t : string * bool * option URL) : Prop :=
  let '(h, http, url) := t in
  match url with
  | Some u => url_Parse (urlString f) = Ok u /\ h = url_Host u
  | None => urlString f = ""%string /\ h = host f /\ http = useHttp f
  end.
Lemma resolve_target_ends : ends (fun t p => target_ok t /\ p = start) (resolve_target program f) start.
Proof using All.
  unfold resolve_target. case_decide as Hu.
  - apply ends_in_bind. destruct (url_Parse (urlString f)) as [u|err] eqn:Hp.
    + by repeat split.
    + apply ends_in_bind, usage_after. simpl. lia.
  - destruct (useHttp f) eqn:Hh; [|by repeat split].
    apply ends_in_bind. destruct (url_Parse _) as [u|err]; [by repeat split|].
    apply ends_in_bind, ends_in_Usage. by apply (explained_usage [_]).
Qed.

Lemma make_transport_ends h http url :
  target_ok (h, http, url) -> ends (fun _ p => p = start) (make_transport f h http url) start.
Proof using All.
  intros Ht. unfold make_transport. destruct http.
  - apply ends_in_bind. destruct url as [u|]; simpl in Ht.
    2: { destruct Ht as (Hu & _ & Hh). repeat split. exists f, args. split; [done|]. left. done. }
    destruct Ht as [Hu ->]. unfold ends_in at 1. cbn. apply ends_in_bind.
    destruct (NewTHttpClient (url_String u)) as [t|err] eqn:Hc; case_decide as Hh.
    1, 2: by repeat split.
    + unfold ends_in, mbind, proc_bind, mret, proc_ret, Fprintln, report, Exit. cbn [stdout stderr conn].
      apply explained_refused. by eapply no_client.
    + repeat split. exists f, args. split; [done|]. right. split; [done|]. by exists u, err.
  - assert (Hcase : h = host f \/ exists u, url_Parse (urlString f) = Ok u /\ h = url_Host u).
    { destruct url as [u|]; simpl in Ht; [right; by exists u|by left; destruct Ht as (_ & -> & _)]. }
    apply ends_in_bind. apply (ends_in_impl _ _ _ (fun _ p => p = start)).
    + intros [h' port] p ->. destruct (NewTSocket _) as [t|err] eqn:Hs; [done|].
      unfold ends_in, mbind, proc_bind, Fprintln, report, Exit. cbn. apply explained_refused. by eapply no_address.
    + destruct (has_char ":" h); [|done]. destruct (SplitHostPort h) as [r|err] eqn:Hs; [done|].
      unfold ends_in, mbind, proc_bind, Fprintln, report, Exit. cbn. apply explained_refused. by eapply bad_host.
Qed.

Lemma choose_protocol_ends name : ends (fun _ p => p = start) (choose_protocol program name) start.
Proof using All.
  unfold choose_protocol. repeat (case_decide; [done|]). apply ends_in_bind. by apply usage_after.
Qed.

Lemma dial_ends : ends (fun _ p => exists c, p = opened c) (dial program f) start.
Proof using All.
  apply ends_in_bind. eapply ends_in_impl, resolve_target_ends. intros [[h http] url] p [Ht ->].
  apply ends_in_bind. eapply ends_in_impl, make_transport_ends, Ht. intros [h' t] p ->.
  apply ends_in_bind. eapply ends_in_impl, choose_protocol_ends. intros wire p ->.
  unfold connect. cbv zeta. destruct (Open _) as [c [err|]] eqn:Ho; [|by exists c].
  unfold ends_in, mbind, proc_bind, Fprintln, report, Exit. cbn [stdout stderr conn start].
  apply explained_refused. by eapply not_opened.
Qed.

(** ** The commands *)
(** After a command. *)
Definition commanded (p : process C) : Prop := one_line id p.

Lemma the_call_panics c : the_call args c (fun _ r => r = Panicked) -> panicked (opened c).
Proof using All. intros Hc. repeat split. exists f, args. split; [done|]. by right. Qed.

(** The results of the generated code are read in the fuel that a short reply needs. *)
Lemma Call_unanswered {A B} m w (r : proto P A) (k : A -> B) c :
  ThriftFuel.ends fuel r -> (x ← Call m w r; mret (k x)) c = OutOfFuel -> ~ replies_within c.
Proof using All.
  intros Hr Hc Hw. unfold mbind, proto_bind in Hc. destruct (Call m w r c) as [c' [a|]| |] eqn:He; try done.
  destruct (Hw _ _ _ _ He) as (p & Hp & Hs). by apply (ends_not_stuck fuel r p Hr Hp).
Qed.
Lemma the_call_unanswered c : the_call args c (fun _ r => r = OutOfFuel) -> unanswered (opened c).
Proof using All.
  intros Hc. repeat split. exists f, args, c. split; [done|]. split; [done|]. split; [done|].
  destruct Hc as [[_ Hc]|[(req & _ & Hc)|[(req & _ & Hc)|(reqs & _ & Hc)]]];
    (eapply Call_unanswered; [|exact Hc]);
    [apply ends_KVPingResult|apply ends_KVGetResult|apply ends_KVPutResult|apply ends_KVMultiPutResult].
Qed.

Lemma print_call_ends {A} (String : option A -> string) m c :
  (forall Q : forall A, run C A -> Prop, Q _ (m c) -> the_call args c Q) ->
  ends (fun _ => commanded) (print_call String m) (opened c).
Proof using All.
  intros Hk. unfold ends_in, print_call. cbn [conn].
  destruct (m c) as [c' [r|err]| |] eqn:Hc.
  - exists f, args. split; [done|]. right. exists (String r +:+ " <nil>"), c, c'. repeat split.
    apply (Hk (fun _ r => exists answer, r = Done c' answer)). by eexists.
  - exists f, args. split; [done|]. right. exists (String None +:+ " " +:+ Error err), c, c'. repeat split.
    apply (Hk (fun _ r => exists answer, r = Done c' answer)). by eexists.
  - apply the_call_panics. by apply (Hk (fun _ r => r = Panicked)).
  - apply the_call_unanswered. by apply (Hk (fun _ r => r = OutOfFuel)).
Qed.

Lemma requires_ends cmd count n c (k : unit -> proc unit) :
  ends (fun _ => commanded) (k tt) (opened c) -> ends (fun _ => commanded) (requires program cmd count n args ≫= k) (opened c).
Proof using All.
  intros Hk. apply ends_in_bind. unfold requires. case_decide; [exact Hk|].
  apply ends_in_bind, ends_in_Usage. by apply (explained_usage [_]).
Qed.

Lemma with_argument_ends {A} arg (read : proto J A) call c :
  (forall text j, NewTJSONProtocol text = Ok j -> left_to_read j <= String.length text) -> String.length arg < fuel ->
  ThriftFuel.ends fuel read -> (forall j, NewTJSONProtocol arg = Ok j -> read j = Panicked -> panicked (opened c)) ->
  (forall a, ends (fun _ => commanded) (call a) (opened c)) ->
  ends (fun _ => commanded) (with_argument program arg read call) (opened c).
Proof using All.
  intros Hleft Hl Hr Hpanic Hcall. unfold with_argument. destruct (NewTJSONProtocol arg) as [j|] eqn:Hj.
  2: { apply usage_after. simpl. lia. }
  pose proof (Hleft _ _ Hj). pose proof (ends_not_stuck fuel read j Hr ltac:(lia)) as Hns.
  destruct (read j) as [j' [a|]| |] eqn:Hread; [apply Hcall|apply usage_after; simpl; lia| |done].
  by apply (Hpanic j).
Qed.

Lemma argument_panicked c : argument_panics args -> panicked (opened c).
Proof using All. intros Ha. repeat split. exists f, args. split; [done|]. by left. Qed.

(** The commands whose argument is JSON: enough fuel for the text reads it. *)
Context (Hleft : forall text j, NewTJSONProtocol text = Ok j -> left_to_read j <= String.length text).
Context (Hshort : forall arg, arg ∈ args -> String.length arg < fuel).

Lemma argument_short cmd : args !! 0 = Some cmd -> String.length (default ""%string (args !! 1)) < fuel.
Proof using All.
  intros Hc. pose proof (Hshort cmd (list_elem_of_lookup_2 _ _ _ Hc)).
  destruct (args !! 1) as [arg|] eqn:Ha; simpl; [|lia]. by apply Hshort, (list_elem_of_lookup_2 _ 1).
Qed.

Lemma run_command_ends c : ends (fun _ => commanded) (run_command (P := P) (J := J) fuel program args) (opened c).
Proof using All.
  unfold run_command, run_Ping, run_Get, run_Put, run_MultiPut. cbv zeta.
  destruct (args !! 0) as [cmd|] eqn:Hcmd; cbn [default from_option id].
  2: { repeat (case_decide; [done|]). case_decide; [|done]. apply ends_in_Usage. apply (explained_usage []); simpl; lia. }
  pose proof (argument_short cmd Hcmd) as Hl.
  case_decide as H1; [subst cmd; apply requires_ends, print_call_ends; intros Q HQ; by left|].
  case_decide as H2; [subst cmd|case_decide as H3; [subst cmd|case_decide as H4; [subst cmd|]]].
  - apply requires_ends, with_argument_ends; [done|done|apply ends_GetRequest| |].
    + intros j Hj Hp. apply argument_panicked. exists j. split; [done|]. by left.
    + intros a. apply print_call_ends. intros Q HQ. right. left. by exists a.
  - apply requires_ends, with_argument_ends; [done|done|apply ends_PutRequest| |].
    + intros j Hj Hp. apply argument_panicked. exists j. split; [done|]. by right; left.
    + intros a. apply print_call_ends. intros Q HQ. right. right. left. by exists a.
  - apply requires_ends, with_argument_ends; [done|done|apply ends_requests| |].
    + intros j Hj Hp. apply argument_panicked. exists j. split; [done|]. by right; right.
    + intros a. apply print_call_ends. intros Q HQ. right. right. right. by exists (Reqs a).
  - case_decide; [apply ends_in_Usage; apply (explained_usage []); simpl; lia|].
    exists f, args. split; [done|]. left. by exists cmd, c.
Qed.
End Parsed.

Lemma flag_Parse_rest g f l args arg : flag_Parse g l = Ok (f, args) -> arg ∈ args -> arg ∈ l.
Proof.
  remember (length l) as n eqn:Hn. assert (Hle : length l <= n) by lia. clear Hn. revert g l Hle.
  induction n as [|n IH]; intros g [|s l] Hle; simpl in Hle; try lia; simpl; try by intros [= _ <-].
  destruct (arg_kind_of s) as [| |text|]; [by intros [= _ <-]|by intros [= _ <-] ?; right| |done].
  destruct (name_value text) as [name value]. destruct (formal name) as [fv|]; [|by case_decide].
  destruct (if IsBoolFlag fv then _ else value) as [v|].
  - destruct (Set_ fv v g) as [g'|]; [|done]. intros Hp Ha. right. eapply IH; [|exact Hp|exact Ha]. lia.
  - destruct l as [|v l]; [done|]. destruct (Set_ fv v g) as [g'|]; [|done]. intros Hp Ha. right. right.
    eapply IH; [|exact Hp|exact Ha]. simpl in Hle. lia.
Qed.

(** C33: how the tool ends.  Let the fuel be more than the length of every argument, and
    a JSON text hold no more fields than characters.  Then the tool exits with status 0
    after its usage and at most one line of error, whatever was wrong with the command
    line; or with status 1 after the one line that gives the library's reason why there
    is no connection; no answer has been printed then.  Or it panics with nothing
    printed: on the nil url of [-http] without [-u], on the nil transport if headers are
    to be set, reading the argument, or in the call.  Or the call named by the arguments
    does not return, which takes a connection whose reply does not come or has as many
    fields as there is fuel.  Otherwise [main] returns, which is status 0 too, with the
    connection closed: after the line of that call, failed calls included, or after the
    line that names an unknown function. *)
Theorem main_status :
  (forall text j, NewTJSONProtocol text = Ok j -> left_to_read j <= String.length text) ->
  (forall arg, arg ∈ arguments -> String.length arg < fuel) ->
  match main (P := P) (J := J) fuel program arguments start with
  | (p, Exited status) => explained status p
  | (p, Crashed) => panicked p
  | (p, Stuck) => unanswered p
  | (p, Go _) => one_line Close p
  end.
Proof.
  intros Hleft Hshort. apply (ends_in_bind explained panicked unanswered (fun _ p => one_line Close p)).
  unfold parse_flags. destruct (flag_Parse defaults arguments) as [[f args]|err] eqn:Hf.
  - apply ends_in_bind. eapply ends_in_impl, (dial_ends f args Hf). intros _ p [c ->].
    apply ends_in_bind. eapply ends_in_impl, (run_command_ends f args Hf Hleft).
    + intros _ q (f' & args' & Hf' & Hq). exists f', args'. split; [done|]. unfold close_conn. simpl.
      destruct Hq as [(cmd & c' & H1 & H2 & H3 & H4)|(text & c0 & c' & H1 & H2 & H3 & H4)]; rewrite ?H3, ?H4.
      * left. by exists cmd, c'.
      * right. by exists text, c0, c'.
    + intros arg Ha. apply Hshort. by apply (flag_Parse_rest _ _ _ _ _ Hf).
  - destruct err;
      lazymatch goal with
      | |- context [report] => apply ends_in_bind, usage_after
      | |- _ => apply usage_after
      end; simpl; lia.
Qed.
End Ends.

(** ** The tool and the handler *)
Section Call.
Context `{GoRange} `{Thrift} {URL Trans C J : Type} `{!Library URL Trans C J}.
Context {P : Type} `{!TProtocol P} `{!TStream P} `{!TProtocolLaws P}.
Context `{!TProtocol J} `{!TStream J} `{!TProtocolLaws J}.
Context {K : Type} `{!KV K} `{!TClient P C} `{!Connection C K} (fuel : nat) `{!TClientLaws P C K fuel} (program : string).
#[local] Set Default Proof Using "All".

(** The argument is the JSON text of the value. *)
Definition json (arg : string) (v : tvalue) : Prop :=
  exists j, NewTJSONProtocol arg = Ok j /\ unread j (tokens_of v).

(** The tool prints what the handler answers and leaves the connection closed. *)
Definition answered {R S} (arguments : list string) (answer : outcome (K * result error R)) (result_of : R -> tvalue)
    (String : option S -> string) (f : R -> option S) : Prop :=
  let ends := main (P := P) (J := J) fuel program arguments start in
  match answer with
  | Ret (h, Ok r) => fits (P := P) fuel (result_of r) ->
      exists c, ends = (mkProcess (String (f r) +:+ " <nil>" +:+ newline) [] (Some (Close c)), Go tt) /\ server c = h
  | Ret (h, Err _) =>
      exists c err, ends = (mkProcess ("<nil> " +:+ Error err +:+ newline) [] (Some (Close c)), Go tt) /\ server c = h
  | Panic => True
  end.

(** What [main] does once the connection is open and the command is chosen. *)
Lemma call_answered {R S} arguments f args c command (String : option S -> string) m answer result_of (g : R -> option S) :
  flag_Parse defaults arguments = Ok (f, args) -> dial program f start = (mkProcess "" [] (Some c), Go tt) ->
  run_command (P := P) (J := J) fuel program args = command ->
  (forall p, command p = print_call String m p) -> String None = "<nil>"%string ->
  remote (P := P) fuel answer result_of g m c ->
  answered arguments answer result_of String g.
Proof.
  intros Hf Hd Hrun Hcmd Hnil Hm. unfold answered. cbv zeta.
  assert (Hmain : main (P := P) (J := J) fuel program arguments start =
            (_ ← print_call String m; close_conn) (mkProcess "" [] (Some c))).
  { unfold main, parse_flags. rewrite Hf. unfold mbind at 1, proc_bind at 1, mret at 1, proc_ret at 1.
    unfold mbind at 1, proc_bind at 1. rewrite Hd. unfold mbind, proc_bind. by rewrite Hrun, Hcmd. }
  rewrite Hmain. clear Hmain. unfold remote in Hm. destruct answer as [[h [r|e]]|]; [| |done].
  - intros Hfit. destruct (Hm Hfit) as (c' & Hc & Hs). exists c'. split; [|done].
    unfold mbind, proc_bind, print_call. simpl. rewrite Hc. unfold close_conn. simpl. by rewrite !string_app_assoc.
  - destruct Hm as (c' & err & Hc & Hs). exists c', err. split; [|done].
    unfold mbind, proc_bind, print_call. simpl. rewrite Hc. unfold close_conn. simpl. by rewrite Hnil, !string_app_assoc.
Qed.

Lemma with_argument_reads {A} arg v (read : proto J A) a call p :
  json arg v -> reads read (tokens_of v) a -> with_argument (C := C) program arg read call p = call a p.
Proof.
  intros (j & Hj & Hu) Hr. unfold with_argument. rewrite Hj.
  destruct (Hr j [] ltac:(by rewrite app_nil_r)) as (j' & -> & _). done.
Qed.

Lemma requests_read vs :
  value_ok (VList STRUCT vs) = true -> accepts_list PutRequest (VList STRUCT vs) = true ->
  length (tokens_of (VList STRUCT vs)) <= fuel ->
  reads (P := J) (KVMultiPutArgs_ReadField1 fuel NewKVMultiPutArgs) (tokens_of (VList STRUCT vs))
    (mkKVMultiPutArgs (map (fun v => Some (decode_value v)) vs)).
Proof.
  intros Hok Ha Hl.
  pose proof (expect_messages (P := J) (A := KVMultiPutArgs) (B := PutRequest) mkKVMultiPutArgs fuel "*rpc.PutRequest error reading struct: "
    (KVMultiPutArgs_ReadField1 fuel) NewKVMultiPutArgs (VList STRUCT vs) Hok Ha Hl eq_refl) as Hr.
  unfold expect in Hr. by rewrite decide_True in Hr by done.
Qed.

Lemma run_Get_argument arg p : run_command (P := P) (J := J) (C := C) fuel program ["Get"%string; arg] p =
  with_argument program arg (GetRequest_Read fuel NewGetRequest)
    (fun value0 => print_call GetResponse_String (KVClient_Get (P := P) fuel (Some value0))) p.
Proof. done. Qed.
Lemma run_Put_argument arg p : run_command (P := P) (J := J) (C := C) fuel program ["Put"%string; arg] p =
  with_argument program arg (PutRequest_Read fuel NewPutRequest)
    (fun value0 => print_call PutResponse_String (KVClient_Put (P := P) fuel (Some value0))) p.
Proof. done. Qed.
Lemma run_MultiPut_argument arg p : run_command (P := P) (J := J) (C := C) fuel program ["MultiPut"%string; arg] p =
  with_argument program arg (KVMultiPutArgs_ReadField1 fuel NewKVMultiPutArgs)
    (fun args => print_call PutResponse_String (KVClient_MultiPut (P := P) fuel (Reqs args))) p.
Proof. done. Qed.

(** C17: the tool makes the call its arguments name.  Once the flags are parsed and the
    connection is open: [Ping] calls the handler's; [Get], [Put] and [MultiPut] read the
    JSON of their one argument, missing, repeated and unknown fields included, and call
    the handler with that request; what is printed is the text of the handler's answer,
    or a nil answer and an error if the handler fails; the handler is left as the call
    leaves it and the connection is closed.  Request and answer have to fit. *)
Theorem main_calls_handler arguments f args c :
  flag_Parse defaults arguments = Ok (f, args) -> dial program f start = (mkProcess "" [] (Some c), Go tt) ->
  (args = ["Ping"]%string -> fits (P := P) fuel (wire (Some NewKVPingArgs)) ->
     answered arguments (kv_Ping (server c)) (fun r => wire (Some (mkKVPingResult r))) Health_String id) /\
  (forall arg fs, args = ["Get"; arg]%string -> json arg (VStruct fs) ->
     let req : GetRequest := decode fs in
     acceptable GetRequest fs = true -> fits (P := P) fuel (wire (Some (mkKVGetArgs (Some req)))) ->
     length (tokens_of (VStruct fs)) <= fuel ->
     answered arguments (kv_Get (server c) (Some req)) (fun r => wire (Some (mkKVGetResult r))) GetResponse_String
       (fmap filled_GetResponse)) /\
  (forall arg fs, args = ["Put"; arg]%string -> json arg (VStruct fs) ->
     let req : PutRequest := decode fs in
     acceptable PutRequest fs = true -> fits (P := P) fuel (wire (Some (mkKVPutArgs (Some req)))) ->
     length (tokens_of (VStruct fs)) <= fuel ->
     answered arguments (kv_Put (server c) (Some req)) (fun r => wire (Some (mkKVPutResult r))) PutResponse_String
       (fmap filled_PutResponse)) /\
  (forall arg vs, args = ["MultiPut"; arg]%string -> json arg (VList STRUCT vs) ->
     let reqs : list (option PutRequest) := map (fun v => Some (decode_value v)) vs in
     value_ok (VList STRUCT vs) = true -> accepts_list PutRequest (VList STRUCT vs) = true ->
     length (tokens_of (VList STRUCT vs)) <= fuel -> fits (P := P) fuel (wire (Some (mkKVMultiPutArgs reqs))) ->
     answered arguments (kv_MultiPut (server c) reqs) (fun r => wire (Some (mkKVMultiPutResult r))) PutResponse_String
       (fmap filled_PutResponse)).
Proof.
  intros Hf Hd. split; [|split; [|split]].
  - intros -> Hfit. eapply call_answered; [exact Hf|exact Hd|reflexivity|done|done|by apply Ping_remote].
  - intros arg fs -> Hj req Ha Hfit Hl. eapply call_answered; [exact Hf|exact Hd|reflexivity| |done|by apply (Get_remote fuel (Some req))].
    intros p. rewrite run_Get_argument. erewrite with_argument_reads; [done|exact Hj|exact (Read_reads (P := J) fuel zero fs Ha Hl)].
  - intros arg fs -> Hj req Ha Hfit Hl. eapply call_answered; [exact Hf|exact Hd|reflexivity| |done|by apply (Put_remote fuel (Some req))].
    intros p. rewrite run_Put_argument. erewrite with_argument_reads; [done|exact Hj|exact (Read_reads (P := J) fuel zero fs Ha Hl)].
  - intros arg vs -> Hj reqs Hok Ha Hl Hfit. pose proof (MultiPut_remote (P := P) fuel reqs c Hfit) as Hm.
    assert (((fun r => Some (default NewPutRequest r)) <$> reqs) = reqs) as Heq
      by (unfold reqs; rewrite <- list_fmap_compose; by apply list_fmap_ext).
    rewrite Heq in Hm. eapply call_answered; [exact Hf|exact Hd|reflexivity| |done|exact Hm].
    intros p. rewrite run_MultiPut_argument. by erewrite with_argument_reads; [|exact Hj|exact (requests_read _ Hok Ha Hl)].
Qed.
End Call.

(** ** Witnesses: a server that counts its reads, behind a connection of token lists *)
Section Demo.
#[local] Existing Instances range_in_key_order numbered token_protocol token_stream token_laws demo_KV
  loopback_server demo_client demo_laws.

(** Every address can be dialed; a JSON text of six characters or more stands for a struct
    with it as first field, and a shorter one cannot be read. *)
#[local] Instance demo_library : Library string string nat tokens := {|
  url_Parse s := if has_char " " s then Err "invalid url"%string else Ok s;
  url_Host u := u; url_Scheme _ := "http"%string; url_String u := u;
  NewTHttpClient s := Ok s; SetHeader k v t := t; NewTSocket s := Ok s; NewTFramedTransport t := t;
  NewTStandardClient _ _ := 1; Open c := (c, None); Close c := c;
  NewTJSONProtocol s := Ok (mkTokens (if 6 <=? String.length s then tokens_of (VStruct [(1%Z, VString s)]) else []) [])
|}.
#[local] Existing Instance token_consumes.

Example main_calls_handler_witness :
  exists c, main (P := tokens) (J := tokens) 60 "k_v-remote" ["-h"; "box:9090"; "Get"; "config"]%string start =
    (mkProcess ("GetResponse({Header:ResponseHeader({ClusterID:0 NodeID:0 ConsumeTime:0 NodeIP:})" +:+
                " Kvs:[KeyValue({Key:config Value:v})]})" +:+ " <nil>" +:+ newline) [] (Some c), Go tt) /\ c = 2.
Proof.
  assert (Hd : dial "k_v-remote" (mkFlags "box:9090" 9090 "binary" "" false false ∅) start =
    (mkProcess "" [] (Some 1), Go tt)) by (vm_compute; reflexivity).
  destruct (main_calls_handler (P := tokens) (J := tokens) (C := nat) (K := nat) 60 "k_v-remote" ["-h"; "box:9090"; "Get"; "config"]%string
    _ ["Get"; "config"]%string 1 eq_refl Hd) as (_ & Hg & _).
  refine (Hg "config"%string [(1%Z, VString "config")] eq_refl _ eq_refl (demo_fits _ _) _ (demo_fits _ _)); [|simpl; lia..].
  by eexists.
Defined.

Example main_status_witness :
  let arguments := ["-h"; "box:9090"; "Get"; "config"]%string in
  exists p, main (P := tokens) (J := tokens) 60 "k_v-remote" arguments start = (p, Go tt) /\
    one_line (P := tokens) 60 arguments Close p.
Proof.
  set (arguments := ["-h"; "box:9090"; "Get"; "config"]%string). cbv zeta.
  assert (Hleft : forall text j, NewTJSONProtocol text = Ok j -> left_to_read j <= String.length text).
  { intros text j [= <-]. cbn. destruct (String.length text) as [|[|[|[|[|[|n]]]]]]; cbn; lia. }
  assert (Hshort : forall arg, arg ∈ arguments -> String.length arg < 60).
  { intros arg Ha. repeat (apply elem_of_cons in Ha as [->|Ha]; [simpl; lia|]). by apply not_elem_of_nil in Ha. }
  pose proof (main_status (URL := string) (Trans := string) (C := nat) (P := tokens) (J := tokens) 60 "k_v-remote"
    arguments Hleft Hshort) as Hm.
  assert (He : exists p, main (P := tokens) (J := tokens) 60 "k_v-remote" arguments start = (p, Go tt))
    by (eexists; vm_compute; reflexivity).
  destruct He as [p He]. rewrite He in Hm. exists p. split; [exact He|exact Hm].
Defined.

Example http_needs_url_witness :
  main (P := tokens) (J := tokens) 60 "k_v-remote" ["-http"; "-p"; "80"; "Ping"]%string start = (start, Crashed).
Proof.
  exact (http_needs_url (URL := string) (Trans := string) (C := nat) (P := tokens) (J := tokens) 60 "k_v-remote" ["-http"; "-p"; "80"; "Ping"]%string
    (mkFlags "localhost" 80 "binary" "" false true ∅) ["Ping"]%string eq_refl eq_refl eq_refl).
Defined.

(** The first lines of an unknown flag, and of an address without its port. *)
Example main_unknown_flag :
  let '(p, e) := main (P := tokens) (J := tokens) 60 "k_v-remote" ["-f"; "Ping"]%string start in
  head (stderr p) = Some (FlagError (NotDefined "f")) /\ e = Exited 0.
Proof. vm_compute. by split. Qed.
Example main_bad_host :
  main (P := tokens) (J := tokens) 60 "k_v-remote" ["-h"; "[::1]"; "Ping"]%string start =
    (mkProcess "" [Line "error with host: address [::1]: missing port in address"] None, Exited 1).
Proof. reflexivity. Qed.
End Demo.
