(* ===== verification/LoadClient.v ===== *)
(** * test/grpc/client and test/thrift/client: the load generators

    Each client runs goroutines over two buffered channels, a request queue, a wait
    group and a channel that [Stop] closes.  A goroutine is where it stands in its
    loop; the system is the shared state and the goroutines, and one step is one step
    of one of them, at the points where it can wait or where others can come between.
    What the remote calls answer is left open.  The log keeps what was handed over. *)
From S2P Require Import Prelude.
From S2P Require Import MessageQueue.
From S2P Require Import KVServers.

#[local] Abbreviation request := (option PutRequest).

(** What happened to a key: it was queued, found the queue full, was handed out in a
    batch, handed to a stream or a batch call, put or read on its own. *)
Inductive event : Type :=
| EAdded (req : request) | ERefused (req : request) | EBatch (reqs : list request)
| ESend (req : request) | EPut (kv : string) | EGet (kv : string).

(* src/test/grpc/client/client.go:22-38 TestGrpcClient *)
Record TestClient : Type := mkTestClient {
  sendChan : list string;
  recvChan : list string;
  mq : EntryQueue PutRequest;
  exitchan : bool;
  wg : Z;
  log : list event
}.

(** Where a goroutine stands: before its [wg.Add(1)], at the [select] of its loop, with a
    key to push, sending a batch from its [i]-th request; over, or gone without
    [wg.Done()]. *)
Inductive goroutine : Type :=
| GenStart | GenLoop | GenPut (read : bool) (kv : string)
| ConsumeStart | ConsumeLoop | ConsumeSend (reqs : Slice) (i : nat)
| SingleStart | SingleLoop
| MultiStart | MultiLoop
| RecvStart | RecvLoop
| Flush | FlushSend (reqs : Slice) (i : nat)
| Over | Left.

Definition add_wg (c : TestClient) (d : Z) : TestClient :=
  mkTestClient (sendChan c) (recvChan c) (mq c) (exitchan c) (wg c + d) (log c).
Definition set_mq (c : TestClient) (q : EntryQueue PutRequest) : TestClient :=
  mkTestClient (sendChan c) (recvChan c) q (exitchan c) (wg c) (log c).
Definition set_send (c : TestClient) (l : list string) : TestClient :=
  mkTestClient l (recvChan c) (mq c) (exitchan c) (wg c) (log c).
Definition set_recv (c : TestClient) (l : list string) : TestClient :=
  mkTestClient (sendChan c) l (mq c) (exitchan c) (wg c) (log c).
Definition note (c : TestClient) (e : event) : TestClient :=
  mkTestClient (sendChan c) (recvChan c) (mq c) (exitchan c) (wg c) (log c ++ [e]).

(** The loop a goroutine enters after [wg.Add(1)]. *)
Definition loop_of (g : goroutine) : option goroutine :=
  match g with
  | GenStart => Some GenLoop | ConsumeStart => Some ConsumeLoop | SingleStart => Some SingleLoop
  | MultiStart => Some MultiLoop | RecvStart => Some RecvLoop | _ => None
  end.

(** A batch as it is taken from the queue. *)
Definition take_batch (c : TestClient) (c' : TestClient) (reqs : Slice) : Prop :=
  exists q, EntryQueue_Get (mq c) = Ret (q, reqs) /\ c' = note (set_mq c q) (EBatch (read_slice q reqs)).

(** [reqs[i]], as the buffer reads now. *)
Definition batch_at (c : TestClient) (reqs : Slice) (i : nat) : option request := read_slice (mq c) reqs !! i.

Definition req_of (kv : string) : request := Some (mkPutRequest kv kv).

(** [tc.mq.Add(req)] by [MultiSend], which calls its first result [full]: when it is
    false the queue is full, a flush is started and the request is dropped. *)
(* src/test/grpc/client/client.go:170-174 TestGrpcClient.MultiSend *)
Inductive multi_add (c : TestClient) : TestClient -> list goroutine -> Prop :=
| multi_added kv rest q st : sendChan c = kv :: rest -> EntryQueue_Add (mq c) (req_of kv) = Ret (q, (true, st)) ->
    multi_add c (note (set_mq (set_send c rest) q) (EAdded (req_of kv))) []
| multi_full kv rest q st : sendChan c = kv :: rest -> EntryQueue_Add (mq c) (req_of kv) = Ret (q, (false, st)) ->
    multi_add c (note (set_mq (set_send c rest) q) (ERefused (req_of kv))) [Flush].

(** ** The grpc client *)
Definition grpc_chan_cap : nat := 2000.

(** At a [select] that also waits for [exitchan]. *)
Definition grpc_selects (g : goroutine) : bool :=
  match g with
  | GenLoop | GenPut _ _ | ConsumeLoop | SingleLoop | MultiLoop | RecvLoop => true | _ => false
  end.

(* src/test/grpc/client/client.go:72-229 TestGrpcClient.consumeMQ *)
Inductive grpc_step (rwRatio : Z) (c : TestClient) : goroutine -> TestClient -> goroutine -> list goroutine -> Prop :=
| g_start g loop : loop_of g = Some loop -> grpc_step rwRatio c g (add_wg c 1) loop []
| g_exit g : grpc_selects g = true -> exitchan c = true -> grpc_step rwRatio c g (add_wg c (-1)) Over []
| g_gen n kv : exitchan c = false -> (0 <= n < 100)%Z ->
    grpc_step rwRatio c GenLoop c (GenPut (bool_decide (n < rwRatio)%Z) kv) []
| g_push_recv kv : length (recvChan c) < grpc_chan_cap ->
    grpc_step rwRatio c (GenPut true kv) (set_recv c (recvChan c ++ [kv])) GenLoop []
| g_push_send kv : length (sendChan c) < grpc_chan_cap ->
    grpc_step rwRatio c (GenPut false kv) (set_send c (sendChan c ++ [kv])) GenLoop []
| g_tick_no_stream : grpc_step rwRatio c ConsumeLoop c ConsumeLoop []
| g_tick c' reqs : take_batch c c' reqs -> grpc_step rwRatio c ConsumeLoop c' (ConsumeSend reqs 0) []
| g_consume_send reqs i req : (Z.of_nat i < s_len reqs)%Z -> batch_at c reqs i = Some req ->
    grpc_step rwRatio c (ConsumeSend reqs i) (note c (ESend req)) (ConsumeSend reqs (S i)) []
| g_consume_sent reqs i : (s_len reqs <= Z.of_nat i)%Z -> grpc_step rwRatio c (ConsumeSend reqs i) c ConsumeLoop []
| g_single kv rest : sendChan c = kv :: rest ->
    grpc_step rwRatio c SingleLoop (note (set_send c rest) (EPut kv)) SingleLoop []
| g_multi c' new : multi_add c c' new -> grpc_step rwRatio c MultiLoop c' MultiLoop new
| g_flush_no_stream : grpc_step rwRatio c Flush c Over []
| g_flush c' reqs : take_batch c c' reqs -> grpc_step rwRatio c Flush c' (FlushSend reqs 0) []
| g_flush_send reqs i req : (Z.of_nat i < s_len reqs)%Z -> batch_at c reqs i = Some req ->
    grpc_step rwRatio c (FlushSend reqs i) (note c (ESend req)) (FlushSend reqs (S i)) []
| g_flush_sent reqs i : (s_len reqs <= Z.of_nat i)%Z -> grpc_step rwRatio c (FlushSend reqs i) c Over []
| g_recv kv rest : recvChan c = kv :: rest ->
    grpc_step rwRatio c RecvLoop (note (set_recv c rest) (EGet kv)) RecvLoop [].

(** ** The thrift client *)
Definition thrift_chan_cap : nat := 1000.

(** Here a push does not wait for [exitchan]. *)
Definition thrift_selects (g : goroutine) : bool :=
  match g with GenLoop | ConsumeLoop | SingleLoop | MultiLoop => true | _ => false end.

(** A batch is sent by one [MultiPut], which reads the requests one after the other and
    can fail at any point, by its timeout at least. *)
(* src/test/thrift/client/client.go:64-187 TestThriftClient.genData *)
Inductive thrift_step (rwRatio : Z) (c : TestClient) : goroutine -> TestClient -> goroutine -> list goroutine -> Prop :=
| t_start g loop : loop_of g = Some loop -> g <> RecvStart -> thrift_step rwRatio c g (add_wg c 1) loop []
| t_exit g : thrift_selects g = true -> exitchan c = true -> thrift_step rwRatio c g (add_wg c (-1)) Over []
| t_gen n kv : exitchan c = false -> (0 <= n < 100)%Z ->
    thrift_step rwRatio c GenLoop c (GenPut (bool_decide (n < rwRatio)%Z) kv) []
| t_push_recv kv : length (recvChan c) < thrift_chan_cap ->
    thrift_step rwRatio c (GenPut true kv) (set_recv c (recvChan c ++ [kv])) GenLoop []
| t_push_send kv : length (sendChan c) < thrift_chan_cap ->
    thrift_step rwRatio c (GenPut false kv) (set_send c (sendChan c ++ [kv])) GenLoop []
| t_tick_empty c' reqs : take_batch c c' reqs -> (s_len reqs <= 0)%Z -> thrift_step rwRatio c ConsumeLoop c' ConsumeLoop []
| t_tick c' reqs : take_batch c c' reqs -> (0 < s_len reqs)%Z ->
    thrift_step rwRatio c ConsumeLoop c' (ConsumeSend reqs 0) []
| t_consume_send reqs i req : (Z.of_nat i < s_len reqs)%Z -> batch_at c reqs i = Some req ->
    thrift_step rwRatio c (ConsumeSend reqs i) (note c (ESend req)) (ConsumeSend reqs (S i)) []
| t_consume_sent reqs i : (s_len reqs <= Z.of_nat i)%Z -> thrift_step rwRatio c (ConsumeSend reqs i) c ConsumeLoop []
| t_consume_failed reqs i : thrift_step rwRatio c (ConsumeSend reqs i) c Left []
| t_single kv rest : sendChan c = kv :: rest ->
    thrift_step rwRatio c SingleLoop (note (set_send c rest) (EPut kv)) SingleLoop []
| t_multi c' new : multi_add c c' new -> thrift_step rwRatio c MultiLoop c' MultiLoop new
| t_flush_empty c' reqs : take_batch c c' reqs -> (s_len reqs <= 0)%Z -> thrift_step rwRatio c Flush c' Over []
| t_flush c' reqs : take_batch c c' reqs -> (0 < s_len reqs)%Z -> thrift_step rwRatio c Flush c' (FlushSend reqs 0) []
| t_flush_send reqs i req : (Z.of_nat i < s_len reqs)%Z -> batch_at c reqs i = Some req ->
    thrift_step rwRatio c (FlushSend reqs i) (note c (ESend req)) (FlushSend reqs (S i)) []
| t_flush_over reqs i : thrift_step rwRatio c (FlushSend reqs i) c Over [].

(** ** The system *)
Record system : Type := mkSystem { client : TestClient; procs : list goroutine }.

(* src/test/grpc/client/client.go:232-232 TestGrpcClient.Stop *)
Definition close_exit (c : TestClient) : TestClient :=
  mkTestClient (sendChan c) (recvChan c) (mq c) true (wg c) (log c).

Section System.
Context (step : TestClient -> goroutine -> TestClient -> goroutine -> list goroutine -> Prop).

(** One goroutine takes a step, or the main one calls [Stop]. *)
Inductive sys_step : system -> system -> Prop :=
| sys_run l1 g l2 c c' g' new : step c g c' g' new ->
    sys_step (mkSystem c (l1 ++ g :: l2)) (mkSystem c' (l1 ++ g' :: l2 ++ new))
| sys_stop c ps : exitchan c = false -> sys_step (mkSystem c ps) (mkSystem (close_exit c) ps).
End System.

Definition new_client (size : Z) : outcome TestClient :=
  q ← NewEntryQueue size; Ret (mkTestClient [] [] q false 0 []).
(* src/test/grpc/client/client.go:40-62 NewTestGrpcClient *)
Definition NewTestGrpcClient : outcome system :=
  c ← new_client (1024 * 2); Ret (mkSystem c [GenStart; ConsumeStart]).
(* src/test/thrift/client/client.go:41-62 NewTestThriftClient *)
Definition NewTestThriftClient : outcome system :=
  c ← new_client 100; Ret (mkSystem c [GenStart; ConsumeStart]).

(** [main] starts the [workers], functions of the client, and calls [Stop] later. *)
Definition reachable (new : outcome system)
    (step : TestClient -> goroutine -> TestClient -> goroutine -> list goroutine -> Prop)
    (workers : list goroutine) (s : system) : Prop :=
  exists s0, new = Ret s0 /\ rtc (sys_step step) (mkSystem (client s0) (procs s0 ++ workers)) s.

Definition grpc_workers (ws : list goroutine) : Prop :=
  Forall (fun g => g = SingleStart \/ g = MultiStart \/ g = RecvStart) ws.
Definition thrift_workers (ws : list goroutine) : Prop := Forall (fun g => g = SingleStart \/ g = MultiStart) ws.

(** ** What every step keeps *)

(** What a goroutine holds of the wait group. *)
Definition held (g : goroutine) : Z :=
  match g with
  | GenLoop | GenPut _ _ | ConsumeLoop | ConsumeSend _ _ | SingleLoop | MultiLoop | RecvLoop | Left => 1
  | _ => 0
  end.
Definition held_all (ps : list goroutine) : Z := foldr (fun g n => (held g + n)%Z) 0%Z ps.

Lemma held_all_app ps qs : held_all (ps ++ qs) = (held_all ps + held_all qs)%Z.
Proof. induction ps as [|g ps IH]; simpl; [done|]. rewrite IH. lia. Qed.
Lemma held_all_zero ps : Forall (fun g => held g = 0%Z) ps -> held_all ps = 0%Z.
Proof. induction 1 as [|g ps Hg _ IH]; [done|]. unfold held_all in *. simpl. lia. Qed.
Lemma held_nonneg g : (0 <= held g)%Z.
Proof. destruct g; simpl; lia. Qed.
Lemma held_all_nonneg ps : (0 <= held_all ps)%Z.
Proof. induction ps as [|g ps IH]; simpl; [lia|]. pose proof (held_nonneg g). lia. Qed.

(** The requests the queue accepted and the ones it handed out. *)
Definition added (l : list event) : list request := omap (fun e => match e with EAdded r => Some r | _ => None end) l.
Definition handed (l : list event) : list request := concat (omap (fun e => match e with EBatch rs => Some rs | _ => None end) l).

Lemma added_app l k : added (l ++ k) = added l ++ added k.
Proof. apply omap_app. Qed.
Lemma handed_app l k : handed (l ++ k) = handed l ++ handed k.
Proof. unfold handed. by rewrite omap_app, concat_app. Qed.

Lemma handed_batch rs : handed [EBatch rs] = rs.
Proof. unfold handed. simpl. apply app_nil_r. Qed.

(** The batch of a goroutine fits the buffers. *)
Definition batch_ok (size : Z) (g : goroutine) : Prop :=
  match g with ConsumeSend reqs _ | FlushSend reqs _ => (s_len reqs <= size)%Z | _ => True end.

Record client_ok (size : Z) (c : TestClient) : Prop := {
  ok_queue : in_use size (mq c);
  ok_log : added (log c) = handed (log c) ++ pending (mq c)
}.
Record sys_ok (size : Z) (s : system) : Prop := {
  ok_client : client_ok size (client s);
  ok_batches : Forall (batch_ok size) (procs s);
  ok_wg : wg (client s) = held_all (procs s)
}.

(** What a step of a goroutine has to do for this to hold. *)
Definition keeps (c : TestClient) (g : goroutine) (c' : TestClient) (g' : goroutine) (new : list goroutine) : Prop :=
  forall size, client_ok size c -> batch_ok size g ->
    client_ok size c' /\ batch_ok size g' /\ Forall (batch_ok size) new /\
    wg c' = (wg c + held g' + held_all new - held g)%Z.

Lemma take_batch_ok size c c' reqs :
  client_ok size c -> take_batch c c' reqs ->
  client_ok size c' /\ (s_len reqs <= size)%Z /\ wg c' = wg c /\ exitchan c' = exitchan c.
Proof.
  intros [Hq Hl] (q & Hg & ->). destruct (Get_in_use size (mq c) Hq) as (q' & s & Hg' & Hq' & Hr & Hp).
  rewrite Hg in Hg'. injection Hg' as <- <-. split; [|split; [|done]].
  - split; simpl; [done|]. by rewrite added_app, handed_app, handed_batch, Hl, Hp, Hr, !app_nil_r.
  - apply Get_target in Hg as (-> & _). simpl. destruct Hq as ([] & <- & _). lia.
Qed.

Lemma multi_add_ok size c c' new :
  client_ok size c -> multi_add c c' new ->
  client_ok size c' /\ wg c' = wg c /\ Forall (batch_ok size) new /\ held_all new = 0%Z.
Proof.
  intros [Hq Hl] Hm. destruct Hm as [kv rest q st Hs Ha|kv rest q st Hs Ha];
    pose proof (Add_in_use size (mq c) (req_of kv) Hq) as Hadd; case_decide; rewrite Ha in Hadd.
  - destruct Hadd as (q' & [= <- _] & Hq' & Hp). split; [|done]. split; simpl; [done|].
    by rewrite added_app, handed_app, Hl, Hp, app_nil_r, <- app_assoc.
  - done.
  - by destruct Hadd as (q' & [= ] & _).
  - injection Hadd as -> _. split; [|split; [done|]; split; [by repeat constructor|done]].
    split; simpl; [done|]. by rewrite added_app, handed_app, Hl, !app_nil_r.
Qed.

Lemma ok_same_queue size c c' :
  client_ok size c -> mq c' = mq c -> added (log c') = added (log c) -> handed (log c') = handed (log c) ->
  client_ok size c'.
Proof. intros [Hq Hl] Hm Ha Hh. split; congruence. Qed.

Lemma note_ok size c e :
  client_ok size c -> added [e] = [] -> handed [e] = [] -> client_ok size (note c e).
Proof.
  intros Hc Ha Hh. eapply ok_same_queue; [exact Hc|done|simpl..]; [rewrite added_app, Ha|rewrite handed_app, Hh];
    apply app_nil_r.
Qed.

(** The cases of a step that leaves the queue as it is. *)
Ltac same_queue :=
  intros; intros size Hc Hb; split; [|split; [|split]];
  [first [by eapply ok_same_queue | by apply note_ok; [first [done | by eapply ok_same_queue]|..]]
  | done | done | simpl; lia].

Lemma start_keeps c g loop : loop_of g = Some loop -> keeps c g (add_wg c 1) loop [].
Proof. intros Hg. destruct g; try discriminate Hg; injection Hg as <-; by same_queue. Qed.
Lemma exit_keeps c g : held g = 1%Z -> keeps c g (add_wg c (-1)) Over [].
Proof. intros Hg. same_queue. Qed.
Lemma batch_keeps c g c' reqs (g' : goroutine) :
  take_batch c c' reqs -> held g = held g' ->
  (forall size, (s_len reqs <= size)%Z -> batch_ok size g') -> keeps c g c' g' [].
Proof.
  intros Ht Hh Hg' size Hc _. destruct (take_batch_ok size c c' reqs Hc Ht) as (Hc' & Hl & Hw & _).
  split; [done|]. split; [by apply Hg'|]. split; [done|]. simpl. lia.
Qed.
Lemma multi_keeps c c' new : multi_add c c' new -> keeps c MultiLoop c' MultiLoop new.
Proof.
  intros Hm size Hc _. destruct (multi_add_ok size c c' new Hc Hm) as (Hc' & Hw & Hn & Hh).
  split; [done|]. split; [done|]. split; [done|]. simpl. lia.
Qed.

Lemma grpc_step_keeps rw c g c' g' new : grpc_step rw c g c' g' new -> keeps c g c' g' new.
Proof.
  destruct 1; try (by same_queue); try (by eapply batch_keeps; eauto).
  - by apply start_keeps.
  - apply exit_keeps. by destruct g.
  - by apply multi_keeps.
Qed.
Lemma thrift_step_keeps rw c g c' g' new : thrift_step rw c g c' g' new -> keeps c g c' g' new.
Proof.
  destruct 1; try (by same_queue); try (by eapply batch_keeps; eauto).
  - by apply start_keeps.
  - apply exit_keeps. by destruct g.
  - by apply multi_keeps.
Qed.

Section Invariant.
Context (step : TestClient -> goroutine -> TestClient -> goroutine -> list goroutine -> Prop).
Context (step_keeps : forall c g c' g' new, step c g c' g' new -> keeps c g c' g' new).

Lemma sys_step_ok size s s' : sys_step step s s' -> sys_ok size s -> sys_ok size s'.
Proof using step_keeps.
  intros [l1 g l2 c c' g' new Hs|c ps He] [Hc Hb Hw]; simpl in *.
  - apply Forall_app in Hb as [Hb1 [Hbg Hb2]%Forall_cons]. destruct (step_keeps _ _ _ _ _ Hs size Hc Hbg) as (Hc' & Hg' & Hn & Hwg).
    split; simpl; [done|by rewrite Forall_app, Forall_cons, Forall_app|].
    rewrite Hwg, Hw, !held_all_app. simpl. rewrite held_all_app. lia.
  - split; [|done..]. by destruct Hc.
Qed.

Lemma steps_ok size s s' : rtc (sys_step step) s s' -> sys_ok size s -> sys_ok size s'.
Proof using step_keeps. induction 1 as [s|s s1 s2 Hs _ IH]; [done|]. intros Hok. by eapply IH, sys_step_ok. Qed.

Lemma reachable_ok size workers new s :
  (0 <= size <= maxInt64)%Z -> new = (c ← new_client size; Ret (mkSystem c [GenStart; ConsumeStart])) ->
  Forall (fun g => held g = 0%Z /\ batch_ok size g) workers -> reachable new step workers s -> sys_ok size s.
Proof using step_keeps.
  intros Hsize -> Hws (s0 & Hnew & Hs). destruct (NewEntryQueue_in_use (A := PutRequest) size Hsize) as (q & Hq & Hin & Hp).
  unfold new_client in Hnew. rewrite Hq in Hnew. injection Hnew as <-. eapply steps_ok; [exact Hs|]. simpl. split; simpl.
  - split; [done|]. change ([] = pending q). by rewrite Hp.
  - repeat (constructor; [done|]). eapply Forall_impl; [exact Hws|]. by intros g [_ ?].
  - symmetry. apply (held_all_zero workers). eapply Forall_impl; [exact Hws|]. by intros g [? _].
Qed.
End Invariant.

(** ** Stopping the grpc client *)
Lemma run_one (step : TestClient -> goroutine -> TestClient -> goroutine -> list goroutine -> Prop) l1 g l2 c c' g' :
  step c g c' g' [] -> sys_step step (mkSystem c (l1 ++ g :: l2)) (mkSystem c' (l1 ++ g' :: l2)).
Proof. intros Hs. rewrite <- (app_nil_r l2) at 2. by apply sys_run. Qed.

Lemma sys_step_inv (step : TestClient -> goroutine -> TestClient -> goroutine -> list goroutine -> Prop) c ps s' :
  sys_step step (mkSystem c ps) s' ->
  (exists g c' g' new, g ∈ ps /\ step c g c' g' new) \/ exitchan c = false.
Proof.
  inversion 1 as [l1 g l2 ? c' g' new Hst|]; subst; [left|by right].
  exists g, c', g', new. split; [apply elem_of_app; right; left|done].
Qed.

Lemma batch_at_some size c reqs i :
  in_use size (mq c) -> (s_len reqs <= size)%Z -> (Z.of_nat i < s_len reqs)%Z -> exists req, batch_at c reqs i = Some req.
Proof.
  intros ([] & <- & _) Hl Hi. unfold batch_at, read_slice. apply lookup_lt_is_Some. rewrite length_take.
  destruct (s_left reqs); lia.
Qed.

(** It is over for the wait group: it holds nothing and will not hold anything. *)
Definition settled (g : goroutine) : Prop := held g = 0%Z /\ loop_of g = None.

Section GrpcStop.
Context (rw : Z).
#[local] Abbreviation steps := (rtc (sys_step (grpc_step rw))).

Lemma grpc_exit_one c l1 g l2 :
  grpc_selects g = true -> exitchan c = true ->
  steps (mkSystem c (l1 ++ g :: l2)) (mkSystem (add_wg c (-1)) (l1 ++ Over :: l2)).
Proof. intros Hg He. apply rtc_once, run_one. by apply g_exit. Qed.

(** A batch that is being sent is sent to its end. *)
Lemma grpc_send_all n c l1 reqs i l2 size :
  in_use size (mq c) -> (s_len reqs <= size)%Z -> Z.to_nat (s_len reqs) - i = n ->
  exists c', steps (mkSystem c (l1 ++ ConsumeSend reqs i :: l2)) (mkSystem c' (l1 ++ ConsumeLoop :: l2)) /\
    exitchan c' = exitchan c.
Proof.
  intros Hq Hl. revert c i Hq. induction n as [|n IH]; intros c i Hq Hn.
  - exists c. split; [|done]. apply rtc_once, run_one, g_consume_sent. lia.
  - destruct (batch_at_some size c reqs i Hq Hl ltac:(lia)) as [req Hr].
    destruct (IH (note c (ESend req)) (S i) Hq ltac:(lia)) as (c' & Hs & He). exists c'. split; [|done].
    eapply rtc_l; [|exact Hs]. apply run_one, g_consume_send; [lia|done].
Qed.

Lemma grpc_settle_one size c l1 g l2 :
  in_use size (mq c) -> batch_ok size g -> exitchan c = true -> g <> Left ->
  exists c' g', steps (mkSystem c (l1 ++ g :: l2)) (mkSystem c' (l1 ++ g' :: l2)) /\
    exitchan c' = true /\ settled g'.
Proof.
  intros Hq Hb He Hg. destruct (loop_of g) as [loop|] eqn:Hloop.
  { exists (add_wg (add_wg c 1) (-1)), Over. split; [|done]. eapply rtc_l; [by apply run_one, g_start|].
    apply grpc_exit_one; [by destruct g; try discriminate Hloop; injection Hloop as <-|done]. }
  destruct (grpc_selects g) eqn:Hsel; [exists (add_wg c (-1)), Over; split; [by apply grpc_exit_one|done]|].
  destruct g; try done; try (by exists c; eexists; split; [apply rtc_refl|split; [done|by split]]).
  destruct (grpc_send_all _ c l1 reqs i l2 size Hq Hb eq_refl) as (c' & Hs & He').
  exists (add_wg c' (-1)), Over. split; [|split; [exact (eq_trans He' He)|by split]].
  etrans; [exact Hs|]. apply grpc_exit_one; [done|congruence].
Qed.

Lemma grpc_settle_all size c l1 l2 :
  sys_ok size (mkSystem c (l1 ++ l2)) -> exitchan c = true -> Left ∉ l2 -> Forall settled l1 ->
  exists c' ps, steps (mkSystem c (l1 ++ l2)) (mkSystem c' ps) /\ Forall settled ps.
Proof.
  revert c l1. induction l2 as [|g l2 IH]; intros c l1 Hok He Hleft Hl1.
  { exists c, l1. rewrite app_nil_r. split; [apply rtc_refl|done]. }
  pose proof (ok_client _ _ Hok) as [Hq _]. pose proof (ok_batches _ _ Hok) as Hb. simpl in Hb.
  apply Forall_app in Hb as [_ [Hb _]%Forall_cons]. apply not_elem_of_cons in Hleft as [Hg Hleft].
  destruct (grpc_settle_one size c l1 g l2 Hq Hb He ltac:(by intros ->)) as (c1 & g1 & Hs & He1 & Hg1).
  pose proof (steps_ok _ (grpc_step_keeps rw) _ _ _ Hs Hok) as Hok1.
  replace (l1 ++ g1 :: l2) with ((l1 ++ [g1]) ++ l2) in * by by rewrite <- app_assoc.
  destruct (IH c1 (l1 ++ [g1]) Hok1 He1 Hleft) as (c2 & ps & Hs2 & Hps).
  { apply Forall_app. split; [done|]. by apply Forall_singleton. }
  exists c2, ps. split; [|done]. by etrans.
Qed.

Lemma grpc_no_left s s' : steps s s' -> Left ∉ procs s -> Left ∉ procs s'.
Proof.
  induction 1 as [s|s s1 s2 Hs _ IH]; [done|]. intros Hn. apply IH. clear IH.
  destruct Hs as [l1 g l2 c c' g' new Hst|c ps He]; simpl in *; [|done].
  assert (g' <> Left /\ Left ∉ new) as [Hg Hnew].
  { destruct Hst as [g loop Hl| | | | | | | | | |c' new Hm| | | | |]; try (split; [done|apply not_elem_of_nil]).
    - split; [by destruct g; try discriminate Hl; injection Hl as <-|apply not_elem_of_nil].
    - split; [done|]. destruct Hm; [apply not_elem_of_nil|]. by intros ?%list_elem_of_singleton. }
  apply not_elem_of_app in Hn as [Hn1 [_ Hn2]%not_elem_of_cons]. apply not_elem_of_app. split; [done|].
  apply not_elem_of_cons. split; [congruence|]. by apply not_elem_of_app.
Qed.

(** The grpc load generator can always be stopped.  In every state its goroutines
    reach after [Stop] closed the exit channel, whatever the remote calls answered,
    they can all run to their end, and the wait group is then zero, so that [Stop]
    returns; the wait group always counts the goroutines that have begun their loop
    and not left it. *)
Theorem grpc_stop_completes workers s :
  grpc_workers workers -> reachable NewTestGrpcClient (grpc_step rw) workers s ->
  wg (client s) = held_all (procs s) /\
  (exitchan (client s) = true ->
   exists s', steps s s' /\ wg (client s') = 0%Z /\ Forall settled (procs s')).
Proof.
  intros Hws Hr. assert (Hok : sys_ok 2048 s).
  { eapply (reachable_ok _ (grpc_step_keeps rw)); [unfold maxInt64; lia|reflexivity| |exact Hr].
    eapply Forall_impl; [exact Hws|]. by intros g [->|[->| ->]]. }
  split; [apply (ok_wg _ _ Hok)|]. intros He. assert (Hleft : Left ∉ procs s).
  { destruct Hr as (s0 & Hn & Hs). eapply grpc_no_left; [exact Hs|]. simpl.
    apply outcome_bind_Ret in Hn as (c0 & _ & [= <-]). simpl. rewrite !not_elem_of_cons.
    split; [done|]. split; [done|]. intros Hin. by destruct (proj1 (Forall_forall _ _) Hws _ Hin) as [|[|]]. }
  destruct s as [c ps]. destruct (grpc_settle_all 2048 c [] ps Hok He Hleft ltac:(constructor)) as (c' & ps' & Hs & Hps).
  exists (mkSystem c' ps'). split; [exact Hs|]. split; [|exact Hps].
  rewrite (ok_wg _ _ (steps_ok _ (grpc_step_keeps rw) _ _ _ Hs Hok)). apply held_all_zero.
  eapply Forall_impl; [exact Hps|]. by intros g [? _].
Qed.
End GrpcStop.

(** ** Loading the queue *)
Section Load.
Context (step : TestClient -> goroutine -> TestClient -> goroutine -> list goroutine -> Prop).
Context (step_gen : forall c kv, exitchan c = false -> step c GenLoop c (GenPut false kv) []).
Context (step_push : forall c kv, sendChan c = [] -> step c (GenPut false kv) (set_send c [kv]) GenLoop []).
Context (step_multi : forall c c' new, multi_add c c' new -> step c MultiLoop c' MultiLoop new).

(** The generator, [g2] and a [MultiSend], on a queue of [size] with these requests. *)
Definition loading (size : Z) (g2 : goroutine) (l1 l2 : list goroutine) (reqs : list request) (s : system) : Prop :=
  procs s = GenLoop :: g2 :: l1 ++ MultiLoop :: l2 /\ sendChan (client s) = [] /\ exitchan (client s) = false /\
  in_use size (mq (client s)) /\ pending (mq (client s)) = reqs.

(** A key reaches the [MultiSend]. *)
Lemma load_multi size g2 l1 l2 reqs s kv :
  loading size g2 l1 l2 reqs s ->
  exists c, rtc (sys_step step) s (mkSystem c (procs s)) /\ sendChan c = [kv] /\ exitchan c = false /\ mq c = mq (client s).
Proof using step_gen step_push.
  intros (Hp & Hs & He & _). destruct s as [c ps]. simpl in *. subst ps.
  exists (set_send c [kv]). split; [|done].
  eapply rtc_l; [by apply (run_one step [] GenLoop _ _ c (GenPut false kv)), step_gen|].
  apply rtc_once. by apply (run_one step [] (GenPut false kv)), step_push.
Qed.

Lemma multi_run c c' new l1 l2 :
  multi_add c c' new ->
  sys_step step (mkSystem c (l1 ++ MultiLoop :: l2)) (mkSystem c' (l1 ++ MultiLoop :: l2 ++ new)).
Proof using step_multi. intros Hm. by apply sys_run, step_multi. Qed.

Lemma load_one size g2 l1 l2 reqs s kv :
  loading size g2 l1 l2 reqs s -> (Z.of_nat (length reqs) < size)%Z ->
  exists s', rtc (sys_step step) s s' /\ loading size g2 l1 l2 (reqs ++ [req_of kv]) s'.
Proof using All.
  intros Hl Hlt. destruct (load_multi _ _ _ _ _ _ kv Hl) as (c & Hs & Hsend & He & Hm).
  destruct Hl as (Hp & _ & _ & Hq & Hreqs). rewrite <- Hm in Hq, Hreqs.
  pose proof (Add_in_use size (mq c) (req_of kv) Hq) as Ha. rewrite Hreqs in Ha. rewrite decide_True in Ha by done.
  destruct Ha as (q' & Ha & Hq' & Hpend).
  exists (mkSystem (note (set_mq (set_send c []) q') (EAdded (req_of kv))) (procs s)). split; [|by rewrite Hp].
  etrans; [exact Hs|]. rewrite Hp. apply rtc_once.
  pose proof (multi_run c _ [] (GenLoop :: g2 :: l1) l2 (multi_added c kv [] q' false Hsend Ha)) as Hr.
  by rewrite app_nil_r in Hr.
Qed.

Lemma load_many size g2 l1 l2 kv n s :
  loading size g2 l1 l2 [] s -> (Z.of_nat n <= size)%Z ->
  exists s', rtc (sys_step step) s s' /\ loading size g2 l1 l2 (replicate n (req_of kv)) s'.
Proof using All.
  intros Hl. induction n as [|n IH]; intros Hn; [by exists s|].
  destruct (IH ltac:(lia)) as (s1 & Hs1 & Hl1).
  destruct (load_one _ _ _ _ _ _ kv Hl1 ltac:(rewrite length_replicate; lia)) as (s2 & Hs2 & Hl2).
  exists s2. split; [by etrans|]. by rewrite replicate_S_end.
Qed.
End Load.

(** ** Stopping the thrift client *)
Section ThriftStop.
Context (rw : Z) (rw_writes : (rw < 100)%Z).
#[local] Abbreviation step := (thrift_step rw).
#[local] Abbreviation steps := (rtc (sys_step step)).

Lemma thrift_gen c kv : exitchan c = false -> step c GenLoop c (GenPut false kv) [].
Proof using rw_writes.
  intros He. replace false with (bool_decide (99 < rw)%Z) by (apply bool_decide_eq_false; lia). apply t_gen; [done|lia].
Qed.
Lemma thrift_push c kv : sendChan c = [] -> step c (GenPut false kv) (set_send c [kv]) GenLoop [].
Proof. intros Hs. pose proof (t_push_send rw c kv) as Ht. rewrite Hs in Ht. apply Ht. unfold thrift_chan_cap. simpl. lia. Qed.

(** A goroutine that is gone without [wg.Done()] keeps what it holds. *)
Lemma left_stays s s' : steps s s' -> Left ∈ procs s -> Left ∈ procs s'.
Proof.
  induction 1 as [s|s s1 s2 Hs _ IH]; [done|]. intros Hin. apply IH. clear IH.
  destruct Hs as [l1 g l2 c c' g' new Hst|c ps He]; simpl in *; [|done].
  apply elem_of_app in Hin as [Hin|Hin]; [apply elem_of_app; by left|].
  apply elem_of_cons in Hin as [<-|Hin]; [by inversion Hst|].
  apply elem_of_app. right. right. apply elem_of_app. by left.
Qed.

Lemma left_held ps : Left ∈ ps -> (0 < held_all ps)%Z.
Proof.
  intros (l1 & l2 & ->)%list_elem_of_split. rewrite held_all_app. simpl.
  pose proof (held_all_nonneg l1). pose proof (held_all_nonneg l2). lia.
Qed.

Lemma thrift_reachable_ok workers s :
  thrift_workers workers -> reachable NewTestThriftClient step workers s -> sys_ok 100 s.
Proof.
  intros Hws Hr. eapply (reachable_ok _ (thrift_step_keeps rw)); [unfold maxInt64; lia|reflexivity| |exact Hr].
  eapply Forall_impl; [exact Hws|]. by intros g [->| ->].
Qed.

(** The start, with a [MultiSend] among the workers. *)
Lemma thrift_loading w1 w2 :
  exists s, reachable NewTestThriftClient step (w1 ++ MultiStart :: w2) s /\ loading 100 ConsumeStart w1 w2 [] s.
Proof.
  destruct (NewEntryQueue_in_use (A := PutRequest) 100 ltac:(unfold maxInt64; lia)) as (q & Hq & Hin & Hp).
  set (c := mkTestClient [] [] q false 0 []).
  exists (mkSystem (add_wg (add_wg c 1) 1) (GenLoop :: ConsumeStart :: w1 ++ MultiLoop :: w2)). split; [|done].
  exists (mkSystem c [GenStart; ConsumeStart]). split; [unfold NewTestThriftClient, new_client; by rewrite Hq|].
  simpl. eapply rtc_l; [by apply (run_one step [] GenStart), t_start|].
  apply rtc_once. by apply (run_one step (GenLoop :: ConsumeStart :: w1) MultiStart), t_start.
Qed.

Lemma reachable_steps new st workers s s' : reachable new st workers s -> rtc (sys_step st) s s' -> reachable new st workers s'.
Proof. intros (s0 & Hn & Hr) Hs. exists s0. split; [done|]. by etrans. Qed.

(** A batch fails: [consumeMQ] returns. *)
Lemma thrift_consume_fails w1 w2 :
  exists s, reachable NewTestThriftClient step (w1 ++ MultiStart :: w2) s /\ exitchan (client s) = true /\ Left ∈ procs s.
Proof using rw_writes.
  destruct (thrift_loading w1 w2) as (s0 & Hr0 & Hl0).
  destruct (load_one _ thrift_gen thrift_push (t_multi rw) 100 _ _ _ _ _ "k" Hl0 ltac:(simpl; lia))
    as ([c ps] & Hs1 & Hp & Hsend & He & Hq & Hpend). simpl in *. subst ps.
  pose proof (reachable_steps _ _ _ _ _ Hr0 Hs1) as Hr1. clear Hr0 Hl0 Hs1.
  destruct (Get_in_use 100 (mq c) Hq) as (q' & reqs & Hg & Hq' & Hread & _). rewrite Hpend in Hread.
  set (c1 := add_wg c 1). set (c2 := note (set_mq c1 q') (EBatch (read_slice q' reqs))).
  exists (mkSystem (close_exit c2) (GenLoop :: Left :: w1 ++ MultiLoop :: w2)).
  split; [|split; [done|by right; left]]. eapply reachable_steps; [exact Hr1|].
  eapply rtc_l; [by apply (run_one step [GenLoop] ConsumeStart _ _ c1), t_start|].
  eapply rtc_l; [apply (run_one step [GenLoop] ConsumeLoop _ _ c2 (ConsumeSend reqs 0)), t_tick; [by exists q'|]|].
  { unfold read_slice in Hread. destruct (s_len reqs); simpl in *; try lia; done. }
  eapply rtc_l; [apply (run_one step [GenLoop] (ConsumeSend reqs 0) _ _ c2 Left), t_consume_failed|].
  apply rtc_once. by apply sys_stop.
Qed.

(** Nobody takes the keys: the generator fills the channel. *)
Lemma thrift_fill n c ws :
  exitchan c = false -> length (sendChan c) + n <= thrift_chan_cap ->
  exists c', steps (mkSystem c (GenLoop :: ws)) (mkSystem c' (GenLoop :: ws)) /\
    exitchan c' = false /\ length (sendChan c') = length (sendChan c) + n.
Proof using rw_writes.
  revert c. induction n as [|n IH]; intros c He Hn; [exists c; split; [done|split; [done|lia]]|].
  destruct (IH (set_send c (sendChan c ++ ["k"%string])) He) as (c' & Hs & He' & Hl).
  { simpl. rewrite length_app. simpl. lia. }
  exists c'. split; [|split; [done|rewrite Hl; simpl; rewrite length_app; simpl; lia]].
  eapply rtc_l; [by apply (run_one step [] GenLoop _ c c (GenPut false "k")), thrift_gen|].
  eapply rtc_l; [apply (run_one step [] (GenPut false "k")), t_push_send; lia|exact Hs].
Qed.

Lemma thrift_others_over l1 ws c :
  exitchan c = true -> Forall (fun g => g = ConsumeStart \/ g = SingleStart \/ g = MultiStart) ws ->
  exists c', steps (mkSystem c (l1 ++ ws)) (mkSystem c' (l1 ++ replicate (length ws) Over)) /\
    exitchan c' = true /\ sendChan c' = sendChan c.
Proof.
  intros He Hws. revert l1 c He. induction Hws as [|g ws Hg _ IH]; intros l1 c He; [by exists c|].
  destruct (IH (l1 ++ [Over]) (add_wg (add_wg c 1) (-1)) He) as (c' & Hs & He' & Hsend).
  exists c'. rewrite <- !app_assoc in Hs. split; [|done]. simpl.
  assert (exists loop, loop_of g = Some loop /\ thrift_selects loop = true /\ g <> RecvStart) as (loop & Hl & Hsel & Hne).
  { destruct Hg as [->|[->| ->]]; by eexists. }
  eapply rtc_l; [by apply run_one, t_start|]. eapply rtc_l; [by apply run_one, t_exit|exact Hs].
Qed.

(** The generator waits for room in the channel that nobody makes. *)
Definition stuck (s : system) : Prop := forall s', steps s s' -> s' = s.

Lemma generator_stuck c n :
  exitchan c = true -> length (sendChan c) = thrift_chan_cap -> stuck (mkSystem c (GenPut false "k" :: replicate n Over)).
Proof.
  intros He Hl s' Hs. inversion Hs as [|s1 s2 s3 Hstep Hrest]; subst; [done|]. exfalso.
  apply sys_step_inv in Hstep as [(g & c' & g' & new & Hin & Hst)|Hf]; [|congruence].
  apply elem_of_cons in Hin as [->|[-> _]%elem_of_replicate].
  - inversion Hst; subst; simpl in *; try discriminate; lia.
  - by inversion Hst.
Qed.

Lemma thrift_generator_hangs workers :
  thrift_workers workers ->
  exists s, reachable NewTestThriftClient step workers s /\ exitchan (client s) = true /\ stuck s /\
    exists n, procs s = GenPut false "k" :: replicate n Over.
Proof using rw_writes.
  intros Hws. destruct (NewEntryQueue_in_use (A := PutRequest) 100 ltac:(unfold maxInt64; lia)) as (q & Hq & _).
  set (c := mkTestClient [] [] q false 0 []).
  destruct (thrift_fill thrift_chan_cap (add_wg c 1) (ConsumeStart :: workers) eq_refl ltac:(simpl; lia)) as (c1 & Hs1 & He1 & Hl1).
  destruct (thrift_others_over [GenPut false "k"] (ConsumeStart :: workers) (close_exit c1) eq_refl) as (c2 & Hs2 & He2 & Hl2).
  { constructor; [by left|]. eapply Forall_impl; [exact Hws|]. intros g Hg. by right. }
  exists (mkSystem c2 (GenPut false "k" :: replicate (S (length workers)) Over)).
  split; [|split; [done|split; [|by eexists]]].
  - exists (mkSystem c [GenStart; ConsumeStart]). split; [unfold NewTestThriftClient, new_client; by rewrite Hq|].
    simpl. eapply rtc_l; [by apply (run_one step [] GenStart), t_start|]. etrans; [exact Hs1|].
    eapply rtc_l; [by apply (run_one step [] GenLoop _ c1 c1 (GenPut false "k")), thrift_gen|].
    eapply rtc_l; [by apply sys_stop|]. exact Hs2.
  - apply generator_stuck; [done|]. rewrite Hl2. simpl. rewrite Hl1. done.
Qed.

(** The thrift load generator cannot always be stopped.  Its wait group counts a
    [consumeMQ] that returned after a failed batch for ever, so once that has happened
    [Stop] never returns; and its generator pushes keys without watching the exit
    channel, so that with a full channel and no worker left nothing can move any more
    while the wait group is one. *)
Theorem thrift_stop_hangs :
  (forall workers s s', thrift_workers workers -> reachable NewTestThriftClient step workers s ->
     Left ∈ procs s -> steps s s' -> (0 < wg (client s'))%Z) /\
  (forall w1 w2, thrift_workers (w1 ++ MultiStart :: w2) ->
     exists s, reachable NewTestThriftClient step (w1 ++ MultiStart :: w2) s /\ exitchan (client s) = true /\
       Left ∈ procs s) /\
  (forall workers, thrift_workers workers ->
     exists s, reachable NewTestThriftClient step workers s /\ exitchan (client s) = true /\
       wg (client s) = 1%Z /\ stuck s).
Proof using rw_writes.
  split; [|split].
  - intros workers s s' Hws Hr Hin Hs.
    rewrite (ok_wg _ _ (thrift_reachable_ok _ _ Hws (reachable_steps _ _ _ _ _ Hr Hs))).
    by eapply left_held, left_stays.
  - intros w1 w2 _. apply thrift_consume_fails.
  - intros workers Hws. destruct (thrift_generator_hangs workers Hws) as (s & Hr & He & Hst & n & Hp).
    exists s. split; [done|]. split; [done|]. split; [|done].
    rewrite (ok_wg _ _ (thrift_reachable_ok _ _ Hws Hr)), Hp. simpl.
    rewrite (held_all_zero (replicate n Over)); [done|]. by apply Forall_replicate.
Qed.
End ThriftStop.

(** ** What becomes of the requests *)

(** A [MultiSend] that takes the key [kv] from the channel: its request is queued, or
    dropped because [size] requests are pending, and then a flush is started. *)
Definition queued_or_dropped (size : Z) (c : TestClient) (kv : string) (rest : list string) (c' : TestClient)
    (new : list goroutine) : Prop :=
  sendChan c' = rest /\
  if decide (Z.of_nat (length (pending (mq c))) < size)%Z
  then pending (mq c') = pending (mq c) ++ [req_of kv] /\ new = []
  else pending (mq c') = pending (mq c) /\ added (log c') = added (log c) /\ new = [Flush].

Lemma multi_add_spec size c c' new kv rest :
  in_use size (mq c) -> sendChan c = kv :: rest -> multi_add c c' new -> queued_or_dropped size c kv rest c' new.
Proof.
  intros Hq Hs Hm. unfold queued_or_dropped.
  destruct Hm as [kv' rest' q st Hs' Ha|kv' rest' q st Hs' Ha]; rewrite Hs in Hs'; injection Hs' as <- <-;
    (split; [done|]); pose proof (Add_in_use size (mq c) (req_of kv) Hq) as Hadd; case_decide; rewrite Ha in Hadd.
  - by destruct Hadd as (q' & [= <- _] & _ & Hp).
  - done.
  - by destruct Hadd as (q' & [= ] & _).
  - injection Hadd as -> _. split; [done|]. split; [|done]. simpl. by rewrite added_app, app_nil_r.
Qed.

Lemma grpc_reachable_ok rw workers s :
  grpc_workers workers -> reachable NewTestGrpcClient (grpc_step rw) workers s -> sys_ok 2048 s.
Proof.
  intros Hws Hr. eapply (reachable_ok _ (grpc_step_keeps rw)); [unfold maxInt64; lia|reflexivity| |exact Hr].
  eapply Forall_impl; [exact Hws|]. by intros g [->|[->| ->]].
Qed.

(** C23: where the requests of [MultiSend] go.  In every reachable state of either client
    the requests the queue accepted are, in order, those of the batches handed out
    followed by those pending.  A key a [MultiSend] takes is queued unless the queue is
    full; then it is dropped, since the caller reads the first result of [Add] as
    [full]: it only starts a flush and never adds the request again. *)
Theorem multi_send_requests rw workers s :
  let ok size := added (log (client s)) = handed (log (client s)) ++ pending (mq (client s)) /\
    forall c' new kv rest, multi_add (client s) c' new -> sendChan (client s) = kv :: rest ->
      queued_or_dropped size (client s) kv rest c' new in
  (grpc_workers workers -> reachable NewTestGrpcClient (grpc_step rw) workers s -> ok 2048%Z) /\
  (thrift_workers workers -> reachable NewTestThriftClient (thrift_step rw) workers s -> ok 100%Z).
Proof.
  assert (Hok : forall size, sys_ok size s ->
    added (log (client s)) = handed (log (client s)) ++ pending (mq (client s)) /\
    forall c' new kv rest, multi_add (client s) c' new -> sendChan (client s) = kv :: rest ->
      queued_or_dropped size (client s) kv rest c' new).
  { intros size [[Hq Hl] _ _]. split; [done|]. intros c' new kv rest Hm Hs. by eapply multi_add_spec. }
  intros ok. split; intros Hws Hr; apply Hok; [by eapply grpc_reachable_ok|by eapply thrift_reachable_ok].
Qed.

(** ** A batch changes while it is sent *)
Section Overwritten.
Context (rw : Z) (rw_writes : (rw < 100)%Z).
#[local] Abbreviation step := (grpc_step rw).
#[local] Abbreviation steps := (rtc (sys_step step)).

Lemma grpc_gen c kv : exitchan c = false -> step c GenLoop c (GenPut false kv) [].
Proof using rw_writes.
  intros He. replace false with (bool_decide (99 < rw)%Z) by (apply bool_decide_eq_false; lia). apply g_gen; [done|lia].
Qed.
Lemma grpc_push c kv : sendChan c = [] -> step c (GenPut false kv) (set_send c [kv]) GenLoop [].
Proof. intros Hs. pose proof (g_push_send rw c kv) as Ht. rewrite Hs in Ht. apply Ht. unfold grpc_chan_cap. simpl. lia. Qed.

Lemma grpc_loading :
  exists s, reachable NewTestGrpcClient step [MultiStart] s /\ loading 2048 ConsumeLoop [] [] [] s.
Proof.
  destruct (NewEntryQueue_in_use (A := PutRequest) 2048 ltac:(unfold maxInt64; lia)) as (q & Hq & Hin & Hp).
  set (c := mkTestClient [] [] q false 0 []).
  exists (mkSystem (add_wg (add_wg (add_wg c 1) 1) 1) [GenLoop; ConsumeLoop; MultiLoop]). split; [|done].
  exists (mkSystem c [GenStart; ConsumeStart]). split; [unfold NewTestGrpcClient, new_client; change (1024 * 2)%Z with 2048%Z; by rewrite Hq|].
  simpl. eapply rtc_l; [by apply (run_one step [] GenStart), g_start|].
  eapply rtc_l; [by apply (run_one step [GenLoop] ConsumeStart), g_start|].
  apply rtc_once. by apply (run_one step [GenLoop; ConsumeLoop] MultiStart), g_start.
Qed.

(** The queue is full and one more key has started a flush. *)
Lemma grpc_full kv :
  exists c, reachable NewTestGrpcClient step [MultiStart] (mkSystem c [GenLoop; ConsumeLoop; MultiLoop; Flush]) /\
    sendChan c = [] /\ exitchan c = false /\ in_use 2048 (mq c) /\ pending (mq c) = replicate 2048 (req_of kv).
Proof using rw_writes.
  destruct grpc_loading as (s0 & Hr0 & Hl0).
  destruct (load_many _ grpc_gen grpc_push (g_multi rw) 2048 _ _ _ kv 2048 s0 Hl0 ltac:(lia)) as (s1 & Hs1 & Hl1).
  destruct (load_multi _ grpc_gen grpc_push _ _ _ _ _ _ kv Hl1) as (c & Hs2 & Hsend & He & Hm).
  destruct Hl1 as (Hp & _ & _ & Hq & Hpend). rewrite <- Hm in Hq, Hpend. rewrite Hp in Hs2.
  pose proof (Add_in_use 2048 (mq c) (req_of kv) Hq) as Ha.
  rewrite decide_False in Ha by (rewrite Hpend, length_replicate; lia).
  exists (note (set_mq (set_send c []) (mq c)) (ERefused (req_of kv))). split; [|done].
  eapply reachable_steps; [exact Hr0|]. etrans; [exact Hs1|]. etrans; [exact Hs2|]. apply rtc_once.
  exact (multi_run _ (g_multi rw) c _ [Flush] [GenLoop; ConsumeLoop] [] (multi_full c kv [] (mq c) false Hsend Ha)).
Qed.

(** C24: a batch can change while it is sent.  A run of the grpc load generator with a
    single [MultiSend] reaches a state in which the flush that took a full batch has
    sent nothing yet, and already reads another request in the place of the first:
    [consumeMQ] took the next batch in between and a new key went into the buffer
    the flush still reads.  The first request is in no batch anymore and never sent,
    the new one is both in the batch being sent and pending. *)
Theorem batch_changes_while_sent old new :
  exists c reqs batch, reachable NewTestGrpcClient step [MultiStart]
      (mkSystem c [GenLoop; ConsumeLoop; MultiLoop; FlushSend reqs 0]) /\
    EBatch batch ∈ log c /\ batch = replicate 2048 (req_of old) /\
    read_slice (mq c) reqs = req_of new :: drop 1 batch /\ pending (mq c) = [req_of new].
Proof using rw_writes.
  destruct (grpc_full old) as (c & Hr & Hsend & He & Hq & Hpend).
  destruct (Get_in_use 2048 (mq c) Hq) as (q1 & reqs & Hg1 & Hq1 & Hread1 & Hp1).
  destruct (Get_in_use 2048 q1 Hq1) as (q2 & reqs2 & Hg2 & Hq2 & Hread2 & Hp2).
  pose proof (Add_in_use 2048 q2 (req_of new) Hq2) as Hadd. rewrite Hp2, decide_True in Hadd by (simpl; lia).
  destruct Hadd as (q3 & Ha & Hq3 & Hp3). simpl in Hp3.
  set (c1 := note (set_mq c q1) (EBatch (read_slice q1 reqs))).
  set (c2 := note (set_mq c1 q2) (EBatch (read_slice q2 reqs2))).
  set (c3 := note (set_mq (set_send (set_send c2 [new]) []) q3) (EAdded (req_of new))).
  assert (Hempty : (s_len reqs2 <= 0)%Z).
  { apply Get_target in Hg2 as (-> & _). pose proof (abs_length q1 (proj1 Hq1)) as Hl. unfold pending in Hp1.
    rewrite Hp1 in Hl. simpl in *. lia. }
  exists c3, reqs, (replicate 2048 (req_of old)).
  split; [|split; [|split; [done|split; [|done]]]].
  - eapply reachable_steps; [exact Hr|].
    eapply rtc_l; [apply (run_one step [GenLoop; ConsumeLoop; MultiLoop] Flush [] c c1 (FlushSend reqs 0)), g_flush; by exists q1|].
    eapply rtc_l; [apply (run_one step [GenLoop] ConsumeLoop _ c1 c2 (ConsumeSend reqs2 0)), g_tick; by exists q2|].
    eapply rtc_l; [apply (run_one step [GenLoop] (ConsumeSend reqs2 0) _ c2 c2 ConsumeLoop), g_consume_sent; simpl; lia|].
    eapply rtc_l; [by apply (run_one step [] GenLoop _ c2 c2 (GenPut false new)), grpc_gen|].
    eapply rtc_l; [by apply (run_one step [] (GenPut false new) _ c2 (set_send c2 [new]) GenLoop), grpc_push|].
    apply rtc_once. exact (multi_run _ (g_multi rw) (set_send c2 [new]) c3 [] [GenLoop; ConsumeLoop] [FlushSend reqs 0]
      (multi_added (set_send c2 [new]) new [] q3 false eq_refl Ha)).
  - rewrite <- Hpend, <- Hread1. apply elem_of_app. left. apply elem_of_app. left. apply elem_of_app. right. by left.
  - simpl. rewrite (batch_overwritten (mq c) q1 reqs q2 reqs2 (req_of new) q3 false (proj1 Hq) Hg1); [|  |exact Hg2|exact Ha].
    + by rewrite Hread1, Hpend.
    + apply Get_target in Hg1 as (-> & _). pose proof (abs_length (mq c) (proj1 Hq)) as Hl. unfold pending in Hpend.
      rewrite Hpend, length_replicate in Hl. simpl. lia.
Qed.
End Overwritten.

(** ** Witnesses *)
Section Demo.
Definition demo_mq (size : nat) : EntryQueue PutRequest :=
  mkEntryQueue (Z.of_nat size) (replicate size None) (replicate size None) false false 0.
Definition demo_client (size : nat) : TestClient := mkTestClient [] [] (demo_mq size) false 0 [].

Lemma demo_new : NewTestGrpcClient = Ret (mkSystem (demo_client 2048) [GenStart; ConsumeStart]).
Proof. vm_compute. reflexivity. Qed.

Lemma demo_single :
  reachable NewTestGrpcClient (grpc_step 0) [SingleStart]
    (mkSystem (close_exit (demo_client 2048)) [GenStart; ConsumeStart; SingleStart]).
Proof.
  exists (mkSystem (demo_client 2048) [GenStart; ConsumeStart]). split; [exact demo_new|].
  apply rtc_once. by apply sys_stop.
Qed.

Example grpc_stop_completes_witness :
  exists s', rtc (sys_step (grpc_step 0)) (mkSystem (close_exit (demo_client 2048)) [GenStart; ConsumeStart; SingleStart]) s' /\
    wg (client s') = 0%Z /\ Forall settled (procs s').
Proof.
  refine (proj2 (grpc_stop_completes 0 [SingleStart] _ _ demo_single) eq_refl). constructor; [by left|constructor].
Defined.

Example thrift_stop_hangs_witness :
  exists s, reachable NewTestThriftClient (thrift_step 0) [MultiStart] s /\ exitchan (client s) = true /\
    wg (client s) = 1%Z /\ stuck 0 s.
Proof.
  refine (proj2 (proj2 (thrift_stop_hangs 0 ltac:(lia))) [MultiStart] _). constructor; [by right|constructor].
Defined.

Example multi_send_requests_witness :
  exists s, reachable NewTestThriftClient (thrift_step 0) [MultiStart] s /\
    added (log (client s)) = handed (log (client s)) ++ [req_of "k"].
Proof.
  destruct (thrift_loading 0 [] []) as (s0 & Hr0 & Hl0).
  destruct (load_one _ (thrift_gen 0 ltac:(lia)) (thrift_push 0) (t_multi 0) 100 _ _ _ _ _ "k" Hl0 ltac:(simpl; lia))
    as (s & Hs & _ & _ & _ & _ & Hp).
  pose proof (reachable_steps _ _ _ _ _ Hr0 Hs) as Hr. exists s. split; [exact Hr|].
  assert (Hws : thrift_workers [MultiStart]) by (apply Forall_singleton; by right).
  pose proof (proj1 (proj2 (multi_send_requests 0 [MultiStart] s) Hws Hr)) as Ha. rewrite Hp in Ha. exact Ha.
Defined.

Example batch_changes_while_sent_witness :
  exists c reqs batch, reachable NewTestGrpcClient (grpc_step 0) [MultiStart]
      (mkSystem c [GenLoop; ConsumeLoop; MultiLoop; FlushSend reqs 0]) /\
    EBatch batch ∈ log c /\ batch = replicate 2048 (req_of "old") /\
    read_slice (mq c) reqs = req_of "new" :: drop 1 batch /\ pending (mq c) = [req_of "new"].
Proof. exact (batch_changes_while_sent 0 ltac:(lia) "old" "new"). Defined.
End Demo.
