(* ===== verification/Pool.v ===== *)
(** * thrift/client/pool/pool.go: the connection pool

    A [ThriftPool] keeps idle connections in the order they came back and counts the
    connections it believes exist.  Dialing, closing, the state of a transport and
    the clock belong to a world [W] that is passed along.  The count is an
    [int32] updated atomically; [Get] checks the limit in a critical section, dials
    outside it and counts afterwards, so other goroutines can run in between. *)
From S2P Require Import Prelude.
From stdpp Require Import sorting.

(* src/thrift/client/pool/pool.go:17-18 poolOpen *)
Definition poolOpen : Z := 1%Z.
Definition poolStop : Z := 2%Z.

(* src/thrift/client/pool/pool.go:52-57 ErrOverMax *)
Inductive pool_error : Type :=
| ErrOverMax | ErrInvalidConn | ErrPoolClosed | ErrSocketDisconnect | ErrOther (msg : string).

#[global] Instance pool_error_eq_dec : EqDecision pool_error.
Proof. solve_decision. Defined.

Section Pool.
Context {Transport W : Type} `{Countable Transport}.

(** A nil transport or client is [None] or [false]. *)
(* src/thrift/client/pool/pool.go:38-42 IdleClient *)
Record IdleClient : Type := mkIdleClient { c_Transport : option Transport; c_Client : bool; c_Addr : string }.

Context (IsOpen : Transport -> W -> bool) (nowFunc : W -> Z).
Context (Dial : string -> Z -> W -> result string IdleClient * W).
Context (Close : IdleClient -> W -> option string * W).

(* src/thrift/client/pool/pool.go:25-36 ThriftPool *)
Record ThriftPool : Type := mkPool {
  idle : list (IdleClient * Z);
  idleTimeout : Z;
  connTimeout : Z;
  maxConn : Z;
  count : Z;
  addr : string;
  status : Z
}.

(* src/thrift/client/pool/pool.go:59-78 NewThriftPool *)
Definition NewThriftPool (addr : string) (maxConn connTimeout idleTimeout : Z) : ThriftPool :=
  mkPool [] idleTimeout connTimeout maxConn 0 addr poolOpen.

Definition set_idle (p : ThriftPool) l : ThriftPool :=
  mkPool l (idleTimeout p) (connTimeout p) (maxConn p) (count p) (addr p) (status p).
(** [atomic.AddInt32(&p.count, d)] *)
Definition add_count (p : ThriftPool) (d : Z) : ThriftPool :=
  mkPool (idle p) (idleTimeout p) (connTimeout p) (maxConn p) (i32 (count p + d)) (addr p) (status p).

(* src/thrift/client/pool/pool.go:192-197 IdleClient.Check *)
Definition Check_client (c : IdleClient) (w : W) : bool :=
  match c_Transport c, c_Client c with
  | Some t, true => IsOpen t w
  | _, _ => false
  end.

(** *** Get, in the pieces between which other goroutines run *)
Inductive get_plan : Type :=
| GetRefused (err : pool_error)
| GetDial
| GetIdle (c : IdleClient) (p : ThriftPool).

(* src/thrift/client/pool/pool.go:82-94 ThriftPool.Get *)
Definition Get_locked (p : ThriftPool) : get_plan :=
  if decide (status p = poolStop) then GetRefused ErrPoolClosed
  else match idle p with
       | [] => if decide (maxConn p <= count p)%Z then GetRefused ErrOverMax else GetDial
       | (c, _) :: rest => GetIdle c (set_idle p rest)
       end.

(* src/thrift/client/pool/pool.go:97-106 ThriftPool.Get *)
Definition Get_dialed (p : ThriftPool) (r : result string IdleClient) (w : W)
    : ThriftPool * result pool_error IdleClient :=
  match r with
  | Err err => (p, Err (ErrOther err))
  | Ok client =>
      if Check_client client w then (add_count p 1, Ok client) else (p, Err ErrSocketDisconnect)
  end.

(* src/thrift/client/pool/pool.go:114-118 ThriftPool.Get *)
Definition Get_checked (p : ThriftPool) (c : IdleClient) (w : W)
    : ThriftPool * result pool_error IdleClient :=
  if Check_client c w then (p, Ok c) else (add_count p (-1), Err ErrSocketDisconnect).

(* src/thrift/client/pool/pool.go:80-119 ThriftPool.Get *)
Definition Get (p : ThriftPool) (w : W) : ThriftPool * result pool_error IdleClient * W :=
  match Get_locked p with
  | GetRefused err => (p, Err err, w)
  | GetDial => let '(r, w) := Dial (addr p) (connTimeout p) w in (Get_dialed p r w, w)
  | GetIdle c p => (Get_checked p c w, w)
  end.

(** The answer's error, if any; a failure to close is returned as it is. *)
(* src/thrift/client/pool/pool.go:121-155 ThriftPool.Put *)
Definition Put (p : ThriftPool) (client : option IdleClient) (w : W) : ThriftPool * option pool_error * W :=
  match client with
  | None => (add_count p (-1), Some ErrInvalidConn, w)
  | Some client =>
      if decide (status p = poolStop) then
        let '(err, w) := Close client w in (p, ErrOther <$> err, w)
      else if decide (maxConn p < count p)%Z then
        let '(err, w) := Close client w in (add_count p (-1), ErrOther <$> err, w)
      else if negb (Check_client client w) then
        let '(err, w) := Close client w in (add_count p (-1), ErrOther <$> err, w)
      (* the same check, once more *)
      else if negb (Check_client client w) then
        let '(err, w) := Close client w in (add_count p (-1), ErrOther <$> err, w)
      else (set_idle p (idle p ++ [(client, nowFunc w)]), None, w)
  end.

(* src/thrift/client/pool/pool.go:157-166 ThriftPool.CloseErrConn *)
Definition CloseErrConn (p : ThriftPool) (client : option IdleClient) (w : W) : ThriftPool * W :=
  let p := add_count p (-1) in
  match client with
  | Some c => let '(_, w) := Close c w in (p, w)
  | None => (p, w)
  end.

(** The loop, over the idle list it started from; with the connections it closes. *)
(* src/thrift/client/pool/pool.go:170-187 ThriftPool.CheckTimeout *)
Fixpoint expire (p : ThriftPool) (l : list (IdleClient * Z)) (w : W) : ThriftPool * W * list IdleClient :=
  match l with
  | [] => (set_idle p [], w, [])
  | (c, t) :: rest =>
      if decide (nowFunc w < t + idleTimeout p)%Z then (set_idle p l, w, [])
      else
        let '(_, w) := Close c w in
        let '(p, w, closed) := expire (add_count p (-1)) rest w in
        (p, w, c :: closed)
  end.

(* src/thrift/client/pool/pool.go:168-190 ThriftPool.CheckTimeout *)
Definition CheckTimeout (p : ThriftPool) (w : W) : ThriftPool * W * list IdleClient := expire p (idle p) w.

Fixpoint close_all (cs : list IdleClient) (w : W) : W :=
  match cs with [] => w | c :: cs => close_all cs (snd (Close c w)) end.

(* src/thrift/client/pool/pool.go:220-232 ThriftPool.Release *)
Definition Release (p : ThriftPool) (w : W) : ThriftPool * W :=
  let old := idle p in
  (mkPool [] (idleTimeout p) (connTimeout p) (maxConn p) 0 (addr p) (status p), close_all old.*1 w).

(* src/thrift/client/pool/pool.go:234-236 ThriftPool.Recover *)
Definition Recover (p : ThriftPool) : ThriftPool :=
  mkPool (idle p) (idleTimeout p) (connTimeout p) (maxConn p) (count p) (addr p) poolOpen.

(** On a nil pool the counts are 0. *)
(* src/thrift/client/pool/pool.go:199-204 ThriftPool.GetIdleCount *)
Definition GetIdleCount (p : option ThriftPool) : Z :=
  match p with Some p => u32 (Z.of_nat (length (idle p))) | None => 0%Z end.
(* src/thrift/client/pool/pool.go:206-211 ThriftPool.GetConnCount *)
Definition GetConnCount (p : option ThriftPool) : Z :=
  match p with Some p => count p | None => 0%Z end.

(** ** Several goroutines

    [T] goroutines use the pool.  A [Get] that found no idle connection is between
    its check and its count while it dials; every other change of the pool is one
    step.  The decrements are guarded only against leaving the [int32]. *)
Record racing : Type := mkRacing { r_pool : ThriftPool; dialing : nat }.

Inductive race_step (T : nat) : racing -> racing -> Prop :=
| race_begin s : Get_locked (r_pool s) = GetDial -> dialing s < T ->
    race_step T s (mkRacing (r_pool s) (S (dialing s)))
| race_dialed s n r w p res : dialing s = S n -> Get_dialed (r_pool s) r w = (p, res) ->
    race_step T s (mkRacing p n)
| race_take s c p : Get_locked (r_pool s) = GetIdle c p -> race_step T s (mkRacing p (dialing s))
| race_drop s : (- 2 ^ 31 < count (r_pool s))%Z -> race_step T s (mkRacing (add_count (r_pool s) (-1)) (dialing s))
| race_put s back w p e w' : (- 2 ^ 31 < count (r_pool s))%Z -> Put (r_pool s) back w = (p, e, w') ->
    race_step T s (mkRacing p (dialing s)).

Inductive race_reachable (T : nat) (p0 : ThriftPool) : racing -> Prop :=
| race_init : race_reachable T p0 (mkRacing p0 0)
| race_next s s' : race_reachable T p0 s -> race_step T s s' -> race_reachable T p0 s'.

Lemma Get_locked_dial p : Get_locked p = GetDial <-> status p <> poolStop /\ idle p = [] /\ (count p < maxConn p)%Z.
Proof.
  unfold Get_locked. destruct (decide (status p = poolStop)) as [Hs|Hs]; [by split; [|intros [? _]]|].
  destruct (idle p) as [|[c t] l]; [|by split; [|intros (_ & ? & _)]].
  destruct (decide (maxConn p <= count p)%Z); split; try done; [intros (_ & _ & ?); lia|].
  intros _. split; [done|]. split; [done|lia].
Qed.

Lemma Put_count p back w p' e w' :
  Put p back w = (p', e, w') -> maxConn p' = maxConn p /\ (count p' = count p \/ count p' = i32 (count p + -1)).
Proof.
  unfold Put. destruct back as [c|]; [|intros [= <- _ _]; by split; [|right]].
  repeat case_decide; [| |destruct (Check_client c w); simpl; [intros [= <- _ _]; by split; [|left]|]];
    destruct (Close c w); intros [= <- _ _]; (split; [done|]); auto.
Qed.

(** What holds however the goroutines interleave. *)
Lemma race_invariant T a maxc ct it s :
  0 < T -> (0 <= maxc)%Z -> (maxc + Z.of_nat T < 2 ^ 31)%Z ->
  race_reachable T (NewThriftPool a maxc ct it) s ->
  maxConn (r_pool s) = maxc /\ (- 2 ^ 31 <= count (r_pool s))%Z /\
  (count (r_pool s) + Z.of_nat (dialing s) <= maxc + Z.of_nat T - 1)%Z.
Proof.
  intros HT Hm Hb Hr. induction Hr as [|s s' _ (IHm & IHlo & IHhi) Hstep].
  { simpl. lia. }
  destruct Hstep as [s Hg Hd|s n r w p res Hd Hg|s c p Hg|s Hlo|s back w p e w' Hlo Hp]; simpl.
  - apply Get_locked_dial in Hg as (_ & _ & Hlt). lia.
  - unfold Get_dialed in Hg. destruct r as [c|err]; [destruct (Check_client c w)|]; injection Hg as <- <-; simpl.
    + split; [done|]. no_wrap. lia.
    + split; [done|]. lia.
    + split; [done|]. lia.
  - unfold Get_locked in Hg. case_decide; [done|]. destruct (idle (r_pool s)) as [|[c' t] l]; [by case_decide|].
    injection Hg as _ <-. simpl. done.
  - split; [done|]. no_wrap. lia.
  - apply Put_count in Hp as [-> [->| ->]]; [done|]. split; [done|]. no_wrap. lia.
Qed.

(** Goroutines that all check before any of them counts. *)
Lemma race_begins T p0 p n k :
  race_reachable T p0 (mkRacing p n) -> Get_locked p = GetDial -> n + k <= T ->
  race_reachable T p0 (mkRacing p (n + k)).
Proof.
  intros Hr Hg. induction k as [|k IH]; intros Hk; [by rewrite Nat.add_0_r|].
  rewrite Nat.add_succ_r. eapply race_next; [apply IH; lia|]. by apply (race_begin T (mkRacing p (n + k))); [|simpl; lia].
Qed.

(** [n] more connections counted. *)
Definition grown (n : nat) (p : ThriftPool) : ThriftPool := Nat.iter n (fun q => add_count q 1) p.

Lemma race_finish T p0 c w p n :
  Check_client c w = true -> race_reachable T p0 (mkRacing p n) ->
  race_reachable T p0 (mkRacing (grown n p) 0).
Proof.
  intros Hc. revert p. induction n as [|n IH]; intros p Hr; [done|].
  unfold grown. rewrite Nat.iter_succ_r. apply IH. eapply race_next; [exact Hr|].
  apply (race_dialed T (mkRacing p (S n)) n (Ok c) w _ (Ok c)); [done|]. simpl. by rewrite Hc.
Qed.

Lemma iter_count n p :
  (- 2 ^ 31 <= count p)%Z -> (count p + Z.of_nat n < 2 ^ 31)%Z ->
  let q := grown n p in
  count q = (count p + Z.of_nat n)%Z /\ idle q = idle p /\ status q = status p /\ maxConn q = maxConn p.
Proof.
  intros Hlo. unfold grown. induction n as [|n IH]; intros Hhi; simpl; [repeat split; lia|].
  destruct IH as (Hc & Hi & Hs & Hm); [lia|]. split; [|done]. rewrite Hc, i32_small; lia.
Qed.

(** C37: the limit of the pool under concurrency.  With [T] goroutines the count never
    exceeds [maxConn + T - 1], whatever the interleaving; and that is reached: when
    all of them check the limit before the first has counted its connection, the
    pool holds [T - 1] connections more than [maxConn]. *)
Theorem pool_concurrent_limit T a maxc ct it c w :
  0 < T -> (0 < maxc)%Z -> (maxc + Z.of_nat T < 2 ^ 31)%Z -> Check_client c w = true ->
  (forall s, race_reachable T (NewThriftPool a maxc ct it) s ->
     (count (r_pool s) <= maxc + Z.of_nat T - 1)%Z) /\
  (exists s, race_reachable T (NewThriftPool a maxc ct it) s /\ dialing s = 0 /\
     count (r_pool s) = (maxc + Z.of_nat T - 1)%Z).
Proof.
  intros HT Hm Hb Hc. split.
  { intros s Hr. apply race_invariant in Hr; [|done|lia|done]. lia. }
  set (p0 := NewThriftPool a maxc ct it).
  assert (Hone : forall k, (Z.of_nat k < maxc)%Z -> race_reachable T p0 (mkRacing (grown k p0) 0)).
  { induction k as [|k IH]; intros Hk; [constructor|]. specialize (IH ltac:(lia)).
    destruct (iter_count k p0) as (Hck & Hik & Hsk & Hmk); [simpl; lia|simpl; lia|].
    apply (race_finish T p0 c w (grown k p0) 1 Hc). apply (race_begins T p0 (grown k p0) 0 1); [done| |lia].
    apply Get_locked_dial. rewrite Hck, Hik, Hsk, Hmk. simpl. split; [done|]. split; [done|lia]. }
  set (k := Z.to_nat (maxc - 1)). specialize (Hone k ltac:(lia)).
  destruct (iter_count k p0) as (Hck & Hik & Hsk & Hmk); [simpl; lia|simpl; lia|].
  eexists. split; [|split].
  - apply (race_finish T p0 c w (grown k p0) T Hc). apply (race_begins T p0 (grown k p0) 0 T); [done| |lia].
    apply Get_locked_dial. rewrite Hck, Hik, Hsk, Hmk. simpl. split; [done|]. split; [done|lia].
  - done.
  - simpl. destruct (iter_count T (grown k p0)) as (HcT & _); [rewrite Hck; simpl; lia|rewrite Hck; simpl; lia|].
    rewrite HcT, Hck. simpl. lia.
Qed.
(** ** Runs of one user of the pool

    What the code relies on of dialing and closing: a dialed client has a transport
    nobody else has, and time does not go back. *)
Context (issued : W -> gset Transport).
Context (Dial_Ok : forall a t w c w', Dial a t w = (Ok c, w') ->
  exists tr, c_Transport c = Some tr /\ (tr ∉ issued w) /\ issued w' = {[tr]} ∪ issued w /\ (nowFunc w <= nowFunc w')%Z).
Context (Dial_Err : forall a t w e w', Dial a t w = (Err e, w') ->
  issued w' = issued w /\ (nowFunc w <= nowFunc w')%Z).
Context (Close_keeps : forall c w, issued (snd (Close c w)) = issued w /\ (nowFunc w <= nowFunc (snd (Close c w)))%Z).

(** The pool, the world, the clients handed out and not yet given back, and how many
    of those were out at the last [Release]. *)
Record ledger : Type := mkLedger { l_pool : ThriftPool; l_world : W; lent : list IdleClient; drift : Z }.

(** A client that was lent comes back, as itself or as nil. *)
Inductive pool_step : ledger -> ledger -> Prop :=
| step_get_ok l p c w : Get (l_pool l) (l_world l) = (p, Ok c, w) ->
    pool_step l (mkLedger p w (c :: lent l) (drift l))
| step_get_err l p e w : Get (l_pool l) (l_world l) = (p, Err e, w) ->
    pool_step l (mkLedger p w (lent l) (drift l))
| step_put l l1 c l2 back p e w : lent l = l1 ++ c :: l2 -> back = Some c \/ back = None ->
    Put (l_pool l) back (l_world l) = (p, e, w) -> pool_step l (mkLedger p w (l1 ++ l2) (drift l))
| step_close_err l l1 c l2 back p w : lent l = l1 ++ c :: l2 -> back = Some c \/ back = None ->
    CloseErrConn (l_pool l) back (l_world l) = (p, w) -> pool_step l (mkLedger p w (l1 ++ l2) (drift l))
| step_timeout l p w closed : CheckTimeout (l_pool l) (l_world l) = (p, w, closed) ->
    pool_step l (mkLedger p w (lent l) (drift l))
| step_release l p w : Release (l_pool l) (l_world l) = (p, w) ->
    pool_step l (mkLedger p w (lent l) (Z.of_nat (length (lent l))))
| step_world l w : issued w = issued (l_world l) -> (nowFunc (l_world l) <= nowFunc w)%Z ->
    pool_step l (mkLedger (l_pool l) w (lent l) (drift l)).

Inductive pool_reachable (a : string) (maxc ct it : Z) : ledger -> Prop :=
| pool_init w : pool_reachable a maxc ct it (mkLedger (NewThriftPool a maxc ct it) w [] 0)
| pool_next l l' : pool_reachable a maxc ct it l -> pool_step l l' -> pool_reachable a maxc ct it l'.

(** The connections that exist as far as the pool and its user know. *)
Definition live (l : ledger) : list IdleClient := (idle (l_pool l)).*1 ++ lent l.

Record ledger_ok (maxc : Z) (l : ledger) : Prop := {
  lo_open : status (l_pool l) = poolOpen;
  lo_max : maxConn (l_pool l) = maxc;
  lo_drift : (0 <= drift l)%Z;
  lo_count : count (l_pool l) = i32 (Z.of_nat (length (live l)) - drift l);
  lo_limit : (drift l <= 2 ^ 31)%Z -> (Z.of_nat (length (live l)) <= maxc + drift l)%Z;
  lo_distinct : NoDup (c_Transport <$> live l);
  lo_issued c : c ∈ live l -> exists tr, c_Transport c = Some tr /\ tr ∈ issued (l_world l);
  lo_sorted : StronglySorted Z.le (idle (l_pool l)).*2;
  lo_past t : t ∈ (idle (l_pool l)).*2 -> (t <= nowFunc (l_world l))%Z
}.

Lemma length_live l : length (live l) = length (idle (l_pool l)) + length (lent l).
Proof. unfold live. by rewrite length_app, length_fmap. Qed.

(** An operation that makes no new connection. *)
Lemma ledger_shrinks maxc l p' w' lent' :
  ledger_ok maxc l -> status p' = poolOpen -> maxConn p' = maxConn (l_pool l) ->
  (idle p').*1 ++ lent' ⊆+ live l ->
  count p' = i32 (count (l_pool l) + (Z.of_nat (length ((idle p').*1 ++ lent')) - Z.of_nat (length (live l)))) ->
  issued (l_world l) ⊆ issued w' ->
  StronglySorted Z.le (idle p').*2 -> (forall t, t ∈ (idle p').*2 -> (t <= nowFunc w')%Z) ->
  ledger_ok maxc (mkLedger p' w' lent' (drift l)).
Proof.
  intros Hok Hst Hmax Hsub Hcount Hiss Hsort Hpast.
  pose proof (submseteq_length _ _ Hsub) as Hlen.
  split; simpl; unfold live; simpl.
  - done.
  - rewrite Hmax. apply (lo_max _ _ Hok).
  - apply (lo_drift _ _ Hok).
  - rewrite Hcount, (lo_count _ _ Hok), i32_shift. f_equal. lia.
  - intros Hd. pose proof (lo_limit _ _ Hok Hd). lia.
  - eapply NoDup_of_submseteq; [by apply fmap_submseteq|apply (lo_distinct _ _ Hok)].
  - intros c Hc. destruct (lo_issued _ _ Hok c) as (tr & Htr & Hin); [by eapply elem_of_submseteq|].
    exists tr. split; [done|]. by apply Hiss.
  - done.
  - done.
Qed.

Lemma i32_count maxc l : ledger_ok maxc l -> i32 (count (l_pool l) + 0) = count (l_pool l).
Proof. intros Hok. rewrite (lo_count _ _ Hok), i32_shift. f_equal. lia. Qed.

Lemma past_later maxc l w : ledger_ok maxc l -> (nowFunc (l_world l) <= nowFunc w)%Z ->
  forall t, t ∈ (idle (l_pool l)).*2 -> (t <= nowFunc w)%Z.
Proof. intros Hok Hle t Ht. pose proof (lo_past _ _ Hok t Ht). lia. Qed.

Lemma expire_spec l p w p' w' closed x :
  count p = i32 x -> expire p l w = (p', w', closed) ->
  exists gone keep, l = gone ++ keep /\ idle p' = keep /\ closed = gone.*1 /\
    count p' = i32 (x - Z.of_nat (length gone)) /\
    status p' = status p /\ maxConn p' = maxConn p /\ idleTimeout p' = idleTimeout p /\
    issued w' = issued w /\ (nowFunc w <= nowFunc w')%Z /\
    (forall e, e ∈ gone -> (e.2 + idleTimeout p <= nowFunc w')%Z) /\
    (forall e rest, keep = e :: rest -> (nowFunc w' < e.2 + idleTimeout p)%Z).
Proof using Close_keeps.
  revert p w p' w' closed x. induction l as [|[c t] l IH]; intros p w p' w' closed x Hc; simpl.
  { intros [= <- <- <-]. exists [], []. simpl. rewrite Z.sub_0_r. repeat split; try done.
    intros e He. by apply not_elem_of_nil in He. }
  destruct (decide (nowFunc w < t + idleTimeout p)%Z) as [Hlt|Hge].
  { intros [= <- <- <-]. exists [], ((c, t) :: l). simpl. rewrite Z.sub_0_r. repeat split; try done.
    - intros e He. by apply not_elem_of_nil in He.
    - by intros e rest [= <- <-]. }
  pose proof (Close_keeps c w) as [Hi Hn]. destruct (Close c w) as [e1 w1]. simpl in Hi, Hn.
  destruct (expire (add_count p (-1)) l w1) as [[p2 w2] closed2] eqn:Hex. intros [= <- <- <-].
  apply (IH _ _ _ _ _ (x - 1)%Z) in Hex
    as (gone & keep & -> & Hidle & -> & Hcount & Hst & Hm & Ht & Hiss & Hnow & Hgone & Hkeep).
  2: { simpl. rewrite Hc, i32_shift. f_equal. }
  exists ((c, t) :: gone), keep. simpl in *. split; [done|]. split; [done|]. split; [done|].
  split; [rewrite Hcount; f_equal; lia|]. split; [done|]. split; [done|]. split; [done|].
  split; [congruence|]. split; [lia|]. split; [|done].
  intros e [->|He]%elem_of_cons; [simpl; lia|by apply Hgone].
Qed.

(** The same number of connections, and the count untouched. *)
Lemma ledger_same_size maxc l idle' w' lent' :
  ledger_ok maxc l -> idle'.*1 ++ lent' ≡ₚ live l -> issued (l_world l) ⊆ issued w' ->
  StronglySorted Z.le idle'.*2 -> (forall t, t ∈ idle'.*2 -> (t <= nowFunc w')%Z) ->
  ledger_ok maxc (mkLedger (set_idle (l_pool l) idle') w' lent' (drift l)).
Proof.
  intros Hok Hperm Hiss Hsort Hpast. apply ledger_shrinks; simpl; try done.
  - apply (lo_open _ _ Hok).
  - by rewrite Hperm.
  - rewrite (Permutation_length Hperm), Z.sub_diag. by rewrite (i32_count maxc).
Qed.

(** One connection less, and counted so. *)
Lemma ledger_drops_one maxc l idle' w' lent' :
  ledger_ok maxc l -> idle'.*1 ++ lent' ⊆+ live l -> S (length (idle'.*1 ++ lent')) = length (live l) ->
  issued (l_world l) ⊆ issued w' ->
  StronglySorted Z.le idle'.*2 -> (forall t, t ∈ idle'.*2 -> (t <= nowFunc w')%Z) ->
  ledger_ok maxc (mkLedger (add_count (set_idle (l_pool l) idle') (-1)) w' lent' (drift l)).
Proof.
  intros Hok Hsub Hlen Hiss Hsort Hpast. apply ledger_shrinks; simpl; try done.
  - apply (lo_open _ _ Hok).
  - f_equal. lia.
Qed.

Lemma set_idle_self p : set_idle p (idle p) = p.
Proof. by destruct p. Qed.

Lemma lent_drops_one maxc l l1 c l2 w' :
  ledger_ok maxc l -> lent l = l1 ++ c :: l2 -> issued (l_world l) ⊆ issued w' ->
  (nowFunc (l_world l) <= nowFunc w')%Z ->
  ledger_ok maxc (mkLedger (add_count (l_pool l) (-1)) w' (l1 ++ l2) (drift l)).
Proof.
  intros Hok Hl Hiss Hnow. rewrite <- (set_idle_self (l_pool l)). apply ledger_drops_one; [done| | |done| |].
  - unfold live. rewrite Hl. apply middle_submseteq.
  - unfold live. rewrite Hl, !length_app. simpl. lia.
  - apply (lo_sorted _ _ Hok).
  - by eapply past_later.
Qed.

(** A new connection joins. *)
Lemma dialed_ok maxc l c tr w' :
  (0 <= maxc < 2 ^ 31)%Z -> ledger_ok maxc l -> (count (l_pool l) < maxConn (l_pool l))%Z ->
  c_Transport c = Some tr -> (tr ∉ issued (l_world l)) -> issued w' = {[tr]} ∪ issued (l_world l) ->
  (nowFunc (l_world l) <= nowFunc w')%Z ->
  ledger_ok maxc (mkLedger (add_count (l_pool l) 1) w' (c :: lent l) (drift l)).
Proof.
  intros Hmaxc Hok Hlt Htr Hnew Hiss Hnow.
  assert (Hperm : (idle (l_pool l)).*1 ++ c :: lent l ≡ₚ c :: live l) by (unfold live; by rewrite <- Permutation_middle).
  split; simpl; unfold live; simpl.
  - apply (lo_open _ _ Hok).
  - apply (lo_max _ _ Hok).
  - apply (lo_drift _ _ Hok).
  - rewrite (lo_count _ _ Hok), i32_shift, (Permutation_length Hperm). f_equal. simpl. lia.
  - intros Hd. pose proof (lo_limit _ _ Hok Hd) as Hlim. pose proof (lo_drift _ _ Hok) as Hd0.
    rewrite (Permutation_length Hperm). simpl.
    rewrite (lo_max _ _ Hok), (lo_count _ _ Hok), i32_small in Hlt by lia. lia.
  - rewrite Hperm. rewrite fmap_cons. constructor; [|apply (lo_distinct _ _ Hok)].
    intros (c' & Heq & Hc')%list_elem_of_fmap. destruct (lo_issued _ _ Hok c' Hc') as (tr' & Htr' & Hin).
    congruence.
  - intros c'. rewrite Hperm, elem_of_cons. rewrite Hiss. intros [->|Hc'].
    + exists tr. split; [done|]. apply elem_of_union. left. by apply elem_of_singleton.
    + destruct (lo_issued _ _ Hok c' Hc') as (tr' & ? & ?). exists tr'. split; [done|]. apply elem_of_union. by right.
  - apply (lo_sorted _ _ Hok).
  - by eapply past_later.
Qed.

Lemma get_ok maxc l p r w :
  (0 <= maxc < 2 ^ 31)%Z -> ledger_ok maxc l -> Get (l_pool l) (l_world l) = (p, r, w) ->
  ledger_ok maxc (mkLedger p w (match r with Ok c => c :: lent l | Err _ => lent l end) (drift l)).
Proof using Close_keeps Dial_Err Dial_Ok.
  intros Hmaxc Hok. unfold Get, Get_locked. rewrite decide_False by (by rewrite (lo_open _ _ Hok)).
  destruct (idle (l_pool l)) as [|[c t] rest] eqn:Hidle.
  - destruct (decide _) as [_|Hlt]; [intros [= <- <- <-]; by destruct l|].
    destruct (Dial _ _ (l_world l)) as [[c|err] w1] eqn:Hd; unfold Get_dialed.
    + destruct (Dial_Ok _ _ _ _ _ Hd) as (tr & Htr & Hnew & Hiss & Hnow).
      destruct (Check_client c w1); intros [= <- <- <-].
      * eapply dialed_ok; [done|done|lia|done|done|done|done].
      * rewrite <- (set_idle_self (l_pool l)). apply ledger_same_size; [done|done| | |].
        -- rewrite Hiss. by apply union_subseteq_r.
        -- apply (lo_sorted _ _ Hok).
        -- by eapply past_later.
    + destruct (Dial_Err _ _ _ _ _ Hd) as [Hiss Hnow]. intros [= <- <- <-].
      rewrite <- (set_idle_self (l_pool l)). apply ledger_same_size; [done|done|by rewrite Hiss| |].
      * apply (lo_sorted _ _ Hok).
      * by eapply past_later.
  - pose proof (lo_sorted _ _ Hok) as Hs. pose proof (lo_past _ _ Hok) as Hp. rewrite Hidle in Hs, Hp. simpl in Hs, Hp.
    apply StronglySorted_inv in Hs as [Hs _].
    assert (Hp' : forall t, t ∈ rest.*2 -> (t <= nowFunc (l_world l))%Z) by (intros t' Ht'; apply Hp; by right).
    unfold Get_checked. destruct (Check_client c (l_world l)); intros [= <- <- <-].
    + apply ledger_same_size; [done| |done|done|done].
      unfold live. rewrite Hidle. simpl. by rewrite <- Permutation_middle.
    + apply ledger_drops_one; [done| | |done|done|done]; unfold live; rewrite Hidle; simpl; [|done].
      by apply submseteq_cons.
Qed.

Lemma put_ok maxc l l1 c l2 back p e w :
  ledger_ok maxc l -> lent l = l1 ++ c :: l2 -> back = Some c \/ back = None ->
  Put (l_pool l) back (l_world l) = (p, e, w) -> ledger_ok maxc (mkLedger p w (l1 ++ l2) (drift l)).
Proof using Close_keeps Dial_Err Dial_Ok.
  intros Hok Hl Hback. unfold Put. destruct back as [client|].
  2: { intros [= <- _ <-]. by eapply lent_drops_one. }
  destruct Hback as [[= ->]|]; [|done]. rewrite decide_False by (by rewrite (lo_open _ _ Hok)).
  pose proof (Close_keeps c (l_world l)) as [Hiss Hnow].
  destruct (decide _) as [_|_]; [|destruct (Check_client c (l_world l)); simpl].
  - destruct (Close c (l_world l)) as [err w1]. intros [= <- _ <-]. simpl in *.
    eapply lent_drops_one; [done|done|by rewrite Hiss|done].
  - intros [= <- _ <-]. apply ledger_same_size; [done| |done| |].
    + unfold live. rewrite Hl, fmap_app, <- app_assoc. simpl. apply Permutation_app_head, Permutation_middle.
    + rewrite fmap_app. simpl. apply StronglySorted_app_2; [|apply (lo_sorted _ _ Hok)|by repeat constructor].
      intros x y Hx ->%list_elem_of_singleton. by apply (lo_past _ _ Hok).
    + intros t. rewrite fmap_app, elem_of_app. simpl. rewrite list_elem_of_singleton.
      intros [Ht| ->]; [by apply (lo_past _ _ Hok)|done].
  - destruct (Close c (l_world l)) as [err w1]. intros [= <- _ <-]. simpl in *.
    eapply lent_drops_one; [done|done|by rewrite Hiss|done].
Qed.

Lemma close_all_keeps cs w :
  issued (close_all cs w) = issued w /\ (nowFunc w <= nowFunc (close_all cs w))%Z.
Proof using Close_keeps.
  revert w. induction cs as [|c cs IH]; intros w; simpl; [split; [done|lia]|].
  destruct (IH (snd (Close c w))) as [Hi Hn]. destruct (Close_keeps c w) as [Hi' Hn'].
  split; [congruence|lia].
Qed.

Lemma timeout_ok maxc l p w closed :
  ledger_ok maxc l -> CheckTimeout (l_pool l) (l_world l) = (p, w, closed) ->
  ledger_ok maxc (mkLedger p w (lent l) (drift l)).
Proof using Close_keeps.
  intros Hok Hex. unfold CheckTimeout in Hex.
  apply (expire_spec _ _ _ _ _ _ _ (lo_count _ _ Hok)) in Hex
    as (gone & keep & Hidle & Hkeep & _ & Hcount & Hst & Hm & _ & Hiss & Hnow & _).
  apply ledger_shrinks; [done|by rewrite Hst, (lo_open _ _ Hok)|done| | |by rewrite Hiss| |].
  - unfold live. rewrite Hidle, fmap_app, Hkeep, <- app_assoc. by apply submseteq_inserts_l.
  - rewrite Hcount, (lo_count _ _ Hok), i32_shift. f_equal. rewrite Hkeep. unfold live.
    rewrite Hidle, fmap_app, !length_app, !length_fmap. lia.
  - pose proof (lo_sorted _ _ Hok) as Hs. rewrite Hidle, fmap_app in Hs. rewrite Hkeep.
    by apply StronglySorted_app_1_r in Hs.
  - intros t Ht. eapply past_later; [done|done|]. rewrite Hidle, fmap_app, elem_of_app, <- Hkeep. by right.
Qed.

Lemma release_ok maxc l p w :
  (0 <= maxc)%Z -> ledger_ok maxc l -> Release (l_pool l) (l_world l) = (p, w) ->
  ledger_ok maxc (mkLedger p w (lent l) (Z.of_nat (length (lent l)))).
Proof using Close_keeps.
  intros Hmaxc Hok. unfold Release. intros [= <- <-].
  destruct (close_all_keeps (idle (l_pool l)).*1 (l_world l)) as [Hi Hn].
  split; simpl; unfold live; simpl.
  - apply (lo_open _ _ Hok).
  - apply (lo_max _ _ Hok).
  - lia.
  - by rewrite Z.sub_diag.
  - lia.
  - pose proof (lo_distinct _ _ Hok) as Hd. unfold live in Hd. rewrite fmap_app in Hd.
    by apply NoDup_app in Hd as (_ & _ & ?).
  - intros c Hc. rewrite Hi. apply (lo_issued _ _ Hok). unfold live. apply elem_of_app. by right.
  - constructor.
  - intros t Ht. by apply not_elem_of_nil in Ht.
Qed.

Lemma pool_step_ok maxc l l' :
  (0 <= maxc < 2 ^ 31)%Z -> ledger_ok maxc l -> pool_step l l' -> ledger_ok maxc l'.
Proof using Close_keeps Dial_Err Dial_Ok.
  intros Hmaxc Hok Hstep. destruct Hstep as [l p c w Hg|l p e w Hg|l l1 c l2 back p e w Hl Hb Hp|
    l l1 c l2 back p w Hl Hb Hp|l p w closed Ht|l p w Hr|l w Hi Hn].
  - by apply get_ok with (r := Ok c).
  - by apply get_ok with (r := Err e).
  - by eapply put_ok.
  - unfold CloseErrConn in Hp. destruct back as [client|].
    + destruct Hb as [[= ->]|]; [|done]. pose proof (Close_keeps c (l_world l)) as [Hiss Hnow].
      destruct (Close c (l_world l)) as [err w1]. injection Hp as <- <-. simpl in *.
      eapply lent_drops_one; [done|done|by rewrite Hiss|done].
    + injection Hp as <- <-. by eapply lent_drops_one.
  - by eapply timeout_ok.
  - eapply release_ok; [lia|done|done].
  - rewrite <- (set_idle_self (l_pool l)). apply ledger_same_size; [done|done|by rewrite Hi| |].
    + apply (lo_sorted _ _ Hok).
    + by eapply past_later.
Qed.

Lemma pool_reachable_ok a maxc ct it l :
  (0 <= maxc < 2 ^ 31)%Z -> pool_reachable a maxc ct it l -> ledger_ok maxc l.
Proof using Close_keeps Dial_Err Dial_Ok.
  intros Hmaxc. induction 1 as [w|l l' _ IH Hstep]; [|by eapply pool_step_ok].
  split; simpl; unfold live; simpl; try done; try lia; try constructor.
  - intros c Hc. by apply not_elem_of_nil in Hc.
  - intros t Ht. by apply not_elem_of_nil in Ht.
Qed.

(** C4: the pool never lends one connection twice and keeps its limit.  In every state
    one user can bring a pool into, the idle and the lent connections have pairwise
    different transports; until the first [Release] the count is their number, at
    least 0 and at most [maxConn].  A [Release] forgets the connections that are
    out: from then on the count is off by their number (as an [int32]), and the
    limit is exceeded by at most as many. *)
Theorem pool_accounting a maxc ct it l :
  (0 <= maxc < 2 ^ 31)%Z -> pool_reachable a maxc ct it l ->
  NoDup (c_Transport <$> live l) /\
  count (l_pool l) = i32 (Z.of_nat (length (live l)) - drift l) /\
  ((drift l <= 2 ^ 31)%Z -> (Z.of_nat (length (live l)) <= maxc + drift l)%Z) /\
  (drift l = 0%Z -> count (l_pool l) = Z.of_nat (length (live l)) /\ (0 <= count (l_pool l) <= maxc)%Z).
Proof using Close_keeps Dial_Err Dial_Ok.
  intros Hmaxc Hr. apply (pool_reachable_ok _ _ _ _ _ Hmaxc) in Hr as Hok.
  split; [apply (lo_distinct _ _ Hok)|]. pose proof (lo_count _ _ Hok) as Hc. split; [done|].
  split; [apply (lo_limit _ _ Hok)|]. intros Hd. pose proof (lo_limit _ _ Hok) as Hl. rewrite Hd in *.
  specialize (Hl ltac:(lia)). rewrite Z.sub_0_r, i32_small in Hc by lia. lia.
Qed.

(** [CheckTimeout] closes exactly the idle connections whose time is over, the ones
    that came back first; every connection it leaves has come back less than the
    idle timeout ago, and the count goes down by the number closed. *)
Theorem CheckTimeout_expires a maxc ct it l p w closed :
  (0 <= maxc < 2 ^ 31)%Z -> pool_reachable a maxc ct it l ->
  CheckTimeout (l_pool l) (l_world l) = (p, w, closed) ->
  exists gone, idle (l_pool l) = gone ++ idle p /\ closed = gone.*1 /\
    count p = i32 (count (l_pool l) - Z.of_nat (length gone)) /\
    (forall e, e ∈ gone -> (e.2 + idleTimeout (l_pool l) <= nowFunc w)%Z) /\
    (forall e, e ∈ idle p -> (nowFunc w < e.2 + idleTimeout (l_pool l))%Z).
Proof using Close_keeps Dial_Err Dial_Ok.
  intros Hmaxc Hr Hex. apply (pool_reachable_ok _ _ _ _ _ Hmaxc) in Hr as Hok. unfold CheckTimeout in Hex.
  apply (expire_spec _ _ _ _ _ _ _ (lo_count _ _ Hok)) in Hex
    as (gone & keep & Hidle & Hkeep & Hcl & Hcount & _ & _ & _ & _ & _ & Hgone & Hhead).
  exists gone. rewrite Hkeep. split; [done|]. split; [done|].
  split. { rewrite Hcount, (lo_count _ _ Hok), <- (Z.add_opp_r (i32 _)), i32_shift. f_equal. }
  split; [done|]. intros e He. destruct keep as [|e0 rest]; [by apply not_elem_of_nil in He|].
  specialize (Hhead e0 rest eq_refl). apply elem_of_cons in He as [->|He]; [done|].
  pose proof (lo_sorted _ _ Hok) as Hs. rewrite Hidle, fmap_app in Hs. apply StronglySorted_app_1_r in Hs.
  rewrite fmap_cons in Hs. apply StronglySorted_cons in Hs as [Hall _].
  assert (e0.2 <= e.2)%Z by (eapply Forall_forall; [exact Hall|by apply list_elem_of_fmap_2]). lia.
Qed.

(** After [Release] the count can go below zero.  The clients that are out when the
    pool is released are no longer counted; closing all [k] of them afterwards
    leaves the count at [-k], so the pool will open [k] connections more than its
    limit before it refuses. *)
Theorem release_then_close_negative p w cs :
  (Z.of_nat (length cs) <= 2 ^ 31)%Z ->
  let '(p1, w1) := Release p w in
  let p2 := foldl (fun q c => fst (CloseErrConn q (Some c) w1)) p1 cs in
  count p1 = 0%Z /\ idle p1 = [] /\ count p2 = (- Z.of_nat (length cs))%Z.
Proof using Type.
  intros Hlen. unfold Release. split; [done|]. split; [done|].
  set (p1 := mkPool [] _ _ _ 0 _ _). set (w1 := close_all _ _). clearbody w1.
  assert (Hgen : forall q x, count q = i32 x ->
    count (foldl (fun q c => fst (CloseErrConn q (Some c) w1)) q cs) = i32 (x - Z.of_nat (length cs))).
  { clear Hlen p1. induction cs as [|c cs IH]; intros q x Hx; simpl.
    - rewrite Hx. f_equal. lia.
    - rewrite (IH _ (x - 1)%Z); [f_equal; lia|]. destruct (Close c w1). simpl. rewrite Hx, i32_shift. f_equal. }
  rewrite (Hgen p1 0%Z eq_refl). no_wrap. lia.
Qed.
End Pool.

(** ** Witnesses: transports numbered from 0, and a clock *)
Section Demo.
Definition net : Type := nat * Z.
Definition net_IsOpen (t : nat) (w : net) : bool := true.
Definition net_Dial (a : string) (timeout : Z) (w : net) : result string (IdleClient (Transport := nat)) * net :=
  if decide (a = ""%string) then (Err "no address"%string, w)
  else (Ok (mkIdleClient (Some w.1) true a), (S w.1, w.2)).
Definition net_Close (c : IdleClient (Transport := nat)) (w : net) : option string * net := (None, w).
Definition net_issued (w : net) : gset nat := set_seq 0 w.1.

Lemma net_Dial_Ok a t w c w' : net_Dial a t w = (Ok c, w') ->
  exists tr, c_Transport c = Some tr /\ (tr ∉ net_issued w) /\ net_issued w' = {[tr]} ∪ net_issued w /\ (w.2 <= w'.2)%Z.
Proof.
  unfold net_Dial. case_decide; [done|]. intros [= <- <-]. exists w.1. split; [done|]. unfold net_issued.
  split; [rewrite elem_of_set_seq; lia|]. split; [|simpl; lia]. apply (set_seq_S_end_union_L 0 w.1).
Qed.
Lemma net_Dial_Err a t w e w' : net_Dial a t w = (Err e, w') -> net_issued w' = net_issued w /\ (w.2 <= w'.2)%Z.
Proof. unfold net_Dial. case_decide; [|done]. intros [= _ <-]. split; [done|lia]. Qed.
Lemma net_Close_keeps c w :
  net_issued (snd (net_Close c w)) = net_issued w /\ (w.2 <= (snd (net_Close c w)).2)%Z.
Proof. split; [done|simpl; lia]. Qed.

Abbreviation net_step := (pool_step net_IsOpen snd net_Dial net_Close net_issued).
Abbreviation net_reachable := (pool_reachable net_IsOpen snd net_Dial net_Close net_issued "kv" 1 30 60).

(** One connection is dialed, comes back at time 5, and times out at 65. *)
Definition net_client : IdleClient (Transport := nat) := mkIdleClient (Some 0) true "kv".
Definition pool0 : ThriftPool := NewThriftPool (Transport := nat) "kv" 1 30 60.
Definition ledger1 := mkLedger (W := net) (add_count pool0 1) (1, 5%Z) [net_client] 0.
Definition ledger2 :=
  mkLedger (W := net) (set_idle (add_count pool0 1) [(net_client, 5%Z)]) (1, 5%Z) [] 0.
Definition ledger3 :=
  mkLedger (W := net) (set_idle (add_count pool0 1) [(net_client, 5%Z)]) (1, 65%Z) [] 0.

Lemma ledger3_reachable : net_reachable ledger3.
Proof.
  eapply (pool_next _ _ _ _ _ _ _ _ _ ledger2); [eapply (pool_next _ _ _ _ _ _ _ _ _ ledger1)|].
  - eapply pool_next; [apply (pool_init _ _ _ _ _ _ _ _ _ (0, 5%Z))|].
    apply (step_get_ok _ _ _ _ _ (mkLedger pool0 (0, 5%Z) [] 0)). reflexivity.
  - apply (step_put _ _ _ _ _ ledger1 [] net_client [] (Some net_client) _ None); [reflexivity|by left|reflexivity].
  - apply (step_world _ _ _ _ _ ledger2); [reflexivity|simpl; lia].
Defined.

Example pool_accounting_witness :
  count (l_pool ledger3) = 1%Z /\ (0 <= count (l_pool ledger3) <= 1)%Z.
Proof.
  refine (proj2 (proj2 (proj2 (pool_accounting net_IsOpen snd net_Dial net_Close net_issued
    net_Dial_Ok net_Dial_Err net_Close_keeps "kv" 1 30 60 ledger3 _ ledger3_reachable))) eq_refl). lia.
Defined.

Example CheckTimeout_expires_witness :
  exists p w, CheckTimeout snd net_Close (l_pool ledger3) (l_world ledger3) = (p, w, [net_client]) /\
    count p = 0%Z.
Proof.
  eexists _, _. split; [reflexivity|].
  destruct (CheckTimeout_expires net_IsOpen snd net_Dial net_Close net_issued net_Dial_Ok net_Dial_Err
    net_Close_keeps "kv" 1 30 60 ledger3 _ _ _ ltac:(lia) ledger3_reachable eq_refl) as (gone & Hidle & _).
  reflexivity.
Defined.

Example release_then_close_negative_witness :
  count (foldl (fun q c => fst (CloseErrConn net_Close q (Some c) (1, 5%Z)))
    (fst (Release net_Close (add_count pool0 1) (1, 5%Z))) [net_client]) = (-1)%Z.
Proof.
  exact (proj2 (proj2 (release_then_close_negative net_Close (add_count pool0 1) (1, 5%Z) [net_client]
    ltac:(simpl; lia)))).
Defined.

Example pool_concurrent_limit_witness :
  exists s, race_reachable net_IsOpen snd net_Close 3 (NewThriftPool "kv" 10 30 60) s /\
    count (r_pool s) = 12%Z.
Proof.
  destruct (proj2 (pool_concurrent_limit net_IsOpen snd net_Close 3 "kv" 10 30 60 net_client (1, 5%Z)
    ltac:(lia) ltac:(lia) ltac:(lia) eq_refl)) as (s & Hs & _ & Hc).
  exists s. split; [exact Hs|]. rewrite Hc. reflexivity.
Defined.
End Demo.
