(* ===== verification/ThriftCalls.v ===== *)
(** * test/thrift/client: a call through the pool

    [Get], [Put] and [MultiPut] take a client from the pool, start the remote call in a
    goroutine, wait for its answer or the deadline, and give the client back.  The
    goroutine is not waited for: after a deadline it goes on with a client that is
    back in the pool. *)
From S2P Require Import Prelude.
From S2P Require Import Pool.

Section Calls.
Context {Transport W : Type} `{Countable Transport}.
Context (IsOpen : Transport -> W -> bool) (nowFunc : W -> Z).
Context (Dial : string -> Z -> W -> result string (IdleClient (Transport := Transport)) * W).
Context (Close : IdleClient (Transport := Transport) -> W -> option string * W).
#[local] Abbreviation client := (IdleClient (Transport := Transport)).
#[local] Abbreviation pool_Get := (Pool.Get IsOpen Dial).
#[local] Abbreviation pool_Put := (Pool.Put IsOpen nowFunc Close).

(** What the [select] receives first. *)
Inductive waited (R : Type) : Type := Replied (rpcResp : R) | Failed (err : string) | TimedOut.
Arguments Replied {R} rpcResp.
Arguments Failed {R} err.
Arguments TimedOut {R}.

Inductive call_error : Type := NotFromPool (err : pool_error) | CallFailed (err : string) | DeadlineExceeded.

(** The text the three functions share; [wait] is what happens up to the [select]. *)
Definition pooled_call {R} (wait : client -> W -> waited R * W) (p : ThriftPool) (w : W)
    : ThriftPool * result call_error R * W :=
  match pool_Get p w with
  | (p, Err err, w) => (p, Err (NotFromPool err), w)
  | (p, Ok client, w) =>
      let '(first, w) := wait client w in
      let '(p, _, w) := pool_Put p (Some client) w in
      (p, match first with
          | Replied rpcResp => Ok rpcResp
          | Failed err => Err (CallFailed err)
          | TimedOut => Err DeadlineExceeded
          end, w)
  end.

(* src/test/thrift/client/client.go:202-232 Get *)
Definition call_Get {Req R} (rpc : client -> Req -> W -> waited R * W) (req : Req) :=
  pooled_call (fun client => rpc client req).
(* src/test/thrift/client/client.go:234-264 MultiPut *)
Definition call_MultiPut {Req R} (rpc : client -> list Req -> W -> waited R * W) (reqs : list Req) :=
  pooled_call (fun client => rpc client reqs).
(* src/test/thrift/client/client.go:266-296 Put *)
Definition call_Put {Req R} (rpc : client -> Req -> W -> waited R * W) (req : Req) :=
  pooled_call (fun client => rpc client req).

(** ** Many calls

    What the pool relies on, as in [Pool]. *)
Context (issued : W -> gset Transport).
Context (Dial_Ok : forall a t w c w', Dial a t w = (Ok c, w') ->
  exists tr, c_Transport c = Some tr /\ (tr ∉ issued w) /\ issued w' = {[tr]} ∪ issued w /\ (nowFunc w <= nowFunc w')%Z).
Context (Dial_Err : forall a t w e w', Dial a t w = (Err e, w') ->
  issued w' = issued w /\ (nowFunc w <= nowFunc w')%Z).
Context (Close_keeps : forall c w, issued (snd (Close c w)) = issued w /\ (nowFunc w <= nowFunc (snd (Close c w)))%Z).
#[local] Abbreviation ledger := (Pool.ledger (Transport := Transport) (W := W)).
#[local] Abbreviation pool_step := (Pool.pool_step IsOpen nowFunc Dial Close issued).
#[local] Abbreviation ledger_ok := (Pool.ledger_ok nowFunc issued).

(** The pool with the clients it has lent, and the clients whose goroutine runs. *)
Record session : Type := mkSession { s_ledger : ledger; in_flight : list client }.

(** A call begins by taking a client and starting its goroutine; the goroutine ends; the
    call returns when its goroutine is over, or before that at a deadline.  The pool's
    other users lend nothing. *)
Inductive call_step (deadlines : bool) : session -> session -> Prop :=
| call_begin l fl p c w : pool_Get (l_pool l) (l_world l) = (p, Ok c, w) ->
    call_step deadlines (mkSession l fl) (mkSession (mkLedger p w (c :: lent l) (drift l)) (c :: fl))
| rpc_done l f1 c f2 : call_step deadlines (mkSession l (f1 ++ c :: f2)) (mkSession l (f1 ++ f2))
| call_return l fl l1 c l2 p e w : lent l = l1 ++ c :: l2 -> (deadlines = false -> c ∉ fl) ->
    pool_Put (l_pool l) (Some c) (l_world l) = (p, e, w) ->
    call_step deadlines (mkSession l fl) (mkSession (mkLedger p w (l1 ++ l2) (drift l)) fl)
| call_other l l' fl : pool_step l l' -> lent l' = lent l -> call_step deadlines (mkSession l fl) (mkSession l' fl).

Definition new_session (a : string) (maxc ct it : Z) (w : W) : session :=
  mkSession (mkLedger (NewThriftPool a maxc ct it) w [] 0) [].

Lemma drop_not_in (fl l1 l2 : list client) c : fl ⊆+ l1 ++ c :: l2 -> c ∉ fl -> fl ⊆+ l1 ++ l2.
Proof.
  intros Hsub Hc. rewrite <- Permutation_middle in Hsub. apply submseteq_cons_r in Hsub as [Hsub|(k & Hp & _)]; [done|].
  destruct Hc. rewrite Hp. by left.
Qed.

Lemma call_step_ok maxc s s' :
  (0 <= maxc < 2 ^ 31)%Z -> call_step false s s' -> ledger_ok maxc (s_ledger s) -> in_flight s ⊆+ lent (s_ledger s) ->
  ledger_ok maxc (s_ledger s') /\ in_flight s' ⊆+ lent (s_ledger s').
Proof using Dial_Ok Dial_Err Close_keeps.
  intros Hm Hs Hok Hsub.
  destruct Hs as [l fl p c w Hg|l f1 c f2|l fl l1 c l2 p e w Hl Hfl Hp|l l' fl Hp Hl]; simpl in *.
  - split; [|by apply submseteq_skip]. eapply (pool_step_ok IsOpen nowFunc Dial Close); [done..|]. by apply step_get_ok.
  - split; [done|]. etrans; [|exact Hsub]. apply submseteq_skips_l. by apply submseteq_cons.
  - split; [|rewrite Hl in Hsub; by eapply drop_not_in, Hfl].
    eapply (pool_step_ok IsOpen nowFunc Dial Close); [done..|]. eapply step_put; [exact Hl|by left|exact Hp].
  - split; [|by rewrite Hl]. by eapply (pool_step_ok IsOpen nowFunc Dial Close).
Qed.

(** A client that was dialed for the first call comes back and is handed out again. *)
Lemma pool_hands_out_again a maxc ct it w0 c w1 :
  (0 < maxc < 2 ^ 31)%Z -> Dial a ct w0 = (Ok c, w1) -> Check_client IsOpen c w1 = true ->
  let p0 := NewThriftPool a maxc ct it in
  let p1 := add_count p0 1 in
  let p2 := set_idle p1 [(c, nowFunc w1)] in
  pool_Get p0 w0 = (p1, Ok c, w1) /\ pool_Put p1 (Some c) w1 = (p2, None, w1) /\
  pool_Get p2 w1 = (set_idle p2 [], Ok c, w1).
Proof.
  intros Hm Hdial Hcheck p0 p1 p2. assert (Hcount : count p1 = 1%Z) by reflexivity.
  split; [|split].
  - assert (Get_locked p0 = GetDial) as Hl by (apply Get_locked_dial; simpl; repeat split; [discriminate|lia]).
    unfold Pool.Get. rewrite Hl. simpl. rewrite Hdial. simpl. by rewrite Hcheck.
  - unfold Pool.Put. rewrite decide_False by discriminate. rewrite Hcount. rewrite decide_False by (simpl; lia).
    by rewrite Hcheck.
  - unfold Pool.Get, Get_locked. rewrite decide_False by discriminate. simpl. unfold Get_checked. by rewrite Hcheck.
Qed.

(** The function is such a sequence of steps: what it waits for decides whether its
    goroutine is over when it returns. *)
Definition late {R} (first : waited R) : bool := match first with TimedOut => true | _ => false end.

Lemma pooled_call_steps {R} (wait : client -> W -> waited R * W) l fl p1 c w1 first w2 p' r w' :
  pool_Get (l_pool l) (l_world l) = (p1, Ok c, w1) -> wait c w1 = (first, w2) ->
  issued w2 = issued w1 -> (nowFunc w1 <= nowFunc w2)%Z -> c ∉ fl ->
  pooled_call wait (l_pool l) (l_world l) = (p', r, w') ->
  rtc (call_step (late first)) (mkSession l fl)
    (mkSession (mkLedger p' w' (lent l) (drift l)) (if late first then c :: fl else fl)).
Proof.
  intros Hg Hw Hi Hn Hc Hcall. unfold pooled_call in Hcall. rewrite Hg, Hw in Hcall.
  destruct (pool_Put p1 (Some c) w2) as [[p2 e] w3] eqn:Hp. injection Hcall as <- _ <-.
  eapply rtc_l; [by apply call_begin|].
  eapply rtc_l; [apply call_other with (l' := mkLedger p1 w2 (c :: lent l) (drift l)); [|done]|].
  { by apply (step_world _ _ _ _ _ (mkLedger p1 w1 (c :: lent l) (drift l))). }
  assert (Hret : forall b fl', (b = false -> c ∉ fl') ->
    call_step b (mkSession (mkLedger p1 w2 (c :: lent l) (drift l)) fl') (mkSession (mkLedger p2 w3 (lent l) (drift l)) fl')).
  { intros b fl' Hfl'. by eapply (call_return b (mkLedger p1 w2 (c :: lent l) (drift l)) fl' [] c (lent l)). }
  destruct first; simpl; [| |by apply rtc_once, Hret];
    (eapply rtc_l; [apply (rpc_done _ _ [] c fl)|]; by apply rtc_once, Hret).
Qed.

(** C26: a pooled client serves one call at a time, unless a call meets its deadline.
    As long as every call waits for its goroutine, the calls in flight all use different
    connections, whatever the interleaving.  A call that gives up at its deadline
    gives the client back while the goroutine still uses it, so that the next call
    gets the same client: two calls are in flight on one connection, after a single
    dial.  [pooled_call] is made of these steps. *)
Theorem calls_share_after_deadline a maxc ct it w0 :
  (0 < maxc < 2 ^ 31)%Z ->
  (forall s, rtc (call_step false) (new_session a maxc ct it w0) s -> NoDup (c_Transport <$> in_flight s)) /\
  (forall c w1, Dial a ct w0 = (Ok c, w1) -> Check_client IsOpen c w1 = true ->
     exists s, rtc (call_step true) (new_session a maxc ct it w0) s /\ in_flight s = [c; c]) /\
  (forall R (wait : client -> W -> waited R * W) l fl p1 c w1 first w2 p' r w',
     pool_Get (l_pool l) (l_world l) = (p1, Ok c, w1) -> wait c w1 = (first, w2) ->
     issued w2 = issued w1 -> (nowFunc w1 <= nowFunc w2)%Z -> c ∉ fl ->
     pooled_call wait (l_pool l) (l_world l) = (p', r, w') ->
     rtc (call_step (late first)) (mkSession l fl)
       (mkSession (mkLedger p' w' (lent l) (drift l)) (if late first then c :: fl else fl))).
Proof using Dial_Ok Dial_Err Close_keeps.
  intros Hm. split; [|split; [|intros R; apply pooled_call_steps]].
  - intros s Hs. assert (Hok : ledger_ok maxc (s_ledger s) /\ in_flight s ⊆+ lent (s_ledger s)).
    { assert (Hinit : ledger_ok maxc (s_ledger (new_session a maxc ct it w0))).
      { apply (pool_reachable_ok IsOpen nowFunc Dial Close issued Dial_Ok Dial_Err Close_keeps a maxc ct it); [lia|constructor]. }
      assert (Hsub : in_flight (new_session a maxc ct it w0) ⊆+ lent (s_ledger (new_session a maxc ct it w0))) by done.
      revert Hinit Hsub. induction Hs as [s|s s1 s2 Hst _ IH]; intros Hi Hsub; [done|].
      by destruct (call_step_ok maxc s s1 ltac:(lia) Hst Hi Hsub) as [? ?]; apply IH. }
    destruct Hok as [Hok Hsub]. pose proof (lo_distinct _ _ _ _ Hok) as Hd. unfold live in Hd. rewrite fmap_app in Hd.
    apply NoDup_app in Hd as (_ & _ & Hd). eapply NoDup_of_submseteq; [by apply fmap_submseteq|exact Hd].
  - intros c w1 Hdial Hcheck.
    destruct (pool_hands_out_again a maxc ct it w0 c w1 Hm Hdial Hcheck) as (Hg & Hp & Hg2).
    eexists. split; [eapply rtc_l; [by apply call_begin|]|].
    + eapply rtc_l; [eapply (call_return true _ [c] [] c []); [done|done|exact Hp]|].
      apply rtc_once. apply call_begin. exact Hg2.
    + done.
Qed.
End Calls.

(** ** Witness *)
Section Demo.
Example calls_share_after_deadline_witness :
  exists s, rtc (call_step net_IsOpen snd net_Dial net_Close net_issued true) (new_session "kv" 10 30 60 (0, 5%Z)) s /\
    in_flight s = [net_client; net_client].
Proof.
  refine (proj1 (proj2 (calls_share_after_deadline net_IsOpen snd net_Dial net_Close net_issued
    net_Dial_Ok net_Dial_Err net_Close_keeps "kv" 10 30 60 (0, 5%Z) _)) net_client (1, 5%Z) _ _);
    [lia|reflexivity|reflexivity].
Defined.
End Demo.
