(* ===== verification/ThriftPath.v ===== *)
(** * A thrift client from its pool to the store of the server

    The calls of [test/thrift/client] ([ThriftCalls]) take a client from the pool of one
    server ([Pool]), make a call of [KVClient] over its transport ([ThriftService]), which
    the processor of the server hands to the handlers of [thrift/server] ([ThriftRemote]),
    and give the client back.  Together they are a map: the specification below, which
    has no pool, no wire and no server, is what a sequence of calls can observe.  The calls
    are made one after the other.  A call whose deadline comes first returns an error and
    gives its client back; its goroutine is left behind and makes its exchange with the
    server at some later time, or never.  The exchanges on one connection are assumed not
    to overlap; [ThriftCalls] shows that after a deadline nothing prevents it. *)
From S2P Require Import Prelude.
From S2P Require Import Store.
From S2P Require Import KVServers.
From S2P Require Import ThriftProtocol.
From S2P Require Import TokenProtocol.
From S2P Require Import ThriftRpc.
From S2P Require Import ThriftService.
From S2P Require Import ThriftRemote.
From S2P Require Import Pool.
From S2P Require Import ThriftCalls.

(** The transports of a world lead to connections of one server. *)
Class Links (W Transport C K : Type) : Type := {
  link : Transport -> W -> C;
  set_link : Transport -> C -> W -> W;
  server_of : W -> K
}.
Class LinksLaws (W Transport C K : Type) `{!Links W Transport C K} `{!Connection C K} : Prop := {
  link_server t w : server (link t w) = server_of w;
  set_link_server t c w : server_of (set_link t c w) = server c
}.

(** ** The calls and what they can observe *)
Inductive kv_call : Type := KPut (q : PutRequest) | KMultiPut (qs : list PutRequest) | KGet (q : GetRequest).
Inductive kv_answer : Type :=
| APut (r : result call_error (option PutResponse))
| AGet (r : result call_error (option GetResponse)).

(** Whether the answer or the deadline is first; and what happens in time: a call of the
    client, or the exchange of the [i]th goroutine that a deadline has left behind. *)
Inductive when : Type := InTime | Late.
Inductive event : Type := Calls (k : kv_call) (d : when) | Lands (i : nat).

Section Spec.
Context `{Thrift} (elapsed : Z).

(** What a call makes of the map. *)
Definition effect (k : kv_call) (m : gmap string string) : gmap string string :=
  match k with
  | KPut q => <[put_Key q := put_Value q]> m
  | KMultiPut qs => put_pairs m (of_PutRequest <$> qs)
  | KGet _ => m
  end.

(** A write that succeeds is done; one that fails, or meets its deadline, has not changed
    the map; a read answers what the map holds. *)
Definition spec_call (d : when) (k : kv_call) (m : gmap string string) (a : kv_answer) (now : gmap string string) : Prop :=
  match k, a with
  | KPut _, APut (Ok resp) | KMultiPut _, APut (Ok resp) => d = InTime /\ resp = Some (put_reply elapsed) /\ now = effect k m
  | KGet q, AGet (Ok resp) =>
      d = InTime /\ (exists v, m !! get_Key q = Some v /\ resp = Some (get_reply elapsed (get_Key q) v)) /\ now = m
  | KPut _, APut (Err DeadlineExceeded) | KMultiPut _, APut (Err DeadlineExceeded) | KGet _, AGet (Err DeadlineExceeded) =>
      d = Late /\ now = m
  | KPut _, APut (Err _) | KMultiPut _, APut (Err _) | KGet _, AGet (Err _) => now = m
  | _, _ => False
  end.

Definition timed_out (a : kv_answer) : bool :=
  match a with APut (Err DeadlineExceeded) | AGet (Err DeadlineExceeded) => true | _ => false end.

(** A call that met its deadline is [late]: it lands once, whole, or fails, or never lands. *)
Fixpoint spec_run (es : list event) (late : list kv_call) (m : gmap string string) (answers : list kv_answer)
    (now : gmap string string) : Prop :=
  match es with
  | [] => answers = [] /\ now = m
  | Calls k d :: es =>
      match answers with
      | [] => False
      | a :: answers =>
          exists m1, spec_call d k m a m1 /\ spec_run es (if timed_out a then late ++ [k] else late) m1 answers now
      end
  | Lands i :: es =>
      match late !! i with
      | None => spec_run es late m answers now
      | Some k => exists m1, (m1 = effect k m \/ m1 = m) /\ spec_run es (delete i late) m1 answers now
      end
  end.
End Spec.

(** ** The implementation *)
Section Path.
Context `{Thrift} {P : Type} `{!TProtocol P} `{!TStream P} `{!TProtocolLaws P}.
Context {DB Batch : Type} `{!RocksDB DB Batch} `{!RocksDBLaws DB Batch} (elapsed : Z).
#[local] Abbreviation impl := (kvImpl (DB := DB)).
#[local] Instance path_handler : KV impl := kvImpl_KV elapsed.
Context {C : Type} `{!TClient P C} `{!Connection C impl} (fuel : nat) `{!TClientLaws P C impl fuel}.
Context {Transport W : Type} `{Countable Transport} `{!Links W Transport C impl} `{!LinksLaws W Transport C impl}.
Context (IsOpen : Transport -> W -> bool) (nowFunc : W -> Z).
Context (Dial : string -> Z -> W -> result string (IdleClient (Transport := Transport)) * W).
Context (Close : IdleClient (Transport := Transport) -> W -> option string * W).
(** Dialing and closing are not calls of the server. *)
Context (Dial_server : forall a t w, server_of (snd (Dial a t w)) = server_of w).
Context (Close_server : forall c w, server_of (snd (Close c w)) = server_of w).
#[local] Abbreviation client := (IdleClient (Transport := Transport)).
#[local] Abbreviation pool := (ThriftPool (Transport := Transport)).

(** A call of the thrift client behind a pooled one, over the client's transport, up to
    the [select].  If the deadline is first, the exchange has not been made. *)
Definition rpc {R} (d : when) (m : proto C R) (c : client) (w : W) : waited R * W :=
  match d, c_Transport c with
  | InTime, Some t =>
      match m (link t w) with
      | Done conn (Ok r) => (Replied R r, set_link t conn w)
      | Done conn (Err e) => (Failed R (Error e), set_link t conn w)
      | _ => (TimedOut R, w)
      end
  | _, _ => (TimedOut R, w)
  end.

Definition do_call (d : when) (k : kv_call) (p : pool) (w : W) : pool * kv_answer * W :=
  match k with
  | KPut q =>
      let '(p, r, w) := call_Put IsOpen nowFunc Dial Close (fun c q => rpc d (KVClient_Put (P := P) fuel (Some q)) c) q p w in
      (p, APut r, w)
  | KMultiPut qs =>
      let '(p, r, w) := call_MultiPut IsOpen nowFunc Dial Close
        (fun c qs => rpc d (KVClient_MultiPut (P := P) fuel (Some <$> qs)) c) qs p w in
      (p, APut r, w)
  | KGet q =>
      let '(p, r, w) := call_Get IsOpen nowFunc Dial Close (fun c q => rpc d (KVClient_Get (P := P) fuel (Some q)) c) q p w in
      (p, AGet r, w)
  end.

(** The client that a call has got from the pool. *)
Definition lent_to (p : pool) (w : W) : option client :=
  match Pool.Get IsOpen Dial p w with (_, Ok c, _) => Some c | _ => None end.

(** A goroutine left behind makes its exchange; what it answers is not received. *)
Definition after {R} (r : run C R) : option C := match r with Done conn _ => Some conn | _ => None end.
Definition exchange (k : kv_call) (conn : C) : option C :=
  match k with
  | KPut q => after (KVClient_Put (P := P) fuel (Some q) conn)
  | KMultiPut qs => after (KVClient_MultiPut (P := P) fuel (Some <$> qs) conn)
  | KGet q => after (KVClient_Get (P := P) fuel (Some q) conn)
  end.
Definition lands (c : client) (k : kv_call) (w : W) : W :=
  match c_Transport c with
  | None => w
  | Some t => match exchange k (link t w) with Some conn => set_link t conn w | None => w end
  end.

Fixpoint do_events (es : list event) (late : list (client * kv_call)) (p : pool) (w : W) : pool * list kv_answer * W :=
  match es with
  | [] => (p, [], w)
  | Calls k d :: es =>
      let got := lent_to p w in
      let '(p, a, w) := do_call d k p w in
      let late := match got with Some c => if timed_out a then late ++ [(c, k)] else late | None => late end in
      let '(p, answers, w) := do_events es late p w in
      (p, a :: answers, w)
  | Lands i :: es =>
      match late !! i with
      | None => do_events es late p w
      | Some (c, k) => do_events es (delete i late) p (lands c k w)
      end
  end.

(** ** A pooled call is a call on some connection of the server *)
Lemma Get_server p w p' r w' :
  Pool.Get IsOpen Dial p w = (p', r, w') ->
  server_of w' = server_of w /\ forall c, r = Ok c -> is_Some (c_Transport c).
Proof using Dial_server.
  assert (Hcheck : forall c w, Check_client IsOpen c w = true -> is_Some (c_Transport c)).
  { intros c w0. unfold Check_client. destruct (c_Transport c); [by eexists|done]. }
  unfold Pool.Get. destruct (Get_locked p) as [err| |c p1]; [by intros [= _ <- <-]|..].
  - destruct (Dial (addr p) (connTimeout p) w) as [rd w1] eqn:Hd. pose proof (Dial_server (addr p) (connTimeout p) w) as Hs.
    rewrite Hd in Hs. destruct (Get_dialed IsOpen p rd w1) as [p2 r2] eqn:Hg. intros [= _ <- <-]. split; [done|].
    intros c ->. unfold Get_dialed in Hg. destruct rd as [c1|]; [|done].
    destruct (Check_client IsOpen c1 w1) eqn:Hc; [|done]. injection Hg as _ <-. by eapply Hcheck.
  - unfold Get_checked. destruct (Check_client IsOpen c w) eqn:Hc; intros [= _ <- <-]; (split; [done|]); [|done].
    intros c' [= <-]. by eapply Hcheck.
Qed.

Lemma Put_server p c w p' e w' : Pool.Put IsOpen nowFunc Close p c w = (p', e, w') -> server_of w' = server_of w.
Proof using Close_server.
  unfold Pool.Put. destruct c as [c|]; [|by intros [= _ _ <-]]. pose proof (Close_server c w) as Hs.
  destruct (Close c w) as [err w1]. simpl in Hs.
  repeat case_decide; [by intros [= _ _ <-]..|]. destruct (Check_client IsOpen c w); simpl; by intros [= _ _ <-].
Qed.

(** The call was refused by the pool, met its deadline with its client in hand, or was
    made on a connection of the server. *)
Lemma pooled_rpc {R} d (m : proto C R) p w p' r w' :
  pooled_call IsOpen nowFunc Dial Close (rpc d m) p w = (p', r, w') ->
  (exists e, r = Err (NotFromPool e) /\ server_of w' = server_of w) \/
  exists cl, lent_to p w = Some cl /\ is_Some (c_Transport cl) /\
    match d with
    | Late => r = Err DeadlineExceeded /\ server_of w' = server_of w
    | InTime =>
        exists c, server c = server_of w /\
          match m c with
          | Done c' (Ok x) => r = Ok x /\ server_of w' = server c'
          | Done c' (Err e) => r = Err (CallFailed (Error e)) /\ server_of w' = server c'
          | _ => True
          end
    end.
Proof using LinksLaws0 Dial_server Close_server.
  unfold pooled_call, lent_to. destruct (Pool.Get IsOpen Dial p w) as [[p1 [c|err]] w1] eqn:Hg;
    pose proof (Get_server _ _ _ _ _ Hg) as [Hs Ht].
  2: { intros [= _ <- <-]. left. by exists err. }
  pose proof (Ht c eq_refl) as Htr. destruct (rpc d m c w1) as [first w2] eqn:Hrpc.
  destruct (Pool.Put IsOpen nowFunc Close p1 (Some c) w2) as [[p2 e] w3] eqn:Hp. apply Put_server in Hp.
  intros [= _ <- <-]. right. exists c. split; [done|]. split; [done|]. destruct Htr as [t Hc].
  unfold rpc in Hrpc. rewrite Hc in Hrpc. destruct d; [|injection Hrpc as <- <-; by rewrite Hp].
  exists (link t w1). split; [by rewrite link_server|]. destruct (m (link t w1)) as [conn [x|e1]| |]; [| |done..];
    injection Hrpc as <- <-; by rewrite Hp, set_link_server.
Qed.

(** ** The refinement *)

(** The pairs whose reply to a [Get] fits on the wire; the calls whose message does, and
    which write such pairs only. *)
Context (small : string -> string -> Prop).
Context (small_reply : forall k v, small k v -> fits (P := P) fuel (wire (Some (mkKVGetResult (Some (get_reply elapsed k v)))))).
Context (put_reply_fits : fits (P := P) fuel (wire (Some (mkKVPutResult (Some (put_reply elapsed)))))).
Context (multi_reply_fits : fits (P := P) fuel (wire (Some (mkKVMultiPutResult (Some (put_reply elapsed)))))).

Definition call_ok (k : kv_call) : Prop :=
  match k with
  | KPut q => fits (P := P) fuel (wire (Some (mkKVPutArgs (Some q)))) /\ small (put_Key q) (put_Value q)
  | KMultiPut qs => fits (P := P) fuel (wire (Some (mkKVMultiPutArgs (Some <$> qs)))) /\
      Forall (fun q => small (put_Key q) (put_Value q)) qs
  | KGet q => fits (P := P) fuel (wire (Some (mkKVGetArgs (Some q))))
  end.

#[local] Abbreviation store w := (pairs (server_of w)).

(** What stays true between calls. *)
Definition served (w : W) : Prop := running (server_of w) /\ map_Forall small (store w).

Lemma small_puts m qs :
  map_Forall small m -> Forall (fun q => small (put_Key q) (put_Value q)) qs ->
  map_Forall small (put_pairs m (of_PutRequest <$> qs)).
Proof.
  intros Hm Hqs. revert m Hm. induction Hqs as [|q qs Hq _ IH]; intros m Hm; [done|]. apply IH. by apply map_Forall_insert_2.
Qed.

(** An exchange of a call on a connection of the server. *)
Lemma remote_write k c :
  running (server c) -> call_ok k ->
  match k with
  | KPut q => stored_remotely elapsed (KVClient_Put (P := P) fuel (Some q)) c (effect k (pairs (server c)))
  | KMultiPut qs => stored_remotely elapsed (KVClient_MultiPut (P := P) fuel (Some <$> qs)) c (effect k (pairs (server c)))
  | KGet _ => True
  end.
Proof using All.
  intros Hrun Hk. destruct (remote_store (P := P) elapsed fuel c Hrun) as (Hput & Hmulti & _).
  destruct k as [q|qs|q]; [apply (Hput (Some q)); [apply Hk|done]| |done].
  - destruct Hk as [Hf _]. specialize (Hmulti (Some <$> qs) Hf multi_reply_fits).
    assert (default NewPutRequest <$> (Some <$> qs) = qs) as Hid by (rewrite <- list_fmap_compose; apply list_fmap_id).
    by rewrite Hid in Hmulti.
Qed.

Lemma remote_read q c :
  running (server c) -> map_Forall small (pairs (server c)) -> call_ok (KGet q) ->
  exists c' r, KVClient_Get (P := P) fuel (Some q) c = Done c' r /\ server c' = server c /\
    match r with
    | Ok resp => exists v, pairs (server c) !! get_Key q = Some v /\ resp = Some (get_reply elapsed (get_Key q) v)
    | Err _ => True
    end.
Proof using All.
  intros Hrun Hsm Hk. destruct (remote_store (P := P) elapsed fuel c Hrun) as (_ & _ & Hget).
  assert (Hfound : forall v, found (pairs (server c)) (get_Key q) = Ok v -> pairs (server c) !! get_Key q = Some v).
  { intros v. unfold found. destruct (pairs (server c) !! get_Key q) as [v'|]; [|done]. by case_decide; intros [= ->]. }
  destruct (Hget (Some q)) as (c' & r & Hd & Hs & Hr); [done| |].
  { intros v Hv%Hfound. by apply small_reply, Hsm. }
  exists c', r. split; [done|]. split; [done|]. destruct r as [resp|]; [|done]. destruct Hr as (v & Hv%Hfound & ->). by exists v.
Qed.

Lemma pooled_write d k m p w p' r w' :
  served w -> map_Forall small (effect k (store w)) -> (forall q, k <> KGet q) ->
  (forall c, server c = server_of w -> stored_remotely elapsed m c (effect k (store w))) ->
  pooled_call IsOpen nowFunc Dial Close (rpc d m) p w = (p', r, w') ->
  served w' /\ spec_call elapsed d k (store w) (APut r) (store w') /\
  (timed_out (APut r) = true -> exists cl, lent_to p w = Some cl /\ is_Some (c_Transport cl)).
Proof using LinksLaws0 Dial_server Close_server.
  intros [Hrun Hsm] Hnow Hng Hm [(e & -> & Hs)|(cl & Hl & Ht & Hd)]%pooled_rpc.
  { unfold served. rewrite Hs. by destruct k as [q|qs|q]; [..|destruct (Hng q)]. }
  destruct d; [|destruct Hd as [-> Hs]; unfold served; rewrite Hs; split; [done|]; split;
                  [by destruct k as [q|qs|q]; [..|destruct (Hng q)]|by exists cl]].
  destruct Hd as (c & Hc & Hr). destruct (Hm c Hc) as (c' & [resp|e] & Hdone & Hrun' & Hres); rewrite Hdone in Hr;
    destruct Hr as [-> Hs]; unfold served; rewrite Hs.
  - destruct Hres as [-> ->]. split; [done|]. split; [by destruct k as [q|qs|q]; [..|destruct (Hng q)]|done].
  - rewrite Hres, Hc. split; [done|]. split; [by destruct k as [q|qs|q]; [..|destruct (Hng q)]|done].
Qed.

Lemma small_effect k m : call_ok k -> map_Forall small m -> map_Forall small (effect k m).
Proof.
  destruct k as [q|qs|q]; [intros [_ Hq] Hm|intros [_ Hq] Hm|done]; [by apply map_Forall_insert_2|by apply small_puts].
Qed.

Lemma do_call_spec d k p w p' a w' :
  served w -> call_ok k -> do_call d k p w = (p', a, w') ->
  served w' /\ spec_call elapsed d k (store w) a (store w') /\
  (timed_out a = true -> exists cl, lent_to p w = Some cl /\ is_Some (c_Transport cl)).
Proof using All.
  intros Hsv Hk. pose proof Hsv as [Hrun Hsm]. pose proof (small_effect k _ Hk Hsm) as Hnow.
  destruct k as [q|qs|q]; unfold do_call, call_Put, call_MultiPut, call_Get;
    destruct (pooled_call _ _ _ _ _ p w) as [[p1 r] w1] eqn:Hc; intros [= _ <- <-].
  - eapply (pooled_write d (KPut q)); [done|done|done| |exact Hc].
    intros c Hs. rewrite <- Hs. apply (remote_write (KPut q) c); [by rewrite Hs|done].
  - eapply (pooled_write d (KMultiPut qs)); [done|done|done| |exact Hc].
    intros c Hs. rewrite <- Hs. apply (remote_write (KMultiPut qs) c); [by rewrite Hs|done].
  - apply pooled_rpc in Hc as [(e & -> & Hs)|(cl & Hl & Ht & Hd)]; [unfold served; by rewrite Hs|].
    destruct d; [|destruct Hd as [-> Hs]; unfold served; rewrite Hs; split; [done|]; split; [done|by exists cl]].
    destruct Hd as (c & Hs & Hr). destruct (remote_read q c) as (c' & res & Hdone & Hs' & Hres); [by rewrite Hs|by rewrite Hs|done|].
    rewrite Hdone in Hr. destruct res as [resp|e]; destruct Hr as [-> Hw]; unfold served; rewrite Hw, Hs', Hs; [|done].
    split; [done|]. split; [|done]. rewrite Hs in Hres. done.
Qed.

Lemma lands_spec c k w :
  served w -> call_ok k -> is_Some (c_Transport c) ->
  served (lands c k w) /\ (store (lands c k w) = effect k (store w) \/ store (lands c k w) = store w).
Proof using All.
  intros [Hrun Hsm] Hk [t Ht]. unfold lands. rewrite Ht. pose proof (link_server t w) as Hs.
  pose proof (remote_write k (link t w) ltac:(by rewrite Hs) Hk) as Hw.
  assert (Hsm' : map_Forall small (effect k (store w))) by by apply small_effect.
  destruct k as [q|qs|q]; unfold exchange.
  3: { destruct (remote_read q (link t w)) as (c' & r & -> & Hs' & _); [by rewrite Hs|by rewrite Hs|done|].
       unfold served. simpl. rewrite set_link_server, Hs', Hs. by split; [|left]. }
  1, 2: destruct Hw as (c' & r & -> & Hrun' & Hr); rewrite Hs in Hr; unfold served; simpl; rewrite set_link_server;
    destruct r as [resp|]; [destruct Hr as [_ Hr]|]; rewrite Hr; (split; [done|]); [by left|by right].
Qed.

End Path.

(** ** A run: a server over the map database, behind connections of token lists *)
Section Demo.
#[local] Existing Instances numbered token_protocol token_stream token_laws loopback_server.
#[local] Abbreviation impl := (kvImpl (DB := map_db)).
#[local] Instance demo_path_handler : KV impl := kvImpl_KV 5.
#[local] Instance demo_path_client : TClient tokens impl := loopback 60.
#[local] Instance demo_path_laws : TClientLaws tokens impl impl 60 := loopback_laws 60.

(** The number of transports dialed, and the server. *)
#[local] Instance demo_links : Links (nat * impl) nat impl impl :=
  {| link t w := w.2; set_link t c w := (w.1, c); server_of w := w.2 |}.
#[local] Instance demo_links_laws : LinksLaws (nat * impl) nat impl impl.
Proof. by split. Qed.

Definition path_open (t : nat) (w : nat * impl) : bool := true.
Definition path_now (w : nat * impl) : Z := 0%Z.
Definition path_dial (a : string) (t : Z) (w : nat * impl) : result string (IdleClient (Transport := nat)) * (nat * impl) :=
  (Ok (mkIdleClient (Some w.1) true a), (S w.1, w.2)).
Definition path_close (c : IdleClient (Transport := nat)) (w : nat * impl) : option string * (nat * impl) := (None, w).

Lemma path_dial_server a t w : server_of (K := impl) (snd (path_dial a t w)) = server_of w.
Proof. done. Qed.
Lemma path_close_server c w : server_of (K := impl) (snd (path_close c w)) = server_of w.
Proof. done. Qed.

(** The second put meets its deadline, and lands after the batch. *)
Definition path_events : list event :=
  [Calls (KPut (mkPutRequest "k" "v")) InTime; Calls (KPut (mkPutRequest "k" "late")) Late;
   Calls (KMultiPut [mkPutRequest "k" "w"; mkPutRequest "l" "x"]) InTime; Calls (KGet (mkGetRequest "k" false)) InTime;
   Lands 0; Calls (KGet (mkGetRequest "k" false)) InTime; Calls (KGet (mkGetRequest "z" false)) InTime].
Definition path_run :=
  do_events (P := tokens) 60 path_open path_now path_dial path_close path_events [] (NewThriftPool "kv" 10 30 60)
    (0, mkKvImpl (DB := map_db) store0).

Lemma path_fits v : length (tokens_of v) <= 60 -> fits (P := tokens) 60 v.
Proof. intros Hl. split; [by apply Forall_true|exact Hl]. Qed.

Lemma path_reply k v : fits (P := tokens) 60 (wire (Some (mkKVGetResult (Some (get_reply 5 k v))))).
Proof. apply path_fits. simpl. lia. Qed.
Lemma path_put_reply : fits (P := tokens) 60 (wire (Some (mkKVPutResult (Some (put_reply 5))))).
Proof. apply path_fits. simpl. lia. Qed.
Lemma path_multi_reply : fits (P := tokens) 60 (wire (Some (mkKVMultiPutResult (Some (put_reply 5))))).
Proof. apply path_fits. simpl. lia. Qed.
Lemma path_events_ok k d : Calls k d ∈ path_events -> call_ok (P := tokens) 60 (fun _ _ => True) k.
Proof.
  intros Hk. repeat (apply elem_of_cons in Hk as [Hk|Hk]; [first [injection Hk as -> _|discriminate Hk]|]).
  all: try by apply not_elem_of_nil in Hk.
  all: simpl; repeat split; try (apply Forall_true; intros []; done); repeat constructor; simpl; lia.
Qed.

End Demo.
