(* ===== verification/ThriftNode.v ===== *)
(** * thrift/client: dialing, connections to one server, and the node that checks them

    [dial.go] makes and closes a client with the thrift library, whose sockets and
    transports are parameters over a world [W]; [conn.go] keeps a pool and a client
    for pings per server; [client.go] keeps the servers' connections, checks them
    on a ticker and picks one for a request.  Connections are shared by reference
    between the node's list and the copies the loops make, so they live in a heap.
    [log.Fatalf] ends the process: a tick ends in [Fatal].  A tick and a close here are not
    disturbed; [NodeClose] takes them apart into steps and shows that this is one way
    they can run. *)
From S2P Require Import Prelude.
From S2P Require Import Pool.

Section ThriftNode.
Context {Socket Transport W : Type} `{Countable Transport}.
Context (NewTSocketTimeout : string -> Z -> W -> result string Socket * W).
Context (GetTransport : Socket -> W -> result string Transport * W).
Context (Transport_Open Transport_Close : Transport -> W -> option string * W).
Context (IsOpen : Transport -> W -> bool) (nowFunc : W -> Z).

#[local] Abbreviation client := (@IdleClient Transport).
#[local] Abbreviation pool := (@ThriftPool Transport).

(** ** dial.go *)
(* src/thrift/client/dial.go:12-37 thriftDialFunc *)
Definition thriftDialFunc (addr : string) (connTimeout : Z) (w : W) : result string client * W :=
  let '(r, w) := NewTSocketTimeout addr connTimeout w in
  match r with
  | Err err => (Err err, w)
  | Ok socket =>
      let '(r, w) := GetTransport socket w in
      match r with
      | Err err => (Err err, w)
      | Ok transport =>
          let '(err, w) := Transport_Open transport w in
          match err with
          | Some err => (Err err, w)
          | None => (Ok (mkIdleClient (Some transport) true addr), w)
          end
      end
  end.

(** A nil transport is a nil interface: calling [Close] on it panics. *)
(* src/thrift/client/dial.go:39-45 thriftClientCloseFunc *)
Definition thriftClientCloseFunc (c : option client) (w : W) : outcome (option string * W) :=
  match c with
  | None => Ret (Some "client is nil"%string, w)
  | Some c =>
      match c_Transport c with
      | Some t => Ret (Transport_Close t w)
      | None => Panic
      end
  end.

(** [thriftClientCloseFunc] on the clients [thriftDialFunc] makes, the only ones here. *)
Definition close_dialed (c : client) (w : W) : option string * W :=
  match c_Transport c with Some t => Transport_Close t w | None => (None, w) end.

Lemma thriftDialFunc_Ok addr t w c w' :
  thriftDialFunc addr t w = (Ok c, w') ->
  is_Some (c_Transport c) /\ c_Client c = true /\ c_Addr c = addr /\
  forall w, thriftClientCloseFunc (Some c) w = Ret (close_dialed c w).
Proof.
  unfold thriftDialFunc. destruct (NewTSocketTimeout addr t w) as [[s|] w1]; [|done].
  destruct (GetTransport s w1) as [[tr|] w2]; [|done].
  destruct (Transport_Open tr w2) as [[e|] w3]; [done|]. intros [= <- _].
  split; [by exists tr|done].
Qed.

(** ** conn.go *)
(* src/thrift/client/conn.go:12-16 Up *)
Definition Up : Z := 0%Z.
Definition Down : Z := 1%Z.
Definition Unknown : Z := 2%Z.

(* src/thrift/client/conn.go:18-28 Conn *)
Record Conn : Type := mkConn {
  state : Z;
  conn_addr : string;
  conn_idleTimeout : Z;
  conn_connTimeout : Z;
  lastPing : Z;
  lastStatus : bool;
  checkClient : option client;
  conn_pool : option pool
}.

Definition set_state (c : Conn) s : Conn :=
  mkConn s (conn_addr c) (conn_idleTimeout c) (conn_connTimeout c) (lastPing c) (lastStatus c) (checkClient c) (conn_pool c).
Definition set_lastStatus (c : Conn) b : Conn :=
  mkConn (state c) (conn_addr c) (conn_idleTimeout c) (conn_connTimeout c) (lastPing c) b (checkClient c) (conn_pool c).
Definition set_checkClient (c : Conn) cc : Conn :=
  mkConn (state c) (conn_addr c) (conn_idleTimeout c) (conn_connTimeout c) (lastPing c) (lastStatus c) cc (conn_pool c).
Definition set_pool (c : Conn) p : Conn :=
  mkConn (state c) (conn_addr c) (conn_idleTimeout c) (conn_connTimeout c) (lastPing c) (lastStatus c) (checkClient c) p.

(** [time.Now().UTC().Add(8 * time.Hour)] *)
Definition ping_time (w : W) : Z := (nowFunc w + 8 * 3600 * 1000000000)%Z.

(* src/thrift/client/conn.go:90-92 Conn.SetLastPing *)
Definition SetLastPing (c : Conn) (w : W) : Conn :=
  mkConn (state c) (conn_addr c) (conn_idleTimeout c) (conn_connTimeout c) (ping_time w) (lastStatus c)
    (checkClient c) (conn_pool c).

Definition close_client (c : option client) (w : W) : W :=
  match c with Some c => snd (close_dialed c w) | None => w end.
Definition release_pool (p : option pool) (w : W) : option pool * W :=
  match p with Some p => let '(p, w) := Pool.Release close_dialed p w in (Some p, w) | None => (None, w) end.

(* src/thrift/client/conn.go:62-73 Conn.Release *)
Definition conn_Release (c : Conn) (w : W) : Conn * W :=
  let w := close_client (checkClient c) w in
  let '(p, w) := release_pool (conn_pool c) w in
  (set_checkClient (set_lastStatus (set_pool c p) false) None, w).

(* src/thrift/client/conn.go:76-88 Conn.Close *)
Definition conn_Close (c : Conn) (w : W) : Conn * W :=
  let w := close_client (checkClient c) w in
  let '(_, w) := release_pool (conn_pool c) w in
  (set_lastStatus (set_pool (set_checkClient c None) None) false, w).

Definition pool_error_Error (e : pool_error) : string :=
  match e with
  | ErrOverMax => "ThriftPool 连接超过设置的最大连接数"
  | ErrInvalidConn => "ThriftPool Client回收时变成nil"
  | ErrPoolClosed => "ThriftPool 连接池已经被关闭"
  | ErrSocketDisconnect => "ThriftPool 客户端socket连接已断开"
  | ErrOther msg => msg
  end.

(* src/thrift/client/conn.go:30-59 newConn *)
Definition newConn (addr : string) (connTimeout idleTimeout : Z) (w : W) : result string Conn * W :=
  let p := NewThriftPool addr 10000 connTimeout idleTimeout in
  let conn := mkConn Unknown addr idleTimeout connTimeout (ping_time w) true None (Some p) in
  let '(r, w) := thriftDialFunc addr connTimeout w in
  match r with
  | Err err => (Err err, w)
  | Ok cc =>
      let conn := set_checkClient conn (Some cc) in
      let '(p, r, w) := Pool.Get IsOpen thriftDialFunc p w in
      match r with
      | Err err => let '(_, w) := conn_Close (set_pool conn (Some p)) w in (Err (pool_error_Error err), w)
      | Ok idleClient =>
          let '(p, _, w) := Pool.Put IsOpen nowFunc close_dialed p (Some idleClient) w in
          (Ok (set_pool conn (Some p)), w)
      end
  end.

(* src/thrift/client/conn.go:98-109 Conn.State *)
Definition State (c : Conn) : string :=
  if decide (state c = Up) then "up"
  else if decide (state c = Down) then "down"
  else if decide (state c = Unknown) then "unknown" else "".

(* src/thrift/client/conn.go:94-96 Conn.Addr *)
Definition Addr (c : Conn) : string := conn_addr c.
(* src/thrift/client/conn.go:111-116 Conn.IdleConnCount *)
Definition IdleConnCount (c : Conn) : Z := match conn_pool c with Some p => GetIdleCount (Some p) | None => 0%Z end.
(* src/thrift/client/conn.go:118-123 Conn.EnableConnCount *)
Definition EnableConnCount (c : Conn) : Z := match conn_pool c with Some p => GetConnCount (Some p) | None => 0%Z end.
(* src/thrift/client/conn.go:125-127 Conn.GetLastPing *)
Definition GetLastPing (c : Conn) : Z := lastPing c.

(** What the [select] of [Ping] sees of the RPC it sends: the server's answer, an
    error, or the end of its timeout. *)
Inductive ping_answer : Type := PingHealth (OK : bool) (Errors : string) | PingErr (err : string) | PingTimeout.
Context (Client_Ping : client -> Z -> W -> ping_answer * W).

(** The check client, dialed again when there is none or the last check failed. *)
(* src/thrift/client/conn.go:131-140 Conn.Ping *)
Definition ensure_checkClient (c : Conn) (w : W) : option string * Conn * W :=
  match checkClient c, lastStatus c with
  | Some _, true => (None, c, w)
  | cc, _ =>
      let w := close_client cc w in
      let '(r, w) := thriftDialFunc (conn_addr c) (conn_connTimeout c) w in
      match r with
      | Err err => (Some err, set_checkClient c None, w)
      | Ok cc => (None, set_checkClient c (Some cc), w)
      end
  end.

(** The error and whether it was a timeout; a nil client panics. *)
(* src/thrift/client/conn.go:129-176 Conn.Ping *)
Definition Ping (c : Conn) (readTimeout : Z) (w : W) : outcome (option string * bool * Conn * W) :=
  let '(err, c, w) := ensure_checkClient c w in
  match err with
  | Some err => Ret (Some err, false, c, w)
  | None =>
      match checkClient c with
      | None => Panic
      | Some cc =>
          let closed := match c_Transport cc with Some t => negb (IsOpen t w) | None => false end in
          if closed then Ret (Some "Socket is close"%string, false, c, w)
          else
            let '(a, w) := Client_Ping cc readTimeout w in
            match a with
            | PingHealth ok errs => if ok then Ret (None, false, c, w) else Ret (Some errs, false, c, w)
            | PingErr err => Ret (Some err, false, c, w)
            | PingTimeout => Ret (Some "Ping Timeout"%string, true, c, w)
            end
      end
  end.

(** ** client.go *)
Abbreviation conn_ref := nat.

(* src/thrift/client/client.go:22-34 Node *)
Record Node : Type := mkNode {
  nodeAddrs : list string;
  checkInterval : Z;
  connTimeout : Z;
  idleTimeout : Z;
  readTimeout : Z;
  conns : list conn_ref;
  conn_heap : gmap conn_ref Conn
}.

Definition set_conn (n : Node) (r : conn_ref) (c : Conn) : Node :=
  mkNode (nodeAddrs n) (checkInterval n) (connTimeout n) (idleTimeout n) (readTimeout n) (conns n)
    (<[r := c]> (conn_heap n)).
Definition set_conns (n : Node) l : Node :=
  mkNode (nodeAddrs n) (checkInterval n) (connTimeout n) (idleTimeout n) (readTimeout n) l (conn_heap n).

Definition get_conn (n : Node) (r : conn_ref) : outcome Conn :=
  match conn_heap n !! r with Some c => Ret c | None => Panic end.

(** A new object: its reference, and the node whose heap has it. *)
Definition alloc_conn (n : Node) (c : Conn) : conn_ref * Node :=
  let r := fresh (dom (conn_heap n)) in (r, set_conn n r c).

(* src/thrift/client/client.go:173-186 Node.initPerConn *)
Fixpoint initPerConn (n : Node) (addrs : list string) (w : W) : option string * Node * W :=
  match addrs with
  | [] => (None, n, w)
  | a :: addrs =>
      let '(r, w) := newConn a (connTimeout n) (idleTimeout n) w in
      match r with
      | Err err => (Some ("init addr - " +:+ a +:+ ", " +:+ err), n, w)
      | Ok c =>
          let '(r, n) := alloc_conn n c in
          initPerConn (set_conns n (conns n ++ [r])) addrs w
      end
  end.

(* src/thrift/client/client.go:36-57 NewServerNode *)
Definition NewServerNode (addrs : list string) (checkInterval connTimeout idleTimeout readTimeout : Z) (w : W)
    : result string Node * W :=
  let '(err, n, w) := initPerConn (mkNode addrs checkInterval connTimeout idleTimeout readTimeout [] ∅) addrs w in
  match err with Some err => (Err err, w) | None => (Ok n, w) end.

(* src/thrift/client/client.go:59-65 Node.Close *)
Fixpoint close_conns (n : Node) (rs : list conn_ref) (w : W) : outcome (Node * W) :=
  match rs with
  | [] => Ret (n, w)
  | r :: rs =>
      c ← get_conn n r;
      let '(c, w) := conn_Close c w in
      close_conns (set_conn n r c) rs w
  end.
Definition node_Close (n : Node) (w : W) : outcome (Node * W) := close_conns n (conns n) w.

(** The first connection to [addr] in a list of references. *)
Fixpoint find_addr (n : Node) (a : string) (rs : list conn_ref) : outcome (option conn_ref) :=
  match rs with
  | [] => Ret None
  | r :: rs =>
      c ← get_conn n r;
      if decide (conn_addr c = a) then Ret (Some r) else find_addr n a rs
  end.

(* src/thrift/client/client.go:125-143 Node.downConn *)
Definition downConn (n : Node) (a : string) (w : W) : outcome (Node * W) :=
  o ← find_addr n a (conns n);
  match o with
  | None => Ret (n, w)
  | Some r =>
      c ← get_conn n r;
      let '(c, w) := conn_Close (set_state c Down) w in
      Ret (set_conn n r c, w)
  end.

(** [n.conns[k] = newConn] for the first [k] whose connection goes to [addr]. *)
(* src/thrift/client/client.go:161-169 Node.upConn *)
Fixpoint replace_conn (n : Node) (a : string) (new : conn_ref) (rs : list conn_ref) : outcome (list conn_ref) :=
  match rs with
  | [] => Ret [new]
  | r :: rs =>
      c ← get_conn n r;
      if decide (conn_addr c = a) then Ret (new :: rs)
      else rs ← replace_conn n a new rs; Ret (r :: rs)
  end.

(* src/thrift/client/client.go:145-171 Node.upConn *)
Definition upConn (n : Node) (a : string) (w : W) : outcome (option string * Node * W) :=
  let '(r, w) := newConn a (connTimeout n) (idleTimeout n) w in
  match r with
  | Err err => Ret (Some err, n, w)
  | Ok c =>
      '(err, _, c, w) ← Ping c (readTimeout n) w;
      match err with
      | Some err =>
          let '(_, w) := conn_Close (set_state c Down) w in
          Ret (Some err, n, w)
      | None =>
          let '(r, n) := alloc_conn n (set_state c Up) in
          l ← replace_conn n a r (conns n);
          Ret (None, set_conns n l, w)
      end
  end.

(** What checking one connection, or a tick over all of them, comes to. *)
Inductive checked : Type := Running (n : Node) (w : W) | Fatal (msg : string).

(** What a check makes of the ping's result. *)
(* src/thrift/client/client.go:88-119 Node.checkNode *)
Definition check_result (n : Node) (r : conn_ref) (c : Conn) (err : option string) (timeout : bool) (w : W)
    : outcome checked :=
  match err with
  | Some err =>
      if timeout then
        let c := if decide (state c = Unknown) then set_state c Up else c in
        let '(c, w) := conn_Release c w in
        Ret (Fatal ("addr - " +:+ conn_addr c +:+ " ping timeout, err: " +:+ err))
      else
        let n := set_conn n r (set_state (set_lastStatus c false) Down) in
        '(n, w) ← downConn n (conn_addr c) w;
        Ret (Fatal ("addr - " +:+ conn_addr c +:+ " server down, err: " +:+ err))
  | None =>
      if decide (state c = Down) then
        '(err, n, w) ← upConn (set_conn n r c) (conn_addr c) w;
        match err with
        | Some err => Ret (Fatal ("addr - " +:+ conn_addr c +:+ " server up failed, err: " +:+ err))
        | None => Ret (Fatal ("addr - " +:+ conn_addr c +:+ " server up"))
        end
      else
        let c := if decide (state c = Unknown) then set_state c Up else c in
        Ret (Running (set_conn n r (SetLastPing (set_lastStatus c true) w)) w)
  end.

(* src/thrift/client/client.go:87-119 Node.checkNode *)
Definition check_conn (n : Node) (r : conn_ref) (w : W) : outcome checked :=
  c ← get_conn n r;
  '(err, timeout, c, w) ← Ping c (readTimeout n) w;
  check_result n r c err timeout w.

Fixpoint check_all (n : Node) (rs : list conn_ref) (w : W) : outcome checked :=
  match rs with
  | [] => Ret (Running n w)
  | r :: rs =>
      k ← check_conn n r w;
      match k with
      | Running n w => check_all n rs w
      | Fatal msg => Ret (Fatal msg)
      end
  end.

(** One turn of the ticker's case, over a copy of the list. *)
(* src/thrift/client/client.go:76-120 Node.checkNode *)
Definition checkNode_tick (n : Node) (w : W) : outcome checked := check_all n (conns n) w.

(** The indices of the connections that are not down. *)
(* src/thrift/client/client.go:224-230 Node.ChooseNodeConn *)
Fixpoint enableConnIndex (n : Node) (i : nat) (rs : list conn_ref) : outcome (list nat) :=
  match rs with
  | [] => Ret []
  | r :: rs =>
      c ← get_conn n r;
      l ← enableConnIndex n (S i) rs;
      if decide (state c = Down) then Ret l else Ret (i :: l)
  end.

Definition ErrBadConn : string := "Server Conn connection was bad, Thrift Pool is Nil".

(** [rand_Intn n] is below [n]; no other goroutine runs between the two checks of the
    state, which read the same value. *)
(* src/thrift/client/client.go:188-217 Node.getStatConn *)
Definition getStatConn (n : Node) (rand_Intn : nat -> nat) : outcome (result string conn_ref) :=
  l ← enableConnIndex n 0 (conns n);
  match l with
  | [] => Ret (Err "no enable connection server"%string)
  | _ =>
      match l !! rand_Intn (length l) with
      | None => Panic
      | Some i =>
          match conns n !! i with
          | None => Panic
          | Some r =>
              c ← get_conn n r;
              if decide (state c = Down) then Ret (Err ("server addr: " +:+ Addr c +:+ " is down"))
              else Ret (Ok r)
          end
      end
  end.

(* src/thrift/client/client.go:220-253 Node.ChooseNodeConn *)
Definition ChooseNodeConn (n : Node) (rand_Intn : nat -> nat) : outcome (result string conn_ref) :=
  o ← getStatConn n rand_Intn;
  match o with
  | Err err => Ret (Err err)
  | Ok r =>
      c ← get_conn n r;
      match conn_pool c with
      | None => Ret (Err ErrBadConn)
      | Some _ => Ret (Ok r)
      end
  end.

(* src/thrift/client/client.go:255-261 NodeConnsInfo *)
Record NodeConnsInfo : Type := mkInfo {
  info_State : string; info_LastPing : Z; info_Addr : string; info_Idle : Z; info_Enable : Z
}.

(* src/thrift/client/client.go:263-285 Node.GetNodeConnsInfo *)
Fixpoint GetNodeConnsInfo (n : Node) (rs : list conn_ref) : outcome (list NodeConnsInfo) :=
  match rs with
  | [] => Ret []
  | r :: rs =>
      c ← get_conn n r;
      let '(i, e) := if decide (state c = Up) then (IdleConnCount c, EnableConnCount c) else (0%Z, 0%Z) in
      l ← GetNodeConnsInfo n rs;
      Ret (mkInfo (State c) (GetLastPing c) (Addr c) i e :: l)
  end.

(** ** A new connection *)
Lemma newConn_pool a ct it w c w' :
  newConn a ct it w = (Ok c, w') -> state c = Unknown /\ conn_addr c = a /\ is_Some (conn_pool c).
Proof.
  unfold newConn. destruct (thriftDialFunc a ct w) as [[cc|] w1]; [|done].
  destruct (Pool.Get _ _ _ _) as [[p [cl|e]] w2].
  - destruct (Pool.Put _ _ _ _ _ _) as [[p' e] w3]. intros [= <- <-]. by split; [|split; [|eexists]].
  - by destruct (conn_Close _ w2).
Qed.

(** A new connection is ready to use.  When [newConn] succeeds, the connection
    has a check client and a pool that holds exactly one idle, open client and
    counts it; its state is unknown until the first check. *)
Theorem newConn_ready a ct it w c w' :
  newConn a ct it w = (Ok c, w') ->
  state c = Unknown /\ conn_addr c = a /\ lastStatus c = true /\ is_Some (checkClient c) /\
  exists p cl t, conn_pool c = Some p /\ idle p = [(cl, t)] /\ count p = 1%Z /\ c_Addr cl = a /\
    Check_client IsOpen cl w' = true.
Proof.
  unfold newConn. destruct (thriftDialFunc a ct w) as [[cc|] w1]; [|done].
  unfold Pool.Get, Get_locked. simpl. destruct (thriftDialFunc a ct w1) as [[cl|err] w2] eqn:Hd; simpl.
  2: { by repeat case_match. }
  destruct (Check_client IsOpen cl w2) eqn:Hc; simpl; [|by repeat case_match].
  rewrite Hc. simpl. intros [= <- <-]. simpl. apply thriftDialFunc_Ok in Hd as (_ & _ & Ha & _).
  split; [done|]. split; [done|]. split; [done|]. split; [by eexists|]. eexists _, cl, _.
  split; [reflexivity|]. done.
Qed.

(** ** Pinging *)
Lemma ensure_checkClient_spec c w err c' w' :
  ensure_checkClient c w = (err, c', w') ->
  set_checkClient c' None = set_checkClient c None /\
  match err with None => is_Some (checkClient c') | Some _ => checkClient c' = None end.
Proof.
  unfold ensure_checkClient. destruct (checkClient c) as [cc|] eqn:Hcc; [destruct (lastStatus c)|].
  - intros [= <- <- <-]. split; [done|]. by rewrite Hcc.
  - destruct (thriftDialFunc _ _ _) as [[cl|e] w1]; intros [= <- <- <-]; simpl; by split.
  - destruct (thriftDialFunc _ _ _) as [[cl|e] w1]; intros [= <- <- <-]; simpl; by split.
Qed.

Lemma Ping_returns c rt w :
  exists err timeout c' w', Ping c rt w = Ret (err, timeout, c', w') /\
    set_checkClient c' None = set_checkClient c None.
Proof.
  unfold Ping. destruct (ensure_checkClient c w) as [[[e|] c1] w1] eqn:He;
    apply ensure_checkClient_spec in He as [Hsame Hcc]; [by eexists _, _, _, _|].
  destruct Hcc as [cc ->].
  destruct (match c_Transport cc with Some t => _ | None => _ end); [by eexists _, _, _, _|].
  by destruct (Client_Ping cc rt w1) as [[[|] errs|e0|] w2]; eexists _, _, _, _.
Qed.

(** [Ping] returns on every branch and touches nothing but the check client.  The
    client it has is kept when the last check was good; otherwise it is closed and
    a new one dialed, and when that fails none is left, so that the next ping
    dials again.  Only the end of the timeout is reported as one. *)
Theorem Ping_total c rt w :
  exists err timeout c' w', Ping c rt w = Ret (err, timeout, c', w') /\
    set_checkClient c' None = set_checkClient c None /\
    (timeout = true -> err = Some "Ping Timeout"%string) /\
    (err = None -> is_Some (checkClient c')) /\
    (forall cc, checkClient c = Some cc -> lastStatus c = true -> checkClient c' = Some cc) /\
    (forall e w1, checkClient c = None \/ lastStatus c = false ->
       thriftDialFunc (conn_addr c) (conn_connTimeout c) (close_client (checkClient c) w) = (Err e, w1) ->
       err = Some e /\ timeout = false /\ checkClient c' = None /\ w' = w1).
Proof.
  unfold Ping. destruct (ensure_checkClient c w) as [[err c1] w1] eqn:He.
  pose proof (ensure_checkClient_spec _ _ _ _ _ He) as [Hsame Hcc].
  assert (Hkeep : forall cc, checkClient c = Some cc -> lastStatus c = true -> err = None /\ checkClient c1 = Some cc).
  { intros cc H1 H2. unfold ensure_checkClient in He. rewrite H1, H2 in He. by injection He as <- <- _. }
  assert (Hfail : forall e w2, checkClient c = None \/ lastStatus c = false ->
    thriftDialFunc (conn_addr c) (conn_connTimeout c) (close_client (checkClient c) w) = (Err e, w2) ->
    err = Some e /\ w1 = w2).
  { intros e w2 Hor Hd. unfold ensure_checkClient in He.
    destruct (checkClient c) as [cc|]; [destruct (lastStatus c); [by destruct Hor|]|];
      rewrite Hd in He; by injection He as <- _ <-. }
  destruct err as [err|].
  - eexists (Some err), false, c1, w1. split; [done|]. split; [done|]. split; [done|]. split; [done|].
    split; [intros cc H1 H2; by destruct (Hkeep cc H1 H2)|].
    intros e w2 Hor Hd. destruct (Hfail e w2 Hor Hd) as [[= ->] ->]. done.
  - destruct Hcc as [cc Hcc]. rewrite Hcc.
    assert (Hnofail : forall P : Prop, forall e w2, checkClient c = None \/ lastStatus c = false ->
      thriftDialFunc (conn_addr c) (conn_connTimeout c) (close_client (checkClient c) w) = (Err e, w2) -> P).
    { intros P e w2 Hor Hd. by destruct (Hfail e w2 Hor Hd). }
    assert (Hkeep' : forall cc0, checkClient c = Some cc0 -> lastStatus c = true -> checkClient c1 = Some cc0)
      by (intros cc0 H1 H2; apply (Hkeep cc0 H1 H2)).
    destruct (match c_Transport cc with Some t => negb (IsOpen t w1) | None => false end).
    { eexists _, _, c1, w1. split; [done|]. split; [done|]. split; [done|]. split; [done|]. split; [done|].
      intros e w2 Hor Hd. by apply (Hnofail _ e w2). }
    destruct (Client_Ping cc rt w1) as [[[|] errs|e0|] w2];
      (eexists _, _, c1, w2; split; [done|]; split; [done|]; split; [done|]; split; [done|]; split; [done|];
       intros e w3 Hor Hd; by apply (Hnofail _ e w3)).
Qed.

(** ** The node as it is made *)
Record node_ok (n : Node) : Prop := {
  no_conns r : r ∈ conns n -> exists c, conn_heap n !! r = Some c /\
    state c = Unknown /\ is_Some (conn_pool c);
  no_addrs : Forall2 (fun r a => exists c, conn_heap n !! r = Some c /\ conn_addr c = a) (conns n) (nodeAddrs n)
}.

Lemma alloc_conn_fresh n c : conn_heap n !! fst (alloc_conn n c) = None.
Proof. simpl. apply not_elem_of_dom, is_fresh. Qed.

Lemma initPerConn_ok n addrs done_ w err n' w' :
  node_ok (mkNode done_ (checkInterval n) (connTimeout n) (idleTimeout n) (readTimeout n) (conns n) (conn_heap n)) ->
  nodeAddrs n = done_ ++ addrs -> initPerConn n addrs w = (err, n', w') -> err = None ->
  node_ok n'.
Proof.
  revert n done_ w. induction addrs as [|a addrs IH]; intros n done_ w Hok Ha; cbn [initPerConn].
  - intros [= <- <- <-] _. rewrite app_nil_r in Ha. destruct n; simpl in *. by subst.
  - destruct (newConn a (connTimeout n) (idleTimeout n) w) as [[c|e] w1] eqn:Hc; [|by intros [= <- <- <-]].
    pose proof (alloc_conn_fresh n c) as Hf. destruct (alloc_conn n c) as [r n1] eqn:Hal. cbn [fst] in Hf.
    unfold alloc_conn in Hal. injection Hal as <- <-. set (r := fresh _) in *. clearbody r.
    apply newConn_pool in Hc as (Hst & Hca & Hp).
    intros Hrun. eapply (IH _ (done_ ++ [a])); [| |exact Hrun]; [|by rewrite <- app_assoc].
    assert (Hold : forall r' c', conn_heap n !! r' = Some c' -> <[r := c]> (conn_heap n) !! r' = Some c')
      by (intros r' c' Hr'; rewrite lookup_insert_ne; [done|congruence]).
    split; simpl.
    + intros r' [Hr'| ->%list_elem_of_singleton]%elem_of_app.
      * destruct (no_conns _ Hok r' Hr') as (c' & Hc' & ?). exists c'. split; [by apply Hold|done].
      * exists c. by rewrite lookup_insert_eq.
    + apply Forall2_app.
      * eapply Forall2_impl; [apply (no_addrs _ Hok)|]. intros r' a' (c' & Hc' & ?). exists c'. split; [by apply Hold|done].
      * constructor; [|constructor]. exists c. by rewrite lookup_insert_eq.
Qed.

Lemma check_conn_iff n r c w err timeout c' w' :
  conn_heap n !! r = Some c -> Ping c (readTimeout n) w = Ret (err, timeout, c', w') ->
  (exists n' w'', check_conn n r w = Ret (Running n' w'')) <-> err = None /\ state c <> Down.
Proof.
  intros Hr Hp. assert (Hst : state c' = state c).
  { destruct (Ping_returns c (readTimeout n) w) as (? & ? & ? & ? & Hp' & Hsame). rewrite Hp in Hp'.
    injection Hp' as <- <- <- <-. by apply (f_equal state) in Hsame. }
  unfold check_conn, check_result, get_conn. rewrite Hr. simpl. rewrite Hp. simpl. destruct err as [e|].
  - split; [|by intros [? _]]. intros (n' & w'' & Hk). destruct timeout.
    + by destruct (conn_Release _ w').
    + destruct (downConn _ _ _) as [[n2 w2]|]; done.
  - rewrite <- Hst. destruct (decide (state c' = Down)) as [Hd|Hd].
    + split; [|by intros [_ ?]]. intros (n' & w'' & Hk).
      destruct (upConn _ _ _) as [[[[e|] n2] w2]|]; done.
    + split; [done|]. intros _. by eexists _, _.
Qed.

(** A check keeps the process alive only on a good ping of a connection that was
    not down.  [Ping] always answers; [check_conn] goes on exactly when there was no
    error and the state is not down.  A ping that times out, a server that goes
    down, and also a server that comes back up never let it go on. *)
Theorem check_conn_continues n r c w :
  conn_heap n !! r = Some c ->
  exists err timeout c' w', Ping c (readTimeout n) w = Ret (err, timeout, c', w') /\
    ((exists n' w'', check_conn n r w = Ret (Running n' w'')) <-> err = None /\ state c <> Down) /\
    (state c = Down -> forall n' w'', check_conn n r w <> Ret (Running n' w'')).
Proof.
  intros Hr. destruct (Ping_returns c (readTimeout n) w) as (err & timeout & c' & w' & Hp & _).
  exists err, timeout, c', w'. split; [done|].
  pose proof (check_conn_iff n r c w err timeout c' w' Hr Hp) as Hiff. split; [done|].
  intros Hd n' w'' Hk. destruct (proj1 Hiff) as [_ ?]; [by exists n', w''|done].
Qed.

Lemma initPerConn_fixed n addrs w err n' w' :
  initPerConn n addrs w = (err, n', w') -> nodeAddrs n' = nodeAddrs n.
Proof.
  revert n w. induction addrs as [|a addrs IH]; intros n w; cbn [initPerConn]; [by intros [= _ <- _]|].
  destruct (newConn a (connTimeout n) (idleTimeout n) w) as [[c|e] w1]; [|by intros [= _ <- _]].
  destruct (alloc_conn n c) as [r n1] eqn:Hal. injection Hal as _ <-. by intros ->%IH.
Qed.

(** A node that was just made has a connection for each address, not yet checked. *)
Lemma NewServerNode_ok addrs ci ct it rt w n w' :
  NewServerNode addrs ci ct it rt w = (Ok n, w') -> node_ok n /\ nodeAddrs n = addrs.
Proof.
  unfold NewServerNode. destruct (initPerConn (mkNode addrs ci ct it rt [] ∅) addrs w) as [[err n1] w1] eqn:Hi.
  destruct err; [done|]. intros [= <- <-]. split; [|by apply initPerConn_fixed in Hi].
  apply (initPerConn_ok (mkNode addrs ci ct it rt [] ∅) addrs [] w None n1 w1); [|done|exact Hi|done].
  split; simpl; [|constructor]. intros r Hr. by apply not_elem_of_nil in Hr.
Qed.

(** ** Choosing *)
Lemma enableConnIndex_spec n i rs :
  (forall r, r ∈ rs -> is_Some (conn_heap n !! r)) ->
  exists l, enableConnIndex n i rs = Ret l /\
    (forall k, k ∈ l -> exists j r c, k = i + j /\ rs !! j = Some r /\ conn_heap n !! r = Some c /\ state c <> Down) /\
    (l = [] -> forall r c, r ∈ rs -> conn_heap n !! r = Some c -> state c = Down) /\
    ((forall r c, r ∈ rs -> conn_heap n !! r = Some c -> state c <> Down) -> l = seq i (length rs)).
Proof.
  revert i. induction rs as [|r rs IH]; intros i Hrs; cbn [enableConnIndex].
  { exists []. split; [done|]. split; [by intros k Hk%not_elem_of_nil|]. split; [|done]. by intros _ r c Hr%not_elem_of_nil. }
  destruct (Hrs r) as [c Hc]; [left|]. destruct (IH (S i)) as (l & Hl & Hin & Hnil & Hall); [intros r' Hr'; apply Hrs; by right|].
  unfold get_conn. rewrite Hc. cbn. rewrite Hl. cbn.
  assert (Hin' : forall k, k ∈ l -> exists j r' c', k = i + j /\ (r :: rs) !! j = Some r' /\ conn_heap n !! r' = Some c' /\ state c' <> Down).
  { intros k (j & r' & c' & -> & ?)%Hin. exists (S j), r', c'. split; [lia|done]. }
  destruct (decide (state c = Down)) as [Hd|Hd].
  - exists l. split; [done|]. split; [done|]. split.
    + intros Hn r' c' [-> | Hr']%elem_of_cons Hc'; [congruence|by eapply Hnil].
    + intros Hup. destruct (Hup r c); [left|done..].
  - exists (i :: l). split; [done|]. split; [|split; [done|]].
    + intros k [-> | Hk]%elem_of_cons; [|by apply Hin']. exists 0, r, c. split; [lia|done].
    + intros Hup. simpl. f_equal. apply Hall. intros r' c' Hr'. apply Hup. by right.
Qed.

(** What a choice comes to, when every connection of the list exists. *)
Lemma ChooseNodeConn_spec n rand_Intn :
  (forall r, r ∈ conns n -> is_Some (conn_heap n !! r)) -> (forall k, 0 < k -> rand_Intn k < k) ->
  ((forall r c, r ∈ conns n -> conn_heap n !! r = Some c -> state c = Down) /\
   ChooseNodeConn n rand_Intn = Ret (Err "no enable connection server"%string)) \/
  exists i r c, conns n !! i = Some r /\ conn_heap n !! r = Some c /\ state c <> Down /\
    ChooseNodeConn n rand_Intn = Ret (match conn_pool c with None => Err ErrBadConn | Some _ => Ok r end) /\
    ((forall r c, r ∈ conns n -> conn_heap n !! r = Some c -> state c <> Down) -> i = rand_Intn (length (conns n))).
Proof.
  intros Hh Hrand. destruct (enableConnIndex_spec n 0 (conns n) Hh) as (l & Hl & Hin & Hnil & Hall).
  unfold ChooseNodeConn, getStatConn. rewrite Hl. cbn [mbind outcome_bind].
  destruct (decide (l = [])) as [->|Hne]; [left; by split; [apply Hnil|]|]. right.
  assert (Hlt : rand_Intn (length l) < length l) by (apply Hrand; destruct l; [done|simpl; lia]).
  destruct (lookup_lt_is_Some_2 l _ Hlt) as [i Hi].
  destruct (Hin i) as (j & r & c & -> & Hr & Hc & Hd); [by eapply list_elem_of_lookup_2|]. rewrite Nat.add_0_l in Hi.
  exists j, r, c. split; [done|]. split; [done|]. split; [done|]. split.
  - destruct l as [|i0 l0] eqn:Hcons; [done|]. rewrite <- Hcons in *. rewrite Hi, Hr. unfold get_conn. rewrite Hc. cbn.
    rewrite decide_False by done. cbn. rewrite Hc. cbn. by destruct (conn_pool c).
  - intros Hup. specialize (Hall Hup). subst l. rewrite length_seq in Hi, Hlt. rewrite lookup_seq_lt in Hi by done. by injection Hi.
Qed.
End ThriftNode.

(** ** Witnesses: a library whose sockets always open, and a server that answers *)
Section Demo.
Definition lib_socket (a : string) (timeout : Z) (w : nat) : result string string * nat := (Ok a, w).
Definition lib_transport (s : string) (w : nat) : result string nat * nat := (Ok w, S w).
Definition lib_ok (t w : nat) : option string * nat := (None, w).
Definition lib_open (t w : nat) : bool := true.
Definition lib_now (w : nat) : Z := 0%Z.
Definition lib_ping (c : @IdleClient nat) (timeout : Z) (w : nat) : ping_answer * nat := (PingHealth true "", w).

Definition demo_newNode : result string (@Node nat) * nat :=
  NewServerNode lib_socket lib_transport lib_ok lib_ok lib_open lib_now ["a"; "b"]%string 10 1 60 5 0.
Definition demo_node : @Node nat := match fst demo_newNode with Ok n => n | Err _ => mkNode [] 0 0 0 0 [] ∅ end.

Example newConn_ready_witness :
  exists c w', newConn lib_socket lib_transport lib_ok lib_ok lib_open lib_now "a" 1 60 0 = (Ok c, w') /\
    is_Some (checkClient c).
Proof.
  destruct (newConn lib_socket lib_transport lib_ok lib_ok lib_open lib_now "a" 1 60 0) as [[c|e] w'] eqn:Hc;
    [|vm_compute in Hc; discriminate Hc].
  exists c, w'. split; [reflexivity|].
  exact (proj1 (proj2 (proj2 (proj2 (newConn_ready lib_socket lib_transport lib_ok lib_ok lib_open lib_now
    "a" 1 60 0 c w' Hc))))).
Defined.

Example check_conn_continues_witness :
  exists c, conn_heap demo_node !! 0 = Some c /\
    exists n w, check_conn lib_socket lib_transport lib_ok lib_ok lib_open lib_now lib_ping demo_node 0 4
                = Ret (Running n w).
Proof.
  destruct (conn_heap demo_node !! 0) as [c|] eqn:Hc; [|vm_compute in Hc; discriminate Hc].
  exists c. split; [reflexivity|].
  destruct (check_conn_continues lib_socket lib_transport lib_ok lib_ok lib_open lib_now lib_ping demo_node 0 c 4 Hc)
    as (err & timeout & c' & w' & Hp & Hiff & _).
  apply Hiff. vm_compute in Hc. injection Hc as <-. vm_compute in Hp. injection Hp as <- _ _ _.
  split; [reflexivity|]. discriminate.
Defined.
End Demo.
