(* ===== verification/NodeClose.v ===== *)
(** * thrift/client/client.go: closing a node while it checks its servers

    [NewServerNode] starts a goroutine that runs [checkNode]; [Close] ends it and closes
    the connections, from another goroutine.  The steps of the two interleave at the
    points where they touch what they share: the exit channel, the wait group and the
    fields of a connection, which [Ping] reads and writes without a lock while
    [Conn.Close] resets them.  A check that fails writes the connection before it ends the
    process, and the other goroutines see that.  Users of the pools come in between.
    [do_move] is one step, a state is what is left to do.
    The definitions of a check and of a close are those of [ThriftNode]. *)
From S2P Require Import Prelude.
From S2P Require Import Pool.
From S2P Require Import ThriftNode.

(** Where the checking goroutine stands; [rs] are the connections left in this tick. *)
Inductive loop_at {Transport : Type} : Type :=
| LNew                                                  (* not yet run *)
| LSelect
| LTick (rs : list nat)
| LDialed (r : nat) (rs : list nat)                     (* there is a client to ping with *)
| LOpen (r : nat) (rs : list nat)                       (* its transport was open *)
| LSent (r : nat) (rs : list nat) (cc : @IdleClient Transport)  (* the ping is on its way *)
| LAnswered (r : nat) (rs : list nat) (err : option string) (timeout : bool)
| LDowning (addr err : string)                          (* the state was set to down *)
| LDowned (addr err : string)                           (* and the connection closed *)
| LReleased (addr err : string)                         (* after a timeout: the connection was released *)
| LDone
| LFatal (msg : string)                                 (* the process ended *)
| LPanic.
Arguments loop_at : clear implicits.

Inductive closer_at : Type := CIdle | CClosing (rs : list nat) | CWaiting | CReturned.

(** The goroutine is past its first step and not past its last; the process runs. *)
Definition started {Transport} (l : loop_at Transport) : bool :=
  match l with LNew | LDone => false | _ => true end.
Definition alive {Transport} (l : loop_at Transport) : bool :=
  match l with LFatal _ | LPanic => false | _ => true end.

Section NodeClose.
Context {Socket Transport W : Type} `{Countable Transport}.
Context (NewTSocketTimeout : string -> Z -> W -> result string Socket * W).
Context (GetTransport : Socket -> W -> result string Transport * W).
Context (Transport_Open Transport_Close : Transport -> W -> option string * W).
Context (IsOpen : Transport -> W -> bool) (nowFunc : W -> Z).
Context (Client_Ping : @IdleClient Transport -> Z -> W -> ping_answer * W).

#[local] Abbreviation node := (@Node Transport).
#[local] Abbreviation ensure := (ensure_checkClient NewTSocketTimeout GetTransport Transport_Open Transport_Close).
#[local] Abbreviation result_of := (check_result NewTSocketTimeout GetTransport Transport_Open Transport_Close IsOpen
  nowFunc Client_Ping).
#[local] Abbreviation check := (check_conn NewTSocketTimeout GetTransport Transport_Open Transport_Close IsOpen
  nowFunc Client_Ping).
#[local] Abbreviation tick := (checkNode_tick NewTSocketTimeout GetTransport Transport_Open Transport_Close IsOpen
  nowFunc Client_Ping).
#[local] Abbreviation release := (conn_Release Transport_Close).
#[local] Abbreviation down := (downConn Transport_Close).
#[local] Abbreviation close_one := (conn_Close Transport_Close).

(** The wait group counts the goroutines; [exiting] is the closed exit channel. *)
Record state : Type := mkState {
  s_node : node; s_world : W; s_loop : loop_at Transport; s_closer : closer_at; exiting : bool; wg : Z
}.

Definition set_loop (s : state) (l : loop_at Transport) : state :=
  mkState (s_node s) (s_world s) l (s_closer s) (exiting s) (wg s).
Definition set_node (s : state) (n : node) (w : W) (l : loop_at Transport) : state :=
  mkState n w l (s_closer s) (exiting s) (wg s).
Definition add_wg (s : state) (d : Z) (l : loop_at Transport) : state :=
  mkState (s_node s) (s_world s) l (s_closer s) (exiting s) (wg s + d).

(** What the ping's [select] makes of an answer. *)
Definition ping_result (a : ping_answer) : option string * bool :=
  match a with
  | PingHealth true _ => (None, false)
  | PingHealth false errs => (Some errs, false)
  | PingErr err => (Some err, false)
  | PingTimeout => (Some "Ping Timeout"%string, true)
  end.

(** What follows an answer: [log.Fatalf] comes after the writes to the connection, and
    the other goroutines run in between.  A good answer is one step. *)
(* src/thrift/client/client.go:88-119 Node.checkNode *)
Definition answer_step (s : state) (r : nat) (rs : list nat) (err : option string) (timeout : bool) : option state :=
  let n := s_node s in
  let w := s_world s in
  match conn_heap n !! r with
  | None => None
  | Some c =>
      match err with
      | Some err =>
          if timeout then
            let c := if decide (ThriftNode.state c = Unknown) then set_state c Up else c in
            let '(c, w) := release c w in
            Some (set_node s (set_conn n r c) w (LReleased (conn_addr c) err))
          else
            Some (set_node s (set_conn n r (set_state (set_lastStatus c false) Down)) w (LDowning (conn_addr c) err))
      | None =>
          match result_of n r c None false w with
          | Ret (Running n w) => Some (set_node s n w (LTick rs))
          | Ret (Fatal msg) => Some (set_loop s (LFatal msg))
          | Panic => Some (set_loop s LPanic)
          end
      end
  end.

(** The next step of a check.  Reading a field of a nil client panics, in [Ping] or in
    the goroutine it starts. *)
(* src/thrift/client/conn.go:129-176 Conn.Ping *)
Definition check_step (s : state) : option state :=
  let n := s_node s in
  let w := s_world s in
  match s_loop s with
  | LTick (r :: rs) =>
      match conn_heap n !! r with
      | None => None
      | Some c =>
          let '(err, c, w) := ensure c w in
          Some (set_node s (set_conn n r c) w
            (match err with Some err => LAnswered r rs (Some err) false | None => LDialed r rs end))
      end
  | LDialed r rs =>
      match checkClient <$> conn_heap n !! r with
      | None => None
      | Some None => Some (set_loop s LPanic)
      | Some (Some cc) =>
          let closed := match c_Transport cc with Some t => negb (IsOpen t w) | None => false end in
          Some (set_loop s (if closed then LAnswered r rs (Some "Socket is close"%string) false else LOpen r rs))
      end
  | LOpen r rs =>
      match checkClient <$> conn_heap n !! r with
      | None => None
      | Some None => Some (set_loop s LPanic)
      | Some (Some cc) => Some (set_loop s (LSent r rs cc))
      end
  | LSent r rs cc =>
      let '(a, w) := Client_Ping cc (readTimeout n) w in
      Some (set_node s n w (LAnswered r rs (fst (ping_result a)) (snd (ping_result a))))
  | LAnswered r rs err timeout => answer_step s r rs err timeout
  | LDowning addr err =>
      match down n addr w with
      | Ret (n, w) => Some (set_node s n w (LDowned addr err))
      | Panic => Some (set_loop s LPanic)
      end
  | LDowned addr err => Some (set_loop s (LFatal ("addr - " +:+ addr +:+ " server down, err: " +:+ err)))
  | LReleased addr err => Some (set_loop s (LFatal ("addr - " +:+ addr +:+ " ping timeout, err: " +:+ err)))
  | _ => None
  end.

(** The goroutine starts; it takes the exit or the ticker's case, either if both are
    ready; it checks a connection; the other goroutine calls [Close], closes a
    connection, stops waiting; a user of a connection takes clients from its pool or gives
    them back; or the world goes on. *)
Inductive move : Type :=
| Start | Exit | Tick | Check_ | CloseExit | CloseConn | Wait | UsePool (r : nat) (p : @ThriftPool Transport) | World (w : W).

(* src/thrift/client/client.go:59-83 Node.Close *)
Definition do_move (m : move) (s : state) : option state :=
  if negb (alive (s_loop s)) then None
  else
    match m, s_loop s, s_closer s with
    | Start, LNew, _ => Some (add_wg s 1 LSelect)
    | Exit, LSelect, _ => if exiting s then Some (add_wg s (-1) LDone) else None
    | Tick, LSelect, _ => Some (set_loop s (LTick (conns (s_node s))))
    | Check_, LTick [], _ => Some (set_loop s LSelect)
    | Check_, _, _ => check_step s
    | CloseExit, l, CIdle => Some (mkState (s_node s) (s_world s) l (CClosing (conns (s_node s))) true (wg s))
    | CloseConn, l, CClosing (r :: rs) =>
        match conn_heap (s_node s) !! r with
        | None => None
        | Some c =>
            let '(c, w) := close_one c (s_world s) in
            Some (mkState (set_conn (s_node s) r c) w l (CClosing rs) (exiting s) (wg s))
        end
    | CloseConn, l, CClosing [] => Some (mkState (s_node s) (s_world s) l CWaiting (exiting s) (wg s))
    | Wait, l, CWaiting =>
        if decide (wg s = 0)%Z then Some (mkState (s_node s) (s_world s) l CReturned (exiting s) (wg s)) else None
    | UsePool r p, l, _ =>
        match conn_heap (s_node s) !! r with
        | None => None
        | Some c =>
            match conn_pool c with
            | None => None
            | Some _ => Some (set_node s (set_conn (s_node s) r (set_pool c (Some p))) (s_world s) l)
            end
        end
    | World w, l, _ => Some (set_node s (s_node s) w l)
    | _, _, _ => None
    end.

Definition step (s s' : state) : Prop := exists m, do_move m s = Some s'.

Fixpoint run (ms : list move) (s : state) : option state :=
  match ms with [] => Some s | m :: ms => s ← do_move m s; run ms s end.

Lemma run_steps ms s s' : run ms s = Some s' -> rtc step s s'.
Proof.
  revert s. induction ms as [|m ms IH]; intros s; simpl; [intros [= <-]; apply rtc_refl|].
  destruct (do_move m s) as [s1|] eqn:Hm; [|done]. intros Hr. eapply rtc_l; [by exists m|by apply IH].
Qed.

(** A node that [NewServerNode] has just made. *)
Definition fresh_state (n : node) (w : W) : state := mkState n w LNew CIdle false 0.

(** ** A check that is not disturbed *)
Lemma set_conn_again (n : node) r c1 c2 : set_conn (set_conn n r c1) r c2 = set_conn n r c2.
Proof. unfold set_conn. simpl. by rewrite insert_insert_eq. Qed.

Lemma ensure_client c w c' w' : ensure c w = (None, c', w') ->
  is_Some (checkClient c') /\ conn_pool c' = conn_pool c /\ ThriftNode.state c' = ThriftNode.state c.
Proof.
  unfold ensure_checkClient. destruct (checkClient c) as [cc|] eqn:Hc, (lastStatus c);
    try (destruct (thriftDialFunc _ _ _ _ _ _) as [[d|e] w1]); intros [= <- _]; rewrite ?Hc; repeat split; by eexists.
Qed.

Lemma run_cons m ms s s1 s2 : do_move m s = Some s1 -> run ms s1 = Some s2 -> run (m :: ms) s = Some s2.
Proof. intros Hm Hr. simpl. by rewrite Hm. Qed.

(** [Ping] is the steps up to the answer. *)
Lemma ping_run n w r rs cl ex g c err timeout c' w' :
  conn_heap n !! r = Some c ->
  Ping NewTSocketTimeout GetTransport Transport_Open Transport_Close IsOpen Client_Ping c (readTimeout n) w =
    Ret (err, timeout, c', w') ->
  exists ms, run ms (mkState n w (LTick (r :: rs)) cl ex g) =
    Some (mkState (set_conn n r c') w' (LAnswered r rs err timeout) cl ex g).
Proof.
  intros Hr. unfold Ping. destruct (ensure c w) as [[[e|] c1] w1] eqn:He.
  { intros [= <- <- <- <-]. exists [Check_]. eapply run_cons; [unfold do_move, check_step; simpl; rewrite Hr, He; reflexivity|done]. }
  pose proof (ensure_client _ _ _ _ He) as ([cc Hc] & _ & _). rewrite Hc. cbv zeta.
  set (n1 := set_conn n r c1). assert (Hr1 : conn_heap n1 !! r = Some c1) by apply lookup_insert_eq.
  assert (Hrt : readTimeout n1 = readTimeout n) by done.
  assert (H1 : do_move Check_ (mkState n w (LTick (r :: rs)) cl ex g) = Some (mkState n1 w1 (LDialed r rs) cl ex g))
    by (unfold do_move, check_step; simpl; by rewrite Hr, He).
  destruct (match c_Transport cc with Some t => negb (IsOpen t w1) | None => false end) eqn:Ho.
  { intros [= <- <- <- <-]. exists [Check_; Check_]. eapply run_cons; [exact H1|]. fold n1. clearbody n1.
    eapply run_cons; [unfold do_move, check_step; simpl; rewrite Hr1; simpl; rewrite Hc, Ho; reflexivity|done]. }
  destruct (Client_Ping cc (readTimeout n) w1) as [a w2] eqn:Ha. intros Hp.
  assert (Hres : ping_result a = (err, timeout) /\ c1 = c' /\ w2 = w') by (destruct a as [[|] errs|e|]; by injection Hp as <- <- <- <-).
  destruct Hres as (Hans & <- & <-). exists [Check_; Check_; Check_; Check_]. fold n1. clearbody n1.
  eapply run_cons; [exact H1|].
  eapply run_cons; [unfold do_move, check_step; simpl; rewrite Hr1; simpl; rewrite Hc, Ho; reflexivity|].
  eapply run_cons; [unfold do_move, check_step; simpl; rewrite Hr1; simpl; rewrite Hc; reflexivity|].
  eapply run_cons; [unfold do_move, check_step; simpl; rewrite Hrt, Ha, Hans; reflexivity|done].
Qed.

(** What the goroutine comes to: the rest of the tick, or the end of the process. *)
Definition comes_to (k : @checked Transport W) (rs : list nat) (cl : closer_at) (ex : bool) (g : Z) (s : state) : Prop :=
  match k with Running n w => s = mkState n w (LTick rs) cl ex g | Fatal msg => s_loop s = LFatal msg end.

Lemma answer_run n w r rs cl ex g c err timeout k :
  result_of n r c err timeout w = Ret k ->
  exists ms s, run ms (mkState (set_conn n r c) w (LAnswered r rs err timeout) cl ex g) = Some s /\ comes_to k rs cl ex g s.
Proof.
  assert (Hr : conn_heap (set_conn n r c) !! r = Some c) by apply lookup_insert_eq.
  unfold check_result. intros Hk. destruct err as [err|]; [destruct timeout|].
  - exists [Check_; Check_]. unfold run, do_move, check_step, answer_step. cbn [s_loop s_node s_world alive negb]. rewrite Hr.
    destruct (release _ w) as [c2 w2]. injection Hk as <-. cbn. by eexists.
  - exists [Check_; Check_; Check_]. apply outcome_bind_Ret in Hk as ([n2 w2] & Hd & [= <-]).
    unfold run, do_move, check_step, answer_step. cbn [s_loop s_node s_world alive negb]. rewrite Hr.
    cbn [set_node mbind option_bind s_loop s_node s_world s_closer alive negb]. rewrite set_conn_again, Hd. cbn. by eexists.
  - exists [Check_]. unfold run, do_move, check_step, answer_step. cbn [s_loop s_node s_world alive negb]. rewrite Hr.
    assert (He : result_of (set_conn n r c) r c None false w = Ret k) by (unfold check_result; by rewrite !set_conn_again).
    rewrite He. destruct k as [n2 w2|msg]; cbn; by eexists.
Qed.

Lemma run_app ms1 ms2 s s1 : run ms1 s = Some s1 -> run (ms1 ++ ms2) s = run ms2 s1.
Proof.
  revert s. induction ms1 as [|m ms1 IH]; intros s; simpl; [by intros [= <-]|].
  destruct (do_move m s); [apply IH|done].
Qed.
Lemma check_run n w r rs cl ex g k : check n r w = Ret k ->
  exists s, rtc step (mkState n w (LTick (r :: rs)) cl ex g) s /\ comes_to k rs cl ex g s.
Proof.
  unfold check_conn, get_conn. destruct (conn_heap n !! r) as [c|] eqn:Hr; [|done]. simpl.
  destruct (Ping _ _ _ _ _ _ c (readTimeout n) w) as [[[[err timeout] c'] w1]|] eqn:Hp; [|done]. simpl. intros Hk.
  destruct (ping_run n w r rs cl ex g c err timeout c' w1 Hr Hp) as [ms1 H1].
  destruct (answer_run n w1 r rs cl ex g c' err timeout k Hk) as (ms2 & s & H2 & Hs).
  exists s. split; [|done]. apply (run_steps (ms1 ++ ms2)). by rewrite (run_app _ _ _ _ H1).
Qed.

(** The checks of [ThriftNode] are these steps without interruption.  From the
    ticker's case, a tick over all connections, as [checkNode_tick] describes it, is a
    run of the goroutine's steps: back to its [select] with the same node and the same
    world if the tick goes on, and to the same end of the process if it does not. *)
Theorem tick_is_run n w cl ex g k :
  tick n w = Ret k ->
  exists s, rtc step (mkState n w LSelect cl ex g) s /\
    match k with Running n' w' => s = mkState n' w' LSelect cl ex g | Fatal msg => s_loop s = LFatal msg end.
Proof.
  intros Ht. unfold checkNode_tick in Ht.
  assert (Hall : forall rs n w, check_all NewTSocketTimeout GetTransport Transport_Open Transport_Close IsOpen nowFunc
      Client_Ping n rs w = Ret k ->
    exists s, rtc step (mkState n w (LTick rs) cl ex g) s /\
      match k with Running n' w' => s = mkState n' w' LSelect cl ex g | Fatal msg => s_loop s = LFatal msg end).
  { clear n w Ht. induction rs as [|r rs IH]; intros n w Ht.
    - injection Ht as <-. eexists. split; [|reflexivity]. apply rtc_once. by exists Check_.
    - simpl in Ht. apply outcome_bind_Ret in Ht as (k1 & Hk & Hrest).
      destruct (check_run n w r rs cl ex g k1 Hk) as (s1 & Hr1 & Hs1). destruct k1 as [n1 w1|msg].
      + simpl in Hs1. subst s1. destruct (IH n1 w1 Hrest) as (s2 & Hr2 & Hs2). exists s2. split; [by etrans|done].
      + injection Hrest as <-. by exists s1. }
  destruct (Hall (conns n) n w Ht) as (s & Hr & Hs). exists s. split; [|done].
  eapply rtc_l; [exists Tick; reflexivity|]. exact Hr.
Qed.

(** ** Closing *)
Definition closed (n : node) (r : nat) : Prop := exists c, conn_heap n !! r = Some c /\ conn_pool c = None.

(** The list is the same, and a connection without its pool gets none back. *)
Definition keeps (n n' : node) : Prop := conns n' = conns n /\ forall r, closed n r -> closed n' r.

Lemma keeps_refl n : keeps n n.
Proof. done. Qed.
Lemma keeps_set_conn n r c c' :
  conn_heap n !! r = Some c -> (conn_pool c = None -> conn_pool c' = None) -> keeps n (set_conn n r c').
Proof.
  intros Hr Hp. split; [done|]. intros r' (c0 & Hc & Hn). unfold closed. simpl.
  destruct (decide (r = r')) as [<-|Hne].
  - exists c'. rewrite lookup_insert_eq. split; [done|]. apply Hp. congruence.
  - exists c0. by rewrite lookup_insert_ne.
Qed.
Lemma close_one_pool c w : conn_pool (fst (close_one c w)) = None.
Proof. unfold conn_Close. by destruct (release_pool _ _ _). Qed.

Lemma keeps_trans n1 n2 n3 : keeps n1 n2 -> keeps n2 n3 -> keeps n1 n3.
Proof. intros [H1 K1] [H2 K2]. split; [congruence|auto]. Qed.

(** A good answer that goes on, on a connection that was not down. *)
Lemma good_answer n r c w n' w' :
  result_of n r c None false w = Ret (Running n' w') ->
  ThriftNode.state c <> Down /\ w' = w /\
  n' = set_conn n r (SetLastPing nowFunc (set_lastStatus (if decide (ThriftNode.state c = Unknown) then set_state c Up else c) true) w).
Proof.
  unfold check_result. destruct (decide (ThriftNode.state c = Down)); [|by intros [= <- <-]].
  by destruct (upConn _ _ _ _ _ _ _ _ _ w) as [[[[?|] n2] w2]|].
Qed.

Lemma downConn_set n addr w n' w' : down n addr w = Ret (n', w') ->
  n' = n \/ exists r c c', conn_heap n !! r = Some c /\ conn_addr c = addr /\ r ∈ conns n /\ n' = set_conn n r c' /\
    conn_addr c' = addr /\ ThriftNode.state c' = Down /\ conn_pool c' = None.
Proof.
  unfold downConn. intros ([r|] & Hr & Hrest)%outcome_bind_Ret; [|left; congruence].
  right. apply outcome_bind_Ret in Hrest as (c & Hc & Hrest). unfold get_conn in Hc.
  destruct (conn_heap n !! r) as [c0|] eqn:Hh; [injection Hc as ->|done].
  assert (Hfind : forall rs, find_addr n addr rs = Ret (Some r) -> conn_addr c = addr /\ r ∈ rs).
  { induction rs as [|r' rs IH]; [done|]. cbn [find_addr]. intros (c1 & Hc1 & Hf)%outcome_bind_Ret. case_decide as Ha.
    - injection Hf as ->. unfold get_conn in Hc1. rewrite Hh in Hc1. injection Hc1 as <-. split; [done|left].
    - destruct (IH Hf). split; [done|by right]. }
  destruct (Hfind _ Hr) as [Ha Hin].
  exists r, c, (fst (close_one (set_state c Down) w)). unfold conn_Close in *.
  destruct (release_pool _ _ _) as [p1 w1] eqn:Hp. injection Hrest as <- <-. done.
Qed.

Lemma ensure_pool c w err c' w' : ensure c w = (err, c', w') -> conn_pool c' = conn_pool c.
Proof.
  unfold ensure_checkClient. destruct (checkClient c), (lastStatus c);
    try (destruct (thriftDialFunc _ _ _ _ _ _) as [[d|e'] w1]); by intros [= _ <- _].
Qed.

Lemma answer_step_keeps n w l cl ex g r rs err timeout s' :
  answer_step (mkState n w l cl ex g) r rs err timeout = Some s' ->
  keeps n (s_node s') /\ s_closer s' = cl /\ exiting s' = ex /\ wg s' = g /\ true = true /\ started (s_loop s') = true.
Proof.
  unfold answer_step. cbn [s_node s_world]. destruct (conn_heap n !! r) as [c|] eqn:Hr; [|done].
  destruct err as [err|]; [destruct timeout|].
  - unfold conn_Release. destruct (release_pool _ _ _) as [p w1] eqn:Hp. intros [= <-]. split; [|done].
    eapply keeps_set_conn; [exact Hr|]. intros Hn. simpl.
    assert (Hn' : conn_pool (if decide (ThriftNode.state c = Unknown) then set_state c Up else c) = None) by (by destruct (decide _)).
    rewrite Hn' in Hp. by injection Hp as <- _.
  - intros [= <-]. split; [|done]. by eapply keeps_set_conn.
  - destruct (result_of n r c None false w) as [[n' w'|msg]|] eqn:Hk; intros [= <-]; [|done..]. split; [|done].
    apply good_answer in Hk as (_ & _ & ->). eapply keeps_set_conn; [exact Hr|]. by destruct (decide _).
Qed.

(** A step of a check keeps the goroutine started while the process runs, and [keeps]. *)
Lemma check_step_keeps s s' : check_step s = Some s' ->
  keeps (s_node s) (s_node s') /\ s_closer s' = s_closer s /\ exiting s' = exiting s /\ wg s' = wg s /\
  started (s_loop s) = true /\ started (s_loop s') = true.
Proof.
  destruct s as [n w l cl ex g]. unfold check_step. cbn [s_loop s_node s_world].
  destruct l as [| |[|r rs]|r rs|r rs|r rs cc|r rs err timeout|addr err|addr err|addr err| | |]; try done.
  - destruct (conn_heap n !! r) as [c|] eqn:Hr; [|done]. destruct (ensure c w) as [[err c'] w'] eqn:He.
    intros [= <-]. split; [|by destruct err]. eapply keeps_set_conn; [exact Hr|]. by rewrite (ensure_pool _ _ _ _ _ He).
  - destruct (checkClient <$> conn_heap n !! r) as [[cc|]|]; [|by intros [= <-]|done].
    cbv zeta. intros [= <-]. split; [done|].
    by destruct (match c_Transport cc with Some t => negb (IsOpen t w) | None => false end).
  - destruct (checkClient <$> conn_heap n !! r) as [[cc|]|]; [|by intros [= <-]..|done]. by intros [= <-].
  - destruct (Client_Ping cc _ w) as [a w']. by intros [= <-].
  - apply answer_step_keeps.
  - destruct (down n addr w) as [[n' w']|] eqn:Hd; intros [= <-]; [|done]. split; [|done].
    apply downConn_set in Hd as [->|(r & c & c' & Hr & _ & _ & -> & _ & _ & Hp)]; [done|]. by eapply keeps_set_conn.
  - by intros [= <-].
  - by intros [= <-].
Qed.

(** What is true between the steps: the group counts the goroutine, and the connections
    that [Close] is past have no pool. *)
Definition inv (s : state) : Prop :=
  wg s = (if started (s_loop s) then 1 else 0)%Z /\
  match s_closer s with
  | CIdle => exiting s = false
  | CClosing rs => exiting s = true /\ forall r, r ∈ conns (s_node s) -> r ∈ rs \/ closed (s_node s) r
  | CWaiting | CReturned => exiting s = true /\ forall r, r ∈ conns (s_node s) -> closed (s_node s) r
  end.

Lemma move_inv m s s' : inv s -> do_move m s = Some s' -> inv s'.
Proof.
  destruct s as [n w l cl ex g]. intros [Hg Hc] Hm. unfold do_move in Hm. cbn [s_loop s_closer s_node s_world exiting wg] in *.
  destruct (alive l) eqn:Hal; [|done]. cbn [negb] in Hm.
  assert (Hcheck : check_step (mkState n w l cl ex g) = Some s' -> inv s').
  { intros (Hk & Hcl & Hex & Hwg & Hst & Hst')%check_step_keeps. cbn [s_loop s_closer s_node exiting wg] in *.
    destruct Hk as [Hcs Hcd]. unfold inv. rewrite Hwg, Hcl, Hex, Hst', Hg, Hst, Hcs. split; [done|].
    destruct cl as [|rs| |]; [done|..]; destruct Hc as [? Hc]; (split; [done|]); intros r Hr; destruct (Hc r Hr); auto. }
  destruct m.
  - destruct l; try done. injection Hm as <-. by split; [simpl in *; lia|].
  - destruct l; try done. destruct ex; [|done]. injection Hm as <-. by split; [simpl in *; lia|].
  - destruct l; try done. by injection Hm as <-.
  - destruct l as [| |[|r rs]| | | | | | | | | |]; try done; [|by apply Hcheck..]. by injection Hm as <-.
  - destruct cl; [|by destruct l..]. assert (Hm' : Some (mkState n w l (CClosing (conns n)) true g) = Some s') by (by destruct l).
    injection Hm' as <-. split; [done|]. split; [done|]. intros r Hr. by left.
  - destruct cl as [|[|r rs]| |]; [by destruct l|..]; [| |by destruct l..].
    + assert (Hm' : Some (mkState n w l CWaiting ex g) = Some s') by (by destruct l). injection Hm' as <-.
      split; [done|]. destruct Hc as [? Hc]. split; [done|]. intros r Hr. destruct (Hc r Hr) as [Hin|]; [|done].
      by apply not_elem_of_nil in Hin.
    + destruct (conn_heap n !! r) as [c|] eqn:Hr; [|by destruct l].
      pose proof (close_one_pool c w) as Hp. destruct (close_one c w) as [c' w']. simpl in Hp.
      assert (Hm' : Some (mkState (set_conn n r c') w' l (CClosing rs) ex g) = Some s') by (by destruct l).
      injection Hm' as <-. split; [done|]. destruct Hc as [? Hc]. split; [done|]. intros r' Hr'.
      destruct (keeps_set_conn n r c c' Hr ltac:(done)) as [_ Hkeep].
      destruct (Hc r' Hr') as [[->|Hin]%elem_of_cons|Hcd]; [|by left|by right; apply Hkeep].
      right. exists c'. simpl. by rewrite lookup_insert_eq.
  - destruct cl; [by destruct l..| |by destruct l].
    destruct (decide (g = 0)%Z) as [Hz|]; [|by destruct l].
    assert (Hm' : Some (mkState n w l CReturned ex g) = Some s') by (by destruct l). by injection Hm' as <-.
  - destruct (conn_heap n !! r) as [c|] eqn:Hr; [|by destruct l]. destruct (conn_pool c) as [p0|] eqn:Hp; [|by destruct l].
    assert (Hm' : Some (mkState (set_conn n r (set_pool c (Some p))) w l cl ex g) = Some s') by (by destruct l).
    injection Hm' as <-. split; [done|]. assert (Hk : keeps n (set_conn n r (set_pool c (Some p))))
      by (eapply keeps_set_conn; [exact Hr|congruence]). destruct Hk as [Hcs Hcd]. cbn [s_node s_closer exiting]. rewrite Hcs.
    destruct cl as [|rs| |]; [done|..]; destruct Hc as [? Hc]; (split; [done|]); intros r' Hr'; destruct (Hc r' Hr'); auto.
  - assert (Hm' : Some (mkState n w0 l cl ex g) = Some s') by (by destruct l). by injection Hm' as <-.
Qed.

Definition begun (s : state) : Prop :=
  inv s /\ s_loop s <> LNew /\ (s_closer s = CReturned -> s_loop s = LDone).

Lemma move_begun m s s' : begun s -> do_move m s = Some s' -> begun s'.
Proof.
  intros (Hi & Hn & Hr) Hm. split; [by eapply move_inv|]. destruct Hi as [Hg _].
  destruct s as [n w l cl ex g]. unfold do_move in Hm. cbn [s_loop s_closer s_node s_world exiting wg] in *.
  destruct (alive l) eqn:Hal; [|done]. cbn [negb] in Hm.
  assert (Hcheck : check_step (mkState n w l cl ex g) = Some s' -> s_loop s' <> LNew /\ (s_closer s' = CReturned -> s_loop s' = LDone)).
  { intros (_ & Hcl & _ & _ & Hst & Hst')%check_step_keeps. cbn [s_loop s_closer] in *. rewrite Hcl.
    split; [by destruct (s_loop s')|]. intros ->. specialize (Hr eq_refl). by subst l. }
  destruct m.
  - by destruct l.
  - destruct l; try done. destruct ex; [|done]. by injection Hm as <-.
  - destruct l; try done. injection Hm as <-. split; [done|]. cbn [set_loop s_closer]. intros ->. by specialize (Hr eq_refl).
  - destruct l as [| |[|r rs]| | | | | | | | | |]; try done; [|by apply Hcheck..]. injection Hm as <-. split; [done|].
    cbn [set_loop s_closer]. intros ->. by specialize (Hr eq_refl).
  - destruct cl; [|by destruct l..]. assert (Hm' : Some (mkState n w l (CClosing (conns n)) true g) = Some s') by (by destruct l).
    by injection Hm' as <-.
  - destruct cl as [|[|r rs]| |]; [by destruct l|..]; [| |by destruct l..].
    + assert (Hm' : Some (mkState n w l CWaiting ex g) = Some s') by (by destruct l). by injection Hm' as <-.
    + destruct (conn_heap n !! r) as [c|]; [|by destruct l]. destruct (close_one c w) as [c' w'].
      assert (Hm' : Some (mkState (set_conn n r c') w' l (CClosing rs) ex g) = Some s') by (by destruct l). by injection Hm' as <-.
  - destruct cl; [by destruct l..| |by destruct l]. destruct (decide (g = 0)%Z) as [Hz|]; [|by destruct l].
    assert (Hm' : Some (mkState n w l CReturned ex g) = Some s') by (by destruct l). injection Hm' as <-.
    split; [done|]. intros _. cbn [s_loop]. rewrite Hz in Hg. by destruct l.
  - destruct (conn_heap n !! r) as [c|]; [|by destruct l]. destruct (conn_pool c) as [p0|]; [|by destruct l].
    assert (Hm' : Some (mkState (set_conn n r (set_pool c (Some p))) w l cl ex g) = Some s') by (by destruct l). by injection Hm' as <-.
  - assert (Hm' : Some (mkState n w0 l cl ex g) = Some s') by (by destruct l). by injection Hm' as <-.
Qed.

Lemma steps_inv s s' : rtc step s s' -> inv s -> inv s'.
Proof. induction 1 as [|s s1 s' [m Hm] _ IH]; [done|]. intros Hi. apply IH. by eapply move_inv. Qed.
Lemma steps_begun s s' : rtc step s s' -> begun s -> begun s'.
Proof. induction 1 as [|s s1 s' [m Hm] _ IH]; [done|]. intros Hb. apply IH. by eapply move_begun. Qed.
Lemma fresh_inv n w : inv (fresh_state n w).
Proof. by split. Qed.

(** C27: [Close] waits for a check that runs.  If the checking goroutine has begun when
    [Close] is called, then whatever the two and the network do in between, once [Close]
    has returned that goroutine has ended and every connection of the node is without
    its pool.  If the process ends in between, [Close] does not return. *)
Theorem node_close_waits n w s s' :
  rtc step (fresh_state n w) s -> s_loop s <> LNew -> s_closer s = CIdle ->
  rtc step s s' -> s_closer s' = CReturned ->
  s_loop s' = LDone /\ forall r, r ∈ conns (s_node s') -> closed (s_node s') r.
Proof.
  intros Hreach Hn Hc Hs Hret. apply steps_inv in Hreach; [|apply fresh_inv].
  apply steps_begun in Hs as ([_ Hi] & _ & Hd); [|split; [done|]; split; [done|by rewrite Hc]].
  rewrite Hret in Hi. split; [by apply Hd|by apply Hi].
Qed.
End NodeClose.

(** ** What closing does to a check that runs: a library that knows which transports are open *)
Section Demo.
(** Sockets connect, and the transports that were closed. *)
Record net : Type := mkNet { next : nat; shut : list nat }.
Definition net_socket (a : string) (timeout : Z) (w : net) : result string string * net := (Ok a, w).
Definition net_transport (s : string) (w : net) : result string nat * net := (Ok (next w), mkNet (S (next w)) (shut w)).
Definition net_Open (t : nat) (w : net) : option string * net := (None, w).
Definition net_Close (t : nat) (w : net) : option string * net := (None, mkNet (next w) (t :: shut w)).
Definition net_IsOpen (t : nat) (w : net) : bool := bool_decide (t ∉ shut w).
Definition net_now (w : net) : Z := 0%Z.
Definition net_Ping (c : @IdleClient nat) (timeout : Z) (w : net) : ping_answer * net :=
  (match c_Transport c with
   | Some t => if net_IsOpen t w then PingHealth true "" else PingErr "use of closed network connection"
   | None => PingErr "no transport"
   end, w).

Definition net_node : result string (@Node nat) * net :=
  NewServerNode net_socket net_transport net_Open net_Close net_IsOpen net_now ["a"%string] 3 1 60 5 (mkNet 0 []).
#[local] Abbreviation net_run := (run net_socket net_transport net_Open net_Close net_IsOpen net_now net_Ping).
#[local] Abbreviation net_step := (step net_socket net_transport net_Open net_Close net_IsOpen net_now net_Ping).

Definition net_start : option state := match net_node with (Ok n, w) => Some (fresh_state n w) | _ => None end.

(** A run from the new node, by its moves. *)
Definition can (P : state -> Prop) : Prop :=
  exists s0 s, net_start = Some s0 /\ rtc net_step s0 s /\ P s.
Lemma can_run ms (P : state -> Prop) s0 s : net_start = Some s0 -> net_run ms s0 = Some s -> P s -> can P.
Proof. intros H0 Hr HP. exists s0, s. split; [done|]. split; [by eapply run_steps|done]. Qed.

Definition check_leaks (s : @state nat net) : Prop :=
  exists c cc t, conn_heap (s_node s) !! 0 = Some c /\ conn_pool c = None /\ checkClient c = Some cc /\
    c_Transport cc = Some t /\ net_IsOpen t (s_world s) = true.

(** C28: what [Close] can do to a node that is healthy.  The server answers every ping on
    an open transport.  Still, if [Close] is called while a connection is checked, the
    process can panic on the check client that was set to nil, or end with "server down"
    because the transport of a ping was closed; if neither happens [Close] can return
    with a client open that the check dialed after its connection was closed.  And if it
    is called before the goroutine has begun it returns at once, and the goroutine
    dials and checks afterwards. *)
Theorem close_disturbs_check :
  can (fun s => s_closer s <> CIdle /\ s_loop s = LPanic) /\
  can (fun s => s_closer s <> CIdle /\ exists msg, s_loop s = LFatal msg) /\
  can (fun s => s_closer s = CReturned /\ s_loop s = LDone /\ check_leaks s) /\
  can (fun s => s_closer s = CReturned /\ s_loop s = LSelect /\ check_leaks s).
Proof.
  split; [|split; [|split]].
  - eapply (can_run [Start; Tick; Check_; CloseExit; CloseConn; Check_]); [reflexivity|vm_compute; reflexivity|by split].
  - eapply (can_run [Start; Tick; Check_; Check_; Check_; CloseExit; CloseConn; Check_; Check_; Check_; Check_]);
      [reflexivity|vm_compute; reflexivity|]. split; [done|by eexists].
  - eapply (can_run ([Start; Tick; CloseExit; CloseConn; CloseConn] ++ repeat Check_ 6 ++ [Exit; Wait]));
      [reflexivity|vm_compute; reflexivity|]. split; [done|]. split; [done|]. by do 3 eexists.
  - eapply (can_run ([CloseExit; CloseConn; CloseConn; Wait; Start; Tick] ++ repeat Check_ 6));
      [reflexivity|vm_compute; reflexivity|]. split; [done|]. split; [done|]. by do 3 eexists.
Qed.

Example tick_is_run_witness :
  exists n w n' w', net_node = (Ok n, w) /\
    rtc net_step (mkState n w LSelect CIdle false 1) (mkState n' w' LSelect CIdle false 1).
Proof.
  destruct net_node as [[n|e] w] eqn:Hn; [|vm_compute in Hn; discriminate Hn].
  destruct (checkNode_tick net_socket net_transport net_Open net_Close net_IsOpen net_now net_Ping n w) as [[n' w'|msg]|] eqn:Ht;
    [|vm_compute in Hn; injection Hn as <- <-; vm_compute in Ht; discriminate Ht..].
  exists n, w, n', w'. split; [reflexivity|].
  destruct (tick_is_run net_socket net_transport net_Open net_Close net_IsOpen net_now net_Ping n w CIdle false 1 _ Ht)
    as (s & Hs & ->). exact Hs.
Defined.

Example node_close_waits_witness :
  exists n w s1 s2, net_node = (Ok n, w) /\ net_run [Start] (fresh_state n w) = Some s1 /\
    net_run [CloseExit; CloseConn; CloseConn; Exit; Wait] s1 = Some s2 /\ s_loop s2 = LDone.
Proof.
  destruct net_node as [[n|e] w] eqn:Hn; [|vm_compute in Hn; discriminate Hn].
  vm_compute in Hn. injection Hn as <- <-.
  match goal with |- exists n w s1 s2, (Ok ?node, ?world) = _ /\ _ => exists node, world;
    destruct (net_run [Start] (fresh_state node world)) as [s1|] eqn:H1; [|vm_compute in H1; discriminate H1] end.
  destruct (net_run [CloseExit; CloseConn; CloseConn; Exit; Wait] s1) as [s2|] eqn:H2;
    [|vm_compute in H1; injection H1 as <-; vm_compute in H2; discriminate H2].
  exists s1, s2. split; [reflexivity|]. split; [reflexivity|]. split; [exact H2|].
  pose proof (run_steps _ _ _ _ _ _ _ _ _ _ H1) as Hs1. pose proof (run_steps _ _ _ _ _ _ _ _ _ _ H2) as Hs2.
  vm_compute in H1. injection H1 as <-. vm_compute in H2. injection H2 as <-.
  refine (proj1 (node_close_waits _ _ _ _ _ _ _ _ _ _ _ Hs1 _ _ Hs2 _)); [discriminate|reflexivity..].
Defined.
End Demo.
