(* ===== verification/NodeChoose.v ===== *)
(** * thrift/client/client.go: choosing a server of a node that is checked and closed

    [ChooseNodeConn] runs in the goroutines that send requests, while [checkNode] checks
    the servers, [Close] closes their connections and users hold clients of the pools.
    The states are those that the steps of [NodeClose] reach; a choice is one step. *)
From S2P Require Import Prelude.
From S2P Require Import Pool.
From S2P Require Import ThriftNode.
From S2P Require Import NodeClose.

(** The checking goroutine found the server at [addr] down, and is about to end the
    process with [log.Fatalf]. *)
Definition going_down {Transport} (l : loop_at Transport) (addr : string) : Prop :=
  exists err, l = LDowning addr err \/ l = LDowned addr err.

Section NodeChoose.
Context {Socket Transport W : Type} `{Countable Transport}.
Context (NewTSocketTimeout : string -> Z -> W -> result string Socket * W).
Context (GetTransport : Socket -> W -> result string Transport * W).
Context (Transport_Open Transport_Close : Transport -> W -> option string * W).
Context (IsOpen : Transport -> W -> bool) (nowFunc : W -> Z).
Context (Client_Ping : @IdleClient Transport -> Z -> W -> ping_answer * W).

#[local] Abbreviation node := (@Node Transport).
#[local] Abbreviation state_of := (@ThriftNode.state Transport).
#[local] Abbreviation new_node := (NewServerNode NewTSocketTimeout GetTransport Transport_Open Transport_Close IsOpen nowFunc).
#[local] Abbreviation step := (NodeClose.step NewTSocketTimeout GetTransport Transport_Open Transport_Close IsOpen
  nowFunc Client_Ping).
#[local] Abbreviation do_move := (NodeClose.do_move NewTSocketTimeout GetTransport Transport_Open Transport_Close IsOpen
  nowFunc Client_Ping).
#[local] Abbreviation check_step := (NodeClose.check_step NewTSocketTimeout GetTransport Transport_Open Transport_Close IsOpen
  nowFunc Client_Ping).
#[local] Abbreviation answer_step := (NodeClose.answer_step NewTSocketTimeout GetTransport Transport_Open Transport_Close IsOpen
  nowFunc Client_Ping).
#[local] Abbreviation state := (@NodeClose.state Transport W).

(** A connection of the list: up or not yet checked, unless its server is going down;
    with its pool, unless its server is going down or the node is being closed. *)
Definition conn_sound (down : string -> Prop) (closing : Prop) (c : @Conn Transport) : Prop :=
  (state_of c = Up \/ state_of c = Unknown \/ state_of c = Down /\ down (conn_addr c)) /\
  (conn_pool c = None -> closing \/ state_of c = Down).

(** One connection per address, in order. *)
Definition sound (n : node) (addrs : list string) (down : string -> Prop) (closing : Prop) : Prop :=
  Forall2 (fun r a => exists c, conn_heap n !! r = Some c /\ conn_addr c = a /\ conn_sound down closing c) (conns n) addrs.

Definition state_sound (s : state) (addrs : list string) : Prop :=
  sound (s_node s) addrs (going_down (s_loop s)) (s_closer s <> CIdle).

Lemma conn_sound_mono (down down' : string -> Prop) (closing closing' : Prop) c :
  (forall a, down a -> down' a) -> (closing -> closing') -> conn_sound down closing c -> conn_sound down' closing' c.
Proof. intros Hd Hc [Hs Hp]. split; [intuition auto|intros Hn; destruct (Hp Hn); auto]. Qed.

(** A connection is written: the others stay, up to what is going on. *)
Lemma set_sound n addrs (down down' : string -> Prop) (closing closing' : Prop) r c c' :
  sound n addrs down closing -> (forall a, down a -> down' a) -> (closing -> closing') ->
  conn_heap n !! r = Some c -> conn_addr c' = conn_addr c ->
  (conn_sound down closing c -> conn_sound down' closing' c') ->
  sound (set_conn n r c') addrs down' closing'.
Proof.
  intros Hs Hd Hc Hr Ha Hnew. eapply Forall2_impl; [exact Hs|]. intros r' a (c0 & Hr' & Ha0 & Hc0). simpl.
  destruct (decide (r = r')) as [<-|Hne].
  - rewrite Hr in Hr'. injection Hr' as <-. exists c'. rewrite lookup_insert_eq. split; [done|]. split; [congruence|auto].
  - exists c0. rewrite lookup_insert_ne by done. split; [done|]. split; [done|]. by eapply conn_sound_mono.
Qed.
Lemma sound_mono n addrs (down down' : string -> Prop) (closing closing' : Prop) :
  sound n addrs down closing -> (forall a, down a -> down' a) -> (closing -> closing') -> sound n addrs down' closing'.
Proof.
  intros Hs Hd Hc. eapply Forall2_impl; [exact Hs|]. intros r' a (c0 & Hr' & Ha0 & Hc0). exists c0.
  split; [done|]. split; [done|]. by eapply conn_sound_mono.
Qed.

Lemma set_sound_same n addrs (down : string -> Prop) (closing : Prop) r c c' :
  sound n addrs down closing -> conn_heap n !! r = Some c -> conn_addr c' = conn_addr c ->
  (conn_sound down closing c -> conn_sound down closing c') -> sound (set_conn n r c') addrs down closing.
Proof. intros Hs Hr Ha Hn. eapply set_sound; eauto. Qed.

(** The goroutine is elsewhere: no server is going down. *)
Lemma calm_sound n addrs (closing : Prop) (l l' : loop_at Transport) :
  sound n addrs (going_down l) closing -> (forall a, ~ going_down l a) -> sound n addrs (going_down l') closing.
Proof. intros Hs Hl. eapply sound_mono; [exact Hs| |done]. by intros a Ha%Hl. Qed.

(** [conn_Release] keeps the pool and [conn_Close] drops it; neither touches the state. *)
Lemma Release_same c w : let c' := fst (conn_Release Transport_Close c w) in
  conn_addr c' = conn_addr c /\ state_of c' = state_of c /\ (conn_pool c' = None -> conn_pool c = None).
Proof.
  unfold conn_Release, release_pool. destruct (conn_pool c) as [p|]; [|by repeat split].
  destruct (Pool.Release _ p _) as [p' w']. by repeat split.
Qed.
Lemma Close_same c w : let c' := fst (conn_Close Transport_Close c w) in
  conn_addr c' = conn_addr c /\ state_of c' = state_of c.
Proof. unfold conn_Close. by destruct (release_pool _ _ _). Qed.

Lemma answer_sound n w l cl ex g addrs r rs err timeout s' :
  sound n addrs (fun _ => False) (cl <> CIdle) -> answer_step (mkState n w l cl ex g) r rs err timeout = Some s' ->
  alive (s_loop s') = true -> state_sound s' addrs.
Proof.
  intros Hs Hm Hal. unfold NodeClose.answer_step in Hm. cbn [s_node s_world] in Hm.
  destruct (conn_heap n !! r) as [c|] eqn:Hr; [|done]. destruct err as [err|]; [destruct timeout|].
  - set (c1 := if decide (state_of c = Unknown) then set_state c Up else c) in *.
    pose proof (Release_same c1 w) as (Ha & Hst & Hp). destruct (conn_Release Transport_Close c1 w) as [c2 w2].
    injection Hm as <-. cbn in Ha, Hst, Hp. unfold state_sound. cbn.
    assert (Ha1 : conn_addr c1 = conn_addr c) by (unfold c1; by destruct (decide _)).
    assert (Hp1 : conn_pool c1 = conn_pool c) by (unfold c1; by destruct (decide _)).
    eapply set_sound; [exact Hs|done|done|exact Hr|congruence|]. intros [Hsc Hpc]. split; rewrite Hst.
    + unfold c1. destruct (decide _); simpl; [by left|]. destruct Hsc as [?|[?|[_ []]]]; auto.
    + intros Hn%Hp. rewrite Hp1 in Hn. destruct (Hpc Hn) as [?|Hd]; [by left|].
      rewrite Hd in Hsc. destruct Hsc as [Hx|[Hx|[_ []]]]; discriminate Hx.
  - injection Hm as <-. unfold state_sound. cbn. eapply set_sound; [exact Hs|done|done|exact Hr|done|]. intros _. split; simpl; [|by right].
    right. right. split; [done|]. exists err. by left.
  - destruct (check_result _ _ _ _ _ _ _ n r c None false w) as [[n' w'|msg]|] eqn:Hk; [|by injection Hm as <-..].
    injection Hm as <-. apply good_answer in Hk as (Hd & _ & ->). unfold state_sound. cbn.
    eapply set_sound; [exact Hs|done|done|exact Hr|by destruct (decide _)|]. intros [Hsc Hpc]. split.
    + destruct (decide _); simpl; [by left|]. destruct Hsc as [?|[?|[_ []]]]; auto.
    + destruct (decide _); simpl; intros Hn; destruct (Hpc Hn); auto; done.
Qed.

Lemma check_sound n w l cl ex g addrs s' :
  sound n addrs (going_down l) (cl <> CIdle) -> check_step (mkState n w l cl ex g) = Some s' ->
  alive (s_loop s') = true -> state_sound s' addrs.
Proof.
  intros Hs Hm Hal. unfold NodeClose.check_step in Hm. cbn [s_loop s_node s_world] in Hm.
  destruct l as [| |[|r rs]|r rs|r rs|r rs cc|r rs err timeout|addr err|addr err|addr err| | |]; try done.
  1-5: assert (Hcalm : sound n addrs (fun _ => False) (cl <> CIdle))
         by (eapply sound_mono; [exact Hs|by intros a (e & [? | ?])|done]).
  - destruct (conn_heap n !! r) as [c|] eqn:Hr; [|done].
    destruct (ensure_checkClient _ _ _ _ c w) as [[err c'] w'] eqn:He. injection Hm as <-.
    apply ensure_checkClient_spec in He as [Hsame _]. unfold state_sound. cbn.
    pose proof (f_equal state_of Hsame) as Hst. pose proof (f_equal conn_addr Hsame) as Ha.
    pose proof (f_equal conn_pool Hsame) as Hp. simpl in Hst, Ha, Hp.
    eapply set_sound; [exact Hcalm|done|done|exact Hr|done|]. unfold conn_sound. rewrite Hst, Ha, Hp.
    intros [[?|[?|[_ []]]] ?]; auto.
  - destruct (checkClient <$> conn_heap n !! r) as [[cc|]|]; [|by injection Hm as <-|done].
    injection Hm as <-. unfold state_sound. cbn. by eapply sound_mono.
  - destruct (checkClient <$> conn_heap n !! r) as [[cc|]|]; [|by injection Hm as <-|done].
    injection Hm as <-. unfold state_sound. cbn. by eapply sound_mono.
  - destruct (Client_Ping cc _ w) as [a w']. injection Hm as <-. unfold state_sound. cbn. by eapply sound_mono.
  - by eapply answer_sound.
  - destruct (downConn Transport_Close n addr w) as [[n' w']|] eqn:Hd; [|by injection Hm as <-]. injection Hm as <-.
    assert (Hmono : forall a, going_down (@LDowning Transport addr err) a -> going_down (@LDowned Transport addr err) a).
    { intros a (e & [[= -> ->]|?]); [|done]. exists e. by right. }
    unfold state_sound. cbn. apply downConn_set in Hd as [->|(r & c & c' & Hr & Ha & _ & -> & Ha' & Hst & Hp)].
    + by eapply sound_mono.
    + eapply set_sound; [exact Hs|exact Hmono|done|exact Hr|congruence|]. intros _. split; [|by right].
      right. right. split; [done|]. exists err. rewrite Ha'. by right.
  - by injection Hm as <-.
  - by injection Hm as <-.
Qed.

Lemma move_sound m s addrs s' :
  state_sound s addrs -> do_move m s = Some s' -> alive (s_loop s') = true -> state_sound s' addrs.
Proof.
  destruct s as [n w l cl ex g]. intros Hs Hm Hal. unfold NodeClose.do_move in Hm.
  cbn [s_loop s_closer s_node s_world exiting wg] in *. destruct (alive l) eqn:Hl; [|done]. cbn [negb] in Hm.
  unfold state_sound in Hs. cbn in Hs.
  assert (Hcheck : check_step (mkState n w l cl ex g) = Some s' -> state_sound s' addrs) by (intros Hc; by eapply check_sound).
  destruct m as [| | | | | | |r p|w0].
  - destruct l; try done. injection Hm as <-. unfold state_sound. cbn. eapply calm_sound; [exact Hs|by intros a (e & [? | ?])].
  - destruct l; try done. destruct ex; [|done]. injection Hm as <-. eapply calm_sound; [exact Hs|by intros a (e & [? | ?])].
  - destruct l; try done. injection Hm as <-. eapply calm_sound; [exact Hs|by intros a (e & [? | ?])].
  - destruct l as [| |[|r rs]| | | | | | | | | |]; try done; [|by apply Hcheck..]. injection Hm as <-.
    eapply calm_sound; [exact Hs|by intros a (e & [? | ?])].
  - destruct cl; [|by destruct l..]. assert (Hm' : Some (mkState n w l (CClosing (conns n)) true g) = Some s') by (by destruct l).
    injection Hm' as <-. eapply sound_mono; [exact Hs|done|done].
  - destruct cl as [|[|r rs]| |]; [by destruct l|..]; [| |by destruct l..].
    + assert (Hm' : Some (mkState n w l CWaiting ex g) = Some s') by (by destruct l). injection Hm' as <-.
      eapply sound_mono; [exact Hs|done|done].
    + destruct (conn_heap n !! r) as [c|] eqn:Hr; [|by destruct l]. pose proof (Close_same c w) as [Ha Hst].
      destruct (conn_Close Transport_Close c w) as [c' w']. simpl in Ha, Hst.
      assert (Hm' : Some (mkState (set_conn n r c') w' l (CClosing rs) ex g) = Some s') by (by destruct l). injection Hm' as <-.
      eapply set_sound; [exact Hs|done|done|exact Hr|done|]. intros [Hsc _]. split; [by rewrite Hst, Ha|by left].
  - destruct cl; [by destruct l..| |by destruct l]. destruct (decide (g = 0)%Z); [|by destruct l].
    assert (Hm' : Some (mkState n w l CReturned ex g) = Some s') by (by destruct l). injection Hm' as <-.
    eapply sound_mono; [exact Hs|done|done].
  - destruct (conn_heap n !! r) as [c|] eqn:Hr; [|by destruct l]. destruct (conn_pool c) as [p0|] eqn:Hp; [|by destruct l].
    assert (Hm' : Some (mkState (set_conn n r (set_pool c (Some p))) w l cl ex g) = Some s') by (by destruct l).
    injection Hm' as <-. eapply set_sound_same; [exact Hs|exact Hr|done|]. intros [Hsc _]. by split.
  - assert (Hm' : Some (mkState n w0 l cl ex g) = Some s') by (by destruct l). by injection Hm' as <-.
Qed.

Lemma steps_sound s addrs s' : rtc step s s' -> state_sound s addrs -> alive (s_loop s') = true -> state_sound s' addrs.
Proof.
  intros Hr Hs. revert s' Hr. refine (rtc_ind_r (fun s' => alive (s_loop s') = true -> state_sound s' addrs) s _ _); [done|].
  intros s1 s2 _ [m Hm] IH Hal. eapply move_sound; [|exact Hm|exact Hal]. apply IH.
  unfold NodeClose.do_move in Hm. by destruct (alive (s_loop s1)).
Qed.

Lemma new_sound addrs ci ct it rt w0 n w :
  new_node addrs ci ct it rt w0 = (Ok n, w) -> state_sound (fresh_state n w) addrs.
Proof.
  intros ([Hc Ha] & <-)%NewServerNode_ok. unfold state_sound, sound. cbn.
  apply Forall2_same_length_lookup. split; [by eapply Forall2_length|]. intros i r a Hr Hia.
  destruct (Forall2_lookup_lr _ _ _ _ _ _ Ha Hr Hia) as (c & Hh & Hca). exists c. split; [done|]. split; [done|].
  destruct (Hc r) as (c' & Hh' & Hst & [p Hp]); [by eapply list_elem_of_lookup_2|].
  rewrite Hh in Hh'. injection Hh' as <-. split; [by right; left|]. by rewrite Hp.
Qed.

Lemma choose_sound n addrs (down : string -> Prop) (closing : Prop) rand_Intn :
  sound n addrs down closing -> (forall k, 0 < k -> rand_Intn k < k) ->
  (ChooseNodeConn n rand_Intn = Ret (Err "no enable connection server"%string) /\ Forall down addrs) \/
  exists i r c, conns n !! i = Some r /\ conn_heap n !! r = Some c /\ state_of c <> Down /\ (conn_pool c = None -> closing) /\
    ChooseNodeConn n rand_Intn = Ret (match conn_pool c with None => Err ErrBadConn | Some _ => Ok r end) /\
    ((forall a, ~ down a) -> i = rand_Intn (length addrs)).
Proof.
  intros Hs Hrand. pose proof (Forall2_length _ _ _ Hs) as Hlen.
  assert (Hex : forall r, r ∈ conns n -> exists c, conn_heap n !! r = Some c /\ conn_sound down closing c).
  { intros r Hr. apply list_elem_of_lookup in Hr as [i Hi]. destruct (Forall2_lookup_l _ _ _ _ _ Hs Hi) as (a & _ & c & Hc & _ & ?).
    by exists c. }
  destruct (ChooseNodeConn_spec n rand_Intn) as [[Hall Hch]|(i & r & c & Hi & Hc & Hd & Hch & Hcalm)]; [|done| |].
  - intros r Hr. destruct (Hex r Hr) as (c & Hc & _). by exists c.
  - left. split; [done|]. apply Forall_lookup. intros i a Ha. destruct (Forall2_lookup_r _ _ _ _ _ Hs Ha) as (r & Hr & c & Hc & <- & Hst & _).
    specialize (Hall r c (list_elem_of_lookup_2 _ _ _ Hr) Hc). rewrite Hall in Hst. by destruct Hst as [Hx|[Hx|[_ ?]]].
  - right. exists i, r, c. destruct (Hex r (list_elem_of_lookup_2 _ _ _ Hi)) as (c' & Hc' & _ & Hp). rewrite Hc in Hc'. injection Hc' as <-.
    repeat (split; [done|]). split; [intros Hn; by destruct (Hp Hn)|]. split; [done|]. intros Hno. rewrite <- Hlen. apply Hcalm.
    intros r' c' Hr' Hc' Hd'. destruct (Hex r' Hr') as (c1 & Hc1 & Hst & _). rewrite Hc' in Hc1. injection Hc1 as <-.
    rewrite Hd' in Hst. destruct Hst as [Hx|[Hx|[_ Hx]]]; [done..|by apply (Hno (conn_addr c'))].
Qed.

End NodeChoose.

(** ** Witness: two servers, the first of which has been checked *)
Section Demo.
#[local] Abbreviation lib_run := (run lib_socket lib_transport lib_ok lib_ok lib_open lib_now lib_ping).
Definition checked_once : list (@move nat nat) := [Start; Tick] ++ repeat Check_ 5.

End Demo.
