(* ===== verification/LoadMain.v ===== *)
(** * The programs under test/grpc/client and test/thrift/client

    [main] of both load generators around the goroutines of [LoadClient]: it starts its
    workers one by one, sleeps, stops the client and prints what the four counters of the
    program hold.  A step is a step of a goroutine, with what it adds to the counters, or
    one of [main].  The counters are those of go-metrics, which count what they are given;
    the percentiles of the histogram are not modelled, only its [Count]. *)
From Stdlib Require Import QArith.
From S2P Require Import Prelude.
From S2P Require Import MessageQueue.
From S2P Require Import KVServers.
From S2P Require Import Resolver.
From S2P Require Import GrpcClient.
From S2P Require Import ThriftNode.
From S2P Require Import LoadClient.
#[local] Close Scope Q_scope.
#[local] Open Scope nat_scope.

(** ** The counters *)
(* src/test/grpc/client/client.go:17-20 counter *)
Record metrics : Type := mkMetrics { histogram : Z; counter : Z; streamCounter : Z; readErrCounter : Z }.

Definition update_hist (m : metrics) : metrics :=
  mkMetrics (histogram m + 1) (counter m) (streamCounter m) (readErrCounter m).
Definition inc_counter (m : metrics) : metrics :=
  mkMetrics (histogram m) (counter m + 1) (streamCounter m) (readErrCounter m).
Definition inc_stream (n : Z) (m : metrics) : metrics :=
  mkMetrics (histogram m) (counter m) (streamCounter m + n) (readErrCounter m).
Definition inc_read (m : metrics) : metrics :=
  mkMetrics (histogram m) (counter m) (streamCounter m) (readErrCounter m + 1).
(** [if err != nil { counter.Inc(1) }] *)
Definition count_err (err : bool) (m : metrics) : metrics := if err then inc_counter m else m.

(** *** The grpc client: a step of a goroutine from [g] to [g'], whose call failed or not *)
(* src/test/grpc/client/client.go:81-106 TestGrpcClient.consumeMQ *)
Definition consume_counts (g g' : goroutine) (err : bool) (m : metrics) : metrics :=
  match g, g' with
  | ConsumeLoop, ConsumeLoop => inc_counter m
  | ConsumeLoop, ConsumeSend reqs _ => inc_stream (s_len reqs) m
  | ConsumeSend _ _, ConsumeSend _ _ => count_err err m
  | ConsumeSend _ _, ConsumeLoop => update_hist (count_err err m)
  | _, _ => m
  end.
(* src/test/grpc/client/client.go:149-157 TestGrpcClient.SingleSend *)
Definition single_counts (err : bool) (m : metrics) : metrics := update_hist (count_err err m).
(* src/test/grpc/client/client.go:175-201 TestGrpcClient.MultiSend *)
Definition flush_counts (g g' : goroutine) (err : bool) (m : metrics) : metrics :=
  match g, g' with
  | Flush, Over => inc_counter m
  | Flush, FlushSend reqs _ => inc_stream (s_len reqs) m
  | FlushSend _ _, FlushSend _ _ => count_err err m
  | FlushSend _ _, Over => update_hist (count_err err m)
  | _, _ => m
  end.
(* src/test/grpc/client/client.go:217-224 TestGrpcClient.Recv *)
Definition recv_counts (err : bool) (m : metrics) : metrics := update_hist (if err then inc_read m else m).

Definition grpc_counts (g g' : goroutine) (err : bool) (m : metrics) : metrics :=
  match g, g' with
  | SingleLoop, SingleLoop => single_counts err m
  | RecvLoop, RecvLoop => recv_counts err m
  | (Flush | FlushSend _ _), _ => flush_counts g g' err m
  | _, _ => consume_counts g g' err m
  end.

(** *** The thrift client: a batch that fails is not in the histogram *)
(* src/test/thrift/client/client.go:99-114 TestThriftClient.consumeMQ *)
Definition thrift_consume_counts (g g' : goroutine) (m : metrics) : metrics :=
  match g, g' with
  | ConsumeLoop, ConsumeSend reqs _ => inc_stream (s_len reqs) m
  | ConsumeSend _ _, ConsumeLoop => update_hist m
  | ConsumeSend _ _, Left => inc_counter m
  | _, _ => m
  end.
(* src/test/thrift/client/client.go:134-141 TestThriftClient.SingleSend *)
Definition thrift_single_counts (err : bool) (m : metrics) : metrics := update_hist (count_err err m).
(* src/test/thrift/client/client.go:165-180 TestThriftClient.MultiSend *)
Definition thrift_flush_counts (g g' : goroutine) (err : bool) (m : metrics) : metrics :=
  match g, g' with
  | Flush, FlushSend reqs _ => inc_stream (s_len reqs) m
  | FlushSend _ _, Over => if err then inc_counter m else update_hist m
  | _, _ => m
  end.

Definition thrift_counts (g g' : goroutine) (err : bool) (m : metrics) : metrics :=
  match g, g' with
  | SingleLoop, SingleLoop => thrift_single_counts err m
  | (Flush | FlushSend _ _), _ => thrift_flush_counts g g' err m
  | _, _ => thrift_consume_counts g g' m
  end.

(** ** The process *)

(** The line [main] prints: its total, the write errors and the read errors. *)
Record report : Type := mkReport { r_total : Z; r_errors : Z; r_readErrors : Z }.

(** Where [main] stands: [n] workers are left to start; in [time.Sleep]; in [wg.Wait]; it
    has printed, and is closing its client; the process has ended, or a goroutine has
    panicked. *)
Inductive main_at : Type :=
| Spawning (n : nat) | Sleeping | Waiting | Closing (r : report) | Ended (r : report) | Panicked.
Record process : Type := mkProcess { p_sys : system; p_metrics : metrics; p_main : main_at }.

Definition no_metrics : metrics := mkMetrics 0 0 0 0.
Definition is_over (a : main_at) : bool := match a with Ended _ | Panicked => true | _ => false end.
Definition spawn (s : system) (worker : goroutine) : system := mkSystem (client s) (procs s ++ [worker]).

Section Main.
Context (step : TestClient -> goroutine -> TestClient -> goroutine -> list goroutine -> Prop).
Context (counts : goroutine -> goroutine -> bool -> metrics -> metrics).
Context (worker : goroutine) (report_of : metrics -> report).
(** The goroutines that may panic before they begin. *)
Context (panics : goroutine -> Prop).

Inductive main_step : process -> process -> Prop :=
| m_run l1 g l2 c c' g' new err m a :
    is_over a = false -> step c g c' g' new ->
    main_step (mkProcess (mkSystem c (l1 ++ g :: l2)) m a)
              (mkProcess (mkSystem c' (l1 ++ g' :: l2 ++ new)) (counts g g' err m) a)
| m_panic s m a g : is_over a = false -> g ∈ procs s -> panics g -> main_step (mkProcess s m a) (mkProcess s m Panicked)
| m_spawn s m n : main_step (mkProcess s m (Spawning (S n))) (mkProcess (spawn s worker) m (Spawning n))
| m_sleep s m : main_step (mkProcess s m (Spawning 0)) (mkProcess s m Sleeping)
| m_stop s m : main_step (mkProcess s m Sleeping) (mkProcess (mkSystem (close_exit (client s)) (procs s)) m Waiting)
| m_print s m : wg (client s) = 0%Z -> main_step (mkProcess s m Waiting) (mkProcess s m (Closing (report_of m)))
| m_end s m r : main_step (mkProcess s m (Closing r)) (mkProcess s m (Ended r)).

Definition started (new : outcome system) (n : nat) (p : process) : Prop :=
  exists s, new = Ret s /\ rtc main_step (mkProcess s no_metrics (Spawning n)) p.
End Main.

(** [NewGRPCClient] has succeeded; then nothing in the program panics. *)
(* src/test/grpc/client/client.go:273-273 main *)
Definition grpc_report (m : metrics) : report :=
  mkReport (Z.quot (histogram m) 10) (counter m) (readErrCounter m).
(* src/test/grpc/client/client.go:262-270 main *)
Definition grpc_main (rwRatio : Z) (worker : goroutine) : process -> process -> Prop :=
  main_step (grpc_step rwRatio) grpc_counts worker grpc_report (fun _ => False).

(** All but the generator choose a connection first and panic without one. *)
Definition chooses (g : goroutine) : Prop := g = ConsumeStart \/ g = SingleStart \/ g = MultiStart.
(* src/test/thrift/client/client.go:332-332 main *)
Definition thrift_report (m : metrics) : report :=
  mkReport (Z.quot (streamCounter m) 10) (counter m) (readErrCounter m).
(* src/test/thrift/client/client.go:318-326 main *)
Definition thrift_main (rwRatio : Z) (worker : goroutine) : process -> process -> Prop :=
  main_step (thrift_step rwRatio) thrift_counts worker thrift_report chooses.

(** ** What every step of a process keeps *)
Section Process.
Context (step : TestClient -> goroutine -> TestClient -> goroutine -> list goroutine -> Prop).
Context (counts : goroutine -> goroutine -> bool -> metrics -> metrics).
Context (worker : goroutine) (report_of : metrics -> report) (panics : goroutine -> Prop).
Context (step_keeps : forall c g c' g' new, step c g c' g' new -> keeps c g c' g' new).
Context (step_exit : forall c g c' g' new, step c g c' g' new -> exitchan c' = exitchan c).
Context (worker_starts : is_Some (loop_of worker)).
#[local] Abbreviation go := (main_step step counts worker report_of panics).

Record proc_ok (size : Z) (p : process) : Prop := {
  po_sys : sys_ok size (p_sys p);
  po_exit : match p_main p with
            | Spawning _ | Sleeping => exitchan (client (p_sys p)) = false
            | Waiting | Closing _ | Ended _ => exitchan (client (p_sys p)) = true
            | Panicked => True
            end
}.

Lemma starts_held g : is_Some (loop_of g) -> held g = 0%Z.
Proof. intros [loop Hl]. by destruct g. Qed.
Lemma starts_batch size g : is_Some (loop_of g) -> batch_ok size g.
Proof. intros [loop Hl]. by destruct g. Qed.

Lemma main_step_ok size p p' : go p p' -> proc_ok size p -> proc_ok size p'.
Proof using step_keeps step_exit worker_starts.
  destruct 1 as [l1 g l2 c c' g' new err m a Ha Hs|s m a g Ha Hin Hg|s m n|s m|s m|s m Hw|s m r]; intros [Hok He];
    cbn [p_sys p_main p_metrics] in *; try by split.
  - split; cbn [p_sys p_main]; [by eapply sys_step_ok; [exact step_keeps|by apply sys_run|]|].
    simpl in *. by rewrite (step_exit _ _ _ _ _ Hs).
  - split; [|done]. destruct Hok as [Hc Hb Hwg]. split; simpl; [done| |].
    + apply Forall_app. split; [done|]. apply Forall_singleton. by apply starts_batch.
    + rewrite held_all_app, Hwg. simpl. rewrite (starts_held _ worker_starts). lia.
  - split; [|done]. destruct Hok as [[Hq Hl] Hb Hwg]. by split.
Qed.

Lemma main_steps_ok size p p' : rtc go p p' -> proc_ok size p -> proc_ok size p'.
Proof using step_keeps step_exit worker_starts. induction 1 as [p|p p1 p2 Hs _ IH]; [done|]. intros Hok. by eapply IH, main_step_ok. Qed.

Lemma started_ok size n p :
  (0 <= size <= maxInt64)%Z ->
  started step counts worker report_of panics (c ← new_client size; Ret (mkSystem c [GenStart; ConsumeStart])) n p ->
  proc_ok size p.
Proof using step_keeps step_exit worker_starts.
  intros Hsize (s & Hn & Hs). destruct (NewEntryQueue_in_use (A := PutRequest) size Hsize) as (q & Hq & Hin & Hp).
  unfold new_client in Hn. rewrite Hq in Hn. injection Hn as <-. eapply main_steps_ok; [exact Hs|].
  split; [|done]. split; simpl; [split; [done|by change ([] = pending q); rewrite Hp]|by repeat constructor|done].
Qed.

(** The goroutines' runs are runs of the process. *)
Definition at_of (s : system) : main_at := if exitchan (client s) then Waiting else Sleeping.

Lemma lift_steps s s' m :
  rtc (sys_step step) s s' -> exists m', rtc go (mkProcess s m (at_of s)) (mkProcess s' m' (at_of s')).
Proof using step_exit.
  intros Hs. revert m. induction Hs as [s|s s1 s2 Hs _ IH]; intros m; [by exists m|].
  destruct Hs as [l1 g l2 c c' g' new Hst|c ps He].
  - destruct (IH (counts g g' false m)) as [m' Hm']. exists m'. eapply rtc_l; [|exact Hm'].
    unfold at_of at 2. simpl. rewrite (step_exit _ _ _ _ _ Hst). apply m_run; [|done]. unfold at_of. simpl. by destruct (exitchan c).
  - destruct (IH m) as [m' Hm']. exists m'. eapply rtc_l; [|exact Hm']. unfold at_of. simpl. rewrite He. apply m_stop.
Qed.

Lemma spawn_all s m n :
  rtc go (mkProcess s m (Spawning n)) (mkProcess (mkSystem (client s) (procs s ++ replicate n worker)) m Sleeping).
Proof using Type.
  revert s. induction n as [|n IH]; intros s.
  - simpl. rewrite app_nil_r. destruct s. apply rtc_once, m_sleep.
  - eapply rtc_l; [apply m_spawn|]. pose proof (IH (spawn s worker)) as Hr. simpl in Hr. by rewrite <- app_assoc in Hr.
Qed.

(** Every state of the goroutines, with the workers there from the start, is one of the process. *)
Lemma reachable_started new n s :
  (forall s0, new = Ret s0 -> exitchan (client s0) = false) ->
  reachable new step (replicate n worker) s ->
  exists m, started step counts worker report_of panics new n (mkProcess s m (at_of s)).
Proof using step_exit.
  intros Hnew (s0 & Hn & Hs). destruct (lift_steps _ _ no_metrics Hs) as [m Hm]. exists m, s0. split; [done|].
  etrans; [apply spawn_all|]. unfold at_of in Hm at 1. simpl in Hm. by rewrite (Hnew _ Hn) in Hm.
Qed.

(** [main] reaches its wait. *)
Lemma main_waits size p :
  proc_ok size p -> match p_main p with Spawning _ | Sleeping | Waiting => True | _ => False end ->
  exists s m, rtc go p (mkProcess s m Waiting) /\ exitchan (client s) = true /\ procs s ⊆ procs (p_sys p) ++ [worker].
Proof using Type.
  destruct p as [s m a]. intros [_ He] Ha. cbn [p_main p_sys] in *.
  assert (Hsleep : forall s, rtc go (mkProcess s m Sleeping) (mkProcess (mkSystem (close_exit (client s)) (procs s)) m Waiting)).
  { intros s'. apply rtc_once, m_stop. }
  destruct a as [n| | | | |]; try done.
  - eexists _, m. split; [etrans; [apply spawn_all|apply Hsleep]|]. split; [done|]. simpl. intros g.
    rewrite !elem_of_app, list_elem_of_singleton. intros [?|[-> _]%elem_of_replicate]; [by left|by right].
  - eexists _, m. split; [apply Hsleep|]. split; [done|]. simpl. intros g ?. apply elem_of_app. by left.
  - exists s, m. split; [done|]. split; [done|]. intros g ?. apply elem_of_app. by left.
Qed.
End Process.

(** A property of the goroutines, of the log and of the counters that every step keeps. *)
Section Kept.
Context (step : TestClient -> goroutine -> TestClient -> goroutine -> list goroutine -> Prop).
Context (counts : goroutine -> goroutine -> bool -> metrics -> metrics).
Context (worker : goroutine) (report_of : metrics -> report) (panics : goroutine -> Prop).
Context (P : goroutine -> Prop) (worker_P : P worker).
Context (step_P : forall c g c' g' new, step c g c' g' new -> P g -> P g' /\ Forall P new).

Lemma main_steps_kept p p' :
  rtc (main_step step counts worker report_of panics) p p' -> Forall P (procs (p_sys p)) -> Forall P (procs (p_sys p')).
Proof using worker_P step_P.
  induction 1 as [p|p p1 p2 Hs _ IH]; [done|]. intros Hp. apply IH. clear IH.
  destruct Hs as [l1 g l2 c c' g' new err m a Ha Hs| | | | | |]; simpl in *; try done.
  - rewrite Forall_app, Forall_cons in Hp. destruct Hp as (H1 & Hg & H2). destruct (step_P _ _ _ _ _ Hs Hg) as [Hg' Hn].
    by rewrite Forall_app, Forall_cons, Forall_app.
  - apply Forall_app. split; [done|]. by apply Forall_singleton.
Qed.
End Kept.

Definition sum_of {A} (f : A -> Z) (l : list A) : Z := foldr (fun a n => (f a + n)%Z) 0%Z l.
Lemma sum_of_app {A} (f : A -> Z) l k : sum_of f (l ++ k) = (sum_of f l + sum_of f k)%Z.
Proof. unfold sum_of. induction l as [|a l IH]; simpl; [done|]. rewrite IH. lia. Qed.
Lemma sum_of_zero {A} (f : A -> Z) l : Forall (fun a => f a = 0%Z) l -> sum_of f l = 0%Z.
Proof. induction 1 as [|a l Ha _ IH]; [done|]. unfold sum_of in *. simpl. lia. Qed.

(** A goroutine that is sending a batch; the calls and batches of the log. *)
Definition busy (g : goroutine) : Z := match g with ConsumeSend _ _ | FlushSend _ _ => 1 | _ => 0 end.
Definition recorded (e : event) : Z := match e with EBatch _ | EPut _ | EGet _ => 1 | _ => 0 end.
(** A batch that was not empty. *)
Definition full_batch (e : event) : Z := match e with EBatch (_ :: _) => 1 | _ => 0 end.

Lemma take_batch_len size c c' reqs :
  client_ok size c -> take_batch c c' reqs ->
  exists batch, log c' = log c ++ [EBatch batch] /\ s_len reqs = Z.of_nat (length batch).
Proof.
  intros [Hq Hl] (q & Hg & ->). eexists. split; [done|]. destruct (Get_in_use size (mq c) Hq) as (q' & s & Hg' & _ & Hr & _).
  rewrite Hg in Hg'. injection Hg' as <- <-. rewrite Hr. pose proof (abs_length _ (proj1 Hq)) as Ha. unfold pending.
  rewrite Ha. by apply Get_target in Hg as (-> & _).
Qed.

(** [account] of a step: what it adds to the log and the goroutines is what it counts. *)
Section Account.
Context (step : TestClient -> goroutine -> TestClient -> goroutine -> list goroutine -> Prop).
Context (counts : goroutine -> goroutine -> bool -> metrics -> metrics).
Context (worker : goroutine) (report_of : metrics -> report) (panics : goroutine -> Prop).
Context (done_of : metrics -> Z) (logged : event -> Z) (size : Z) (P : goroutine -> Prop).

Definition accounted (c : TestClient) (ps : list goroutine) (m : metrics) : Prop :=
  (done_of m + sum_of busy ps = sum_of logged (log c))%Z /\ streamCounter m = Z.of_nat (length (handed (log c))).

Definition step_counts (c : TestClient) (g : goroutine) (c' : TestClient) (g' : goroutine) (new : list goroutine) : Prop :=
  forall err m, client_ok size c -> P g ->
    exists l, log c' = log c ++ l /\
      (done_of (counts g g' err m) - done_of m = sum_of logged l + busy g - busy g' - sum_of busy new)%Z /\
      (streamCounter (counts g g' err m) - streamCounter m = Z.of_nat (length (handed l)))%Z.

Context (all_count : forall c g c' g' new, step c g c' g' new -> step_counts c g c' g' new).
Context (worker_P : P worker) (worker_idle : busy worker = 0%Z).
Context (step_P : forall c g c' g' new, step c g c' g' new -> P g -> P g' /\ Forall P new).
Context (step_keeps : forall c g c' g' new, step c g c' g' new -> keeps c g c' g' new).
Context (step_exit : forall c g c' g' new, step c g c' g' new -> exitchan c' = exitchan c).
Context (worker_starts : is_Some (loop_of worker)).
#[local] Abbreviation go := (main_step step counts worker report_of panics).

Definition books (p : process) : Prop :=
  proc_ok size p /\ Forall P (procs (p_sys p)) /\ accounted (client (p_sys p)) (procs (p_sys p)) (p_metrics p).

Lemma main_step_books p p' : go p p' -> books p -> books p'.
Proof using All.
  intros Hs (Hok & HP & Hd & Hst). split; [by eapply main_step_ok|].
  split; [eapply (main_steps_kept _ _ _ _ _ P worker_P step_P); [by apply rtc_once|done]|].
  destruct Hs as [l1 g l2 c c' g' new err m a Ha Hs| | | | | |]; cbn [p_sys p_metrics client procs] in *; try by split.
  - apply Forall_app in HP as [_ [Hg _]%Forall_cons]. destruct (all_count _ _ _ _ _ Hs err m) as (l & Hl & Hd' & Hs').
    { by destruct (po_sys _ _ Hok). }
    { done. }
    unfold accounted. rewrite Hl, handed_app, length_app, !sum_of_app. rewrite sum_of_app in Hd. unfold sum_of in *. simpl in *.
    fold (sum_of busy l2) (sum_of busy (l2 ++ new)) in *. rewrite sum_of_app. unfold sum_of in *. lia.
  - unfold accounted. simpl. rewrite sum_of_app. unfold sum_of at 2. simpl. rewrite worker_idle. split; [lia|done].
Qed.

Lemma started_books n p :
  (0 <= size <= maxInt64)%Z -> P GenStart -> P ConsumeStart -> done_of no_metrics = 0%Z ->
  started step counts worker report_of panics (c ← new_client size; Ret (mkSystem c [GenStart; ConsumeStart])) n p -> books p.
Proof using All.
  intros Hsize Hg Hc Hz (s & Hn & Hs).
  assert (H0 : books (mkProcess s no_metrics (Spawning n))).
  { split; [apply (started_ok step counts worker report_of panics step_keeps step_exit worker_starts size n); [done|exists s; by split]|]. unfold new_client in Hn. destruct (NewEntryQueue size); [|done].
    injection Hn as <-. split; [by repeat constructor|]. split; [|done]. simpl. rewrite Hz. done. }
  clear Hn Hz. induction Hs as [p|p p1 p2 Hs _ IH]; [done|]. by apply IH, (main_step_books p).
Qed.
End Account.

Lemma take_batch_exit c c' reqs : take_batch c c' reqs -> exitchan c' = exitchan c.
Proof. by intros (q & _ & ->). Qed.
Lemma multi_add_exit c c' new : multi_add c c' new -> exitchan c' = exitchan c.
Proof. by destruct 1. Qed.
Lemma grpc_step_exit rw c g c' g' new : grpc_step rw c g c' g' new -> exitchan c' = exitchan c.
Proof. destruct 1; try done; first [by eapply take_batch_exit|by eapply multi_add_exit]. Qed.
Lemma thrift_step_exit rw c g c' g' new : thrift_step rw c g c' g' new -> exitchan c' = exitchan c.
Proof. destruct 1; try done; first [by eapply take_batch_exit|by eapply multi_add_exit]. Qed.

Lemma steps_exit (step : TestClient -> goroutine -> TestClient -> goroutine -> list goroutine -> Prop) :
  (forall c g c' g' new, step c g c' g' new -> exitchan c' = exitchan c) ->
  forall s s', rtc (sys_step step) s s' -> exitchan (client s) = true -> exitchan (client s') = true.
Proof.
  intros Hstep s s'. induction 1 as [s|s s1 s2 Hs _ IH]; [done|]. intros He. apply IH. clear IH.
  destruct Hs as [l1 g l2 c c' g' new Hg|c ps _]; simpl in *; [by rewrite (Hstep _ _ _ _ _ Hg)|done].
Qed.

(** The cases of [step_counts] that log nothing. *)
Ltac no_log := intros err m _ _; exists []; rewrite app_nil_r; split; [done|]; destruct err; simpl; unfold sum_of; simpl; lia.
(** Those that log one event. *)
Ltac one_log e := intros err m _ _; exists [e]; split; [done|]; destruct err; simpl; unfold sum_of; simpl; lia.

(** ** The grpc program *)
Section Grpc.
Context (rw : Z) (worker : goroutine) (worker_kind : worker = SingleStart \/ worker = MultiStart \/ worker = RecvStart).
#[local] Abbreviation go := (grpc_main rw worker).
#[local] Abbreviation started_with n := (started (grpc_step rw) grpc_counts worker grpc_report (fun _ => False) NewTestGrpcClient n).

Lemma grpc_worker_starts : is_Some (loop_of worker).
Proof using worker_kind. destruct worker_kind as [->|[->| ->]]; by eexists. Qed.

Lemma grpc_step_counts c g c' g' new :
  grpc_step rw c g c' g' new -> step_counts grpc_counts histogram recorded 2048 (fun g => g <> Left) c g c' g' new.
Proof.
  destruct 1 as [g loop Hl|g Hs|n kv|kv|kv| |c' reqs Ht|reqs i req|reqs i|kv rest|c' new Hm| |c' reqs Ht|reqs i req|reqs i|kv rest];
    try by no_log.
  - intros err m _ _. exists []. rewrite app_nil_r. split; [done|]. destruct g; try discriminate Hl; injection Hl as <-; simpl;
      unfold sum_of; simpl; lia.
  - intros err m _ _. exists []. rewrite app_nil_r. split; [done|]. destruct g; try discriminate Hs; simpl; unfold sum_of; simpl; lia.
  - intros err m Hc _. destruct (take_batch_len _ _ _ _ Hc Ht) as (b & Hb & Hlen). exists [EBatch b]. split; [done|].
    rewrite handed_batch. simpl. unfold sum_of. simpl. lia.
  - one_log (ESend req).
  - one_log (EPut kv).
  - intros err m _ _. destruct Hm as [kv rest q st|kv rest q st]; [exists [EAdded (req_of kv)]|exists [ERefused (req_of kv)]];
      (split; [done|]); simpl; unfold sum_of; simpl; lia.
  - intros err m Hc _. destruct (take_batch_len _ _ _ _ Hc Ht) as (b & Hb & Hlen). exists [EBatch b]. split; [done|].
    rewrite handed_batch. simpl. unfold sum_of. simpl. lia.
  - one_log (ESend req).
  - one_log (EGet kv).
Qed.

Lemma grpc_step_kept c g c' g' new : grpc_step rw c g c' g' new -> g <> Left -> g' <> Left /\ Forall (fun g => g <> Left) new.
Proof.
  destruct 1 as [g loop Hl| | | | | | | | | |c' new Hm| | | | |]; intros Hg; try done.
  - split; [by destruct g; try discriminate Hl; injection Hl as <-|done].
  - split; [done|]. destruct Hm; [done|by apply Forall_singleton].
Qed.

#[local] Abbreviation grpc_books := (books histogram recorded 2048 (fun g => g <> Left)).

Lemma grpc_started_books n p : started_with n p -> grpc_books p.
Proof using worker_kind.
  intros Hs. refine (started_books _ _ _ _ _ _ _ _ _ grpc_step_counts _ _ grpc_step_kept (grpc_step_keeps rw) (grpc_step_exit rw)
    grpc_worker_starts n p _ _ _ _ Hs); [by destruct worker_kind as [->|[->| ->]]..|by unfold maxInt64|done|done|done].
Qed.

Lemma grpc_never_panics p p' : rtc go p p' -> p_main p <> Panicked -> p_main p' <> Panicked.
Proof. induction 1 as [p|p p1 p2 Hs _ IH]; [done|]. intros Hp. apply IH. by destruct Hs. Qed.

(** From its wait the process can end. *)
Lemma grpc_ends s m :
  grpc_books (mkProcess s m Waiting) -> exists p' r, rtc go (mkProcess s m Waiting) p' /\ p_main p' = Ended r.
Proof using worker_kind.
  intros ([Hok He] & Hleft & _). destruct s as [c ps]. simpl in *.
  destruct (grpc_settle_all rw 2048 c [] ps Hok He) as (c' & ps' & Hs & Hps); [|by constructor|].
  { intros Hin. by eapply Forall_forall in Hleft. }
  pose proof (steps_ok _ (grpc_step_keeps rw) _ _ _ Hs Hok) as Hok'.
  destruct (lift_steps _ grpc_counts worker grpc_report (fun _ => False) (grpc_step_exit rw) _ _ m Hs) as [m' Hrun].
  unfold at_of in Hrun. simpl in Hrun. rewrite He in Hrun.
  assert (exitchan c' = true) as He' by exact (steps_exit _ (grpc_step_exit rw) _ _ Hs He).
  rewrite He' in Hrun. exists (mkProcess (mkSystem c' ps') m' (Ended (grpc_report m'))), (grpc_report m'). split; [|done].
  etrans; [exact Hrun|]. eapply rtc_l; [apply m_print|apply rtc_once, m_end].
  rewrite (ok_wg _ _ Hok'). apply held_all_zero. eapply Forall_impl; [exact Hps|]. by intros g [? _].
Qed.

(** What the wait group does not hold: over, not begun, or a flush. *)
Definition unheld (g : goroutine) : Prop :=
  g = Over \/ is_Some (loop_of g) \/ g = Flush \/ exists reqs i, g = FlushSend reqs i.

Lemma held_zero_unheld g : held g = 0%Z -> unheld g.
Proof using Type.
  unfold unheld. destruct g; try discriminate; intros _; try (by left); try (by right; left; eexists).
  - right. right. by left.
  - right. right. right. by do 2 eexists.
Qed.

Lemma held_all_unheld ps : held_all ps = 0%Z -> Forall unheld ps.
Proof using Type.
  induction ps as [|g ps IH]; simpl; intros Hz; [done|]. pose proof (held_nonneg g). pose proof (held_all_nonneg ps).
  constructor; [apply held_zero_unheld; lia|apply IH; lia].
Qed.

(** Without a [MultiSend] nothing is ever queued. *)
Definition single_goroutine (g : goroutine) : Prop :=
  match g with
  | MultiStart | MultiLoop | RecvStart | RecvLoop | Flush | FlushSend _ _ => False
  | ConsumeSend reqs _ => (s_len reqs <= 0)%Z
  | _ => True
  end.
Definition put_or_empty (e : event) : Prop := match e with EPut _ | EBatch [] => True | _ => False end.
Record only_puts (p : process) : Prop := {
  op_procs : Forall single_goroutine (procs (p_sys p));
  op_log : Forall put_or_empty (log (client (p_sys p)));
  op_queue : pending (mq (client (p_sys p))) = []
}.

Lemma empty_batch c c' reqs :
  client_ok 2048 c -> pending (mq c) = [] -> take_batch c c' reqs ->
  log c' = log c ++ [EBatch []] /\ (s_len reqs <= 0)%Z /\ pending (mq c') = [].
Proof using Type.
  intros [Hq Hl] Hp (q & Hg & ->). destruct (Get_in_use 2048 (mq c) Hq) as (q' & s & Hg' & _ & Hr & Hp').
  rewrite Hg in Hg'. injection Hg' as <- <-. simpl. rewrite Hr, Hp. split; [done|]. split; [|done].
  pose proof (abs_length _ (proj1 Hq)) as Ha. unfold pending in Hp. rewrite Hp in Ha. apply Get_target in Hg as (-> & _).
  simpl in *. lia.
Qed.

Lemma single_step c g c' g' new :
  grpc_step rw c g c' g' new -> client_ok 2048 c -> single_goroutine g -> Forall put_or_empty (log c) -> pending (mq c) = [] ->
  single_goroutine g' /\ Forall single_goroutine new /\ Forall put_or_empty (log c') /\ pending (mq c') = [].
Proof using Type.
  intros Hs Hc Hg Hl Hp.
  destruct Hs as [g loop Hloop| | | | | |c' reqs Ht|reqs i req Hi|reqs i|kv rest| | | | | |]; simpl in Hg; try done.
  - split; [by destruct g; try discriminate Hloop; injection Hloop as <-|done].
  - destruct (empty_batch _ _ _ Hc Hp Ht) as (-> & Hlen & Hp'). split; [done|]. split; [done|]. split; [|done].
    apply Forall_app. split; [done|]. by apply Forall_singleton.
  - lia.
  - split; [done|]. split; [done|]. split; [|done]. simpl. apply Forall_app. split; [done|]. by apply Forall_singleton.
Qed.

Lemma only_puts_step p p' : worker = SingleStart -> go p p' -> grpc_books p -> only_puts p -> only_puts p'.
Proof using Type.
  intros Hw Hs ([[Hc _ _] _] & _) [Hg Hl Hp]. destruct Hs as [l1 g l2 c c' g' new err m a Ha Hs| | | | | |]; simpl in *; try by split.
  - rewrite Forall_app, Forall_cons in Hg. destruct Hg as (H1 & Hg & H2).
    destruct (single_step _ _ _ _ _ Hs Hc Hg Hl Hp) as (Hg' & Hn & Hl' & Hp'). split; simpl; [|done..].
    by rewrite Forall_app, Forall_cons, Forall_app.
  - split; simpl; [|done..]. apply Forall_app. split; [done|]. apply Forall_singleton. by rewrite Hw.
Qed.

Lemma started_only_puts n p : worker = SingleStart -> started_with n p -> only_puts p.
Proof using worker_kind.
  intros Hw (s & Hn & Hs). assert (Hb : grpc_books (mkProcess s no_metrics (Spawning n))) by (apply (grpc_started_books n); by exists s).
  assert (H0 : only_puts (mkProcess s no_metrics (Spawning n))).
  { destruct (NewEntryQueue_in_use (A := PutRequest) 2048 ltac:(unfold maxInt64; lia)) as (q & Hq & _ & Hp).
    unfold NewTestGrpcClient, new_client in Hn. change (1024 * 2)%Z with 2048%Z in Hn. rewrite Hq in Hn. injection Hn as <-.
    split; [by repeat constructor|done|exact Hp]. }
  clear Hn. induction Hs as [p|p p1 p2 Hs _ IH]; [done|].
  apply IH; [|by eapply only_puts_step]. eapply (main_step_books _ _ _ _ _ _ _ _ _ grpc_step_counts);
    [| |exact grpc_step_kept|exact (grpc_step_keeps rw)|exact (grpc_step_exit rw)|exact grpc_worker_starts|exact Hs|exact Hb];
    by rewrite Hw.
Qed.

Lemma only_puts_idle p : only_puts p -> Forall unheld (procs (p_sys p)) -> sum_of busy (procs (p_sys p)) = 0%Z.
Proof using Type.
  intros [Hg _ _] Hu. apply sum_of_zero. rewrite Forall_forall in *. intros g Hin. specialize (Hg g Hin).
  destruct (Hu g Hin) as [->|[[l Hl]|[->|(reqs & i & ->)]]]; try done. by destruct g.
Qed.

(** The report can come before anything was done. *)
Lemma grpc_reports_nothing n :
  exists p, started_with n p /\ p_main p = Ended (mkReport 0 0 0) /\ procs (p_sys p) = GenStart :: ConsumeStart :: replicate n worker.
Proof using Type.
  destruct (NewEntryQueue_in_use (A := PutRequest) 2048 ltac:(unfold maxInt64; lia)) as (q & Hq & _).
  eexists (mkProcess (mkSystem _ _) no_metrics _). split; [|by split]. eexists. split.
  { unfold NewTestGrpcClient, new_client. change (1024 * 2)%Z with 2048%Z. by rewrite Hq. }
  etrans; [apply spawn_all|]. eapply rtc_l; [apply m_stop|]. eapply rtc_l; [by apply m_print|]. apply rtc_once. apply m_end.
Qed.

(** C22: the grpc load generator can always end, and what it reports.  From every state of the
    process it can reach its end, whatever the calls answered: nothing holds [main] in
    [Stop] for ever.  When it prints, no goroutine is in its loop and the total is a tenth
    of the calls and batches recorded, less the flushes still sending.  With the workers
    [main] starts these are the single puts and the streams of [consumeMQ], all of which
    were empty: they are measured with the puts.  The goroutines join the wait group
    themselves, so the report can be printed before any of them has begun. *)
Theorem grpc_main_reports n p :
  started_with n p ->
  (exists p' r, rtc go p p' /\ p_main p' = Ended r) /\
  (forall p' r, go p p' -> p_main p = Waiting -> p_main p' = Closing r ->
     let l := log (client (p_sys p)) in
     Forall unheld (procs (p_sys p)) /\
     r_total r = Z.quot (sum_of recorded l - sum_of busy (procs (p_sys p))) 10 /\
     (worker = SingleStart -> sum_of busy (procs (p_sys p)) = 0%Z /\ Forall put_or_empty l)) /\
  (exists p0, started_with n p0 /\ p_main p0 = Ended (mkReport 0 0 0) /\
     procs (p_sys p0) = GenStart :: ConsumeStart :: replicate n worker).
Proof using worker_kind.
  intros Hp. pose proof (grpc_started_books _ _ Hp) as Hb. split; [|split; [|apply grpc_reports_nothing]].
  - destruct Hb as [Hok _]. destruct (p_main p) as [k| | |r|r|] eqn:Ha.
    1-3: destruct (main_waits (grpc_step rw) grpc_counts worker grpc_report (fun _ => False) _ _ Hok) as (s & m & Hs & _);
         [by rewrite Ha|]; destruct (grpc_ends s m) as (p' & r & Hs' & Hr);
         [apply (grpc_started_books n); destruct Hp as (s0 & Hn & Hp); exists s0; split; [done|by etrans]|];
         exists p', r; split; [by etrans|done].
    + destruct p as [s m a]. simpl in Ha. subst a. eexists _, r. split; [apply rtc_once, m_end|done].
    + by exists p, r.
    + exfalso. destruct Hp as (s0 & _ & Hs). by eapply grpc_never_panics in Hs.
  - intros p' r Hs Hw Hr. destruct Hb as ([[_ _ Hwg] _] & _ & [Hd _]). destruct Hs; cbn [p_main p_sys p_metrics] in *; subst; try done.
    injection Hr as <-. simpl. assert (Hu : Forall unheld (procs s)) by (apply held_all_unheld; congruence).
    split; [done|]. split; [f_equal; lia|]. intros Hk. pose proof (started_only_puts _ _ Hk Hp) as Ho.
    split; [by apply (only_puts_idle (mkProcess s m Waiting))|apply Ho].
Qed.
End Grpc.

(** ** The thrift program *)
Section ThriftMain.
Context (rw : Z) (rw_writes : (rw < 100)%Z).
#[local] Abbreviation go := (thrift_main rw MultiStart).
#[local] Abbreviation started_with n := (started (thrift_step rw) thrift_counts MultiStart thrift_report chooses NewTestThriftClient n).

Definition multi_goroutine (g : goroutine) : Prop :=
  match g with SingleStart | SingleLoop | RecvStart | RecvLoop => False | _ => True end.
(** Batches end in the histogram or among the errors. *)
Definition ended_batches (m : metrics) : Z := histogram m + counter m.

Lemma batch_counted n batch :
  n = Z.of_nat (length batch) -> full_batch (EBatch batch) = (if decide (0 < n)%Z then 1 else 0)%Z.
Proof using Type. intros ->. destruct batch; [done|]. rewrite decide_True; [done|simpl; lia]. Qed.

Lemma thrift_step_counts c g c' g' new :
  thrift_step rw c g c' g' new -> step_counts thrift_counts ended_batches full_batch 100 multi_goroutine c g c' g' new.
Proof using Type.
  unfold ended_batches.
  destruct 1 as [g loop Hl Hne|g Hs|n kv|kv|kv|c' reqs Ht Hlen|c' reqs Ht Hlen|reqs i req|reqs i|reqs i|kv rest|c' new Hm
    |c' reqs Ht Hlen|c' reqs Ht Hlen|reqs i req|reqs i]; try by no_log.
  all: try by intros err m _ [].
  - intros err m _ _. exists []. rewrite app_nil_r. split; [done|]. destruct g; try discriminate Hl; injection Hl as <-; simpl;
      unfold sum_of; simpl; lia.
  - intros err m _ _. exists []. rewrite app_nil_r. split; [done|]. destruct g; try discriminate Hs; simpl; unfold sum_of; simpl; lia.
  - intros err m Hc _. destruct (take_batch_len _ _ _ _ Hc Ht) as (b & Hb & Hn). exists [EBatch b]. split; [done|].
    rewrite handed_batch. unfold sum_of. cbn [foldr]. rewrite (batch_counted _ _ Hn), decide_False by lia. simpl. lia.
  - intros err m Hc _. destruct (take_batch_len _ _ _ _ Hc Ht) as (b & Hb & Hn). exists [EBatch b]. split; [done|].
    rewrite handed_batch. unfold sum_of. cbn [foldr]. rewrite (batch_counted _ _ Hn), decide_True by lia. simpl. lia.
  - one_log (ESend req).
  - intros err m _ _. destruct Hm as [kv rest q st|kv rest q st]; [exists [EAdded (req_of kv)]|exists [ERefused (req_of kv)]];
      (split; [done|]); simpl; unfold sum_of; simpl; lia.
  - intros err m Hc _. destruct (take_batch_len _ _ _ _ Hc Ht) as (b & Hb & Hn). exists [EBatch b]. split; [done|].
    rewrite handed_batch. unfold sum_of. cbn [foldr]. rewrite (batch_counted _ _ Hn), decide_False by lia. simpl. lia.
  - intros err m Hc _. destruct (take_batch_len _ _ _ _ Hc Ht) as (b & Hb & Hn). exists [EBatch b]. split; [done|].
    rewrite handed_batch. unfold sum_of. cbn [foldr]. rewrite (batch_counted _ _ Hn), decide_True by lia. simpl. lia.
  - one_log (ESend req).
Qed.

Lemma thrift_step_kept c g c' g' new :
  thrift_step rw c g c' g' new -> multi_goroutine g -> multi_goroutine g' /\ Forall multi_goroutine new.
Proof using Type.
  destruct 1 as [g loop Hl| | | | | | | | | | |c' new Hm| | | |]; intros Hg; try done.
  - split; [by destruct g; try discriminate Hl; injection Hl as <-|done].
  - split; [done|]. destruct Hm; [done|by apply Forall_singleton].
Qed.

#[local] Abbreviation thrift_books := (books ended_batches full_batch 100 multi_goroutine).

Lemma thrift_started_books n p : started_with n p -> thrift_books p.
Proof using Type.
  intros Hs. refine (started_books _ _ _ _ _ _ _ _ _ thrift_step_counts _ _ thrift_step_kept (thrift_step_keeps rw) (thrift_step_exit rw)
    _ n p _ _ _ _ Hs); [done|done|by eexists|by unfold maxInt64|done|done|done].
Qed.

(** A [consumeMQ] that is gone holds the wait group for ever. *)
Lemma thrift_left_waits n p p' :
  started_with n p -> p_main p = Waiting -> Left ∈ procs (p_sys p) -> rtc go p p' -> p_main p' = Waiting \/ p_main p' = Panicked.
Proof using Type.
  intros Hp Hw Hin Hs. assert (H0 : p_main p = Waiting \/ p_main p = Panicked) by by left. clear Hw.
  induction Hs as [p|p p1 p2 Hs _ IH]; [done|]. pose proof (thrift_started_books _ _ Hp) as ([[_ _ Hwg] _] & _).
  apply IH.
  - destruct Hp as (s0 & Hn & Hr). exists s0. split; [done|]. by eapply rtc_r.
  - destruct Hs as [l1 g l2 c c' g' new err m a Ha Hs| | | | | |]; simpl in *; try done; [|apply elem_of_app; by left].
    assert (g <> Left) by (intros ->; by inversion Hs).
    apply elem_of_app in Hin as [Hin|[Hin|Hin]%elem_of_cons]; apply elem_of_app; [by left|done|].
    right. right. apply elem_of_app. by left.
  - destruct Hs; simpl in *; try done; try (by right); try by destruct H0. pose proof (left_held _ Hin) as Hh. simpl in Hwg. lia.
Qed.

(** Nothing moves while the generator waits for room. *)
Lemma thrift_generator_blocks n p :
  p_main p = Waiting -> wg (client (p_sys p)) = 1%Z -> stuck rw (p_sys p) ->
  procs (p_sys p) = GenPut false "k" :: replicate n Over -> forall p', rtc go p p' -> p' = p.
Proof using Type.
  intros Hw Hwg Hst Hps p' Hs. inversion Hs as [|p0 p1 p2 Hstep _]; subst; [done|]. exfalso.
  assert (Hg : forall g, g ∈ procs (p_sys p) -> g = GenPut false "k" \/ g = Over).
  { rewrite Hps. intros g [->|[-> _]%elem_of_replicate]%elem_of_cons; [by left|by right]. }
  destruct Hstep as [l1 g l2 c c' g' new err m a Ha Hs'|s m a g Ha Hin Hc|s m k|s m|s m|s m Hz|s m r]; cbn [p_sys p_main] in *;
    try discriminate Hw.
  - pose proof (Hst _ (rtc_once _ _ (sys_run _ l1 g l2 _ _ _ _ Hs'))) as Heq.
    destruct (Hg g) as [->| ->]; [apply elem_of_app; right; left| |by inversion Hs'].
    assert (g' = GenLoop) as -> by (inversion Hs'; by subst). injection Heq as _ Hl. by apply app_inv_head in Hl.
  - by destruct (Hg g Hin) as [->| ->], Hc as [|[|]].
  - lia.
Qed.

End ThriftMain.

(** ** The start of the programs *)
Section Boot.
#[local] Abbreviation seconds n := (n * 1000000000)%Z.

(** Of the grpc program: its configuration; a client that cannot be made is a panic. *)
Section GrpcBoot.
Context {W Conn CC UserDialOption Ctx : Type} (rand_Float64 : W -> Q * W).
Context (client_of : W -> GrpcClient (Conn := Conn) (UserDialOption := UserDialOption) (Ctx := Ctx)) (url_Parse : string -> option URL).
#[local] Abbreviation package := (builder (CC := CC)).
#[local] Abbreviation config := (Config (UserDialOption := UserDialOption) (Ctx := Ctx)).
Context (DialContext : option Z -> string -> list (DialOption (W := W) (UserDialOption := UserDialOption)) -> package ->
           outcome (package * list Resolver.call * result string Conn)).
#[local] Abbreviation new_client := (NewGRPCClient rand_Float64 client_of url_Parse DialContext).

(* src/test/grpc/client/client.go:244-249 main *)
Definition grpc_cfg : config :=
  mkConfig ["localhost:50051"%string] 0 0 (seconds 5) (seconds 1) 0 0 [] None true.

(* src/test/grpc/client/client.go:251-261 main *)
Definition grpc_load_boot (uuid : string) (b : package)
    : outcome (package * list Resolver.call * GrpcClient (Conn := Conn) (UserDialOption := UserDialOption) (Ctx := Ctx) * process) :=
  '(b, calls, r) ← new_client grpc_cfg uuid b;
  match r with
  | Err err => Panic
  | Ok c => s ← NewTestGrpcClient; Ret (b, calls, c, mkProcess s no_metrics (Spawning 1000))
  end.

(** A program that does not panic at once is the process above; the keepalive settings it
    asks for are those of no client. *)
Lemma grpc_load_boot_started uuid b b' calls c p :
  grpc_load_boot uuid b = Ret (b', calls, c, p) ->
  started (grpc_step 0) grpc_counts SingleStart grpc_report (fun _ => False) NewTestGrpcClient 1000 p /\ cfg c = zero_Config /\
  new_client (mkConfig (cfg_Endpoints grpc_cfg) 0 0 0 0 0 0 [] None false) uuid b = Ret (b', calls, Ok c).
Proof.
  unfold grpc_load_boot. intros ([[b1 calls1] [c1|err]] & Hn & Hrest)%outcome_bind_Ret; [|done].
  apply outcome_bind_Ret in Hrest as (s & Hs & [= <- <- <- <-]). split; [by exists s|].
  split; [|exact Hn]. eapply (NewGRPCClient_ignores_config _ _ _ _ grpc_cfg grpc_cfg uuid b); [done|reflexivity..|exact Hn].
Qed.
End GrpcBoot.

(** Of the thrift program. *)
Section ThriftBoot.
Context {Socket Transport W : Type} `{Countable Transport}.
Context (NewTSocketTimeout : string -> Z -> W -> result string Socket * W).
Context (GetTransport : Socket -> W -> result string Transport * W).
Context (Transport_Open Transport_Close : Transport -> W -> option string * W).
Context (IsOpen : Transport -> W -> bool) (nowFunc : W -> Z).

(* src/test/thrift/client/client.go:306-317 main *)
Definition thrift_load_boot (w : W) : outcome (Node (Transport := Transport) * process) * W :=
  let '(r, w) := NewServerNode NewTSocketTimeout GetTransport Transport_Open Transport_Close IsOpen nowFunc
                   ["localhost:50052"%string] (seconds 3) (seconds 300) (seconds 120) (seconds 2) w in
  match r with
  | Err err => (Panic, w)
  | Ok clientNode => (s ← NewTestThriftClient; Ret (clientNode, mkProcess s no_metrics (Spawning 10)), w)
  end.

Lemma thrift_load_boot_started w n p w' :
  thrift_load_boot w = (Ret (n, p), w') ->
  started (thrift_step 0) thrift_counts MultiStart thrift_report chooses NewTestThriftClient 10 p.
Proof.
  unfold thrift_load_boot. destruct (NewServerNode _ _ _ _ _ _ _ _ _ _ _ w) as [[n1|err] w1]; [|done].
  intros Heq. apply (f_equal fst) in Heq. cbn [fst] in Heq. apply outcome_bind_Ret in Heq as (s & Hs & [= _ <-]). by exists s.
Qed.
End ThriftBoot.
End Boot.

(** ** Witnesses *)
Section Demo.
Definition grpc_first : process := mkProcess (mkSystem (demo_client 2048) [GenStart; ConsumeStart]) no_metrics (Spawning 1000).

Example grpc_main_reports_witness :
  exists p' r, rtc (grpc_main 0 SingleStart) grpc_first p' /\ p_main p' = Ended r.
Proof.
  refine (proj1 (grpc_main_reports 0 SingleStart (or_introl eq_refl) 1000 grpc_first _)).
  eexists. split; [exact demo_new|apply rtc_refl].
Defined.

End Demo.
